(* ===== verification/_CoqProject ===== *)
-Q . S2P
Prelude.v
GoBytes.v
NodeID.v
Wire.v
WireGroups.v
Padding.v
Ratchet.v
Ed25519.v
Aes.v
X3DH.v
Session.v
WireProofs.v
RatchetProofs.v
RoutingTable.v
DhtStore.v
DhtSample.v
Onion.v
OnionProofs.v
X3DHProofs.v
SessionProofs.v
Inbox.v
InboxProofs.v
Messaging.v
MessagingProofs.v
RelayQueue.v
Relay.v
RelayProofs.v
RelayRun.v
RelayDiscovery.v
RelayPaths.v
RelayRegistry.v
RelayMesh.v
Groups.v
GroupsProofs.v
ClientConn.v
ClientConnProofs.v
ClientPool.v
ClientRun.v
DhtStoreProofs.v
DhtNode.v
DhtLookup.v
DhtNodeSample.v
DhtNodeProofs.v
DhtLookupProofs.v
GoText.v
MeshErasure.v
MeshCrypto.v
MeshVersion.v
MeshStore.v
MeshNode.v
Base64.v
MeshRpc.v
MeshDistributed.v
MeshRpcProofs.v
MeshProofs.v
MeshRun.v
MeshSample.v
MeshWitness.v
SessionStore.v
SessionStoreProofs.v
SampleCodec.v
SessionStoreWitness.v
RestartProofs.v
MessageDb.v
MessageDbProofs.v
MessageDbWitness.v
MeshMigration.v
MeshMigrationProofs.v
ApiMiddleware.v
MeshApi.v
MeshApiProofs.v
MeshApiWitness.v
MeshMain.v
MeshMainProofs.v
MeshMainWitness.v
RelayMain.v
RelayMainProofs.v
Background.v
DhtExchange.v
KeyExchange.v
