(* ===== verification/Prelude.v ===== *)
(** * zentalk-node: a verification development

    zentalk-node is a peer-to-peer messenger in Go.  Clients exchange messages
    through relays: a message is encrypted for its recipient, wrapped in onion
    layers, one per relay of a path, and peeled by the relays.  Forward
    secrecy is to come from X3DH and a double ratchet, and key bundles and
    relay records are found through a Kademlia DHT whose values are signed.
    Large media go to a separate mesh storage.

    ** How the model reads

    A Go function is a Rocq function with the same name.  Its result is an
    [outcome]: a value, an error with its text, or a panic.  Methods that
    change their receiver return the new state next to the outcome, also when
    they fail, because Go keeps what was changed before the error.  Integers
    are [Z] with the wrap-around of their width written out ([u16], [u32],
    [u64], [s64]; [+u32] and the like), bytes are [Z] in 0..255, byte slices
    carry the spare capacity behind their length because Go's slice
    expressions may reach into it, arrays are byte lists of a fixed length,
    maps are [gmap]s.  A loop over a map takes the order as an argument.
    Random bytes, the clock and what the network answers are arguments.
    Libraries outside the repository are type classes with a second class of
    the laws the code relies on: [RatchetOps] (SHA-256, HKDF, X25519),
    [Ed25519], [AesGcm], [Rsa] (RSA-OAEP), [Blake2b], [X509] (PEM and PKIX),
    [Pkcs1] (private keys), [Libp2p] (keys of hosts), [ReedSolomon], [MeshHash] (SHA-256, PBKDF2),
    [RsaVerify], [Json] (encoding/json at a type) and [Gob] (encoding/gob).
    Each has a concrete instance, most of them in the [*Sample] modules, with
    which the theorems' witnesses evaluate the model.

    ** Files

    - Prelude: outcomes, machine integers, lengths, tactics and hints.
    - GoBytes: slices, the encode/decode idioms of encoding/binary, and the
      relations by which whole formats are proved: [reads], [starves],
      [yields], [fits], [consumes].
    - Wire, WireGroups: the formats of src/pkg/protocol (header.go, types.go,
      message.go, group.go, routing.go, profile.go, presence.go), each an
      instance of the interface [Wire]; Padding: padding.go of src/pkg/protocol
      and of src/pkg/crypto; WireProofs: their theorems.
    - Ratchet, RatchetProofs: src/pkg/protocol/ratchet.go.
    - Ed25519, X3DH, X3DHProofs: src/pkg/protocol/x3dh.go.
    - Aes: the AES-GCM functions of src/pkg/crypto/onion.go and
      src/pkg/network/session_manager.go; Onion, OnionProofs: the rest of
      onion.go, hash.go and the RSA functions of keys.go.
    - Session, SessionProofs: the keys and sessions of a client,
      src/pkg/network/x3dh_manager.go and session_manager.go.
    - Inbox, InboxProofs: recognising, ordering and delivering incoming
      messages, src/pkg/network/message_handler.go.
    - Messaging, MessagingProofs: message_sender.go and the whole of
      handleDirectMessage, on top of Session, Onion and Inbox.
    - Groups, GroupsProofs: group_manager.go, profile_manager.go and
      typing_receipt.go.
    - ClientConn, ClientConnProofs: connecting, the handshake, the receiving
      loop and reconnecting, client.go and reconnect.go, over streams of bytes;
      ClientRun: the goroutines of a client, their interleavings as a step
      relation; ClientPool: pool.go and dht_integration.go with their theorems.
    - SessionStore, SessionStoreProofs: session_storage.go and the saving and
      loading in x3dh_manager.go, session_manager.go and client.go, on a map
      from file names to bytes; RestartProofs: ordering across restarts.
      SampleCodec: a concrete codec with the laws of JSON and gob, for
      witnesses; SessionStoreWitness: concrete runs.
    - MessageDb, MessageDbProofs, MessageDbWitness: the message database of
      src/pkg/storage (database.go, messages.go, conversations.go, contacts.go,
      helpers.go) over its three tables.
    - RelayQueue: src/pkg/storage/relay_queue.go; Relay, RelayProofs: the relay
      server, src/pkg/network/relay.go, relay_handlers.go, relay_delivery.go
      and relay_connection.go; RelayRun: all interleavings of its goroutines
      as a step relation.
    - RelayMain, RelayMainProofs: the start and the end of the relay command,
      src/cmd/relay/main.go, the private-key files of keys.go, and how
      relay.go publishes a relay's metadata and its statistics.
    - RelayDiscovery, RelayPaths: which relays are known, guards and the
      choice of paths, src/pkg/network/relay_metadata.go, relay_discovery.go,
      guard_relays.go and relay_path_builder.go; RelayRegistry and RelayMesh:
      relay_registry.go and relay_mesh.go with their theorems.
    - MeshErasure, MeshCrypto, MeshVersion, MeshStore, MeshNode, MeshRpc,
      MeshDistributed: erasure.go, encryption.go, version.go, storage.go,
      node.go, rpc.go and distributed.go of src/pkg/meshstorage; the mesh is a
      map from nodes to their storages, over which the client calls of rpc.go
      run the handlers of the peer.  GoText: decimal numbers and ASCII text;
      MeshRpcProofs, MeshProofs: what single requests and single chunks do;
      MeshRun: the life of a node's chunks; MeshSample, MeshWitness: instances
      and concrete runs.  MeshMigration, MeshMigrationProofs: migration.go and
      the opening of a database in storage.go, over trees of files.
    - Base64: the standard encoding of encoding/base64.  ApiMiddleware, MeshApi,
      MeshApiProofs, MeshApiWitness: src/pkg/meshstorage/api, the rate limiter
      and the handlers of the HTTP server over MeshDistributed.  MeshMain,
      MeshMainProofs, MeshMainWitness: src/cmd/mesh-api/main.go with the creation
      and the closing of a node (node.go) and the start of the server.
    - NodeID, RoutingTable: src/pkg/dht/node_id.go and routing_table.go with
      their theorems; DhtStore, DhtStoreProofs: storage.go and
      signed_entry.go; DhtNode, DhtNodeProofs: rpc.go and node.go; DhtLookup,
      DhtLookupProofs: protocol.go; DhtExchange: lookups against the request
      handlers of other nodes.  KeyExchange: key bundles that clients publish
      and discover through such nodes.
    - Background: when the loops of the mesh storage's health monitor, of the
      mesh manager, of the relay server's listener and of a DHT node run, from
      their Start to after their Stop.
    - DhtSample, DhtNodeSample: concrete instances of the interfaces.

    ** What the theorems show

    - End to end: the bytes a client writes go through a chain of relay
      servers and reach the recipient's inbox as the message that was built
      ([message_over_the_wire], [message_end_to_end]); a numbered
      stream over a lossy, repeating and reordering network is delivered in
      order and at most once ([stream_delivered_in_order]), by refinement of
      the specification [in_order] on the log of arrivals
      ([ordered_delivery]); each kind of payload reaches its handler
      ([dispatch_kinds]); group messages, indicators and profiles reach theirs
      ([group_message_reaches_members], [indicators_reach_recipient],
      [profile_reaches_contact]); a client joins a relay ([client_joins_relay])
      and its receiving loop ends on any bytes ([receive_loop_ends]); after
      Disconnect every run of its goroutines ends, however they interleave and
      whatever the relays do, and none of them is left blocked when the
      application waits for its loops before it connects again
      ([disconnect_ends]).
    - Storage of a client: at every moment a restart restores keys, sessions
      and bundles ([restart_restores]); the message database refines a map from
      identifiers to messages, whichever statements fail
      ([database_refines_map]), its pages and searches
      are what the code promises ([conversation_listing], [search_spec]), and
      what the inbox delivers is stored in it ([delivered_messages_stored]).
    - Sessions: two clients agree on an X3DH secret ([x3dh_agreement]) and any
      conversation over their sessions is decrypted ([client_conversation]);
      the ratchet itself recovers every in-order conversation with DH
      ratchets ([session_in_order]), and messages over gaps
      ([gap_then_late_message]); skipped keys are bounded ([skip_bounded]).
    - Onions: building and peeling along a path ([onion_routing]), and the
      exact inputs on which opening a layer panics ([onion_layer_panics]).
    - Formats: round trips ([wire_formats_roundtrip]), that a decoder accepts
      exactly the encodings ([decoders_exact]), which decoders never panic and
      which do, what signatures bind, and padding.
    - DHT: the routing table's invariant and its operations on every branch,
      FindClosest against its specification, storage lifetimes, the node's
      invariant under arbitrary incoming bytes, and the iterative lookups:
      they end for every behaviour of the peers and every interleaving of
      their goroutines, with a panic only when a peer has sent a null contact;
      no contact the node knew is nearer than what they find
      ([find_node_ends]), and a value they return is authentic
      ([lookup_authentic]).  What one node
      stores through the handlers of others another finds ([stored_value_found]),
      and so a published key bundle is the one that is discovered
      ([published_bundle_discovered]).
    - Starting and stopping: the health monitor waits for its loop
      ([monitoring_stops]), the loops of a relay server and of a DHT node end
      ([relay_stop_ends], [dht_stop_ends]).
    - Relays: an onion sent into a chain of relays comes out at the recipient
      ([relays_forward_onion]); a message for an absent recipient is queued,
      and under every interleaving it is kept until it is written to a
      connection of the recipient or expires ([queued_messages_not_lost]);
      flushing a queue writes every waiting message once ([queue_flushed]);
      a relay that was stopped and started again has its key and its queue
      ([restarted_relay_continues]), and the record it publishes can be decoded
      and counts as healthy ([published_record_usable]).
    - Choice of relays: a path starts at a healthy guard and goes on over
      distinct usable relays ([secure_path_spec]); relays connect to each
      other up to a target ([mesh_grows_to_target]); the best relays of a
      registry ([best_relays_spec]) and its files ([registry_roundtrip]).
    - Mesh storage: the table of chunks of a node refines a map from users and
      numbers to data, whatever the other nodes do, from which a failed store
      takes its own chunk ([chunk_survives]); chunks
      can be stored, retrieved with five shards missing
      ([store_then_retrieve]), and repaired ([repair_restores]); the health
      thresholds survive floating point ([check_thresholds]); the closest
      nodes are the closest ([find_closest_nodes_spec]).  Migrations resume
      after failures ([migration_resumes]) and their backups restore the data
      ([restore_gives_backup]).
    - HTTP API: the server refines a map from users and chunk numbers to stored
      bytes ([api_refines_map]); an upload that was answered with 200 is
      downloaded again under the same credentials, whatever happens in between
      ([uploaded_is_downloaded]); the rate limiter's bounds hold in every
      minute ([rate_limiter_window]).
    - Defects the model exposes, each as a theorem on the model:
      replies under keys that depend on no secret
      ([replies_under_public_keys]), sessions corrupted by trial decryption
      ([trial_decryption_corrupts]), a stream stalled by one long message
      ([oversized_message_stalls]), profiles taken for group messages
      ([profile_without_avatar]), chains out of step after a gap
      ([gap_desynchronises]), clients dropped by their relay after the first
      acknowledgement ([ack_disconnects_client]), shards whose loss is not
      noticed ([health_blind]), paths through one relay twice
      ([guard_repeated]), circuits of one hop ([circuit_collapses]), group
      requests that are never sent ([group_requests_lost]), streams broken by a
      restart ([restart_breaks_ordering]), sessions lost by a torn write
      ([torn_write_loses_sessions]), uploads that cannot be downloaded
      ([client_json_never_returned]), relays whose torn key file prevents every
      later start ([torn_key_blocks]), a relay command whose relay knows no
      other ([relay_command_isolated]), mesh nodes that a restart puts under a new
      identifier ([restarted_node_forgets], [restarts_orphan_shards]), a first
      node that is unhealthy for ever ([first_node_unhealthy]), a Disconnect that
      a reconnection undoes ([disconnect_undone]), clients with two receiving
      loops ([second_connect_two_loops]) or with one that Disconnect does not
      reach ([disconnect_misses_first]), a mesh manager that says it runs and does
      nothing ([restarted_manager_idle]), and others beside the component
      concerned.

    ** Fuel

    The delivery loop of the inbox gets one more unit of fuel than the buffer
    has messages; [ordered_delivery] proves that it never runs out.  The
    lookup loops of the DHT take fuel as an argument; their theorems give an
    amount from which on the result is the same for all.  Runs of goroutines are
    step relations without fuel, whose termination is strong normalisation.  All
    other recursion is structural.

    ** Not modelled

    The time between the ticks of a timer, logging and the sockets under the byte
    streams; libp2p, gin, net/http and SQLite below their statements, whose
    results are arguments; accessors that return a field; the parsing of flags and
    what the commands print; functions that only call a library (RSA key
    generation, random nonces and identifiers); the package documentation in
    protocol/doc.go.  The handlers of the HTTP API run one after the other, and so
    do the operations of the message database; interleavings are modelled where
    goroutines share state in the DHT lookups, the relay server, the connection of
    a client and the background loops.  A data race itself is not modelled: an
    access to a shared field is one step. *)

From stdpp Require Export base numbers list strings pretty gmap sorting.
From Stdlib Require Export ZArith Lia.

#[export] Set Default Goal Selector "!".

(** ** Results of Go functions

    A Go function ends normally with a value, returns a non-nil [error], or
    panics (slice bounds, index out of range, nil dereference).  An error
    carries the text that [fmt.Errorf] / [errors.New] builds. *)

Inductive outcome (A : Type) : Type :=
| Ok (a : A)
| Err (e : string)
| Panic.
Arguments Ok {A} a.
Arguments Err {A} e.
Arguments Panic {A}.

#[export] Instance outcome_ret : MRet outcome := λ A a, Ok a.
#[export] Instance outcome_bind : MBind outcome := λ A B f o,
  match o with Ok a => f a | Err e => Err e | Panic => Panic end.

(** [fmt.Errorf("prefix: %w", err)] *)
Definition wrap_err {A} (prefix : string) (o : outcome A) : outcome A :=
  match o with Err e => Err (prefix +:+ e) | _ => o end.

Definition is_ok {A} (o : outcome A) : bool :=
  match o with Ok _ => true | _ => false end.
Definition is_panic {A} (o : outcome A) : bool :=
  match o with Panic => true | _ => false end.

#[export] Instance outcome_eq_dec `{EqDecision A} : EqDecision (outcome A).
Proof. solve_decision. Defined.

Lemma Ok_inj {A} (a b : A) : Ok a = Ok b → a = b.
Proof. by intros [= ->]. Qed.

Lemma outcome_bind_ok {A B} (o : outcome A) (f : A → outcome B) b :
  (o ≫= f) = Ok b ↔ ∃ a, o = Ok a ∧ f a = Ok b.
Proof. destruct o; cbn; naive_solver. Qed.

Lemma outcome_bind_assoc {A B C} (o : outcome A) (f : A → outcome B) (g : B → outcome C) :
  ((o ≫= f) ≫= g) = (o ≫= λ a, f a ≫= g).
Proof. by destruct o. Qed.

Lemma outcome_bind_no_panic {A B} (o : outcome A) (f : A → outcome B) :
  o ≠ Panic → (∀ a, o = Ok a → f a ≠ Panic) → (o ≫= f) ≠ Panic.
Proof. destruct o; cbn; naive_solver. Qed.

(** ** Machine integers

    A [w]-bit Go integer is a [Z]; wrap-around is written out where an
    operation can leave the range. *)

Open Scope Z_scope.

Declare Scope go_scope.
Delimit Scope go_scope with go.

Definition wrap (w z : Z) : Z := z mod 2 ^ w.
Definition u8 := wrap 8.
Definition u16 := wrap 16.
Definition u32 := wrap 32.
Definition u64 := wrap 64.
(** two's complement reading of the low 64 bits *)
Definition s64 (z : Z) : Z := (z + 2 ^ 63) mod 2 ^ 64 - 2 ^ 63.

Notation "a +u16 b" := (u16 (a + b)) (at level 50, left associativity) : go_scope.
Notation "a +u32 b" := (u32 (a + b)) (at level 50, left associativity) : go_scope.
Notation "a -u32 b" := (u32 (a - b)) (at level 50, left associativity) : go_scope.
Notation "a +u64 b" := (u64 (a + b)) (at level 50, left associativity) : go_scope.
Notation "a +s64 b" := (s64 (a + b)) (at level 50, left associativity) : go_scope.
Open Scope go_scope.

Definition in_range (w z : Z) : Prop := 0 ≤ z < 2 ^ w.
#[export] Instance in_range_dec w z : Decision (in_range w z).
Proof. unfold in_range. apply _. Defined.

Lemma wrap_id w z : in_range w z → wrap w z = z.
Proof. apply Z.mod_small. Qed.

Lemma wrap_in_range w z : 0 ≤ w → in_range w (wrap w z).
Proof. intros. apply Z.mod_pos_bound. lia. Qed.

Lemma u32_id z : in_range 32 z → u32 z = z.
Proof. apply wrap_id. Qed.
Lemma u64_id z : in_range 64 z → u64 z = z.
Proof. apply wrap_id. Qed.
Lemma u32_range z : in_range 32 (u32 z).
Proof. by apply wrap_in_range. Qed.
Lemma s64_id z : - 2 ^ 63 ≤ z < 2 ^ 63 → s64 z = z.
Proof. intros. unfold s64. rewrite Z.mod_small; lia. Qed.

(** ** Lists *)

(** [len] is Go's [len]: an [int]. *)
Definition len {A} (l : list A) : Z := Z.of_nat (length l).

Lemma len_nonneg {A} (l : list A) : 0 ≤ len l.
Proof. unfold len. lia. Qed.
Lemma len_app {A} (l k : list A) : len (l ++ k) = len l + len k.
Proof. unfold len. rewrite length_app. lia. Qed.
Lemma len_cons {A} (x : A) l : len (x :: l) = 1 + len l.
Proof. unfold len. simpl. lia. Qed.
Lemma len_nil {A} : len (@nil A) = 0.
Proof. done. Qed.
Lemma len_replicate {A} n (x : A) : len (replicate n x) = Z.of_nat n.
Proof. unfold len. by rewrite length_replicate. Qed.

(** sums over a list that is changed in one place *)
Lemma sum_insert {A} (f : A → nat) (l : list A) i x y :
  l !! i = Some x → (sum_list (f <$> <[i := y]> l) + f x = sum_list (f <$> l) + f y)%nat.
Proof.
  revert i. induction l as [|a l IH]; intros [|i] Hi; try done; cbn in *; [simplify_eq; lia|]. rewrite <- !Nat.add_assoc. by rewrite IH.
Qed.
Lemma sum_insert_lt {A} (f : A → nat) (l : list A) i x y :
  l !! i = Some x → (f y < f x)%nat → (sum_list (f <$> <[i := y]> l) < sum_list (f <$> l))%nat.
Proof. intros Hi Hlt. pose proof (sum_insert f l i x y Hi). lia. Qed.

(** steps that keep an invariant and decrease a measure end *)
Lemma measure_sn {A} (R : A → A → Prop) (I : A → Prop) (f : A → nat) (x : A) :
  (∀ x y, I x → R x y → I y ∧ (f y < f x)%nat) → I x → sn R x.
Proof.
  intros Hstep. remember (f x) as n eqn:Hn. revert x Hn. induction n as [n IH] using lt_wf_ind. intros x -> Hx.
  constructor. intros y Hy. destruct (Hstep x y Hx Hy) as [HI Hlt]. by apply (IH (f y)).
Qed.
(** an invariant of the steps holds at the end of a run *)
Lemma rtc_keeps {A} (R : A → A → Prop) (I : A → Prop) (x y : A) :
  (∀ x y, R x y → I x → I y) → rtc R x y → I x → I y.
Proof. intros Hstep. induction 1; eauto. Qed.

Lemma StronglySorted_impl_in {A} (R S : A → A → Prop) l :
  (∀ a b, a ∈ l → b ∈ l → R a b → S a b) → StronglySorted R l → StronglySorted S l.
Proof.
  intros H Hs. induction Hs as [|x l Hs IH Hf]; constructor.
  - apply IH. intros a b ? ?. apply H; by right.
  - rewrite Forall_forall in *. intros y Hy. apply H; [by left|by right|auto].
Qed.

Lemma filter_ext_in {A} (P Q : A → Prop) `{∀ x, Decision (P x)} `{∀ x, Decision (Q x)} (l : list A) :
  (∀ x, x ∈ l → P x ↔ Q x) → filter P l = filter Q l.
Proof.
  induction l as [|x l IH]; intros E; [done|]. rewrite !filter_cons, IH by (intros; apply E; by right).
  specialize (E x (list_elem_of_here _ _)). repeat case_decide; tauto.
Qed.
Lemma filter_all {A} (P : A → Prop) `{∀ x, Decision (P x)} (l : list A) :
  (∀ x, x ∈ l → P x) → filter P l = l.
Proof.
  induction l as [|x l IH]; intros E; [done|]. rewrite filter_cons_True, IH; [done|..].
  - intros. apply E. by right.
  - apply E. by left.
Qed.

Lemma NoDup_fmap_inj {A B} (f : A → B) (l : list A) x y :
  NoDup (f <$> l) → x ∈ l → y ∈ l → f x = f y → x = y.
Proof.
  intros Hn [i Hi]%list_elem_of_lookup [j Hj]%list_elem_of_lookup E.
  assert (i = j) as ->; [|congruence].
  eapply (NoDup_lookup _ _ _ (f x)); [exact Hn|..]; rewrite list_lookup_fmap; [by rewrite Hi|by rewrite Hj, E].
Qed.

Definition is_byte (b : Z) : Prop := 0 ≤ b < 256.
#[export] Instance is_byte_dec b : Decision (is_byte b).
Proof. unfold is_byte. apply _. Defined.

(** Every element of the list is a byte, decidably. *)
Definition bytes (l : list Z) : Prop := Forall is_byte l.
#[export] Instance bytes_dec l : Decision (bytes l).
Proof. unfold bytes. apply _. Defined.

(** A Go array [[n]byte]. *)
Definition array (n : nat) (l : list Z) : Prop := length l = n ∧ bytes l.
#[export] Instance array_dec n l : Decision (array n l).
Proof. unfold array. apply _. Defined.

Lemma bytes_app l k : bytes (l ++ k) ↔ bytes l ∧ bytes k.
Proof. apply Forall_app. Qed.
Lemma bytes_take n l : bytes l → bytes (take n l).
Proof. apply Forall_take. Qed.
Lemma bytes_drop n l : bytes l → bytes (drop n l).
Proof. apply Forall_drop. Qed.
Lemma bytes_replicate0 n : bytes (replicate n 0).
Proof. apply Forall_replicate. unfold is_byte. lia. Qed.
Lemma array_len n l : array n l → len l = Z.of_nat n.
Proof. by intros [<- _]. Qed.
Lemma array_bytes n l : array n l → bytes l.
Proof. by intros [_ ?]. Qed.

Create HintDb go discriminated.
#[export] Hint Resolve bytes_take bytes_drop bytes_replicate0 array_bytes : go.
#[export] Hint Resolve u32_range len_nonneg : go.

Create Rewrite HintDb golen.
#[export] Hint Rewrite @len_app @len_cons @len_nil @len_replicate : golen.

(** Normalise lengths and finish with linear arithmetic. *)
Ltac golia := unfold in_range, is_byte, len in *;
  rewrite ?length_app, ?length_replicate, ?length_take, ?length_drop in *;
  simpl in *; lia.

(** Split a hypothesis saying that a monadic computation succeeded. *)
Ltac outcome_inv :=
  repeat match goal with
  | H : (_ ≫= _) = Ok _ |- _ => apply outcome_bind_ok in H as (? & ? & ?)
  | H : Ok _ = Ok _ |- _ => injection H as H
  | H : Err _ = Ok _ |- _ => discriminate H
  | H : Panic = Ok _ |- _ => discriminate H
  | H : mret _ = Ok _ |- _ => injection H as H
  end; simplify_eq.

(** Settle a decidable goal on concrete data by evaluation. *)
Ltac by_decision :=
  match goal with |- ?P => apply (bool_decide_eq_true_1 P); vm_compute; reflexivity end.

(** A boolean property of bytes holds when it holds for all 256. *)
Lemma byte_cases (P : Z → bool) :
  forallb (λ n, P (Z.of_nat n)) (seq 0 256) = true → ∀ b, is_byte b → P b = true.
Proof.
  rewrite forallb_forall. intros H b Hb. unfold is_byte in Hb.
  rewrite <- (Z2Nat.id b) by lia. apply H, in_seq. lia.
Qed.
