(* ===== verification/GoBytes.v ===== *)
(** * Go byte slices and the encoding/binary big-endian accessors

    The wire formats of pkg/protocol are written against three idioms: a
    zeroed buffer filled through [copy(buf[offset:], x)] and
    [binary.BigEndian.PutUintN(buf[offset:], v)] with a running [offset]; a
    received slice read through [buf[offset:offset+n]], [buf[offset]] and
    [binary.BigEndian.UintN(buf[offset:])]; and explicit length guards.  This
    file models the idioms once, panics included, with the lemmas that let a
    whole encoder or decoder be run symbolically. *)

From S2P Require Import Prelude.

(** Go strings are byte strings; the error texts of the model are [string]s. *)
Definition string_bytes (s : string) : list Z :=
  (λ a, Z.of_nat (Ascii.nat_of_ascii a)) <$> String.list_ascii_of_string s.
Definition bytes_string (l : list Z) : string :=
  String.string_of_list_ascii ((λ b, Ascii.ascii_of_nat (Z.to_nat b)) <$> l).

(** ** Big-endian integers *)

Fixpoint be_put (n : nat) (v : Z) : list Z :=
  match n with
  | O => []
  | S n' => u8 (Z.shiftr v (8 * Z.of_nat n')) :: be_put n' v
  end.

Fixpoint be_get (l : list Z) : Z :=
  match l with
  | [] => 0
  | b :: l' => Z.lor (Z.shiftl b (8 * len l')) (be_get l')
  end.

Lemma length_be_put n v : length (be_put n v) = n.
Proof. induction n; simpl; congruence. Qed.

Lemma len_be_put n v : len (be_put n v) = Z.of_nat n.
Proof. unfold len. by rewrite length_be_put. Qed.

Lemma bytes_be_put n v : bytes (be_put n v).
Proof.
  induction n as [|n IH]; simpl; constructor; [|done].
  apply (wrap_in_range 8). lia.
Qed.

(** [|] of a shifted value with a value below the shift is addition. *)
Lemma lor_shiftl_low b k x :
  0 ≤ k → 0 ≤ x < 2 ^ k → Z.lor (Z.shiftl b k) x = b * 2 ^ k + x.
Proof.
  intros Hk Hx. rewrite Z.shiftl_mul_pow2 by done. symmetry.
  apply Z.add_nocarry_lor. apply Z.bits_inj'. intros i Hi.
  rewrite Z.land_spec, Z.bits_0, Z.mul_pow2_bits by done.
  destruct (decide (i < k)); [by rewrite Z.testbit_neg_r by lia|].
  replace x with (x mod 2 ^ k) by (apply Z.mod_small; done).
  by rewrite Z.mod_pow2_bits_high, andb_false_r by lia.
Qed.

Lemma be_get_bound l : bytes l → 0 ≤ be_get l < 2 ^ (8 * len l).
Proof.
  induction 1 as [|b l Hb Hl IH]; [done|]. simpl be_get. rewrite len_cons.
  pose proof (len_nonneg l). rewrite lor_shiftl_low by lia.
  unfold is_byte in Hb. replace (8 * (1 + len l)) with (8 * len l + 8) by lia.
  rewrite Z.pow_add_r by lia. change (2 ^ 8) with 256. nia.
Qed.

Lemma be_get_cons b l : bytes l → be_get (b :: l) = b * 2 ^ (8 * len l) + be_get l.
Proof.
  intros Hl. simpl. pose proof (len_nonneg l).
  apply lor_shiftl_low; [lia|by apply be_get_bound].
Qed.

Lemma be_get_put_mod n v : be_get (be_put n v) = v mod 2 ^ (8 * Z.of_nat n).
Proof.
  induction n as [|n IH]; [by rewrite Z.mod_1_r|].
  simpl be_put. rewrite be_get_cons by apply bytes_be_put.
  rewrite IH, len_be_put. unfold u8, wrap.
  rewrite Z.shiftr_div_pow2 by lia.
  replace (8 * Z.of_nat (S n)) with (8 * Z.of_nat n + 8) by lia.
  rewrite Z.pow_add_r by lia. rewrite Z.rem_mul_r by lia. lia.
Qed.

Lemma be_get_put n v : in_range (8 * Z.of_nat n) v → be_get (be_put n v) = v.
Proof. intros. rewrite be_get_put_mod. by apply Z.mod_small. Qed.

Lemma be_put_mod n v k :
  (n ≤ k)%nat → be_put n (v mod 2 ^ (8 * Z.of_nat k)) = be_put n v.
Proof.
  induction n as [|n IH]; intros Hk; [done|]. simpl. f_equal; [|apply IH; lia].
  unfold u8, wrap. apply Z.bits_inj'. intros i Hi.
  destruct (decide (i < 8)).
  - rewrite !Z.mod_pow2_bits_low, !Z.shiftr_spec, Z.mod_pow2_bits_low by lia. done.
  - by rewrite !Z.mod_pow2_bits_high by lia.
Qed.

Lemma be_put_get l : bytes l → be_put (length l) (be_get l) = l.
Proof.
  induction 1 as [|b l Hb Hl IH]; [done|].
  rewrite be_get_cons by done. simpl. fold (len l).
  pose proof (be_get_bound l Hl) as Hg. pose proof (len_nonneg l).
  assert (0 < 2 ^ (8 * len l)) by lia.
  f_equal.
  - rewrite Z.shiftr_div_pow2 by lia.
    rewrite Z.div_add_l, Z.div_small by lia. rewrite Z.add_0_r.
    unfold u8, wrap. apply Z.mod_small. apply Hb.
  - transitivity (be_put (length l) (be_get l)); [|done].
    rewrite <- (be_put_mod (length l) (b * _ + _) (length l)) by lia.
    f_equal. fold (len l). rewrite Z.add_comm, Z.mod_add by lia.
    by apply Z.mod_small.
Qed.

Arguments be_put : simpl never.
Arguments be_get : simpl never.

(** ** Slices

    A slice is a window on a backing array: [sdata] are the [len] visible
    bytes, [sspare] the bytes between [len] and [cap].  Slicing
    [s[lo:hi]] is checked against [cap], indexing and [s[lo:]] against
    [len]. *)

Record slice := Slice { sdata : list Z; sspare : list Z }.

Definition slen (s : slice) : Z := len (sdata s).
Definition scap (s : slice) : Z := len (sdata s) + len (sspare s).
(** a freshly made slice, capacity equal to length *)
Definition mk_slice (l : list Z) : slice := Slice l [].

(** [s[lo:hi]] *)
Definition reslice (s : slice) (lo hi : Z) : outcome slice :=
  if bool_decide (0 ≤ lo ≤ hi ∧ hi ≤ scap s) then
    let all := sdata s ++ sspare s in
    Ok (Slice (take (Z.to_nat (hi - lo)) (drop (Z.to_nat lo) all))
              (drop (Z.to_nat hi) all))
  else Panic.

(** ** Reading with a running offset

    [rd A] reads the slice at the current offset.  Decoders advance [offset]
    right after each access, so an access and its [offset += n] are one
    operation here. *)

Definition rd (A : Type) : Type := slice → Z → outcome (A * Z).

#[export] Instance rd_ret : MRet rd := λ A a s off, Ok (a, off).
#[export] Instance rd_bind : MBind rd := λ A B f m s off,
  match m s off with
  | Ok (a, off') => f a s off'
  | Err e => Err e
  | Panic => Panic
  end.

(** [copy(dst[:], buf[offset:offset+n]); offset += n], the [n] bytes read *)
Definition rd_copy (n : Z) : rd (list Z) := λ s off,
  if bool_decide (off + n ≤ scap s) then
    Ok (take (Z.to_nat n) (drop (Z.to_nat off) (sdata s ++ sspare s)), off + n)
  else Panic.

(** [binary.BigEndian.UintN(buf[offset:]); offset += n] *)
Definition rd_uint (n : nat) : rd Z := λ s off,
  if bool_decide (off + Z.of_nat n ≤ slen s) then
    Ok (be_get (take n (drop (Z.to_nat off) (sdata s))), off + Z.of_nat n)
  else Panic.

(** [buf[offset]; offset++] *)
Definition rd_byte : rd Z := λ s off,
  match sdata s !! Z.to_nat off with
  | Some b => Ok (b, off + 1)
  | None => Panic
  end.

(** [if cond { return errors.New(e) }] *)
Definition rd_guard (ok : bool) (e : string) : rd unit := λ s off,
  if ok then Ok (tt, off) else Err e.

(** [if len(buf) < n { return ... }] and [if len(buf) < offset+n { ... }] *)
Definition rd_need (n : Z) (e : string) : rd unit := λ s off,
  if bool_decide (slen s < n) then Err e else Ok (tt, off).
Definition rd_need_more (n : Z) (e : string) : rd unit := λ s off,
  if bool_decide (slen s < off + n) then Err e else Ok (tt, off).

(** [for i := 0; i < n; i++ { ... }] collecting what each turn reads *)
Fixpoint rd_times {A} (n : nat) (body : rd A) : rd (list A) :=
  match n with
  | O => mret []
  | S n' => x ← body; xs ← rd_times n' body; mret (x :: xs)
  end.

Definition rd_run {A} (m : rd A) (s : slice) : outcome A :=
  match m s 0 with
  | Ok (a, _) => Ok a
  | Err e => Err e
  | Panic => Panic
  end.

(** *** What a reader recognises

    [reads m pre a]: wherever [pre] stands in the visible bytes of a slice,
    [m] consumes exactly [pre] and returns [a].  [starves m pre]: on a slice
    without spare capacity that ends inside [pre], [m] panics. *)

Definition reads {A} (m : rd A) (pre : list Z) (a : A) : Prop :=
  ∀ before after spare,
    m (Slice (before ++ pre ++ after) spare) (len before)
    = Ok (a, len before + len pre).

Definition starves {A} (m : rd A) (pre : list Z) : Prop :=
  ∀ before k, (k < length pre)%nat →
    m (Slice (before ++ take k pre) []) (len before) = Panic.

Lemma reads_ret {A} (a : A) : reads (mret a) [] a.
Proof. intros b c sp. unfold mret, rd_ret. rewrite len_nil, Z.add_0_r. done. Qed.

Lemma reads_bind {A B} (m : rd A) (f : A → rd B) pre1 pre2 pre a b :
  pre = pre1 ++ pre2 → reads m pre1 a → reads (f a) pre2 b → reads (m ≫= f) pre b.
Proof.
  intros -> H1 H2 bef aft sp. unfold mbind, rd_bind.
  rewrite <- (app_assoc pre1). rewrite H1.
  rewrite (app_assoc bef), <- len_app, H2, !len_app.
  do 2 f_equal. lia.
Qed.

Lemma starves_bind {A B} (m : rd A) (f : A → rd B) pre1 pre2 pre a :
  pre = pre1 ++ pre2 → reads m pre1 a → starves m pre1 → starves (f a) pre2 →
  starves (m ≫= f) pre.
Proof.
  intros -> H1 S1 S2 bef k Hk. unfold mbind, rd_bind.
  rewrite length_app in Hk. destruct (decide (k < length pre1)%nat).
  - rewrite take_app_le by lia. by rewrite S1.
  - rewrite take_app_ge by lia. rewrite H1.
    rewrite (app_assoc bef), <- len_app. apply S2. lia.
Qed.

Lemma starves_ret {A} (a : A) : starves (mret a) [].
Proof. intros ? k Hk. simpl in Hk. lia. Qed.

Lemma drop_len_app {A} (l k : list A) : drop (Z.to_nat (len l)) (l ++ k) = k.
Proof. unfold len. rewrite Nat2Z.id. by rewrite drop_app_length. Qed.

Lemma reads_copy n l : len l = n → reads (rd_copy n) l l.
Proof.
  intros <- bef aft sp. unfold rd_copy, scap. simpl.
  rewrite bool_decide_true by (rewrite !len_app; pose proof (len_nonneg aft);
    pose proof (len_nonneg sp); lia).
  rewrite <- !app_assoc, drop_len_app. unfold len at 1.
  by rewrite Nat2Z.id, take_app_length.
Qed.

Lemma starves_copy n l : len l = n → starves (rd_copy n) l.
Proof.
  intros <- bef k Hk. unfold rd_copy, scap. simpl.
  rewrite bool_decide_false; [done|]. rewrite len_app. golia.
Qed.

Lemma reads_uint n v :
  in_range (8 * Z.of_nat n) v → reads (rd_uint n) (be_put n v) v.
Proof.
  intros Hv bef aft sp. unfold rd_uint, slen. simpl.
  rewrite bool_decide_true
    by (rewrite !len_app, len_be_put; pose proof (len_nonneg aft); lia).
  rewrite drop_len_app, take_app_le by (rewrite length_be_put; lia).
  rewrite take_ge by (rewrite length_be_put; lia).
  by rewrite be_get_put, len_be_put.
Qed.

Lemma starves_uint n v : starves (rd_uint n) (be_put n v).
Proof.
  intros bef k Hk. unfold rd_uint, slen. simpl.
  rewrite length_be_put in Hk.
  rewrite bool_decide_false; [done|]. rewrite len_app. golia.
Qed.

Lemma reads_byte b : reads rd_byte [b] b.
Proof.
  intros bef aft sp. unfold rd_byte. simpl. unfold len. rewrite Nat2Z.id.
  rewrite list_lookup_middle by done. done.
Qed.

Lemma starves_byte b : starves rd_byte [b].
Proof.
  intros bef k Hk. simpl in Hk. assert (k = 0%nat) as -> by lia.
  unfold rd_byte. simpl. rewrite app_nil_r. unfold len. rewrite Nat2Z.id.
  by rewrite lookup_ge_None_2.
Qed.

Lemma reads_guard e : reads (rd_guard true e) [] tt.
Proof. intros b c sp. unfold rd_guard. rewrite len_nil, Z.add_0_r. done. Qed.

Lemma reads_times {A} (body : rd A) (enc : A → list Z) (l : list A) :
  (∀ x, x ∈ l → reads body (enc x) x) →
  reads (rd_times (length l) body) (concat (enc <$> l)) l.
Proof.
  induction l as [|x l IH]; intros Hb; simpl; [apply reads_ret|].
  eapply reads_bind; [done|apply Hb; set_solver|].
  eapply reads_bind; [symmetry; apply app_nil_r|apply IH; set_solver|apply reads_ret].
Qed.

Lemma starves_times {A} (body : rd A) (enc : A → list Z) (l : list A) :
  (∀ x, x ∈ l → reads body (enc x) x ∧ starves body (enc x)) →
  starves (rd_times (length l) body) (concat (enc <$> l)).
Proof.
  induction l as [|x l IH]; intros Hb; simpl; [apply starves_ret|].
  eapply starves_bind; [done|apply Hb; set_solver|apply Hb; set_solver|].
  eapply starves_bind;
    [symmetry; apply app_nil_r|apply reads_times; set_solver|apply IH; set_solver|
     apply starves_ret].
Qed.

Lemma rd_run_reads {A} (m : rd A) pre a rest spare :
  reads m pre a → rd_run m (Slice (pre ++ rest) spare) = Ok a.
Proof. intros H. unfold rd_run. pose proof (H [] rest spare) as E.
  change (len []) with 0 in E. simpl app in E. by rewrite E. Qed.

Lemma rd_run_starves {A} (m : rd A) pre k :
  starves m pre → (k < length pre)%nat → rd_run m (mk_slice (take k pre)) = Panic.
Proof. intros H Hk. unfold rd_run, mk_slice. pose proof (H [] k Hk) as E.
  change (len []) with 0 in E. simpl app in E. by rewrite E. Qed.

(** ** Writing into a zeroed buffer with a running offset *)

Record wstate := WState { wbuf : list Z; woff : Z }.
Definition wr : Type := wstate → outcome wstate.

Definition wr_seq (c1 c2 : wr) : wr := λ w, c1 w ≫= c2.
Notation "c1 ;;; c2" := (wr_seq c1 c2) (at level 62, right associativity) : go_scope.

(** [buf[off+i] = bs[i]] for the indices that fit *)
Definition overwrite (buf bs : list Z) (off : nat) : list Z :=
  take off buf ++ bs ++ drop (off + length bs) buf.

(** [copy(buf[offset:], bs)]: copies [min(len(buf)-offset, len(bs))] bytes *)
Definition wr_copy (bs : list Z) : wr := λ w,
  if bool_decide (woff w ≤ len (wbuf w)) then
    let room := (length (wbuf w) - Z.to_nat (woff w))%nat in
    Ok (WState (overwrite (wbuf w) (take room bs) (Z.to_nat (woff w))) (woff w))
  else Panic.

(** [binary.BigEndian.PutUintN(buf[offset:], v)] *)
Definition wr_uint (n : nat) (v : Z) : wr := λ w,
  if bool_decide (woff w + Z.of_nat n ≤ len (wbuf w)) then
    Ok (WState (overwrite (wbuf w) (be_put n v) (Z.to_nat (woff w))) (woff w))
  else Panic.

(** [buf[offset] = b] *)
Definition wr_byte (b : Z) : wr := λ w,
  if bool_decide (woff w < len (wbuf w)) then
    Ok (WState (overwrite (wbuf w) [b] (Z.to_nat (woff w))) (woff w))
  else Panic.

(** [offset += n] *)
Definition wr_adv (n : Z) : wr := λ w, Ok (WState (wbuf w) (woff w + n)).

(** the end of the encoder *)
Definition wr_done : wr := λ w, Ok w.

(** [for _, x := range l { body }] *)
Fixpoint wr_each {A} (l : list A) (body : A → wr) : wr :=
  match l with
  | [] => wr_done
  | x :: l' => body x ;;; wr_each l' body
  end.

(** [buf := make([]byte, size); offset := 0; body; return buf] *)
Definition wr_run (size : Z) (body : wr) : outcome (list Z) :=
  w ← body (WState (replicate (Z.to_nat size) 0) 0); Ok (wbuf w).

(** *** What a writer emits

    [writes c out]: started at offset [len pre] of [pre] followed by at least
    [len out] zero bytes, [c] leaves [out] there and the offset behind it. *)

Definition writes (c : wr) (out : list Z) : Prop :=
  ∀ pre n, (length out ≤ n)%nat →
    c (WState (pre ++ replicate n 0) (len pre))
    = Ok (WState (pre ++ out ++ replicate (n - length out) 0) (len pre + len out)).

(** [emits c out]: the same for the bytes only; the last field of an encoder
    is written without advancing the offset. *)
Definition emits (c : wr) (out : list Z) : Prop :=
  ∀ pre n, (length out ≤ n)%nat → ∃ off,
    c (WState (pre ++ replicate n 0) (len pre))
    = Ok (WState (pre ++ out ++ replicate (n - length out) 0) off).

Lemma overwrite_zeros pre bs n :
  (length bs ≤ n)%nat →
  overwrite (pre ++ replicate n 0) bs (length pre)
  = pre ++ bs ++ replicate (n - length bs) 0.
Proof.
  intros Hn. unfold overwrite. rewrite take_app_length.
  f_equal. f_equal. rewrite drop_app_ge by lia.
  rewrite drop_replicate. f_equal. lia.
Qed.

Lemma wr_copy_step pre bs n :
  (length bs ≤ n)%nat →
  wr_copy bs (WState (pre ++ replicate n 0) (len pre))
  = Ok (WState (pre ++ bs ++ replicate (n - length bs) 0) (len pre)).
Proof.
  intros Hn. unfold wr_copy. simpl.
  rewrite bool_decide_true by (rewrite len_app; pose proof (len_nonneg (replicate n 0)); lia).
  unfold len. rewrite Nat2Z.id, take_ge by golia.
  by rewrite overwrite_zeros.
Qed.

Lemma wr_uint_step pre k v n :
  (k ≤ n)%nat →
  wr_uint k v (WState (pre ++ replicate n 0) (len pre))
  = Ok (WState (pre ++ be_put k v ++ replicate (n - k) 0) (len pre)).
Proof.
  intros Hn. unfold wr_uint. simpl. rewrite bool_decide_true by golia.
  unfold len. rewrite Nat2Z.id, overwrite_zeros by (rewrite length_be_put; lia).
  by rewrite length_be_put.
Qed.

Lemma wr_byte_step pre b n :
  (1 ≤ n)%nat →
  wr_byte b (WState (pre ++ replicate n 0) (len pre))
  = Ok (WState (pre ++ [b] ++ replicate (n - 1) 0) (len pre)).
Proof.
  intros Hn. unfold wr_byte. simpl wbuf. simpl woff. rewrite bool_decide_true by golia.
  unfold len. by rewrite Nat2Z.id, overwrite_zeros by (simpl; lia).
Qed.

Lemma writes_copy bs k : len bs = k → writes (wr_copy bs ;;; wr_adv k) bs.
Proof.
  intros <- pre n Hn. unfold wr_seq. rewrite wr_copy_step by done. done.
Qed.
Lemma writes_uint k v z : Z.of_nat k = z → writes (wr_uint k v ;;; wr_adv z) (be_put k v).
Proof.
  intros <- pre n Hn. rewrite length_be_put in *. unfold wr_seq.
  rewrite wr_uint_step by done. cbn. by rewrite len_be_put.
Qed.
Lemma writes_byte b : writes (wr_byte b ;;; wr_adv 1) [b].
Proof.
  intros pre n Hn. simpl in Hn. unfold wr_seq. rewrite wr_byte_step by done. done.
Qed.
Lemma writes_done : writes wr_done [].
Proof.
  intros pre n Hn. unfold wr_done. simpl. rewrite Nat.sub_0_r. by rewrite Z.add_0_r.
Qed.

Lemma writes_seq c1 c2 o1 o2 :
  writes c1 o1 → writes c2 o2 → writes (c1 ;;; c2) (o1 ++ o2).
Proof.
  intros H1 H2 pre n Hn. rewrite length_app in Hn. unfold wr_seq.
  rewrite H1 by lia. cbn. rewrite app_assoc, <- len_app, H2 by lia.
  rewrite !length_app, !len_app, <- !app_assoc, Nat.sub_add_distr.
  by rewrite Z.add_assoc.
Qed.

Lemma writes_each {A} (l : list A) body (enc : A → list Z) :
  (∀ x, x ∈ l → writes (body x) (enc x)) → writes (wr_each l body) (concat (enc <$> l)).
Proof.
  induction l as [|x l IH]; intros Hb; simpl; [apply writes_done|].
  apply writes_seq; [apply Hb; set_solver|apply IH; set_solver].
Qed.

Lemma writes_emits c out : writes c out → emits c out.
Proof. intros H pre n Hn. eexists. by apply H. Qed.

Lemma emits_then c1 c2 o1 o2 :
  writes c1 o1 → emits c2 o2 → emits (c1 ;;; c2) (o1 ++ o2).
Proof.
  intros H1 H2 pre n Hn. rewrite length_app in Hn. unfold wr_seq.
  rewrite H1 by lia. cbn. rewrite app_assoc, <- len_app.
  destruct (H2 (pre ++ o1) (n - length o1)%nat) as [off E]; [lia|]. exists off.
  by rewrite E, !length_app, <- !app_assoc, Nat.sub_add_distr.
Qed.

Lemma wr_seq_assoc c1 c2 c3 w : ((c1 ;;; c2) ;;; c3) w = (c1 ;;; (c2 ;;; c3)) w.
Proof. unfold wr_seq. by destruct (c1 w). Qed.

Lemma emits_adv c k o c' o' :
  writes (c ;;; wr_adv k) o → emits c' o' → emits (c ;;; wr_adv k ;;; c') (o ++ o').
Proof.
  intros H1 H2 pre n Hn. rewrite <- wr_seq_assoc. by apply (emits_then _ _ o o').
Qed.

Lemma writes_adv c k o c' o' :
  writes (c ;;; wr_adv k) o → writes c' o' → writes (c ;;; wr_adv k ;;; c') (o ++ o').
Proof.
  intros H1 H2 pre n Hn. rewrite <- wr_seq_assoc. by apply (writes_seq _ _ o o').
Qed.

Lemma emits_copy bs : emits (wr_copy bs) bs.
Proof. intros pre n Hn. eexists. by apply wr_copy_step. Qed.
Lemma emits_uint k v : emits (wr_uint k v) (be_put k v).
Proof.
  intros pre n Hn. rewrite length_be_put in *. eexists. by apply wr_uint_step.
Qed.
Lemma emits_byte b : emits (wr_byte b) [b].
Proof. intros pre n Hn. simpl in Hn. eexists. by apply wr_byte_step. Qed.

(** An encoder that emits exactly the size of its buffer returns what it emits. *)
Lemma wr_run_emits size c out :
  emits c out → size = len out → wr_run size c = Ok out.
Proof.
  intros H ->. unfold wr_run, len. rewrite Nat2Z.id.
  destruct (H [] (length out)) as [off E]; [lia|].
  change (len []) with 0 in E. simpl app in E. rewrite E. cbn.
  by rewrite Nat.sub_diag, app_nil_r.
Qed.

(** ** Automation for encoders and decoders *)

(** An encoder run symbolically; the leaves are the sizes of its fields. *)
Ltac emit_steps :=
  repeat first
    [ apply emits_adv; [first [apply writes_copy|apply writes_uint|apply writes_byte]|]
    | apply emits_copy | apply emits_uint | apply emits_byte ].

(** A decoder run symbolically on the concatenation of its fields; the
    leaves are the sizes and ranges of the fields. *)
Ltac read_leaf := first
  [apply reads_copy|apply reads_uint|apply reads_byte|apply reads_guard].
Ltac starve_leaf := first [apply starves_copy|apply starves_uint|apply starves_byte].
Ltac read_steps :=
  repeat first
    [ eapply reads_bind; [reflexivity|read_leaf|]
    | eapply reads_bind; [symmetry; apply app_nil_r|read_leaf|apply reads_ret] ].
Ltac starve_steps :=
  repeat first
    [ eapply starves_bind; [reflexivity|read_leaf|starve_leaf|]
    | eapply starves_bind;
      [symmetry; apply app_nil_r|read_leaf|starve_leaf|apply starves_ret] ].

(** ** Length guards, panic freedom and the shape of decoded values *)

Lemma reads_need_more {A} n e (f : unit → rd A) pre a :
  n ≤ len pre → reads (f tt) pre a → reads (rd_need_more n e ≫= f) pre a.
Proof.
  intros Hn H bef aft sp. unfold mbind, rd_bind, rd_need_more, slen. simpl.
  rewrite bool_decide_false by (rewrite !len_app; pose proof (len_nonneg aft); lia).
  apply H.
Qed.

Lemma rd_run_need {A} n e (f : unit → rd A) s :
  rd_run (rd_need n e ≫= f) s
  = if bool_decide (slen s < n) then Err e else rd_run (f tt) s.
Proof.
  unfold rd_run, mbind, rd_bind, rd_need. by case_bool_decide.
Qed.

Lemma rd_run_need_ok {A} n e (f : unit → rd A) l rest spare :
  n ≤ len l →
  rd_run (rd_need n e ≫= f) (Slice (l ++ rest) spare) = rd_run (f tt) (Slice (l ++ rest) spare).
Proof.
  intros Hn. rewrite rd_run_need, bool_decide_false; [done|].
  unfold slen. cbn [sdata]. rewrite len_app. pose proof (len_nonneg rest). lia.
Qed.

(** The backing array holds bytes. *)
Definition slice_bytes (s : slice) : Prop := bytes (sdata s ++ sspare s).
#[export] Instance slice_bytes_dec s : Decision (slice_bytes s).
Proof. unfold slice_bytes. apply _. Defined.

(** [yields m P]: reading a slice of bytes, [m] only returns values in [P]. *)
Definition yields {A} (m : rd A) (P : A → Prop) : Prop :=
  ∀ s off a off', slice_bytes s → 0 ≤ off → m s off = Ok (a, off') → P a ∧ 0 ≤ off'.

Lemma yields_ret {A} (a : A) (P : A → Prop) : P a → yields (mret a) P.
Proof. intros HP s off a' off' _ Ho [= -> ->]. done. Qed.
Lemma yields_bind {A B} (m : rd A) (f : A → rd B) P Q :
  yields m P → (∀ a, P a → yields (f a) Q) → yields (m ≫= f) Q.
Proof.
  intros Hm Hf s off b off' Hs Ho. unfold mbind, rd_bind.
  destruct (m s off) as [[a o1]| |] eqn:E; [|done..]. intros H.
  destruct (Hm _ _ _ _ Hs Ho E) as [HP Ho1]. by eapply Hf.
Qed.
Lemma yields_copy n : 0 ≤ n → yields (rd_copy n) (array (Z.to_nat n)).
Proof.
  intros Hn s off a off' Hs Ho. unfold rd_copy. case_bool_decide as Hc; [|done].
  intros [= <- <-]. unfold scap, len in Hc. split; [split|lia].
  - rewrite length_take, length_drop, length_app. lia.
  - unfold slice_bytes in Hs. auto with go.
Qed.
Lemma yields_uint n : yields (rd_uint n) (in_range (8 * Z.of_nat n)).
Proof.
  intros s off a off' Hs Ho. unfold rd_uint. case_bool_decide as Hc; [|done].
  intros [= <- <-]. split; [|lia]. apply bytes_app in Hs as [Hs _].
  set (l := take n _). assert (len l ≤ Z.of_nat n).
  { unfold l, len. rewrite length_take. lia. }
  assert (bytes l) as Hl by (unfold l; auto with go).
  pose proof (be_get_bound l Hl). unfold in_range. split; [lia|].
  eapply Z.lt_le_trans; [apply be_get_bound, Hl|]. apply Z.pow_le_mono_r; lia.
Qed.
Lemma yields_byte : yields rd_byte is_byte.
Proof.
  intros s off a off' Hs Ho. unfold rd_byte.
  destruct (sdata s !! Z.to_nat off) as [b|] eqn:E; [|done]. intros [= <- <-].
  split; [|lia]. apply bytes_app in Hs as [Hs _]. by eapply Forall_lookup_1 in Hs.
Qed.
Lemma yields_guard b e : yields (rd_guard b e) (λ _, b = true).
Proof. intros s off [] off' _ Ho. unfold rd_guard. destruct b; [|done]. by intros [= <-]. Qed.
Lemma yields_need n e : yields (rd_need n e) (λ _, True).
Proof.
  intros s off [] off' _ Ho. unfold rd_need. case_bool_decide; [done|]. by intros [= <-].
Qed.
Lemma yields_need_more n e : yields (rd_need_more n e) (λ _, True).
Proof.
  intros s off [] off' _ Ho. unfold rd_need_more. case_bool_decide; [done|]. by intros [= <-].
Qed.
Lemma yields_times {A} n (body : rd A) P :
  yields body P → yields (rd_times n body) (λ l, length l = n ∧ Forall P l).
Proof.
  intros Hb. induction n as [|n IH]; simpl; [by apply yields_ret|].
  eapply yields_bind; [apply Hb|]. intros a Ha.
  eapply yields_bind; [apply IH|]. intros l [Hl HP]. apply yields_ret.
  split; [simpl; lia|by constructor].
Qed.

Lemma yields_run {A} (m : rd A) P s a :
  yields m P → slice_bytes s → rd_run m s = Ok a → P a.
Proof.
  intros Hm Hs. unfold rd_run. destruct (m s 0) as [[b o]| |] eqn:E; [|done..].
  intros [= <-]. by eapply Hm in E as [? _].
Qed.

(** [fits n m]: with [n] visible bytes left, [m] does not panic. *)
Definition fits {A} (n : Z) (m : rd A) : Prop :=
  ∀ s off, slice_bytes s → 0 ≤ off → off + n ≤ slen s → m s off ≠ Panic.

Lemma fits_ret {A} n (a : A) : fits n (mret a).
Proof. done. Qed.
Lemma fits_copy {A} k n (f : list Z → rd A) :
  0 ≤ k ≤ n → (∀ a, fits (n - k) (f a)) → fits n (rd_copy k ≫= f).
Proof.
  intros Hk H s off Hs Ho Hn. unfold mbind, rd_bind, rd_copy.
  rewrite bool_decide_true
    by (unfold scap, slen in *; pose proof (len_nonneg (sspare s)); lia).
  by apply H; [done|lia..].
Qed.
Lemma fits_uint {A} k n (f : Z → rd A) :
  Z.of_nat k ≤ n → (∀ a, in_range (8 * Z.of_nat k) a → fits (n - Z.of_nat k) (f a)) →
  fits n (rd_uint k ≫= f).
Proof.
  intros Hk H s off Hs Ho Hn. unfold mbind, rd_bind, rd_uint.
  pose proof (yields_uint k s off) as Hy. unfold rd_uint in Hy.
  rewrite bool_decide_true in * by lia.
  apply H; [by eapply Hy|done|lia..].
Qed.
Lemma fits_byte {A} n (f : Z → rd A) :
  1 ≤ n → (∀ a, fits (n - 1) (f a)) → fits n (rd_byte ≫= f).
Proof.
  intros Hk H s off Hs Ho Hn. unfold mbind, rd_bind, rd_byte.
  destruct (lookup_lt_is_Some_2 (sdata s) (Z.to_nat off)) as [b ->].
  { unfold slen, len in *. lia. }
  apply H; [done|lia..].
Qed.
Lemma fits_guard {A} n b e (f : unit → rd A) : fits n (f tt) → fits n (rd_guard b e ≫= f).
Proof. intros H s off Hs Ho Hn. unfold mbind, rd_bind, rd_guard. destruct b; [by apply H|done]. Qed.
Lemma fits_need_more {A} n k e (f : unit → rd A) :
  fits k (f tt) → fits n (rd_need_more k e ≫= f).
Proof.
  intros H s off Hs Ho Hn. unfold mbind, rd_bind, rd_need_more.
  case_bool_decide; [done|]. apply H; [done|lia..].
Qed.
Lemma fits_weaken {A} n k (m : rd A) : k ≤ n → fits k m → fits n m.
Proof. intros Hk H s off Hs Ho Hn. apply H; [done|lia..]. Qed.

Lemma fits_run {A} n e (f : unit → rd A) s :
  slice_bytes s → fits n (f tt) → rd_run (rd_need n e ≫= f) s ≠ Panic.
Proof.
  intros Hb H. rewrite rd_run_need. case_bool_decide as Hs; [done|].
  specialize (H s 0 Hb). unfold rd_run. destruct (f tt s 0) as [[]| |] eqn:E; [done..|].
  destruct H; lia || done.
Qed.

(** [consumes m R]: the value read and the bytes it was read from are related
    by [R]; with [R] the encoding, a decoder accepts one byte string only. *)
Definition consumes {A} (m : rd A) (R : A → list Z → Prop) : Prop :=
  ∀ l off a off', bytes l → 0 ≤ off ≤ len l →
    m (mk_slice l) off = Ok (a, off') →
    off ≤ off' ≤ len l ∧ R a (take (Z.to_nat (off' - off)) (drop (Z.to_nat off) l)).

Lemma take_split {A} (l : list A) (a b c : Z) :
  0 ≤ a ≤ b → b ≤ c →
  take (Z.to_nat (b - a)) (drop (Z.to_nat a) l) ++ take (Z.to_nat (c - b)) (drop (Z.to_nat b) l)
  = take (Z.to_nat (c - a)) (drop (Z.to_nat a) l).
Proof.
  intros H1 H2. replace (Z.to_nat b) with (Z.to_nat a + Z.to_nat (b - a))%nat by lia.
  rewrite <- drop_drop. rewrite take_take_drop. f_equal. lia.
Qed.

Lemma consumes_ret {A} (a : A) (R : A → list Z → Prop) : R a [] → consumes (mret a) R.
Proof.
  intros HR l off a' off' _ Ho [= <- <-]. split; [lia|]. by rewrite Z.sub_diag.
Qed.
Lemma consumes_bind {A B} (m : rd A) (f : A → rd B) R1 R :
  consumes m R1 → (∀ a l1, R1 a l1 → consumes (f a) (λ b l2, R b (l1 ++ l2))) →
  consumes (m ≫= f) R.
Proof.
  intros Hm Hf l off b off' Hb Ho. unfold mbind, rd_bind.
  destruct (m (mk_slice l) off) as [[a o1]| |] eqn:E; [|done..]. intros H.
  destruct (Hm _ _ _ _ Hb Ho E) as [Ho1 HR].
  assert (0 ≤ o1 ≤ len l) as Ho' by lia.
  destruct (Hf _ _ HR _ _ _ _ Hb Ho' H) as [Ho2 HR2].
  split; [lia|]. by rewrite take_split in HR2 by lia.
Qed.
Lemma consumes_copy n : 0 ≤ n → consumes (rd_copy n) (λ a l, l = a).
Proof.
  intros Hn l off a off' _ Ho. unfold rd_copy, scap. case_bool_decide as Hc; [|done].
  intros [= <- <-]. cbn in *. rewrite len_nil in Hc. split; [lia|].
  rewrite app_nil_r. f_equal. lia.
Qed.
Lemma consumes_uint n : consumes (rd_uint n) (λ a l, l = be_put n a).
Proof.
  intros l off a off' Hb Ho. unfold rd_uint, slen. case_bool_decide as Hc; [|done].
  intros [= <- <-]. cbn in *. split; [lia|].
  replace (Z.to_nat (off + Z.of_nat n - off)) with n by lia.
  set (k := take n _). assert (length k = n) as Hk.
  { unfold k. rewrite length_take, length_drop. unfold len in *. lia. }
  transitivity (be_put (length k) (be_get k)); [|by rewrite Hk].
  symmetry. apply be_put_get. unfold k. auto with go.
Qed.
Lemma consumes_need n e : consumes (rd_need n e) (λ _ l, l = []).
Proof.
  intros l off a off' _ Ho. unfold rd_need. case_bool_decide; [done|]. intros ?. simplify_eq.
  split; [lia|]. by rewrite Z.sub_diag.
Qed.
Lemma consumes_run {A} (m : rd A) R l a :
  rd_run m (mk_slice l) = Ok a → bytes l → consumes m R → ∃ k, R a (take k l).
Proof.
  unfold rd_run. destruct (m _ 0) as [[b o]| |] eqn:E; [|done..]. intros [= <-] Hb Hc.
  assert (0 ≤ 0 ≤ len l) as H0 by (pose proof (len_nonneg l); lia).
  destruct (Hc _ _ _ _ Hb H0 E) as [_ HR].
  eexists. by rewrite drop_0 in HR.
Qed.

Lemma consumes_byte : consumes rd_byte (λ a l, l = [a]).
Proof.
  intros l off a off' _ Ho. unfold rd_byte. cbn [sdata mk_slice].
  destruct (l !! Z.to_nat off) as [b|] eqn:E; [|done]. intros ?. simplify_eq.
  apply lookup_lt_Some in E as Hlt. split; [unfold len; lia|].
  replace (Z.to_nat (off + 1 - off)) with 1%nat by lia. by rewrite (drop_S _ _ _ E).
Qed.

(** an integer read from bytes is a length *)
Lemma consumes_length n : consumes (rd_uint n) (λ a l, l = be_put n a ∧ 0 ≤ a).
Proof.
  intros l off a off' Hb Ho E. destruct (consumes_uint n l off a off' Hb Ho E) as [? ?].
  split_and!; [lia|lia|done|]. unfold rd_uint in E. case_bool_decide; [|done]. simplify_eq.
  apply be_get_bound. cbn. auto with go.
Qed.

Lemma consumes_bytes n : 0 ≤ n → consumes (rd_copy n) (λ a l, l = a ∧ len a = n).
Proof.
  intros Hn l off a off' Hb Ho E. destruct (consumes_copy n Hn l off a off' Hb Ho E) as [? ?].
  split_and!; [lia|lia|done|]. unfold rd_copy in E. case_bool_decide as Hc; [|done]. simplify_eq.
  unfold scap, len in *. cbn in *. rewrite length_take, length_drop, ?app_nil_r, ?length_app. cbn. lia.
Qed.

Lemma consumes_guard b e : consumes (rd_guard b e) (λ _ l, l = [] ∧ b = true).
Proof.
  intros l off [] off' _ Ho. unfold rd_guard. destruct b; [|done]. intros ?. simplify_eq.
  split_and!; [lia|lia| |done]. by rewrite Z.sub_diag.
Qed.
Lemma consumes_need_more n e : consumes (rd_need_more n e) (λ _ l, l = []).
Proof.
  intros l off a off' _ Ho. unfold rd_need_more. case_bool_decide; [done|]. intros ?. simplify_eq.
  split; [lia|]. by rewrite Z.sub_diag.
Qed.
Lemma consumes_times {A} n (body : rd A) (enc : A → list Z) :
  consumes body (λ a l, l = enc a) →
  consumes (rd_times n body) (λ l bs, bs = concat (enc <$> l) ∧ length l = n).
Proof.
  intros Hb. induction n as [|n IH]; cbn [rd_times]; [by apply consumes_ret|].
  eapply consumes_bind; [apply Hb|]. intros a ? ->.
  eapply consumes_bind; [apply IH|]. intros l ? [-> Hl].
  apply consumes_ret. rewrite app_nil_r. cbn. by rewrite Hl.
Qed.

Ltac consume_steps :=
  repeat (eapply consumes_bind;
    [first [apply consumes_copy; lia|apply consumes_uint|apply consumes_need]
    |intros ? ? ->]).

Ltac prefix_steps :=
  repeat (eapply consumes_bind;
    [first [apply consumes_bytes; lia|apply consumes_byte|apply consumes_length|apply consumes_guard
           |apply consumes_need|apply consumes_need_more]
    |first [intros ? ? [-> ?]|intros ? ? ->]]).

Ltac fit_steps :=
  repeat first
    [ apply fits_guard
    | apply fits_copy; [unfold in_range in *; lia|intros ?]
    | apply fits_uint; [lia|intros ? ?]
    | apply fits_byte; [lia|intros ?]
    | apply fits_need_more
    | apply fits_ret ].

Ltac yield_steps :=
  repeat first
    [ eapply yields_bind; [first
        [apply yields_copy; unfold in_range in *; lia|apply yields_uint|apply yields_byte|apply yields_guard
        |apply yields_need|apply yields_need_more]|intros ? ?] ].

(** ** Length-prefixed fields and the tactics for whole formats *)

(** a [[]byte] (or string) short enough for its [uint32] length prefix *)
Definition blob (l : list Z) : Prop := bytes l ∧ in_range 32 (len l).
#[export] Instance blob_dec l : Decision (blob l).
Proof. unfold blob. apply _. Defined.

Lemma blob_u32 l : blob l → u32 (len l) = len l.
Proof. intros [_ H]. by apply u32_id. Qed.
Lemma blob_range l : blob l → in_range (8 * Z.of_nat 4) (len l).
Proof. by intros [_ H]. Qed.
Lemma array_blob v l : in_range 32 v → array (Z.to_nat v) l → blob l.
Proof. intros Hv [Hl Hb]. split; [done|]. unfold in_range, len in *. lia. Qed.

(** Facts about the lengths of the fields in the context. *)
Ltac wf_lens :=
  repeat match goal with
  | H : array ?n ?l |- _ =>
      lazymatch goal with
      | _ : len l = _ |- _ => fail
      | |- _ => pose proof (array_len n l H)
      end
  end.

(** Leaves of [emit_steps] and [read_steps]: sizes and ranges. *)
Ltac wire_leaf :=
  first [ done | by apply blob_range | wf_lens; lia | by apply array_len ].

(** [len layout] equals the size computed by the encoder. *)
Ltac wire_size :=
  wf_lens; rewrite ?len_app, ?len_be_put, ?len_cons, ?len_nil; lia.

Ltac wire_encode :=
  rewrite ?blob_u32 by done; apply wr_run_emits; [emit_steps; wire_leaf|wire_size].
