(* ===== verification/NodeID.v ===== *)
(** * Kademlia identifiers: pkg/dht/node_id.go

    A [NodeID] is a [[20]byte], here the list of its bytes.  The loops over the
    20 bytes are recursions over the lists. *)

From S2P Require Import Prelude GoBytes.

Definition IDLength : nat := 20.
Definition is_id (id : list Z) : Prop := array 20 id.
#[export] Instance is_id_dec id : Decision (is_id id).
Proof. unfold is_id. apply _. Defined.

Definition ZeroID : list Z := replicate 20 0.

(** ** encoding/hex, on byte strings *)

Definition hex_digit (d : Z) : Z := if d <? 10 then 48 + d else 87 + d.
Definition hex_encode (l : list Z) : list Z :=
  b ← l; [hex_digit (Z.shiftr b 4); hex_digit (Z.land b 15)].

Definition hex_value (c : Z) : option Z :=
  if (48 <=? c) && (c <=? 57) then Some (c - 48)
  else if (97 <=? c) && (c <=? 102) then Some (c - 87)
  else if (65 <=? c) && (c <=? 70) then Some (c - 55)
  else None.
Fixpoint hex_decode (s : list Z) : outcome (list Z) :=
  match s with
  | [] => Ok []
  | [c] => match hex_value c with
           | None => Err "encoding/hex: invalid byte"
           | Some _ => Err "encoding/hex: odd length hex string"
           end
  | c1 :: c2 :: s' =>
      match hex_value c1, hex_value c2 with
      | Some a, Some b => l ← hex_decode s'; Ok (Z.lor (Z.shiftl a 4) b :: l)
      | _, _ => Err "encoding/hex: invalid byte"
      end
  end.

(** ** node_id.go *)

Definition NodeID_String (id : list Z) : list Z := hex_encode id.

(** [copy(id[:], bytes)] into a zeroed array *)
Definition NewNodeIDFromHex (s : list Z) : outcome (list Z) :=
  bs ← hex_decode s;
  Ok (take 20 (bs ++ replicate 20 0)).

Definition Equals (id other : list Z) : bool := bool_decide (id = other).

Fixpoint Less (id other : list Z) : bool :=
  match id, other with
  | a :: id', b :: other' =>
      if a <? b then true else if b <? a then false else Less id' other'
  | _, _ => false
  end.

Definition Xor (id other : list Z) : list Z := zip_with Z.lxor id other.

(** [new(big.Int).SetBytes(xor[:])] *)
Definition Distance (id other : list Z) : Z := be_get (Xor id other).

(** [for j := 7; j >= 0; j-- { if (b & (1 << uint(j))) != 0 { return 7 - j } }],
    with [n] = [j + 1] turns left *)
Fixpoint top_bit (n : nat) (b : Z) : option Z :=
  match n with
  | O => None
  | S j =>
      if negb (Z.land b (Z.shiftl 1 (Z.of_nat j)) =? 0) then Some (7 - Z.of_nat j)
      else top_bit j b
  end.

(** the scan shared by [CommonPrefixLen] and [getBucketIndex]; [dflt] is what
    is returned when all bits match *)
Fixpoint scan_prefix (dflt i : Z) (xor : list Z) : Z :=
  match xor with
  | [] => dflt
  | b :: rest =>
      if negb (b =? 0) then
        match top_bit 8 b with
        | Some k => i * 8 + k
        | None => scan_prefix dflt (i + 1) rest
        end
      else scan_prefix dflt (i + 1) rest
  end.

Definition CommonPrefixLen (id other : list Z) : Z := scan_prefix 160 0 (Xor id other).

(** [PrefixLen] counts [prefixLen] up instead of computing it. *)
Fixpoint count_bits (n : nat) (b prefixLen : Z) : Z :=
  match n with
  | O => prefixLen
  | S j =>
      if negb (Z.land b (Z.shiftl 1 (Z.of_nat j)) =? 0) then prefixLen
      else count_bits j b (prefixLen + 1)
  end.
Fixpoint count_prefix (prefixLen : Z) (xor : list Z) : Z :=
  match xor with
  | [] => prefixLen
  | b :: rest =>
      if b =? 0 then count_prefix (prefixLen + 8) rest else count_bits 8 b prefixLen
  end.
Definition PrefixLen (id other : list Z) : Z := count_prefix 0 (Xor id other).

Fixpoint CloserTo (id target other : list Z) : bool :=
  match id, target, other with
  | a :: id', t :: target', o :: other' =>
      let d1 := Z.lxor a t in
      let d2 := Z.lxor o t in
      if d1 <? d2 then true else if d2 <? d1 then false else CloserTo id' target' other'
  | _, _, _ => false
  end.

(** ** Facts *)

Lemma is_byte_lxor a b : is_byte a → is_byte b → is_byte (Z.lxor a b).
Proof.
  unfold is_byte. intros Ha Hb. change 256 with (2 ^ 8) in *.
  assert (0 ≤ Z.lxor a b) by (apply Z.lxor_nonneg; lia). split; [done|].
  destruct (decide (Z.lxor a b = 0)) as [->|]; [lia|].
  apply Z.log2_lt_pow2; [lia|]. eapply Z.le_lt_trans; [apply Z.log2_lxor; lia|].
  assert (∀ x, 0 ≤ x < 2 ^ 8 → Z.log2 x < 8) as Hl.
  { intros x Hx. destruct (decide (x = 0)) as [->|]; [done|]. apply Z.log2_lt_pow2; lia. }
  apply Z.max_lub_lt; apply Hl; done.
Qed.

Lemma Xor_id a b : is_id a → is_id b → is_id (Xor a b).
Proof.
  intros [La Ba] [Lb Bb]. split; [unfold Xor; rewrite length_zip_with; lia|].
  clear La Lb. unfold Xor. revert b Bb. induction Ba; intros b Bb; [constructor|].
  destruct Bb; cbn; constructor; [by apply is_byte_lxor|by apply IHBa].
Qed.

Lemma be_get_inj l k : bytes l → bytes k → length l = length k → be_get l = be_get k → l = k.
Proof.
  intros Hl Hk Hlen E. rewrite <- (be_put_get l Hl), <- (be_put_get k Hk). by rewrite Hlen, E.
Qed.

(** Lexicographic comparison of equally long byte strings is numeric. *)
Lemma lex_step a b x y n :
  is_byte a → is_byte b → 0 ≤ x < 2 ^ n → 0 ≤ y < 2 ^ n →
  (a * 2 ^ n + x <? b * 2 ^ n + y)
  = if a <? b then true else if b <? a then false else x <? y.
Proof.
  intros Ha Hb Hx Hy. destruct (a <? b) eqn:E1; [apply Z.ltb_lt in E1; apply Z.ltb_lt; nia|].
  destruct (b <? a) eqn:E2; [apply Z.ltb_lt in E2; apply Z.ltb_ge; nia|].
  apply Z.ltb_ge in E1, E2. assert (a = b) as -> by lia.
  destruct (x <? y) eqn:E; rewrite ?Z.ltb_lt, ?Z.ltb_ge in *; lia.
Qed.

Lemma Less_numeric l k :
  bytes l → bytes k → length l = length k → Less l k = (be_get l <? be_get k).
Proof.
  intros Hl. revert k. induction Hl as [|a l Ha Hl IH]; intros [|b k] Hk Hlen; try done.
  apply Forall_cons in Hk as [Hb Hk]. injection Hlen as Hlen.
  rewrite !be_get_cons by done. cbn [Less]. rewrite IH by done.
  assert (len k = len l) as -> by (unfold len; lia).
  rewrite lex_step; [done|done|done|by apply be_get_bound|].
  replace (len l) with (len k) by (unfold len; lia). by apply be_get_bound.
Qed.

Lemma CloserTo_Less id target other :
  length id = length target → length other = length target →
  CloserTo id target other = Less (Xor id target) (Xor other target).
Proof.
  revert target other. induction id as [|a id IH]; intros [|t target] [|o other] H1 H2;
    try done. cbn. injection H1 as H1. injection H2 as H2.
  unfold Xor in IH. rewrite IH by done. done.
Qed.

(** *** The XOR metric *)

Lemma Xor_comm a b : Xor a b = Xor b a.
Proof.
  unfold Xor. revert b. induction a as [|x a IH]; intros [|y b]; cbn; try done.
  by rewrite IH, Z.lxor_comm.
Qed.

Lemma testbit_be_get x l i :
  bytes l → 0 ≤ i →
  Z.testbit (be_get (x :: l)) i
  = if i <? 8 * len l then Z.testbit (be_get l) i else Z.testbit x (i - 8 * len l).
Proof.
  intros Hl Hi. unfold be_get. fold be_get. pose proof (be_get_bound l Hl) as Hg.
  pose proof (len_nonneg l). rewrite Z.lor_spec, Z.shiftl_spec by done.
  destruct (Z.ltb_spec i (8 * len l)); [by rewrite Z.testbit_neg_r by lia|].
  replace (be_get l) with (be_get l mod 2 ^ (8 * len l)) by (by apply Z.mod_small).
  by rewrite Z.mod_pow2_bits_high, orb_false_r by lia.
Qed.

Lemma bytes_Xor a b : bytes a → bytes b → bytes (Xor a b).
Proof.
  intros Ha. unfold Xor. revert b. induction Ha as [|x a Hx Ha IH]; intros b Hb; [constructor|].
  destruct Hb; cbn; constructor; [by apply is_byte_lxor|by apply IH].
Qed.

(** The distance is the exclusive or of the identifiers read as numbers. *)
Lemma be_get_Xor a b :
  bytes a → bytes b → length a = length b → be_get (Xor a b) = Z.lxor (be_get a) (be_get b).
Proof.
  intros Ha. revert b. induction Ha as [|x a Hx Ha IH]; intros [|y b] Hb Hlen; try done.
  apply Forall_cons in Hb as [Hy Hb]. injection Hlen as Hlen.
  change (Xor (x :: a) (y :: b)) with (Z.lxor x y :: Xor a b).
  assert (len (Xor a b) = len a ∧ len b = len a) as [E1 E2].
  { unfold len, Xor. rewrite length_zip_with. lia. }
  apply Z.bits_inj'. intros i Hi.
  rewrite Z.lxor_spec, !testbit_be_get by (done || by apply bytes_Xor).
  rewrite E1, E2, IH by done. destruct (i <? 8 * len a); by rewrite Z.lxor_spec.
Qed.

(** *** Prefix lengths *)

(** 159 minus the position of the top bit of a distance, 160 for distance 0 *)
Definition prefix_of_distance (d : Z) : Z := if d =? 0 then 160 else 159 - Z.log2 d.

Lemma top_bit_log2 b : is_byte b → b ≠ 0 → top_bit 8 b = Some (7 - Z.log2 b).
Proof.
  intros Hb Hb0.
  pose proof (byte_cases (λ b, (b =? 0) || match top_bit 8 b with
    | Some k => k =? 7 - Z.log2 b | None => false end)
    ltac:(vm_compute; reflexivity) b Hb) as H. cbv beta in H.
  apply Z.eqb_neq in Hb0. rewrite Hb0 in H. cbn [orb] in H.
  destruct (top_bit 8 b); [|done]. by apply Z.eqb_eq in H as ->.
Qed.

Lemma count_bits_log2 b p : is_byte b → b ≠ 0 → count_bits 8 b p = p + (7 - Z.log2 b).
Proof.
  intros Hb Hb0. assert (∀ n p, count_bits n b p = p + count_bits n b 0) as Hshift.
  { induction n as [|n IH]; intros q; cbn; [lia|]. case_match; [lia|].
    rewrite (IH (q + 1)), (IH (0 + 1)). lia. }
  rewrite Hshift. f_equal. clear p Hshift.
  pose proof (byte_cases (λ b, (b =? 0) || (count_bits 8 b 0 =? 7 - Z.log2 b))
    ltac:(vm_compute; reflexivity) b Hb) as H. cbv beta in H.
  apply Z.eqb_neq in Hb0. rewrite Hb0 in H. by apply Z.eqb_eq in H.
Qed.

Lemma log2_be_get_cons b l :
  is_byte b → bytes l → b ≠ 0 → be_get (b :: l) ≠ 0
  ∧ Z.log2 (be_get (b :: l)) = 8 * len l + Z.log2 b.
Proof.
  intros Hb Hl Hb0. unfold is_byte in Hb. pose proof (len_nonneg l).
  pose proof (be_get_bound l Hl) as Hg. rewrite be_get_cons by done.
  split; [nia|]. apply Z.log2_unique; [pose proof (Z.log2_nonneg b); lia|].
  pose proof (Z.log2_spec b) as [L1 L2]; [lia|].
  rewrite Z.pow_succ_r in L2 by apply Z.log2_nonneg.
  rewrite <- Z.add_succ_r, !Z.pow_add_r by (pose proof (Z.log2_nonneg b); lia).
  rewrite Z.pow_succ_r by apply Z.log2_nonneg. nia.
Qed.

Lemma scan_prefix_spec dflt i l :
  bytes l →
  scan_prefix dflt i l
  = if be_get l =? 0 then dflt else 8 * (i + len l) - 1 - Z.log2 (be_get l).
Proof.
  intros Hl. revert i. induction Hl as [|b l Hb Hl IH]; intros i; [done|].
  cbn [scan_prefix]. destruct (b =? 0) eqn:E; cbn [negb].
  - apply Z.eqb_eq in E as ->. rewrite IH.
    replace (be_get (0 :: l)) with (be_get l) by (rewrite be_get_cons by done; lia).
    rewrite len_cons. destruct (be_get l =? 0); lia.
  - apply Z.eqb_neq in E. rewrite top_bit_log2 by done.
    destruct (log2_be_get_cons b l) as [Hne ->]; [done..|].
    apply Z.eqb_neq in Hne. rewrite Hne, len_cons. lia.
Qed.

Lemma count_prefix_spec p l :
  bytes l →
  count_prefix p l
  = if be_get l =? 0 then p + 8 * len l else p + 8 * len l - 1 - Z.log2 (be_get l).
Proof.
  intros Hl. revert p. induction Hl as [|b l Hb Hl IH]; intros p.
  { change (p = p + 8 * 0). lia. }
  cbn [count_prefix]. destruct (b =? 0) eqn:E.
  - apply Z.eqb_eq in E as ->. rewrite IH.
    replace (be_get (0 :: l)) with (be_get l) by (rewrite be_get_cons by done; lia).
    rewrite len_cons. destruct (be_get l =? 0); lia.
  - apply Z.eqb_neq in E. rewrite count_bits_log2 by done.
    destruct (log2_be_get_cons b l) as [Hne ->]; [done..|].
    apply Z.eqb_neq in Hne. rewrite Hne, len_cons. lia.
Qed.

(** ** Interface: what the routing table and lookups need of identifiers *)

Lemma CloserTo_distance id target other :
  is_id id → is_id target → is_id other →
  CloserTo id target other = (Distance id target <? Distance other target).
Proof.
  intros Hi Ht Ho. unfold Distance. destruct Hi as [Li Bi], Ht as [Lt Bt], Ho as [Lo Bo].
  rewrite CloserTo_Less by lia. apply Less_numeric; [by apply bytes_Xor..|].
  unfold Xor. rewrite !length_zip_with. lia.
Qed.

Lemma Distance_lxor a b : is_id a → is_id b → Distance a b = Z.lxor (be_get a) (be_get b).
Proof. intros [La Ba] [Lb Bb]. apply be_get_Xor; [done..|lia]. Qed.

Lemma Distance_range a b : is_id a → is_id b → 0 ≤ Distance a b < 2 ^ 160.
Proof.
  intros Ha Hb. pose proof (Xor_id a b Ha Hb) as [Hl Hx]. unfold Distance.
  pose proof (be_get_bound _ Hx) as H. unfold len in H. rewrite Hl in H. done.
Qed.

Lemma Distance_zero a b : is_id a → is_id b → Distance a b = 0 ↔ a = b.
Proof.
  intros Ha Hb. rewrite Distance_lxor by done. rewrite Z.lxor_eq_0_iff.
  split; [|by intros ->]. destruct Ha as [La Ba], Hb as [Lb Bb].
  apply be_get_inj; [done..|lia].
Qed.

(** Distances to one target separate identifiers. *)
Lemma Distance_inj a b t : is_id a → is_id b → is_id t → Distance a t = Distance b t → a = b.
Proof.
  intros Ha Hb Ht E. rewrite !Distance_lxor in E by done.
  apply (f_equal (λ z, Z.lxor z (be_get t))) in E.
  rewrite !Z.lxor_assoc, Z.lxor_nilpotent, !Z.lxor_0_r in E.
  destruct Ha as [La Ba], Hb as [Lb Bb]. apply be_get_inj; [done..|lia|done].
Qed.

Lemma Equals_spec a b : Equals a b = true ↔ a = b.
Proof. apply bool_decide_eq_true. Qed.

(** *** Hexadecimal form *)

Lemma hex_round b : is_byte b →
  hex_decode [hex_digit (Z.shiftr b 4); hex_digit (Z.land b 15)] = Ok [b].
Proof.
  intros Hb.
  pose proof (byte_cases (λ b,
    match hex_decode [hex_digit (Z.shiftr b 4); hex_digit (Z.land b 15)] with
    | Ok [c] => c =? b | _ => false end) ltac:(vm_compute; reflexivity) b Hb) as H.
  cbv beta in H. destruct (hex_decode _) as [[|c [|]]| |]; try done.
  by apply Z.eqb_eq in H as ->.
Qed.

Lemma hex_decode_encode l : bytes l → hex_decode (hex_encode l) = Ok l.
Proof.
  induction 1 as [|b l Hb Hl IH]; [done|].
  change (hex_encode (b :: l)) with
    (hex_digit (Z.shiftr b 4) :: hex_digit (Z.land b 15) :: hex_encode l).
  pose proof (hex_round b Hb) as Hr. cbn [hex_decode] in *.
  destruct (hex_value (hex_digit (Z.shiftr b 4))); [|done].
  destruct (hex_value (hex_digit (Z.land b 15))); [|done].
  cbn in Hr. rewrite IH. cbn. by simplify_eq.
Qed.

(** ** Properties *)

(** [CloserTo] decides the XOR metric: it holds exactly when the distance as
    a 160-bit number is smaller; the metric is symmetric, separates
    identifiers, and satisfies the triangle inequality. *)
Theorem closer_is_xor_metric (id target other : list Z) :
  is_id id → is_id target → is_id other →
  (CloserTo id target other = true ↔ Distance id target < Distance other target) ∧
  Distance id target = Distance target id ∧
  (Distance id target = Distance other target → id = other) ∧
  Distance id other ≤ Distance id target + Distance target other.
Proof.
  intros Hi Ht Ho. split_and!.
  - rewrite CloserTo_distance by done. apply Z.ltb_lt.
  - unfold Distance. by rewrite Xor_comm.
  - by apply Distance_inj.
  - rewrite !Distance_lxor by done.
    set (x := be_get id). set (y := be_get target). set (z := be_get other).
    assert (Z.lxor x z = Z.lxor (Z.lxor x y) (Z.lxor y z)) as ->.
    { by rewrite Z.lxor_assoc, <- (Z.lxor_assoc y), Z.lxor_nilpotent, Z.lxor_0_l. }
    assert (∀ a b, is_id a → is_id b → 0 ≤ Z.lxor (be_get a) (be_get b)) as Hp.
    { intros a b Ha Hb. rewrite <- Distance_lxor by done. by apply Distance_range. }
    set (p := Z.lxor x y). set (q := Z.lxor y z).
    assert (0 ≤ p) by (by apply Hp). assert (0 ≤ q) by (by apply Hp).
    pose proof (Z.add_lxor_2land p q). assert (0 ≤ Z.land p q) by (apply Z.land_nonneg; lia).
    lia.
Qed.

(** the two prefix-length routines agree, and the number they count is
    determined by the top bit of the distance: 160 for equal identifiers,
    otherwise 159 minus its position. *)
Theorem prefix_len_spec (id other : list Z) :
  is_id id → is_id other →
  CommonPrefixLen id other = PrefixLen id other ∧
  CommonPrefixLen id other = prefix_of_distance (Distance id other) ∧
  (CommonPrefixLen id other = 160 ↔ id = other).
Proof.
  intros Hi Ho. pose proof (Xor_id _ _ Hi Ho) as [Hl Hx].
  unfold CommonPrefixLen, PrefixLen, prefix_of_distance, Distance.
  rewrite scan_prefix_spec, count_prefix_spec by done. unfold len. rewrite Hl.
  split_and!; [destruct (_ =? 0); lia..|].
  rewrite <- (Distance_zero _ _ Hi Ho). unfold Distance.
  destruct (be_get (Xor id other) =? 0) eqn:E; rewrite ?Z.eqb_eq, ?Z.eqb_neq in E; [done|].
  pose proof (Z.log2_nonneg (be_get (Xor id other))). split; lia.
Qed.

(** parsing the hexadecimal form of an identifier gives the identifier. *)
Theorem node_id_hex_roundtrip (id : list Z) :
  is_id id → NewNodeIDFromHex (NodeID_String id) = Ok id.
Proof.
  intros [Hl Hb]. unfold NewNodeIDFromHex, NodeID_String.
  rewrite hex_decode_encode by done. cbn [mbind outcome_bind]. f_equal.
  rewrite <- Hl at 1. apply take_app_length.
Qed.

(** ** Witnesses *)

Definition id_of (b : Z) : list Z := replicate 19 0 ++ [b].

Lemma closer_is_xor_metric_witness :
  CloserTo (id_of 6) (id_of 7) (id_of 3) = true ∧ Distance (id_of 6) (id_of 7) = 1.
Proof.
  split; [|vm_compute; reflexivity].
  apply (closer_is_xor_metric (id_of 6) (id_of 7) (id_of 3)); [by_decision..|].
  vm_compute. reflexivity.
Defined.

Lemma prefix_len_spec_witness :
  CommonPrefixLen (id_of 6) (id_of 3) = PrefixLen (id_of 6) (id_of 3) ∧
  CommonPrefixLen (id_of 6) (id_of 3) = 157.
Proof.
  split; [|vm_compute; reflexivity].
  apply (prefix_len_spec (id_of 6) (id_of 3)); by_decision.
Defined.

Lemma node_id_hex_roundtrip_witness :
  NewNodeIDFromHex (NodeID_String (id_of 171)) = Ok (id_of 171).
Proof. apply (node_id_hex_roundtrip (id_of 171)). by_decision. Defined.
