(* ===== verification/Wire.v ===== *)
(** * pkg/protocol: types.go, header.go and message.go

    Constants and identifiers, the 32-byte message header with its flag
    operations and stream reader, and the user messages (direct, ack, nack,
    group message, read receipt).  The [Wire] class is what a message type
    promises to the components that put it on a connection. *)

From S2P Require Import Prelude GoBytes.

(** ** types.go *)

Definition ProtocolMagic : Z := 0x5A54414C.
Definition ProtocolVersion : Z := 0x0100.
Definition HeaderSize : Z := 32.

Definition MsgTypeHandshake : Z := 0x0001.
Definition MsgTypeHandshakeAck : Z := 0x0002.
Definition MsgTypePing : Z := 0x0003.
Definition MsgTypePong : Z := 0x0004.
Definition MsgTypeRelayForward : Z := 0x0100.
Definition MsgTypeDirectMessage : Z := 0x0200.
Definition MsgTypeGroupMessage : Z := 0x0201.
Definition MsgTypeTyping : Z := 0x0202.
Definition MsgTypeReadReceipt : Z := 0x0203.
Definition MsgTypeMediaUpload : Z := 0x0400.
Definition MsgTypeMediaDownload : Z := 0x0401.
Definition MsgTypeAck : Z := 0x0501.
Definition MsgTypeNack : Z := 0x0502.

Definition FlagEncrypted : Z := 0x0001.
Definition FlagPadded : Z := 0x0020.

Definition ClientTypeUser : Z := 0x00.
Definition ClientTypeRelay : Z := 0x01.

Definition zero_address : list Z := replicate 20 0.

(** [IsZeroAddress] *)
Definition IsZeroAddress (addr : list Z) : bool := bool_decide (addr = zero_address).

(** [GenerateMessageID]: [timestamp] is [time.Now().UnixNano()], [rnd] the
    eight bytes [rand.Read] delivers, [None] when it fails. *)
Definition GenerateMessageID (timestamp : Z) (rnd : option (list Z)) : list Z :=
  be_put 8 (u64 timestamp) ++
  match rnd with
  | Some r => r
  | None => be_put 8 (u64 (Z.lxor timestamp 0xDEADBEEF))
  end.

(** ** What a message format promises *)

Class Wire (M : Type) := {
  wire_wf : M → Prop;
  (** the fields in order, as the documentation of the format gives them *)
  wire_layout : M → list Z;
  wire_encode : M → outcome (list Z);
  wire_decode : slice → outcome M;
  wire_encode_layout : ∀ m, wire_wf m → wire_encode m = Ok (wire_layout m);
  wire_decode_layout : ∀ m rest spare, wire_wf m →
    wire_decode (Slice (wire_layout m ++ rest) spare) = Ok m;
  wire_decode_wf : ∀ s m, slice_bytes s → wire_decode s = Ok m → wire_wf m;
}.

Section wire_laws.
Context `{Wire M}.

(** Encoding then decoding, whatever follows in the buffer. *)
Lemma wire_roundtrip m rest spare :
  wire_wf m → ∃ out, wire_encode m = Ok out
    ∧ wire_decode (Slice (out ++ rest) spare) = Ok m.
Proof.
  intros Hm. exists (wire_layout m).
  split; [by apply wire_encode_layout|by apply wire_decode_layout].
Qed.

(** No encoding is a proper prefix of another: streams parse uniquely. *)
Lemma wire_prefix_free m1 m2 rest1 rest2 :
  wire_wf m1 → wire_wf m2 →
  wire_layout m1 ++ rest1 = wire_layout m2 ++ rest2 → m1 = m2 ∧ rest1 = rest2.
Proof.
  intros H1 H2 E. pose proof (wire_decode_layout m1 rest1 [] H1) as D1.
  rewrite E, wire_decode_layout in D1 by done. injection D1 as ->.
  split; [done|]. by apply app_inv_head in E.
Qed.
End wire_laws.

(** ** header.go *)

Record Header := mkHeader {
  h_Magic : Z; h_Version : Z; h_Type : Z; h_Length : Z; h_Flags : Z;
  h_MessageID : list Z; h_Reserved : Z }.

#[export] Instance Header_eq_dec : EqDecision Header.
Proof. solve_decision. Defined.

Definition Header_wf (h : Header) : Prop :=
  in_range 32 (h_Magic h) ∧ in_range 16 (h_Version h) ∧ in_range 16 (h_Type h) ∧
  in_range 32 (h_Length h) ∧ in_range 16 (h_Flags h) ∧ array 16 (h_MessageID h) ∧
  in_range 16 (h_Reserved h).
#[export] Instance Header_wf_dec h : Decision (Header_wf h).
Proof. unfold Header_wf. apply _. Defined.

(** The header writes through fixed windows [buf[i:j]]; a window starts where
    the previous one ended. *)
Definition Header_Encode (h : Header) : outcome (list Z) :=
  wr_run HeaderSize (
    wr_uint 4 (h_Magic h) ;;; wr_adv 4 ;;;
    wr_uint 2 (h_Version h) ;;; wr_adv 2 ;;;
    wr_uint 2 (h_Type h) ;;; wr_adv 2 ;;;
    wr_uint 4 (h_Length h) ;;; wr_adv 4 ;;;
    wr_uint 2 (h_Flags h) ;;; wr_adv 2 ;;;
    wr_copy (h_MessageID h) ;;; wr_adv 16 ;;;
    wr_uint 2 (h_Reserved h)).

Definition ErrInvalidHeader : string := "invalid header".
Definition ErrInvalidMagic : string := "invalid protocol magic".
Definition ErrInvalidVersion : string := "unsupported protocol version".

Definition Header_Decode (buf : slice) : outcome Header :=
  rd_run (
    _ ← rd_need HeaderSize ErrInvalidHeader;
    magic ← rd_uint 4;
    version ← rd_uint 2;
    type ← rd_uint 2;
    length ← rd_uint 4;
    flags ← rd_uint 2;
    id ← rd_copy 16;
    reserved ← rd_uint 2;
    mret (mkHeader magic version type length flags id reserved)) buf.

Definition Header_Validate (h : Header) : outcome unit :=
  if negb (h_Magic h =? ProtocolMagic) then Err ErrInvalidMagic
  else if negb (h_Version h =? ProtocolVersion) then Err ErrInvalidVersion
  else Ok tt.

Definition with_flags (h : Header) (f : Z) : Header :=
  mkHeader (h_Magic h) (h_Version h) (h_Type h) (h_Length h) f
    (h_MessageID h) (h_Reserved h).

Definition Header_HasFlag (h : Header) (flag : Z) : bool :=
  negb (Z.land (h_Flags h) flag =? 0).
Definition Header_SetFlag (h : Header) (flag : Z) : Header :=
  with_flags h (Z.lor (h_Flags h) flag).
(** [&^=] is and-not *)
Definition Header_ClearFlag (h : Header) (flag : Z) : Header :=
  with_flags h (Z.ldiff (h_Flags h) flag).

(** A connection's incoming bytes: [io.ReadFull(r, make([]byte, n))] takes
    [n] bytes, or fails with [io.EOF] when none and [io.ErrUnexpectedEOF] when
    some but too few were left. *)
Definition ReadFull (n : Z) (r : list Z) : outcome (list Z * list Z) :=
  if bool_decide (n ≤ len r) then
    Ok (take (Z.to_nat n) r, drop (Z.to_nat n) r)
  else if bool_decide (r = []) then Err "EOF" else Err "unexpected EOF".

Definition ReadHeader (r : list Z) : outcome (Header * list Z) :=
  '(buf, r') ← ReadFull HeaderSize r;
  header ← Header_Decode (mk_slice buf);
  _ ← Header_Validate header;
  Ok (header, r').

(** [WriteHeader]: the bytes handed to the connection. *)
Definition WriteHeader (h : Header) (w : list Z) : outcome (list Z) :=
  buf ← Header_Encode h; Ok (w ++ buf).

(** *** Header facts *)

Definition Header_layout (h : Header) : list Z :=
  be_put 4 (h_Magic h) ++ be_put 2 (h_Version h) ++ be_put 2 (h_Type h) ++
  be_put 4 (h_Length h) ++ be_put 2 (h_Flags h) ++ h_MessageID h ++
  be_put 2 (h_Reserved h).

Lemma length_Header_layout h : Header_wf h → length (Header_layout h) = 32%nat.
Proof.
  intros (_&_&_&_&_&[Hid _]&_). unfold Header_layout.
  rewrite !length_app, !length_be_put, Hid. done.
Qed.

Lemma Header_Encode_layout h : Header_wf h → Header_Encode h = Ok (Header_layout h).
Proof.
  intros Hh. apply wr_run_emits.
  - destruct Hh as (?&?&?&?&?&Hid&?). emit_steps; try done. by apply array_len in Hid.
  - unfold len. by rewrite length_Header_layout.
Qed.

Lemma Header_Decode_layout h rest spare :
  Header_wf h → Header_Decode (Slice (Header_layout h ++ rest) spare) = Ok h.
Proof.
  intros Hh. unfold Header_Decode.
  rewrite rd_run_need_ok by (unfold len; by rewrite length_Header_layout).
  apply rd_run_reads. destruct h, Hh as (?&?&?&?&?&Hid&?).
  read_steps; try done. by apply array_len in Hid.
Qed.

Lemma Header_Decode_wf s h : slice_bytes s → Header_Decode s = Ok h → Header_wf h.
Proof.
  apply yields_run. yield_steps. apply yields_ret.
  by split_and!.
Qed.

(** Exactly one byte string decodes to a given header. *)
Lemma Header_Decode_bytes l h :
  bytes l → length l = 32%nat → Header_Decode (mk_slice l) = Ok h → l = Header_layout h.
Proof.
  intros Hb Hl Hd.
  destruct (consumes_run _ (λ h l, l = Header_layout h) l h Hd Hb) as (k & E).
  { consume_steps. apply consumes_ret. unfold Header_layout. cbn. by rewrite app_nil_r. }
  assert (Header_wf h) as Hh.
  { eapply Header_Decode_wf, Hd. unfold slice_bytes. cbn. by rewrite app_nil_r. }
  pose proof (f_equal length E) as Hlen.
  rewrite length_take, length_Header_layout in Hlen by done.
  by rewrite take_ge in E by lia.
Qed.

#[export] Program Instance Header_wire : Wire Header := {|
  wire_wf := Header_wf; wire_layout := Header_layout;
  wire_encode := Header_Encode; wire_decode := Header_Decode |}.
Solve Obligations with
  eauto using Header_Encode_layout, Header_Decode_layout, Header_Decode_wf.

(** ** message.go *)

Record Message := mkMessage { msg_Header : Header; msg_Payload : slice }.

Definition NewMessage (msgType : Z) (payload : slice) (now : Z) (rnd : option (list Z))
  : Message :=
  mkMessage
    (mkHeader ProtocolMagic ProtocolVersion msgType (u32 (slen payload)) 0
       (GenerateMessageID now rnd) 0)
    payload.

(** *** DirectMessage *)

Record DirectMessage := mkDirectMessage {
  dm_From : list Z; dm_To : list Z; dm_Timestamp : Z; dm_SequenceNumber : Z;
  dm_ContentType : Z; dm_ReplyTo : list Z; dm_Content : list Z; dm_Signature : list Z }.

Definition DirectMessage_wf (m : DirectMessage) : Prop :=
  array 20 (dm_From m) ∧ array 20 (dm_To m) ∧ in_range 64 (dm_Timestamp m) ∧
  in_range 64 (dm_SequenceNumber m) ∧ is_byte (dm_ContentType m) ∧
  array 16 (dm_ReplyTo m) ∧ blob (dm_Content m) ∧ blob (dm_Signature m).
#[export] Instance DirectMessage_wf_dec m : Decision (DirectMessage_wf m).
Proof. unfold DirectMessage_wf. apply _. Defined.

Definition DirectMessage_Encode (m : DirectMessage) : outcome (list Z) :=
  wr_run (20 + 20 + 8 + 8 + 1 + 16 + 4 + len (dm_Content m) + 4 + len (dm_Signature m)) (
    wr_copy (dm_From m) ;;; wr_adv 20 ;;;
    wr_copy (dm_To m) ;;; wr_adv 20 ;;;
    wr_uint 8 (dm_Timestamp m) ;;; wr_adv 8 ;;;
    wr_uint 8 (dm_SequenceNumber m) ;;; wr_adv 8 ;;;
    wr_byte (dm_ContentType m) ;;; wr_adv 1 ;;;
    wr_copy (dm_ReplyTo m) ;;; wr_adv 16 ;;;
    wr_uint 4 (u32 (len (dm_Content m))) ;;; wr_adv 4 ;;;
    wr_copy (dm_Content m) ;;; wr_adv (len (dm_Content m)) ;;;
    wr_uint 4 (u32 (len (dm_Signature m))) ;;; wr_adv 4 ;;;
    wr_copy (dm_Signature m)).

Definition DirectMessage_rd : rd DirectMessage :=
  from ← rd_copy 20;
  to ← rd_copy 20;
  timestamp ← rd_uint 8;
  seqno ← rd_uint 8;
  contentType ← rd_byte;
  replyTo ← rd_copy 16;
  contentLen ← rd_uint 4;
  content ← rd_copy contentLen;
  sigLen ← rd_uint 4;
  signature ← rd_copy sigLen;
  mret (mkDirectMessage from to timestamp seqno contentType replyTo content signature).
Definition DirectMessage_Decode : slice → outcome DirectMessage := rd_run DirectMessage_rd.

Definition DirectMessage_layout (m : DirectMessage) : list Z :=
  dm_From m ++ dm_To m ++ be_put 8 (dm_Timestamp m) ++ be_put 8 (dm_SequenceNumber m) ++
  [dm_ContentType m] ++ dm_ReplyTo m ++
  be_put 4 (len (dm_Content m)) ++ dm_Content m ++
  be_put 4 (len (dm_Signature m)) ++ dm_Signature m.

Lemma DirectMessage_reads m :
  DirectMessage_wf m → reads DirectMessage_rd (DirectMessage_layout m) m.
Proof. destruct m. intros (?&?&?&?&?&?&?&?). read_steps; wire_leaf. Qed.

Lemma DirectMessage_starves m :
  DirectMessage_wf m → starves DirectMessage_rd (DirectMessage_layout m).
Proof. destruct m. intros (?&?&?&?&?&?&?&?). starve_steps; wire_leaf. Qed.

#[export] Program Instance DirectMessage_wire : Wire DirectMessage := {|
  wire_wf := DirectMessage_wf; wire_layout := DirectMessage_layout;
  wire_encode := DirectMessage_Encode; wire_decode := DirectMessage_Decode |}.
Next Obligation.
  intros m (?&?&?&?&?&?&?&?). unfold DirectMessage_Encode, DirectMessage_layout. wire_encode.
Qed.
Next Obligation. intros. by apply rd_run_reads, DirectMessage_reads. Qed.
Next Obligation.
  intros s m. apply yields_run. unfold DirectMessage_rd. yield_steps. apply yields_ret.
  split_and!; eauto using array_blob.
Qed.

(** *** AckMessage *)

Record AckMessage := mkAckMessage {
  ack_From : list Z; ack_To : list Z; ack_MessageID : list Z;
  ack_SequenceNumber : Z; ack_Timestamp : Z }.

Definition AckMessage_wf (a : AckMessage) : Prop :=
  array 20 (ack_From a) ∧ array 20 (ack_To a) ∧ array 16 (ack_MessageID a) ∧
  in_range 64 (ack_SequenceNumber a) ∧ in_range 64 (ack_Timestamp a).

Definition AckMessage_Encode (a : AckMessage) : outcome (list Z) :=
  wr_run (20 + 20 + 16 + 8 + 8) (
    wr_copy (ack_From a) ;;; wr_adv 20 ;;;
    wr_copy (ack_To a) ;;; wr_adv 20 ;;;
    wr_copy (ack_MessageID a) ;;; wr_adv 16 ;;;
    wr_uint 8 (ack_SequenceNumber a) ;;; wr_adv 8 ;;;
    wr_uint 8 (ack_Timestamp a)).

Definition AckMessage_rd : rd AckMessage :=
  from ← rd_copy 20;
  to ← rd_copy 20;
  id ← rd_copy 16;
  seqno ← rd_uint 8;
  timestamp ← rd_uint 8;
  mret (mkAckMessage from to id seqno timestamp).
Definition AckMessage_Decode : slice → outcome AckMessage :=
  rd_run (_ ← rd_need 72 "buffer too short for ACK message"; AckMessage_rd).

Definition AckMessage_layout (a : AckMessage) : list Z :=
  ack_From a ++ ack_To a ++ ack_MessageID a ++
  be_put 8 (ack_SequenceNumber a) ++ be_put 8 (ack_Timestamp a).

#[export] Program Instance AckMessage_wire : Wire AckMessage := {|
  wire_wf := AckMessage_wf; wire_layout := AckMessage_layout;
  wire_encode := AckMessage_Encode; wire_decode := AckMessage_Decode |}.
Next Obligation.
  intros m (?&?&?&?&?). unfold AckMessage_Encode, AckMessage_layout. wire_encode.
Qed.
Next Obligation.
  intros [] rest spare (?&?&?&?&?). unfold AckMessage_Decode.
  rewrite rd_run_need_ok by (unfold AckMessage_layout; wire_size).
  apply rd_run_reads. read_steps; wire_leaf.
Qed.
Next Obligation.
  intros s m. apply yields_run. unfold AckMessage_rd. yield_steps. apply yields_ret.
  by split_and!.
Qed.

Lemma AckMessage_Decode_safe s : slice_bytes s → AckMessage_Decode s ≠ Panic.
Proof. intros. apply fits_run; [done|]. unfold AckMessage_rd. fit_steps. Qed.

(** *** NackMessage *)

Record NackMessage := mkNackMessage {
  nack_From : list Z; nack_To : list Z; nack_MessageID : list Z;
  nack_SequenceNumber : Z; nack_Timestamp : Z; nack_ErrorCode : Z;
  nack_ErrorMessage : list Z }.

(** the error text has a [uint16] length prefix *)
Definition NackMessage_wf (n : NackMessage) : Prop :=
  array 20 (nack_From n) ∧ array 20 (nack_To n) ∧ array 16 (nack_MessageID n) ∧
  in_range 64 (nack_SequenceNumber n) ∧ in_range 64 (nack_Timestamp n) ∧
  is_byte (nack_ErrorCode n) ∧ bytes (nack_ErrorMessage n) ∧
  in_range 16 (len (nack_ErrorMessage n)).

Definition NackMessage_Encode (n : NackMessage) : outcome (list Z) :=
  wr_run (20 + 20 + 16 + 8 + 8 + 1 + 2 + len (nack_ErrorMessage n)) (
    wr_copy (nack_From n) ;;; wr_adv 20 ;;;
    wr_copy (nack_To n) ;;; wr_adv 20 ;;;
    wr_copy (nack_MessageID n) ;;; wr_adv 16 ;;;
    wr_uint 8 (nack_SequenceNumber n) ;;; wr_adv 8 ;;;
    wr_uint 8 (nack_Timestamp n) ;;; wr_adv 8 ;;;
    wr_byte (nack_ErrorCode n) ;;; wr_adv 1 ;;;
    wr_uint 2 (u16 (len (nack_ErrorMessage n))) ;;; wr_adv 2 ;;;
    wr_copy (nack_ErrorMessage n)).

Definition NackMessage_rd : rd NackMessage :=
  from ← rd_copy 20;
  to ← rd_copy 20;
  id ← rd_copy 16;
  seqno ← rd_uint 8;
  timestamp ← rd_uint 8;
  code ← rd_byte;
  errorMsgLen ← rd_uint 2;
  _ ← rd_need_more errorMsgLen "buffer too short for error message";
  msg ← rd_copy errorMsgLen;
  mret (mkNackMessage from to id seqno timestamp code msg).
Definition NackMessage_Decode : slice → outcome NackMessage :=
  rd_run (_ ← rd_need 75 "buffer too short for NACK message"; NackMessage_rd).

Definition NackMessage_layout (n : NackMessage) : list Z :=
  nack_From n ++ nack_To n ++ nack_MessageID n ++
  be_put 8 (nack_SequenceNumber n) ++ be_put 8 (nack_Timestamp n) ++
  [nack_ErrorCode n] ++ be_put 2 (len (nack_ErrorMessage n)) ++ nack_ErrorMessage n.

#[export] Program Instance NackMessage_wire : Wire NackMessage := {|
  wire_wf := NackMessage_wf; wire_layout := NackMessage_layout;
  wire_encode := NackMessage_Encode; wire_decode := NackMessage_Decode |}.
Next Obligation.
  intros m (?&?&?&?&?&?&?&?). unfold NackMessage_Encode, NackMessage_layout, u16.
  rewrite wrap_id by done. wire_encode.
Qed.
Next Obligation.
  intros [] rest spare (?&?&?&?&?&?&?&?). unfold NackMessage_Decode.
  rewrite rd_run_need_ok.
  - apply rd_run_reads. read_steps; try wire_leaf.
    apply reads_need_more; [done|]. read_steps; wire_leaf.
  - unfold NackMessage_layout. cbn -[len app Z.le] in *.
    pose proof (len_nonneg nack_ErrorMessage0). wire_size.
Qed.
Next Obligation.
  intros s m. apply yields_run. unfold NackMessage_rd. yield_steps. apply yields_ret.
  match goal with H : array (Z.to_nat ?v) ?l |- _ => destruct H as [Hlen Hb] end.
  split_and!; try done. unfold in_range, len in *. simpl. rewrite Hlen. lia.
Qed.

Lemma NackMessage_Decode_safe s : slice_bytes s → NackMessage_Decode s ≠ Panic.
Proof. intros. apply fits_run; [done|]. unfold NackMessage_rd. fit_steps. Qed.

(** *** GroupMessage *)

Record GroupMessage := mkGroupMessage {
  gm_From : list Z; gm_GroupID : list Z; gm_Timestamp : Z; gm_ContentType : Z;
  gm_Content : list Z; gm_Signature : list Z }.

Definition GroupMessage_wf (m : GroupMessage) : Prop :=
  array 20 (gm_From m) ∧ array 32 (gm_GroupID m) ∧ in_range 64 (gm_Timestamp m) ∧
  is_byte (gm_ContentType m) ∧ blob (gm_Content m) ∧ blob (gm_Signature m).

Definition GroupMessage_Encode (m : GroupMessage) : outcome (list Z) :=
  wr_run (20 + 32 + 8 + 1 + 4 + len (gm_Content m) + 4 + len (gm_Signature m)) (
    wr_copy (gm_From m) ;;; wr_adv 20 ;;;
    wr_copy (gm_GroupID m) ;;; wr_adv 32 ;;;
    wr_uint 8 (gm_Timestamp m) ;;; wr_adv 8 ;;;
    wr_byte (gm_ContentType m) ;;; wr_adv 1 ;;;
    wr_uint 4 (u32 (len (gm_Content m))) ;;; wr_adv 4 ;;;
    wr_copy (gm_Content m) ;;; wr_adv (len (gm_Content m)) ;;;
    wr_uint 4 (u32 (len (gm_Signature m))) ;;; wr_adv 4 ;;;
    wr_copy (gm_Signature m)).

Definition GroupMessage_rd : rd GroupMessage :=
  from ← rd_copy 20;
  gid ← rd_copy 32;
  timestamp ← rd_uint 8;
  contentType ← rd_byte;
  contentLen ← rd_uint 4;
  content ← rd_copy contentLen;
  sigLen ← rd_uint 4;
  signature ← rd_copy sigLen;
  mret (mkGroupMessage from gid timestamp contentType content signature).
Definition GroupMessage_Decode : slice → outcome GroupMessage := rd_run GroupMessage_rd.

Definition GroupMessage_layout (m : GroupMessage) : list Z :=
  gm_From m ++ gm_GroupID m ++ be_put 8 (gm_Timestamp m) ++ [gm_ContentType m] ++
  be_put 4 (len (gm_Content m)) ++ gm_Content m ++
  be_put 4 (len (gm_Signature m)) ++ gm_Signature m.

#[export] Program Instance GroupMessage_wire : Wire GroupMessage := {|
  wire_wf := GroupMessage_wf; wire_layout := GroupMessage_layout;
  wire_encode := GroupMessage_Encode; wire_decode := GroupMessage_Decode |}.
Next Obligation.
  intros m (?&?&?&?&?&?). unfold GroupMessage_Encode, GroupMessage_layout. wire_encode.
Qed.
Next Obligation.
  intros [] rest spare (?&?&?&?&?&?). apply rd_run_reads. read_steps; wire_leaf.
Qed.
Next Obligation.
  intros s m. apply yields_run. unfold GroupMessage_rd. yield_steps. apply yields_ret.
  split_and!; eauto using array_blob.
Qed.

(** *** ReadReceipt *)

Record ReadReceipt := mkReadReceipt {
  rr_From : list Z; rr_To : list Z; rr_MessageID : list Z; rr_Timestamp : Z;
  rr_ReadStatus : Z }.

Definition ReadReceipt_wf (r : ReadReceipt) : Prop :=
  array 20 (rr_From r) ∧ array 20 (rr_To r) ∧ array 16 (rr_MessageID r) ∧
  in_range 64 (rr_Timestamp r) ∧ is_byte (rr_ReadStatus r).

Definition ReadReceipt_Encode (r : ReadReceipt) : outcome (list Z) :=
  wr_run (1 + 20 + 20 + 16 + 8 + 1) (
    wr_byte 0x02 ;;; wr_adv 1 ;;;
    wr_copy (rr_From r) ;;; wr_adv 20 ;;;
    wr_copy (rr_To r) ;;; wr_adv 20 ;;;
    wr_copy (rr_MessageID r) ;;; wr_adv 16 ;;;
    wr_uint 8 (rr_Timestamp r) ;;; wr_adv 8 ;;;
    wr_byte (rr_ReadStatus r)).

Definition ReadReceipt_rd : rd ReadReceipt :=
  kind ← rd_byte;
  _ ← rd_guard (kind =? 0x02) "invalid message type for read receipt";
  from ← rd_copy 20;
  to ← rd_copy 20;
  id ← rd_copy 16;
  timestamp ← rd_uint 8;
  status ← rd_byte;
  mret (mkReadReceipt from to id timestamp status).
Definition ReadReceipt_Decode : slice → outcome ReadReceipt :=
  rd_run (_ ← rd_need 66 "buffer too short for read receipt"; ReadReceipt_rd).

Definition ReadReceipt_layout (r : ReadReceipt) : list Z :=
  [2] ++ rr_From r ++ rr_To r ++ rr_MessageID r ++ be_put 8 (rr_Timestamp r) ++
  [rr_ReadStatus r].

#[export] Program Instance ReadReceipt_wire : Wire ReadReceipt := {|
  wire_wf := ReadReceipt_wf; wire_layout := ReadReceipt_layout;
  wire_encode := ReadReceipt_Encode; wire_decode := ReadReceipt_Decode |}.
Next Obligation.
  intros m (?&?&?&?&?). unfold ReadReceipt_Encode, ReadReceipt_layout. wire_encode.
Qed.
Next Obligation.
  intros [] rest spare (?&?&?&?&?). unfold ReadReceipt_Decode.
  rewrite rd_run_need_ok by (unfold ReadReceipt_layout; wire_size).
  apply rd_run_reads. eapply reads_bind; [reflexivity|apply reads_byte|].
  eapply reads_bind; [symmetry; apply app_nil_l|apply reads_guard|].
  read_steps; wire_leaf.
Qed.
Next Obligation.
  intros s m. apply yields_run. unfold ReadReceipt_rd. yield_steps. apply yields_ret.
  by split_and!.
Qed.

Lemma ReadReceipt_Decode_safe s : slice_bytes s → ReadReceipt_Decode s ≠ Panic.
Proof. intros. apply fits_run; [done|]. unfold ReadReceipt_rd. fit_steps. Qed.
