(* ===== verification/WireGroups.v ===== *)
(** * pkg/protocol: group.go, routing.go, profile.go and presence.go

    The remaining wire formats: group administration, handshake, relay
    forwarding, profile updates and typing indicators, each an instance of
    [Wire]. *)

From S2P Require Import Prelude GoBytes Wire.

(** ** group.go *)

(** *** GroupCreateMessage *)

Record GroupCreateMessage := mkGroupCreate {
  gc_GroupID : list Z; gc_GroupName : list Z; gc_CreatorAddr : list Z;
  gc_Timestamp : Z; gc_Members : list (list Z) }.

Definition GroupCreate_wf (m : GroupCreateMessage) : Prop :=
  array 32 (gc_GroupID m) ∧ blob (gc_GroupName m) ∧ array 20 (gc_CreatorAddr m) ∧
  in_range 64 (gc_Timestamp m) ∧ in_range 32 (len (gc_Members m)) ∧
  Forall (array 20) (gc_Members m).
#[export] Instance GroupCreate_wf_dec m : Decision (GroupCreate_wf m).
Proof. unfold GroupCreate_wf. apply _. Defined.

Definition GroupCreate_Encode (m : GroupCreateMessage) : outcome (list Z) :=
  wr_run (32 + 4 + len (gc_GroupName m) + 20 + 8 + 4 + len (gc_Members m) * 20) (
    wr_copy (gc_GroupID m) ;;; wr_adv 32 ;;;
    wr_uint 4 (u32 (len (gc_GroupName m))) ;;; wr_adv 4 ;;;
    wr_copy (gc_GroupName m) ;;; wr_adv (len (gc_GroupName m)) ;;;
    wr_copy (gc_CreatorAddr m) ;;; wr_adv 20 ;;;
    wr_uint 8 (gc_Timestamp m) ;;; wr_adv 8 ;;;
    wr_uint 4 (u32 (len (gc_Members m))) ;;; wr_adv 4 ;;;
    wr_each (gc_Members m) (λ member, wr_copy member ;;; wr_adv 20)).

Definition GroupCreate_rd : rd GroupCreateMessage :=
  gid ← rd_copy 32;
  nameLen ← rd_uint 4;
  name ← rd_copy nameLen;
  creator ← rd_copy 20;
  timestamp ← rd_uint 8;
  memberCount ← rd_uint 4;
  members ← rd_times (Z.to_nat memberCount) (rd_copy 20);
  mret (mkGroupCreate gid name creator timestamp members).
Definition GroupCreate_Decode : slice → outcome GroupCreateMessage := rd_run GroupCreate_rd.

Definition GroupCreate_layout (m : GroupCreateMessage) : list Z :=
  gc_GroupID m ++ be_put 4 (len (gc_GroupName m)) ++ gc_GroupName m ++
  gc_CreatorAddr m ++ be_put 8 (gc_Timestamp m) ++
  be_put 4 (len (gc_Members m)) ++ concat (id <$> gc_Members m).

Lemma len_concat_const {A B} (f : A → list B) n (l : list A) :
  Forall (λ x, len (f x) = n) l → len (concat (f <$> l)) = len l * n.
Proof.
  induction 1 as [|x l Hx Hl IH]; [done|].
  cbn [fmap list_fmap concat]. rewrite len_app, len_cons, IH, Hx. lia.
Qed.

#[export] Program Instance GroupCreate_wire : Wire GroupCreateMessage := {|
  wire_wf := GroupCreate_wf; wire_layout := GroupCreate_layout;
  wire_encode := GroupCreate_Encode; wire_decode := GroupCreate_Decode |}.
Next Obligation.
  intros m (?&?&?&?&?&Hm). unfold GroupCreate_Encode, GroupCreate_layout.
  rewrite ?blob_u32, ?u32_id by done. apply wr_run_emits.
  - emit_steps; try wire_leaf. apply writes_emits, writes_each. intros x Hx.
    apply writes_copy, (array_len 20). by eapply Forall_forall in Hm.
  - rewrite !len_app, !len_be_put, (len_concat_const id 20).
    + wf_lens. lia.
    + eapply Forall_impl; [done|]. intros x Hx. by apply array_len in Hx.
Qed.
Next Obligation.
  intros [] rest spare (?&?&?&?&?&Hm). apply rd_run_reads. read_steps; try wire_leaf.
  eapply reads_bind; [symmetry; apply app_nil_r| |apply reads_ret].
  cbn. unfold len. rewrite Nat2Z.id. apply reads_times. intros x Hx.
  apply reads_copy, (array_len 20). by eapply Forall_forall in Hm.
Qed.
Next Obligation.
  intros s m. apply yields_run. unfold GroupCreate_rd. yield_steps.
  eapply yields_bind; [apply yields_times, yields_copy; lia|].
  intros l [Hl HF]. apply yields_ret. split_and!; eauto using array_blob.
  unfold in_range, len in *. simpl. lia.
Qed.

(** *** GroupJoinMessage *)

Record GroupJoinMessage := mkGroupJoin {
  gj_GroupID : list Z; gj_MemberAddr : list Z; gj_Timestamp : Z; gj_Signature : list Z }.

Definition GroupJoin_wf (m : GroupJoinMessage) : Prop :=
  array 32 (gj_GroupID m) ∧ array 20 (gj_MemberAddr m) ∧ in_range 64 (gj_Timestamp m) ∧
  blob (gj_Signature m).

Definition GroupJoin_EncodeForSigning (m : GroupJoinMessage) : outcome (list Z) :=
  wr_run (32 + 20 + 8) (
    wr_copy (gj_GroupID m) ;;; wr_adv 32 ;;;
    wr_copy (gj_MemberAddr m) ;;; wr_adv 20 ;;;
    wr_uint 8 (gj_Timestamp m)).

Definition GroupJoin_Encode (m : GroupJoinMessage) : outcome (list Z) :=
  wr_run (32 + 20 + 8 + 4 + len (gj_Signature m)) (
    wr_copy (gj_GroupID m) ;;; wr_adv 32 ;;;
    wr_copy (gj_MemberAddr m) ;;; wr_adv 20 ;;;
    wr_uint 8 (gj_Timestamp m) ;;; wr_adv 8 ;;;
    wr_uint 4 (u32 (len (gj_Signature m))) ;;; wr_adv 4 ;;;
    wr_copy (gj_Signature m)).

Definition GroupJoin_rd : rd GroupJoinMessage :=
  gid ← rd_copy 32;
  member ← rd_copy 20;
  timestamp ← rd_uint 8;
  sigLen ← rd_uint 4;
  signature ← rd_copy sigLen;
  mret (mkGroupJoin gid member timestamp signature).
Definition GroupJoin_Decode : slice → outcome GroupJoinMessage := rd_run GroupJoin_rd.

Definition GroupJoin_signed (m : GroupJoinMessage) : list Z :=
  gj_GroupID m ++ gj_MemberAddr m ++ be_put 8 (gj_Timestamp m).
Definition GroupJoin_layout (m : GroupJoinMessage) : list Z :=
  gj_GroupID m ++ gj_MemberAddr m ++ be_put 8 (gj_Timestamp m) ++
  be_put 4 (len (gj_Signature m)) ++ gj_Signature m.

#[export] Program Instance GroupJoin_wire : Wire GroupJoinMessage := {|
  wire_wf := GroupJoin_wf; wire_layout := GroupJoin_layout;
  wire_encode := GroupJoin_Encode; wire_decode := GroupJoin_Decode |}.
Next Obligation.
  intros m (?&?&?&?). unfold GroupJoin_Encode, GroupJoin_layout. wire_encode.
Qed.
Next Obligation.
  intros [] rest spare (?&?&?&?). apply rd_run_reads. read_steps; wire_leaf.
Qed.
Next Obligation.
  intros s m. apply yields_run. unfold GroupJoin_rd. yield_steps. apply yields_ret.
  split_and!; eauto using array_blob.
Qed.

Lemma GroupJoin_EncodeForSigning_signed m :
  GroupJoin_wf m → GroupJoin_EncodeForSigning m = Ok (GroupJoin_signed m).
Proof.
  intros (?&?&?&?). unfold GroupJoin_EncodeForSigning, GroupJoin_signed. wire_encode.
Qed.

(** *** GroupLeaveMessage *)

Record GroupLeaveMessage := mkGroupLeave {
  gl_GroupID : list Z; gl_MemberAddr : list Z; gl_Timestamp : Z; gl_Signature : list Z }.

Definition GroupLeave_wf (m : GroupLeaveMessage) : Prop :=
  array 32 (gl_GroupID m) ∧ array 20 (gl_MemberAddr m) ∧ in_range 64 (gl_Timestamp m) ∧
  blob (gl_Signature m).

Definition GroupLeave_EncodeForSigning (m : GroupLeaveMessage) : outcome (list Z) :=
  wr_run (32 + 20 + 8) (
    wr_copy (gl_GroupID m) ;;; wr_adv 32 ;;;
    wr_copy (gl_MemberAddr m) ;;; wr_adv 20 ;;;
    wr_uint 8 (gl_Timestamp m)).

Definition GroupLeave_Encode (m : GroupLeaveMessage) : outcome (list Z) :=
  wr_run (32 + 20 + 8 + 4 + len (gl_Signature m)) (
    wr_copy (gl_GroupID m) ;;; wr_adv 32 ;;;
    wr_copy (gl_MemberAddr m) ;;; wr_adv 20 ;;;
    wr_uint 8 (gl_Timestamp m) ;;; wr_adv 8 ;;;
    wr_uint 4 (u32 (len (gl_Signature m))) ;;; wr_adv 4 ;;;
    wr_copy (gl_Signature m)).

Definition GroupLeave_rd : rd GroupLeaveMessage :=
  gid ← rd_copy 32;
  member ← rd_copy 20;
  timestamp ← rd_uint 8;
  sigLen ← rd_uint 4;
  signature ← rd_copy sigLen;
  mret (mkGroupLeave gid member timestamp signature).
Definition GroupLeave_Decode : slice → outcome GroupLeaveMessage := rd_run GroupLeave_rd.

Definition GroupLeave_signed (m : GroupLeaveMessage) : list Z :=
  gl_GroupID m ++ gl_MemberAddr m ++ be_put 8 (gl_Timestamp m).
Definition GroupLeave_layout (m : GroupLeaveMessage) : list Z :=
  gl_GroupID m ++ gl_MemberAddr m ++ be_put 8 (gl_Timestamp m) ++
  be_put 4 (len (gl_Signature m)) ++ gl_Signature m.

#[export] Program Instance GroupLeave_wire : Wire GroupLeaveMessage := {|
  wire_wf := GroupLeave_wf; wire_layout := GroupLeave_layout;
  wire_encode := GroupLeave_Encode; wire_decode := GroupLeave_Decode |}.
Next Obligation.
  intros m (?&?&?&?). unfold GroupLeave_Encode, GroupLeave_layout. wire_encode.
Qed.
Next Obligation.
  intros [] rest spare (?&?&?&?). apply rd_run_reads. read_steps; wire_leaf.
Qed.
Next Obligation.
  intros s m. apply yields_run. unfold GroupLeave_rd. yield_steps. apply yields_ret.
  split_and!; eauto using array_blob.
Qed.

Lemma GroupLeave_EncodeForSigning_signed m :
  GroupLeave_wf m → GroupLeave_EncodeForSigning m = Ok (GroupLeave_signed m).
Proof.
  intros (?&?&?&?). unfold GroupLeave_EncodeForSigning, GroupLeave_signed. wire_encode.
Qed.

(** *** GroupUpdateMessage *)

Record GroupUpdateMessage := mkGroupUpdate {
  gu_GroupID : list Z; gu_UpdateType : Z; gu_UpdatedBy : list Z; gu_Timestamp : Z;
  gu_NewGroupName : list Z; gu_MemberAddr : list Z; gu_Signature : list Z }.

Definition GroupUpdate_wf (m : GroupUpdateMessage) : Prop :=
  array 32 (gu_GroupID m) ∧ is_byte (gu_UpdateType m) ∧ array 20 (gu_UpdatedBy m) ∧
  in_range 64 (gu_Timestamp m) ∧ blob (gu_NewGroupName m) ∧ array 20 (gu_MemberAddr m) ∧
  blob (gu_Signature m).
#[export] Instance GroupUpdate_wf_dec m : Decision (GroupUpdate_wf m).
Proof. unfold GroupUpdate_wf. apply _. Defined.

Definition GroupUpdate_EncodeForSigning (m : GroupUpdateMessage) : outcome (list Z) :=
  wr_run (32 + 1 + 20 + 8 + 4 + len (gu_NewGroupName m) + 20) (
    wr_copy (gu_GroupID m) ;;; wr_adv 32 ;;;
    wr_byte (gu_UpdateType m) ;;; wr_adv 1 ;;;
    wr_copy (gu_UpdatedBy m) ;;; wr_adv 20 ;;;
    wr_uint 8 (gu_Timestamp m) ;;; wr_adv 8 ;;;
    wr_uint 4 (u32 (len (gu_NewGroupName m))) ;;; wr_adv 4 ;;;
    wr_copy (gu_NewGroupName m) ;;; wr_adv (len (gu_NewGroupName m)) ;;;
    wr_copy (gu_MemberAddr m)).

Definition GroupUpdate_Encode (m : GroupUpdateMessage) : outcome (list Z) :=
  wr_run (32 + 1 + 20 + 8 + 4 + len (gu_NewGroupName m) + 20 + 4 + len (gu_Signature m)) (
    wr_copy (gu_GroupID m) ;;; wr_adv 32 ;;;
    wr_byte (gu_UpdateType m) ;;; wr_adv 1 ;;;
    wr_copy (gu_UpdatedBy m) ;;; wr_adv 20 ;;;
    wr_uint 8 (gu_Timestamp m) ;;; wr_adv 8 ;;;
    wr_uint 4 (u32 (len (gu_NewGroupName m))) ;;; wr_adv 4 ;;;
    wr_copy (gu_NewGroupName m) ;;; wr_adv (len (gu_NewGroupName m)) ;;;
    wr_copy (gu_MemberAddr m) ;;; wr_adv 20 ;;;
    wr_uint 4 (u32 (len (gu_Signature m))) ;;; wr_adv 4 ;;;
    wr_copy (gu_Signature m)).

Definition GroupUpdate_rd : rd GroupUpdateMessage :=
  gid ← rd_copy 32;
  updateType ← rd_byte;
  updatedBy ← rd_copy 20;
  timestamp ← rd_uint 8;
  nameLen ← rd_uint 4;
  name ← rd_copy nameLen;
  member ← rd_copy 20;
  sigLen ← rd_uint 4;
  signature ← rd_copy sigLen;
  mret (mkGroupUpdate gid updateType updatedBy timestamp name member signature).
Definition GroupUpdate_Decode : slice → outcome GroupUpdateMessage := rd_run GroupUpdate_rd.

Definition GroupUpdate_signed (m : GroupUpdateMessage) : list Z :=
  gu_GroupID m ++ [gu_UpdateType m] ++ gu_UpdatedBy m ++ be_put 8 (gu_Timestamp m) ++
  be_put 4 (len (gu_NewGroupName m)) ++ gu_NewGroupName m ++ gu_MemberAddr m.
Definition GroupUpdate_layout (m : GroupUpdateMessage) : list Z :=
  gu_GroupID m ++ [gu_UpdateType m] ++ gu_UpdatedBy m ++ be_put 8 (gu_Timestamp m) ++
  be_put 4 (len (gu_NewGroupName m)) ++ gu_NewGroupName m ++ gu_MemberAddr m ++
  be_put 4 (len (gu_Signature m)) ++ gu_Signature m.

#[export] Program Instance GroupUpdate_wire : Wire GroupUpdateMessage := {|
  wire_wf := GroupUpdate_wf; wire_layout := GroupUpdate_layout;
  wire_encode := GroupUpdate_Encode; wire_decode := GroupUpdate_Decode |}.
Next Obligation.
  intros m (?&?&?&?&?&?&?). unfold GroupUpdate_Encode, GroupUpdate_layout. wire_encode.
Qed.
Next Obligation.
  intros [] rest spare (?&?&?&?&?&?&?). apply rd_run_reads. read_steps; wire_leaf.
Qed.
Next Obligation.
  intros s m. apply yields_run. unfold GroupUpdate_rd. yield_steps. apply yields_ret.
  split_and!; eauto using array_blob.
Qed.

Lemma GroupUpdate_EncodeForSigning_signed m :
  GroupUpdate_wf m → GroupUpdate_EncodeForSigning m = Ok (GroupUpdate_signed m).
Proof.
  intros (?&?&?&?&?&?&?). unfold GroupUpdate_EncodeForSigning, GroupUpdate_signed.
  wire_encode.
Qed.

(** ** routing.go *)

(** *** HandshakeMessage *)

Record HandshakeMessage := mkHandshake {
  hs_ProtocolVersion : Z; hs_Address : list Z; hs_PublicKey : list Z;
  hs_ClientType : Z; hs_Timestamp : Z; hs_Signature : list Z }.

Definition Handshake_wf (m : HandshakeMessage) : Prop :=
  in_range 16 (hs_ProtocolVersion m) ∧ array 20 (hs_Address m) ∧ blob (hs_PublicKey m) ∧
  is_byte (hs_ClientType m) ∧ in_range 64 (hs_Timestamp m) ∧ blob (hs_Signature m).
#[export] Instance Handshake_wf_dec m : Decision (Handshake_wf m).
Proof. unfold Handshake_wf. apply _. Defined.

Definition Handshake_Encode (m : HandshakeMessage) : outcome (list Z) :=
  wr_run (2 + 20 + 4 + len (hs_PublicKey m) + 1 + 8 + 4 + len (hs_Signature m)) (
    wr_uint 2 (hs_ProtocolVersion m) ;;; wr_adv 2 ;;;
    wr_copy (hs_Address m) ;;; wr_adv 20 ;;;
    wr_uint 4 (u32 (len (hs_PublicKey m))) ;;; wr_adv 4 ;;;
    wr_copy (hs_PublicKey m) ;;; wr_adv (len (hs_PublicKey m)) ;;;
    wr_byte (hs_ClientType m) ;;; wr_adv 1 ;;;
    wr_uint 8 (hs_Timestamp m) ;;; wr_adv 8 ;;;
    wr_uint 4 (u32 (len (hs_Signature m))) ;;; wr_adv 4 ;;;
    wr_copy (hs_Signature m)).

Definition Handshake_rd : rd HandshakeMessage :=
  version ← rd_uint 2;
  address ← rd_copy 20;
  pkLen ← rd_uint 4;
  pk ← rd_copy pkLen;
  clientType ← rd_byte;
  timestamp ← rd_uint 8;
  sigLen ← rd_uint 4;
  signature ← rd_copy sigLen;
  mret (mkHandshake version address pk clientType timestamp signature).
Definition Handshake_Decode : slice → outcome HandshakeMessage := rd_run Handshake_rd.

Definition Handshake_layout (m : HandshakeMessage) : list Z :=
  be_put 2 (hs_ProtocolVersion m) ++ hs_Address m ++
  be_put 4 (len (hs_PublicKey m)) ++ hs_PublicKey m ++ [hs_ClientType m] ++
  be_put 8 (hs_Timestamp m) ++ be_put 4 (len (hs_Signature m)) ++ hs_Signature m.

Lemma Handshake_reads m : Handshake_wf m → reads Handshake_rd (Handshake_layout m) m.
Proof. destruct m. intros (?&?&?&?&?&?). read_steps; wire_leaf. Qed.
Lemma Handshake_starves m : Handshake_wf m → starves Handshake_rd (Handshake_layout m).
Proof. destruct m. intros (?&?&?&?&?&?). starve_steps; wire_leaf. Qed.

#[export] Program Instance Handshake_wire : Wire HandshakeMessage := {|
  wire_wf := Handshake_wf; wire_layout := Handshake_layout;
  wire_encode := Handshake_Encode; wire_decode := Handshake_Decode |}.
Next Obligation.
  intros m (?&?&?&?&?&?). unfold Handshake_Encode, Handshake_layout. wire_encode.
Qed.
Next Obligation. intros. by apply rd_run_reads, Handshake_reads. Qed.
Next Obligation.
  intros s m. apply yields_run. unfold Handshake_rd. yield_steps. apply yields_ret.
  split_and!; eauto using array_blob.
Qed.

(** *** RelayForward *)

Record RelayForward := mkRelayForward {
  rf_NextHop : list Z; rf_TTL : Z; rf_Payload : list Z; rf_PayloadHash : list Z }.

Definition RelayForward_wf (m : RelayForward) : Prop :=
  array 20 (rf_NextHop m) ∧ is_byte (rf_TTL m) ∧ blob (rf_Payload m) ∧
  array 32 (rf_PayloadHash m).

Definition RelayForward_Encode (m : RelayForward) : outcome (list Z) :=
  wr_run (20 + 1 + 4 + len (rf_Payload m) + 32) (
    wr_copy (rf_NextHop m) ;;; wr_adv 20 ;;;
    wr_byte (rf_TTL m) ;;; wr_adv 1 ;;;
    wr_uint 4 (u32 (len (rf_Payload m))) ;;; wr_adv 4 ;;;
    wr_copy (rf_Payload m) ;;; wr_adv (len (rf_Payload m)) ;;;
    wr_copy (rf_PayloadHash m)).

Definition RelayForward_rd : rd RelayForward :=
  nextHop ← rd_copy 20;
  ttl ← rd_byte;
  payloadLen ← rd_uint 4;
  payload ← rd_copy payloadLen;
  hash ← rd_copy 32;
  mret (mkRelayForward nextHop ttl payload hash).
Definition RelayForward_Decode : slice → outcome RelayForward := rd_run RelayForward_rd.

Definition RelayForward_layout (m : RelayForward) : list Z :=
  rf_NextHop m ++ [rf_TTL m] ++ be_put 4 (len (rf_Payload m)) ++ rf_Payload m ++
  rf_PayloadHash m.

#[export] Program Instance RelayForward_wire : Wire RelayForward := {|
  wire_wf := RelayForward_wf; wire_layout := RelayForward_layout;
  wire_encode := RelayForward_Encode; wire_decode := RelayForward_Decode |}.
Next Obligation.
  intros m (?&?&?&?). unfold RelayForward_Encode, RelayForward_layout. wire_encode.
Qed.
Next Obligation.
  intros [] rest spare (?&?&?&?). apply rd_run_reads. read_steps; wire_leaf.
Qed.
Next Obligation.
  intros s m. apply yields_run. unfold RelayForward_rd. yield_steps. apply yields_ret.
  split_and!; eauto using array_blob.
Qed.

(** ** profile.go *)

Record ProfileUpdate := mkProfileUpdate {
  pu_Address : list Z; pu_Username : list Z; pu_AvatarChunkID : Z; pu_AvatarKey : list Z;
  pu_Bio : list Z; pu_PublicKey : list Z; pu_Timestamp : Z; pu_Signature : list Z }.

Definition ProfileUpdate_wf (m : ProfileUpdate) : Prop :=
  array 20 (pu_Address m) ∧ array 32 (pu_Username m) ∧ in_range 64 (pu_AvatarChunkID m) ∧
  array 32 (pu_AvatarKey m) ∧ array 256 (pu_Bio m) ∧ blob (pu_PublicKey m) ∧
  in_range 64 (pu_Timestamp m) ∧ blob (pu_Signature m).
#[export] Instance ProfileUpdate_wf_dec m : Decision (ProfileUpdate_wf m).
Proof. unfold ProfileUpdate_wf. apply _. Defined.

Definition ProfileUpdate_EncodeForSigning (m : ProfileUpdate) : outcome (list Z) :=
  wr_run (20 + 32 + 8 + 32 + 256 + 4 + len (pu_PublicKey m) + 8) (
    wr_copy (pu_Address m) ;;; wr_adv 20 ;;;
    wr_copy (pu_Username m) ;;; wr_adv 32 ;;;
    wr_uint 8 (pu_AvatarChunkID m) ;;; wr_adv 8 ;;;
    wr_copy (pu_AvatarKey m) ;;; wr_adv 32 ;;;
    wr_copy (pu_Bio m) ;;; wr_adv 256 ;;;
    wr_uint 4 (u32 (len (pu_PublicKey m))) ;;; wr_adv 4 ;;;
    wr_copy (pu_PublicKey m) ;;; wr_adv (len (pu_PublicKey m)) ;;;
    wr_uint 8 (pu_Timestamp m)).

Definition ProfileUpdate_Encode (m : ProfileUpdate) : outcome (list Z) :=
  wr_run (20 + 32 + 8 + 32 + 256 + 4 + len (pu_PublicKey m) + 8 + 4 + len (pu_Signature m)) (
    wr_copy (pu_Address m) ;;; wr_adv 20 ;;;
    wr_copy (pu_Username m) ;;; wr_adv 32 ;;;
    wr_uint 8 (pu_AvatarChunkID m) ;;; wr_adv 8 ;;;
    wr_copy (pu_AvatarKey m) ;;; wr_adv 32 ;;;
    wr_copy (pu_Bio m) ;;; wr_adv 256 ;;;
    wr_uint 4 (u32 (len (pu_PublicKey m))) ;;; wr_adv 4 ;;;
    wr_copy (pu_PublicKey m) ;;; wr_adv (len (pu_PublicKey m)) ;;;
    wr_uint 8 (pu_Timestamp m) ;;; wr_adv 8 ;;;
    wr_uint 4 (u32 (len (pu_Signature m))) ;;; wr_adv 4 ;;;
    wr_copy (pu_Signature m)).

Definition ProfileUpdate_rd : rd ProfileUpdate :=
  address ← rd_copy 20;
  username ← rd_copy 32;
  chunk ← rd_uint 8;
  key ← rd_copy 32;
  bio ← rd_copy 256;
  pkLen ← rd_uint 4;
  pk ← rd_copy pkLen;
  timestamp ← rd_uint 8;
  sigLen ← rd_uint 4;
  signature ← rd_copy sigLen;
  mret (mkProfileUpdate address username chunk key bio pk timestamp signature).
Definition ProfileUpdate_Decode : slice → outcome ProfileUpdate := rd_run ProfileUpdate_rd.

Definition ProfileUpdate_signed (m : ProfileUpdate) : list Z :=
  pu_Address m ++ pu_Username m ++ be_put 8 (pu_AvatarChunkID m) ++ pu_AvatarKey m ++
  pu_Bio m ++ be_put 4 (len (pu_PublicKey m)) ++ pu_PublicKey m ++
  be_put 8 (pu_Timestamp m).
Definition ProfileUpdate_layout (m : ProfileUpdate) : list Z :=
  pu_Address m ++ pu_Username m ++ be_put 8 (pu_AvatarChunkID m) ++ pu_AvatarKey m ++
  pu_Bio m ++ be_put 4 (len (pu_PublicKey m)) ++ pu_PublicKey m ++
  be_put 8 (pu_Timestamp m) ++ be_put 4 (len (pu_Signature m)) ++ pu_Signature m.

#[export] Program Instance ProfileUpdate_wire : Wire ProfileUpdate := {|
  wire_wf := ProfileUpdate_wf; wire_layout := ProfileUpdate_layout;
  wire_encode := ProfileUpdate_Encode; wire_decode := ProfileUpdate_Decode |}.
Next Obligation.
  intros m (?&?&?&?&?&?&?&?). unfold ProfileUpdate_Encode, ProfileUpdate_layout.
  wire_encode.
Qed.
Next Obligation.
  intros [] rest spare (?&?&?&?&?&?&?&?). apply rd_run_reads. read_steps; wire_leaf.
Qed.
Next Obligation.
  intros s m. apply yields_run. unfold ProfileUpdate_rd. yield_steps. apply yields_ret.
  split_and!; eauto using array_blob.
Qed.

Lemma ProfileUpdate_EncodeForSigning_signed m :
  ProfileUpdate_wf m → ProfileUpdate_EncodeForSigning m = Ok (ProfileUpdate_signed m).
Proof.
  intros (?&?&?&?&?&?&?&?). unfold ProfileUpdate_EncodeForSigning, ProfileUpdate_signed.
  wire_encode.
Qed.

(** ** presence.go *)

Record TypingIndicator := mkTyping {
  ti_From : list Z; ti_To : list Z; ti_Timestamp : Z; ti_IsTyping : bool }.

Definition Typing_wf (t : TypingIndicator) : Prop :=
  array 20 (ti_From t) ∧ array 20 (ti_To t) ∧ in_range 64 (ti_Timestamp t).

Definition Typing_Encode (t : TypingIndicator) : outcome (list Z) :=
  wr_run (1 + 20 + 20 + 8 + 1) (
    wr_byte 0x01 ;;; wr_adv 1 ;;;
    wr_copy (ti_From t) ;;; wr_adv 20 ;;;
    wr_copy (ti_To t) ;;; wr_adv 20 ;;;
    wr_uint 8 (ti_Timestamp t) ;;; wr_adv 8 ;;;
    wr_byte (if ti_IsTyping t then 1 else 0)).

Definition Typing_rd : rd TypingIndicator :=
  kind ← rd_byte;
  _ ← rd_guard (kind =? 0x01) "invalid message type for typing indicator";
  from ← rd_copy 20;
  to ← rd_copy 20;
  timestamp ← rd_uint 8;
  typing ← rd_byte;
  mret (mkTyping from to timestamp (typing =? 1)).
Definition Typing_Decode : slice → outcome TypingIndicator :=
  rd_run (_ ← rd_need 50 "buffer too short for typing indicator"; Typing_rd).

Definition Typing_layout (t : TypingIndicator) : list Z :=
  [1] ++ ti_From t ++ ti_To t ++ be_put 8 (ti_Timestamp t) ++
  [if ti_IsTyping t then 1 else 0].

#[export] Program Instance Typing_wire : Wire TypingIndicator := {|
  wire_wf := Typing_wf; wire_layout := Typing_layout;
  wire_encode := Typing_Encode; wire_decode := Typing_Decode |}.
Next Obligation.
  intros m (?&?&?). unfold Typing_Encode, Typing_layout. wire_encode.
Qed.
Next Obligation.
  intros [from to ts typ] rest spare (?&?&?). unfold Typing_Decode.
  rewrite rd_run_need_ok by (unfold Typing_layout; wire_size).
  apply rd_run_reads. unfold Typing_rd, Typing_layout; simpl ti_From; simpl ti_To.
  eapply reads_bind; [reflexivity|apply reads_byte|].
  eapply reads_bind; [symmetry; apply app_nil_l|apply reads_guard|].
  cbn [ti_From ti_To ti_Timestamp] in *. destruct typ; read_steps; wire_leaf.
Qed.
Next Obligation.
  intros s m. apply yields_run. unfold Typing_rd. yield_steps. apply yields_ret.
  by split_and!.
Qed.

Lemma Typing_Decode_safe s : slice_bytes s → Typing_Decode s ≠ Panic.
Proof. intros. apply fits_run; [done|]. unfold Typing_rd. fit_steps. Qed.

(** ** What the signatures cover *)

Definition strip_update (m : GroupUpdateMessage) : GroupUpdateMessage :=
  mkGroupUpdate (gu_GroupID m) (gu_UpdateType m) (gu_UpdatedBy m) (gu_Timestamp m)
    (gu_NewGroupName m) (gu_MemberAddr m) [].
Definition strip_profile (m : ProfileUpdate) : ProfileUpdate :=
  mkProfileUpdate (pu_Address m) (pu_Username m) (pu_AvatarChunkID m) (pu_AvatarKey m)
    (pu_Bio m) (pu_PublicKey m) (pu_Timestamp m) [].

Lemma blob_nil : blob [].
Proof. split; [constructor|unfold in_range, len; simpl; lia]. Qed.

Lemma strip_update_layout m :
  GroupUpdate_layout (strip_update m) = GroupUpdate_signed m ++ be_put 4 0.
Proof.
  unfold GroupUpdate_layout, GroupUpdate_signed. cbn -[be_put len app].
  by rewrite <- !app_assoc, app_nil_r.
Qed.

Lemma GroupUpdate_signed_inj m1 m2 :
  GroupUpdate_wf m1 → GroupUpdate_wf m2 →
  GroupUpdate_signed m1 = GroupUpdate_signed m2 → strip_update m1 = strip_update m2.
Proof.
  intros H1 H2 E. apply (wire_prefix_free _ _ [] []).
  1,2: unfold wire_wf, GroupUpdate_wire, GroupUpdate_wf in *; simpl in *;
    destruct_and!; split_and!; try done; apply blob_nil.
  cbn [wire_layout GroupUpdate_wire]. by rewrite !strip_update_layout, E.
Qed.

Lemma strip_profile_layout m :
  ProfileUpdate_layout (strip_profile m) = ProfileUpdate_signed m ++ be_put 4 0.
Proof.
  unfold ProfileUpdate_layout, ProfileUpdate_signed. cbn -[be_put len app].
  by rewrite <- !app_assoc, app_nil_r.
Qed.

Lemma ProfileUpdate_signed_inj m1 m2 :
  ProfileUpdate_wf m1 → ProfileUpdate_wf m2 →
  ProfileUpdate_signed m1 = ProfileUpdate_signed m2 → strip_profile m1 = strip_profile m2.
Proof.
  intros H1 H2 E. apply (wire_prefix_free _ _ [] []).
  1,2: unfold wire_wf, ProfileUpdate_wire, ProfileUpdate_wf in *; simpl in *;
    destruct_and!; split_and!; try done; apply blob_nil.
  cbn [wire_layout ProfileUpdate_wire]. by rewrite !strip_profile_layout, E.
Qed.
