(* ===== verification/Padding.v ===== *)
(** * Traffic-analysis padding: pkg/protocol/padding.go and pkg/crypto/padding.go

    Two copies of the padding scheme exist (the protocol package avoids an
    import cycle).  Randomness is an argument: [r1] is the byte drawn for the
    random length, [fill n] the [n] bytes drawn to fill the padding; [None] is
    a failing [rand.Read]. *)

From S2P Require Import Prelude GoBytes Wire.

Definition PaddingNone : Z := 0.
Definition PaddingFixedSize : Z := 1.
Definition PaddingRandom : Z := 2.

Definition CellSize512 : Z := 512.
Definition CellSize1024 : Z := 1024.
Definition CellSize4096 : Z := 4096.
Definition CellSize8192 : Z := 8192.

Definition rand_failed : string := "rand: read failed".

(** The cell-size switch, written out at three places of the source. *)
Definition fixed_target (originalLen : Z) : Z :=
  if originalLen <=? CellSize512 then CellSize512
  else if originalLen <=? CellSize1024 then CellSize1024
  else if originalLen <=? CellSize4096 then CellSize4096
  else if originalLen <=? CellSize8192 then CellSize8192
  else Z.quot (originalLen + CellSize8192 - 1) CellSize8192 * CellSize8192.

(** [padded := make([]byte, targetSize); copy(padded, message);
    rand.Read(padded[originalLen:])] *)
Definition pad_to (message : slice) (targetSize : Z) (fill : Z → option (list Z))
  (e : string) : outcome (slice * Z) :=
  match fill (targetSize - slen message) with
  | Some r => Ok (mk_slice (sdata message ++ r), slen message)
  | None => Err (e +:+ rand_failed)
  end.

(** ** pkg/crypto/padding.go *)

Definition addFixedSizePadding (message : slice) (fill : Z → option (list Z))
  : outcome (slice * Z) :=
  let originalLen := slen message in
  let targetSize := fixed_target originalLen in
  let paddingLen := targetSize - originalLen in
  if paddingLen =? 0 then Ok (message, originalLen)
  else pad_to message targetSize fill "failed to generate padding: ".

Definition addRandomPadding (message : slice) (r1 : option Z) (fill : Z → option (list Z))
  : outcome (slice * Z) :=
  let originalLen := slen message in
  match r1 with
  | None => Err ("failed to generate random length: " +:+ rand_failed)
  | Some paddingLen =>
      if 0 <? paddingLen then
        pad_to message (originalLen + paddingLen) fill "failed to generate padding: "
      else Ok (mk_slice (sdata message), originalLen)
  end.

Definition AddPadding (message : slice) (scheme : Z) (r1 : option Z)
  (fill : Z → option (list Z)) : outcome (slice * Z) :=
  if scheme =? PaddingNone then Ok (message, slen message)
  else if scheme =? PaddingFixedSize then addFixedSizePadding message fill
  else if scheme =? PaddingRandom then addRandomPadding message r1 fill
  else Err ("unknown padding scheme: " +:+ pretty scheme).

Definition RemovePadding (padded : slice) (originalLen : Z) : outcome slice :=
  if slen padded <? originalLen then Err "invalid padding"
  else if originalLen <? 0 then Err "invalid padding"
  else reslice padded 0 originalLen.

Definition EstimatePaddedSize (messageLen scheme : Z) : Z :=
  if scheme =? PaddingNone then messageLen
  else if scheme =? PaddingFixedSize then fixed_target messageLen
  else if scheme =? PaddingRandom then messageLen + 128
  else messageLen.

(** ** pkg/protocol/padding.go *)

Definition addPadding (message : slice) (scheme : Z) (r1 : option Z)
  (fill : Z → option (list Z)) : outcome (slice * Z) :=
  let originalLen := slen message in
  if scheme =? PaddingNone then Ok (message, originalLen)
  else
    targetSize ←
      (if scheme =? PaddingFixedSize then Ok (fixed_target originalLen)
       else match r1 with
            | None => Err rand_failed
            | Some b => Ok (originalLen + b)
            end);
    let paddingLen := targetSize - originalLen in
    if paddingLen =? 0 then Ok (message, originalLen)
    else pad_to message targetSize fill "".

Definition removePadding (padded : slice) (originalLen : Z) : outcome slice :=
  if (slen padded <? originalLen) || (originalLen <? 0) then Err "invalid padding length"
  else reslice padded 0 originalLen.

Definition repack (h : Header) (length flags : Z) : Header :=
  mkHeader (h_Magic h) (h_Version h) (h_Type h) length flags (h_MessageID h)
    (h_Reserved h).

Definition AddMessagePadding (msg : Message) (scheme : Z) (r1 : option Z)
  (fill : Z → option (list Z)) : outcome Message :=
  if scheme =? PaddingNone then Ok msg
  else
    '(paddedPayload, originalLen) ←
      wrap_err "failed to add padding: " (addPadding (msg_Payload msg) scheme r1 fill);
    let paddedData := be_put 4 (u32 originalLen) ++ sdata paddedPayload in
    Ok (mkMessage
      (repack (msg_Header msg) (u32 (len paddedData))
        (Z.lor (h_Flags (msg_Header msg)) FlagPadded))
      (mk_slice paddedData)).

Definition RemoveMessagePadding (msg : Message) : outcome Message :=
  if negb (Header_HasFlag (msg_Header msg) FlagPadded) then Ok msg
  else if slen (msg_Payload msg) <? 4 then Err "padded message too short"
  else
    let originalLen := be_get (take 4 (sdata (msg_Payload msg))) in
    let paddedPayload :=
      Slice (drop 4 (sdata (msg_Payload msg))) (sspare (msg_Payload msg)) in
    originalPayload ←
      wrap_err "failed to remove padding: " (removePadding paddedPayload originalLen);
    Ok (mkMessage
      (repack (msg_Header msg) (u32 (slen originalPayload))
        (Z.ldiff (h_Flags (msg_Header msg)) FlagPadded))
      originalPayload).

Definition ShouldPadMessage (msgType : Z) : bool :=
  if bool_decide (msgType ∈ [MsgTypeDirectMessage; MsgTypeGroupMessage]) then true
  else if msgType =? MsgTypeRelayForward then false
  else if bool_decide (msgType ∈ [MsgTypeHandshake; MsgTypeHandshakeAck]) then true
  else if bool_decide (msgType ∈ [MsgTypePing; MsgTypePong]) then false
  else true.

Definition GetRecommendedPaddingScheme (msgType : Z) : Z :=
  if bool_decide (msgType ∈ [MsgTypeDirectMessage; MsgTypeGroupMessage]) then PaddingFixedSize
  else if bool_decide (msgType ∈ [MsgTypeHandshake; MsgTypeHandshakeAck]) then PaddingFixedSize
  else if bool_decide (msgType ∈ [MsgTypeMediaUpload; MsgTypeMediaDownload]) then PaddingRandom
  else PaddingFixedSize.

(** ** Facts *)

Lemma fixed_target_ge n : 0 ≤ n → n ≤ fixed_target n.
Proof.
  intros Hn. unfold fixed_target, CellSize512, CellSize1024, CellSize4096, CellSize8192.
  repeat case_match; rewrite ?Z.leb_le, ?Z.leb_gt in *; try lia.
  rewrite Z.quot_div_nonneg by lia.
  pose proof (Z.div_mod (n + 8192 - 1) 8192). pose proof (Z.mod_pos_bound (n + 8192 - 1) 8192).
  lia.
Qed.

(** a size the fixed scheme can produce *)
Definition is_cell (c : Z) : Prop :=
  c = 512 ∨ c = 1024 ∨ c = 4096 ∨ (∃ k, 0 < k ∧ c = 8192 * k).

Lemma fixed_target_cell n : 0 ≤ n → is_cell (fixed_target n).
Proof.
  intros Hn. unfold is_cell, fixed_target, CellSize512, CellSize1024, CellSize4096,
    CellSize8192.
  repeat case_match; rewrite ?Z.leb_le, ?Z.leb_gt in *;
    [by left|by right; left|by right; right; left|..].
  - do 3 right. exists 1. lia.
  - do 3 right. eexists. rewrite Z.mul_comm. split; [|done].
    rewrite Z.quot_div_nonneg by lia. apply Z.div_str_pos. lia.
Qed.

Lemma fixed_target_least n c : 0 ≤ n → is_cell c → n ≤ c → fixed_target n ≤ c.
Proof.
  intros Hn Hc Hle. unfold is_cell, fixed_target, CellSize512, CellSize1024, CellSize4096,
    CellSize8192 in *.
  destruct Hc as [->|[->|[->|(k&Hk&->)]]];
    repeat case_match; rewrite ?Z.leb_le, ?Z.leb_gt in *; try lia.
  rewrite Z.quot_div_nonneg by lia.
  assert ((n + 8192 - 1) / 8192 < k + 1); [|lia].
  apply Z.div_lt_upper_bound; lia.
Qed.

(** Every successful padding keeps the message as a prefix. *)
Lemma pad_to_prefix m t fill e p n :
  pad_to m t fill e = Ok (p, n) →
  n = slen m ∧ ∃ r, fill (t - slen m) = Some r ∧ p = mk_slice (sdata m ++ r).
Proof. unfold pad_to. case_match; [|done]. intros [= <- <-]. eauto. Qed.

Lemma addPadding_prefix m scheme r1 fill p n :
  addPadding m scheme r1 fill = Ok (p, n) →
  n = slen m ∧ ∃ r, sdata p = sdata m ++ r.
Proof.
  unfold addPadding. destruct (scheme =? PaddingNone).
  { intros [= <- <-]. split; [done|]. exists []. by rewrite app_nil_r. }
  intros (t & _ & H)%outcome_bind_ok. destruct (t - slen m =? 0).
  { injection H as <- <-. split; [done|]. exists []. by rewrite app_nil_r. }
  apply pad_to_prefix in H as (-> & r & _ & ->). eauto.
Qed.

Lemma padded_flag f : Z.ldiff (Z.lor f FlagPadded) FlagPadded = Z.ldiff f FlagPadded.
Proof.
  apply Z.bits_inj'. intros i Hi. rewrite !Z.ldiff_spec, Z.lor_spec.
  by destruct (Z.testbit f i), (Z.testbit FlagPadded i).
Qed.

Lemma has_padded_flag h l f : Header_HasFlag (repack h l (Z.lor f FlagPadded)) FlagPadded = true.
Proof.
  unfold Header_HasFlag. simpl. apply negb_true_iff, Z.eqb_neq. intros E.
  apply (f_equal (λ z, Z.testbit z 5)) in E.
  rewrite Z.land_spec, Z.lor_spec, Z.bits_0 in E. cbn in E.
  by rewrite orb_true_r in E.
Qed.

Lemma removePadding_prefix m r spare n :
  n = len m → removePadding (Slice (m ++ r) spare) n = Ok (Slice m (r ++ spare)).
Proof.
  intros ->. unfold removePadding, slen. cbn [sdata].
  pose proof (len_nonneg m). pose proof (len_nonneg r). pose proof (len_nonneg spare).
  replace (len (m ++ r) <? len m) with false by (rewrite len_app; lia).
  replace (len m <? 0) with false by lia. simpl.
  unfold reslice, scap. cbn [sdata sspare].
  rewrite bool_decide_true by (rewrite len_app; lia).
  rewrite Z.sub_0_r. unfold len. rewrite Nat2Z.id. simpl. rewrite <- app_assoc.
  change (Z.to_nat 0) with 0%nat. by rewrite drop_0, take_app_length, drop_app_length.
Qed.

(** What comes back after padding and unpadding. *)
Lemma remove_add_padding msg scheme r1 fill padded :
  in_range 32 (slen (msg_Payload msg)) → scheme ≠ PaddingNone →
  AddMessagePadding msg scheme r1 fill = Ok padded →
  ∃ spare, RemoveMessagePadding padded = Ok (mkMessage
    (repack (msg_Header msg) (slen (msg_Payload msg))
      (Z.ldiff (h_Flags (msg_Header msg)) FlagPadded))
    (Slice (sdata (msg_Payload msg)) spare)).
Proof.
  intros Hl Hs. unfold AddMessagePadding.
  replace (scheme =? PaddingNone) with false by lia.
  intros ([p n] & Hp & H)%outcome_bind_ok. apply Ok_inj in H as <-.
  destruct (addPadding _ _ _ _) as [[p' n']|?|] eqn:Ha; [|done..]. injection Hp as -> ->.
  apply addPadding_prefix in Ha as (-> & r & Hr). exists (r ++ []).
  unfold RemoveMessagePadding. cbn [msg_Header msg_Payload].
  rewrite has_padded_flag. cbn [negb]. set (d := be_put 4 _ ++ sdata p).
  assert (4 ≤ slen (mk_slice d)) as Hd.
  { change (slen (mk_slice d)) with (len d). unfold d. rewrite len_app, len_be_put.
    pose proof (len_nonneg (sdata p)). lia. }
  apply Z.ltb_ge in Hd. rewrite Hd.
  cbn [sdata mk_slice]. unfold d.
  rewrite take_app_le, take_ge by (rewrite length_be_put; lia).
  rewrite drop_app_ge by (rewrite length_be_put; lia). rewrite length_be_put.
  rewrite (u32_id (slen (msg_Payload msg)) Hl), be_get_put by done.
  rewrite Nat.sub_diag, drop_0, Hr.
  rewrite removePadding_prefix by done. cbn. unfold slen in *. cbn [sdata].
  rewrite (u32_id _ Hl). by rewrite padded_flag.
Qed.
