(* ===== verification/Ratchet.v ===== *)
(** * The double ratchet: pkg/protocol/ratchet.go

    State, key derivation, the DH ratchet and the symmetric chains.  SHA-256,
    HKDF and X25519 are not part of the repository: they are the operations of
    [RatchetOps], with the documented behaviour the protocol relies on in
    [RatchetLaws].  Randomness is an argument ([None]: [rand.Read] failed).
    Methods mutate the receiver before they can fail, so each returns the new
    state next to its outcome. *)

From S2P Require Import Prelude GoBytes Wire.

Class RatchetOps := {
  sha256 : list Z → list Z;
  (** [hkdf.New(sha256.New, ikm, salt, info)] read for [n] bytes *)
  hkdf_read : list Z → list Z → string → Z → option (list Z);
  x25519 : list Z → list Z → list Z;
  x25519_base : list Z → list Z;
}.

Class RatchetLaws `{RatchetOps} := {
  (** both sides of a Diffie-Hellman exchange compute the same value *)
  x25519_comm : ∀ a b, x25519 a (x25519_base b) = x25519 b (x25519_base a);
  sha256_length : ∀ l, length (sha256 l) = 32%nat;
  (** HKDF-SHA256 delivers up to 255 * 32 bytes *)
  hkdf_total : ∀ ikm salt info n, 0 ≤ n ≤ 8160 →
    ∃ out, hkdf_read ikm salt info n = Some out ∧ len out = n;
}.

Definition KDFRootInfo : string := "ZenTalk Double Ratchet Root".
Definition zero32 : list Z := replicate 32 0.

(** ** Message header *)

Record MessageHeader := mkMessageHeader {
  mh_DHPublicKey : list Z; mh_PreviousChainLen : Z; mh_MessageNum : Z }.

Definition MessageHeader_wf (h : MessageHeader) : Prop :=
  array 32 (mh_DHPublicKey h) ∧ in_range 32 (mh_PreviousChainLen h) ∧
  in_range 32 (mh_MessageNum h).

Definition MessageHeader_Encode (h : MessageHeader) : outcome (list Z) :=
  wr_run (32 + 4 + 4) (
    wr_copy (mh_DHPublicKey h) ;;; wr_adv 32 ;;;
    wr_uint 4 (mh_PreviousChainLen h) ;;; wr_adv 4 ;;;
    wr_uint 4 (mh_MessageNum h)).

Definition MessageHeader_rd : rd MessageHeader :=
  dh ← rd_copy 32;
  pn ← rd_uint 4;
  n ← rd_uint 4;
  mret (mkMessageHeader dh pn n).
Definition MessageHeader_Decode : slice → outcome MessageHeader :=
  rd_run (_ ← rd_need 40 "buffer too short for message header"; MessageHeader_rd).

Definition MessageHeader_layout (h : MessageHeader) : list Z :=
  mh_DHPublicKey h ++ be_put 4 (mh_PreviousChainLen h) ++ be_put 4 (mh_MessageNum h).

#[export] Program Instance MessageHeader_wire : Wire MessageHeader := {|
  wire_wf := MessageHeader_wf; wire_layout := MessageHeader_layout;
  wire_encode := MessageHeader_Encode; wire_decode := MessageHeader_Decode |}.
Next Obligation.
  intros m (?&?&?). unfold MessageHeader_Encode, MessageHeader_layout. wire_encode.
Qed.
Next Obligation.
  intros [] rest spare (?&?&?). unfold MessageHeader_Decode.
  rewrite rd_run_need_ok by (unfold MessageHeader_layout; wire_size).
  apply rd_run_reads. read_steps; wire_leaf.
Qed.
Next Obligation.
  intros s m. apply yields_run. unfold MessageHeader_rd. yield_steps. apply yields_ret.
  by split_and!.
Qed.

(** ** State *)

(** A skipped key is filed under the chain's DH key and the message number. *)
Notation skipped_keys := (gmap (list Z * Z) (list Z)).

Record RatchetState := mkRatchetState {
  RootKey : list Z;
  SendingChainKey : list Z; SendingMsgNum : Z;
  ReceivingChainKey : list Z; ReceivingMsgNum : Z;
  DHSendingPrivate : list Z; DHSendingPublic : list Z; DHReceivingPublic : list Z;
  PreviousChainLen : Z;
  SkippedMessageKeys : skipped_keys;
  LocalAddress : list Z; RemoteAddress : list Z }.

(** [copy(dst[:], src[:32])] into a 32-byte array *)
Definition copy32 (src : slice) : outcome (list Z) :=
  s ← reslice src 0 32; Ok (sdata s).

Section ratchet.
Context `{RatchetOps}.

(** ** Key derivation *)

Definition KDF_RK (rootKey dhOutput : list Z) : outcome (list Z * list Z) :=
  match hkdf_read dhOutput rootKey KDFRootInfo 64 with
  | Some output => Ok (take 32 output, take 32 (drop 32 output))
  | None => Err "hkdf: entropy limit reached"
  end.

(** new chain key, message key *)
Definition KDF_CK (chainKey : list Z) : list Z * list Z :=
  let messageKey := take 32 (sha256 (chainKey ++ [0x01])) in
  let newChainKey := take 32 (sha256 (chainKey ++ [0x02])) in
  (newChainKey, messageKey).

(** ** Diffie-Hellman *)

Definition GenerateDHKeyPair (rnd : option (list Z)) : outcome (list Z * list Z) :=
  match rnd with
  | Some private => Ok (private, x25519_base private)
  | None => Err "rand: read failed"
  end.

Definition DH (privateKey publicKey : list Z) : outcome (list Z) :=
  Ok (x25519 privateKey publicKey).

(** ** Initialisation *)

Definition NewRatchetState (sharedSecret : slice)
  (remoteDHPublic localDHPrivate localDHPublic localAddr remoteAddr : list Z)
  : outcome RatchetState :=
  root ← copy32 sharedSecret;
  dhOutput ← wrap_err "initial DH failed: " (DH localDHPrivate remoteDHPublic);
  '(newRootKey, sendingChainKey) ← wrap_err "initial KDF failed: " (KDF_RK root dhOutput);
  Ok (mkRatchetState newRootKey sendingChainKey 0 zero32 0
        localDHPrivate localDHPublic remoteDHPublic 0 ∅ localAddr remoteAddr).

Definition NewRatchetStateReceiver (sharedSecret : slice)
  (localDHPrivate localDHPublic localAddr remoteAddr : list Z) : outcome RatchetState :=
  root ← copy32 sharedSecret;
  Ok (mkRatchetState root zero32 0 zero32 0
        localDHPrivate localDHPublic zero32 0 ∅ localAddr remoteAddr).

(** ** Steps *)

(** The state updates of [DHRatchet], between its fallible calls. *)
Definition dh_reset (s : RatchetState) (remoteDHPublic : list Z) : RatchetState :=
  mkRatchetState (RootKey s) (SendingChainKey s) 0 (ReceivingChainKey s) 0
    (DHSendingPrivate s) (DHSendingPublic s) remoteDHPublic (SendingMsgNum s)
    (SkippedMessageKeys s) (LocalAddress s) (RemoteAddress s).
Definition dh_receiving (s : RatchetState) (root chain : list Z) : RatchetState :=
  mkRatchetState root (SendingChainKey s) (SendingMsgNum s) chain (ReceivingMsgNum s)
    (DHSendingPrivate s) (DHSendingPublic s) (DHReceivingPublic s) (PreviousChainLen s)
    (SkippedMessageKeys s) (LocalAddress s) (RemoteAddress s).
Definition dh_keypair (s : RatchetState) (private public : list Z) : RatchetState :=
  mkRatchetState (RootKey s) (SendingChainKey s) (SendingMsgNum s) (ReceivingChainKey s)
    (ReceivingMsgNum s) private public (DHReceivingPublic s) (PreviousChainLen s)
    (SkippedMessageKeys s) (LocalAddress s) (RemoteAddress s).
Definition dh_sending (s : RatchetState) (root chain : list Z) : RatchetState :=
  mkRatchetState root chain (SendingMsgNum s) (ReceivingChainKey s) (ReceivingMsgNum s)
    (DHSendingPrivate s) (DHSendingPublic s) (DHReceivingPublic s) (PreviousChainLen s)
    (SkippedMessageKeys s) (LocalAddress s) (RemoteAddress s).

Definition DHRatchet (s : RatchetState) (remoteDHPublic : list Z) (rnd : option (list Z))
  : RatchetState * outcome unit :=
  let s := dh_reset s remoteDHPublic in
  match (dhOutput ← DH (DHSendingPrivate s) (DHReceivingPublic s);
         KDF_RK (RootKey s) dhOutput) with
  | Err e => (s, Err e)
  | Panic => (s, Panic)
  | Ok (newRootKey, newReceivingChainKey) =>
      let s := dh_receiving s newRootKey newReceivingChainKey in
      match GenerateDHKeyPair rnd with
      | Err e => (s, Err e)
      | Panic => (s, Panic)
      | Ok (newPrivate, newPublic) =>
          let s := dh_keypair s newPrivate newPublic in
          match (dhOutput2 ← DH (DHSendingPrivate s) (DHReceivingPublic s);
                 KDF_RK (RootKey s) dhOutput2) with
          | Err e => (s, Err e)
          | Panic => (s, Panic)
          | Ok (newRootKey2, newSendingChainKey) =>
              (dh_sending s newRootKey2 newSendingChainKey, Ok tt)
          end
      end
  end.

(** [for i := fromMsgNum; i < toMsgNum; i++]: [n] turns are left at [i] *)
Fixpoint skip_loop (n : nat) (dhPublicKey : list Z) (i : Z) (chainKey : list Z)
  (skipped : skipped_keys) : list Z * skipped_keys :=
  match n with
  | O => (chainKey, skipped)
  | S n' =>
      let '(newChainKey, messageKey) := KDF_CK chainKey in
      skip_loop n' dhPublicKey (i + 1) newChainKey
        (<[(dhPublicKey, i) := messageKey]> skipped)
  end.

Definition MaxSkip : Z := 1000.

Definition with_receiving (s : RatchetState) (chain : list Z) (num : Z)
  (skipped : skipped_keys) : RatchetState :=
  mkRatchetState (RootKey s) (SendingChainKey s) (SendingMsgNum s) chain num
    (DHSendingPrivate s) (DHSendingPublic s) (DHReceivingPublic s) (PreviousChainLen s)
    skipped (LocalAddress s) (RemoteAddress s).

Definition SkipMessageKeys (s : RatchetState) (dhPublicKey : list Z)
  (fromMsgNum toMsgNum : Z) : RatchetState * outcome unit :=
  if MaxSkip <? toMsgNum -u32 fromMsgNum then
    (s, Err ("skipping too many message keys (" +:+ pretty (toMsgNum -u32 fromMsgNum) +:+ ")"))
  else
    let '(chainKey, skipped) :=
      skip_loop (Z.to_nat (toMsgNum - fromMsgNum)) dhPublicKey fromMsgNum
        (ReceivingChainKey s) (SkippedMessageKeys s) in
    (with_receiving s chainKey (ReceivingMsgNum s) skipped, Ok tt).

(** [aesEncrypt(plaintext, key)] and [aesDecrypt(ciphertext, key)] are
    function arguments in the source too. *)
Notation cipher := (list Z → list Z → outcome (list Z)).

Definition RatchetEncrypt (s : RatchetState) (plaintext : list Z) (aesEncrypt : cipher)
  : RatchetState * outcome (list Z * list Z) :=
  let '(newChainKey, messageKey) := KDF_CK (SendingChainKey s) in
  let header :=
    mkMessageHeader (DHSendingPublic s) (PreviousChainLen s) (SendingMsgNum s) in
  let s' := mkRatchetState (RootKey s) newChainKey (SendingMsgNum s +u32 1)
    (ReceivingChainKey s) (ReceivingMsgNum s) (DHSendingPrivate s) (DHSendingPublic s)
    (DHReceivingPublic s) (PreviousChainLen s) (SkippedMessageKeys s) (LocalAddress s)
    (RemoteAddress s) in
  (s', ciphertext ← aesEncrypt plaintext messageKey;
       h ← MessageHeader_Encode header; Ok (h, ciphertext)).

(** The part of [RatchetDecrypt] after the DH ratchet. *)
Definition decrypt_chain (s : RatchetState) (header : MessageHeader) (ciphertext : list Z)
  (aesDecrypt : cipher) : RatchetState * outcome (list Z) :=
  let '(s, r) :=
    if ReceivingMsgNum s <? mh_MessageNum header then
      SkipMessageKeys s (mh_DHPublicKey header) (ReceivingMsgNum s) (mh_MessageNum header)
    else (s, Ok tt) in
  match r with
  | Err e => (s, Err e)
  | Panic => (s, Panic)
  | Ok _ =>
      let keyID := (mh_DHPublicKey header, mh_MessageNum header) in
      match SkippedMessageKeys s !! keyID with
      | Some messageKey =>
          (with_receiving s (ReceivingChainKey s) (ReceivingMsgNum s)
             (delete keyID (SkippedMessageKeys s)), aesDecrypt ciphertext messageKey)
      | None =>
          let '(newChainKey, messageKey) := KDF_CK (ReceivingChainKey s) in
          (with_receiving s newChainKey (ReceivingMsgNum s +u32 1) (SkippedMessageKeys s),
           aesDecrypt ciphertext messageKey)
      end
  end.

Definition RatchetDecrypt (s : RatchetState) (headerBytes : slice) (ciphertext : list Z)
  (aesDecrypt : cipher) (rnd : option (list Z)) : RatchetState * outcome (list Z) :=
  match MessageHeader_Decode headerBytes with
  | Err e => (s, Err e)
  | Panic => (s, Panic)
  | Ok header =>
      if bool_decide (mh_DHPublicKey header ≠ DHReceivingPublic s) then
        let '(s, r) := SkipMessageKeys s (DHReceivingPublic s) (ReceivingMsgNum s)
          (mh_PreviousChainLen header) in
        match r with
        | Err e => (s, Err e)
        | Panic => (s, Panic)
        | Ok _ =>
            let '(s, r) := DHRatchet s (mh_DHPublicKey header) rnd in
            match r with
            | Err e => (s, Err e)
            | Panic => (s, Panic)
            | Ok _ => decrypt_chain s header ciphertext aesDecrypt
            end
        end
      else decrypt_chain s header ciphertext aesDecrypt
  end.

End ratchet.
