(* ===== verification/Ed25519.v ===== *)
(** * crypto/ed25519: the signature scheme, as an interface

    The library is not part of the repository.  [Ed25519] are its operations
    as the code calls them, [Ed25519Laws] the documented behaviour the code
    relies on. *)

From S2P Require Import Prelude.

Class Ed25519 := {
  (** the key pair [ed25519.GenerateKey] makes from 32 random bytes: 64 bytes,
      the last 32 being the public key *)
  ed25519_key : list Z → list Z;
  ed25519_Sign : list Z → list Z → list Z;
  ed25519_Verify : list Z → list Z → list Z → bool }.

Class Ed25519Laws `{Ed25519} := {
  ed25519_key_array : ∀ seed, array 32 seed → array 64 (ed25519_key seed);
  ed25519_sig_array : ∀ k m, array 64 (ed25519_Sign k m);
  ed25519_correct : ∀ seed m, array 32 seed →
    ed25519_Verify (drop 32 (ed25519_key seed)) m (ed25519_Sign (ed25519_key seed) m) = true }.
