(* ===== verification/Aes.v ===== *)
(** * AES-GCM as the code uses it

    [AESEncrypt] and [AESDecrypt] of pkg/crypto/onion.go, and their twins
    [AESEncryptGCM] and [AESDecryptGCM] of pkg/network/session_manager.go.
    The cipher itself (crypto/aes, crypto/cipher) is [AesGcm], with what the
    code relies on in [AesGcmLaws]. *)

From S2P Require Import Prelude GoBytes.

Class AesGcm := {
  (** [gcm.Seal(nil, nonce, plaintext, nil)] under a key *)
  gcm_seal : list Z → list Z → list Z → list Z;
  gcm_open : list Z → list Z → list Z → option (list Z) }.

Class AesGcmLaws `{AesGcm} := {
  gcm_correct : ∀ key nonce pt, gcm_open key nonce (gcm_seal key nonce pt) = Some pt;
  gcm_bytes : ∀ key nonce pt, bytes key → bytes nonce → bytes pt → bytes (gcm_seal key nonce pt) }.

Definition NonceSize : Z := 12.

(** [aes.NewCipher] accepts keys of 16, 24 and 32 bytes. *)
Definition aes_key_ok (key : list Z) : bool :=
  (len key =? 16) || (len key =? 24) || (len key =? 32).
Definition NewCipher (key : list Z) : outcome unit :=
  if aes_key_ok key then Ok tt
  else Err ("crypto/aes: invalid key size " +:+ pretty (len key)).

Section aes.
Context `{AesGcm}.

(** [nonce]: the bytes drawn ([None]: the random source failed) *)
Definition AESEncrypt (nonce : option (list Z)) (plaintext key : list Z) : outcome (list Z) :=
  _ ← NewCipher key;
  match nonce with
  | None => Err "rand: read failed"
  | Some nonce => Ok (nonce ++ gcm_seal key nonce plaintext)
  end.

Definition AESDecrypt (ciphertext key : list Z) : outcome (list Z) :=
  _ ← NewCipher key;
  if len ciphertext <? NonceSize then Err "ciphertext too short"
  else
    match gcm_open key (take 12 ciphertext) (drop 12 ciphertext) with
    | Some plaintext => Ok plaintext
    | None => Err "cipher: message authentication failed"
    end.

(** the second copy, in pkg/network *)
Definition AESEncryptGCM (nonce : option (list Z)) (plaintext key : list Z) : outcome (list Z) :=
  _ ← NewCipher key;
  match nonce with
  | None => Err "rand: read failed"
  | Some nonce => Ok (nonce ++ gcm_seal key nonce plaintext)
  end.
Definition AESDecryptGCM (ciphertext key : list Z) : outcome (list Z) :=
  _ ← NewCipher key;
  if len ciphertext <? NonceSize then Err "ciphertext too short"
  else
    match gcm_open key (take 12 ciphertext) (drop 12 ciphertext) with
    | Some plaintext => Ok plaintext
    | None => Err "cipher: message authentication failed"
    end.

Lemma AESDecrypt_no_panic ct key : AESDecrypt ct key ≠ Panic.
Proof. unfold AESDecrypt, NewCipher. by repeat case_match. Qed.

Context `{!AesGcmLaws}.

Lemma AES_roundtrip nonce pt key :
  length nonce = 12%nat → aes_key_ok key = true →
  ∃ ct, AESEncrypt (Some nonce) pt key = Ok ct ∧ AESDecrypt ct key = Ok pt.
Proof.
  intros Hn Hk. unfold AESEncrypt, AESDecrypt, NewCipher. rewrite Hk. cbn.
  eexists. split; [done|]. rewrite len_app.
  destruct (Z.ltb_spec (len nonce + len (gcm_seal key nonce pt)) NonceSize) as [Hlt|_].
  { pose proof (len_nonneg (gcm_seal key nonce pt)). unfold len, NonceSize in *. lia. }
  rewrite <- Hn, take_app_length, drop_app_length. by rewrite gcm_correct.
Qed.

End aes.
