(* ===== verification/X3DH.v ===== *)
(** * X3DH key agreement: pkg/protocol/x3dh.go

    Key generation, bundles, the two sides of the agreement and the wire
    formats.  X25519 and HKDF are those of [RatchetOps], Ed25519 of [Ed25519];
    random bytes are arguments ([None]: [rand.Read] failed). *)

From S2P Require Import Prelude GoBytes Wire WireGroups Ratchet Ed25519.

Definition X3DHInfo : string := "ZenTalk X3DH Key Agreement".

Record IdentityKeyPair := mkIdentity {
  ik_PublicKey : list Z; ik_PrivateKey : list Z; ik_DHPublic : list Z; ik_DHPrivate : list Z }.
Record SignedPreKey := mkSignedPreKey {
  spk_KeyID : Z; spk_PublicKey : list Z; spk_Signature : list Z; spk_Timestamp : Z }.
Record SignedPreKeyPrivate := mkSignedPreKeyPrivate {
  spkp_KeyID : Z; spkp_PublicKey : list Z; spkp_PrivateKey : list Z; spkp_Signature : list Z;
  spkp_Timestamp : Z }.
Record OneTimePreKey := mkOneTimePreKey { opk_KeyID : Z; opk_PublicKey : list Z }.
Record OneTimePreKeyPrivate := mkOneTimePreKeyPrivate {
  opkp_KeyID : Z; opkp_PublicKey : list Z; opkp_PrivateKey : list Z }.
Record KeyBundle := mkKeyBundle {
  kb_Address : list Z; kb_IdentityKey : list Z; kb_SignedPreKey : SignedPreKey;
  kb_OneTimePreKeys : list OneTimePreKey; kb_RegistrationID : Z }.
Record InitialMessage := mkInitialMessage {
  im_SenderAddress : list Z; im_IdentityKey : list Z; im_EphemeralKey : list Z;
  im_UsedSignedPreKeyID : Z; im_UsedOneTimePreKeyID : Z; im_Ciphertext : list Z }.

(** the responder's private one-time prekeys, by key ID *)
Abbreviation opk_map := (gmap Z OneTimePreKeyPrivate).

(** the 44 bytes that a signed prekey signs *)
Definition spk_sigData (keyID : Z) (public : list Z) (timestamp : Z) : list Z :=
  be_put 4 keyID ++ public ++ be_put 8 timestamp.

Section x3dh.
Context `{RatchetOps} `{Ed25519}.

(** ** Key generation *)

Definition GenerateIdentityKeyPair (rnd_ed rnd_dh : option (list Z)) : outcome IdentityKeyPair :=
  match rnd_ed with
  | None => Err "rand: read failed"
  | Some seed =>
      match rnd_dh with
      | None => Err "rand: read failed"
      | Some dhPrivate =>
          let edPrivate := ed25519_key seed in
          Ok (mkIdentity (drop 32 edPrivate) edPrivate (x25519_base dhPrivate) dhPrivate)
      end
  end.

(** [nowMs]: [NowUnixMilli()] *)
Definition GenerateSignedPreKey (keyID : Z) (identityKey : IdentityKeyPair)
  (rnd : option (list Z)) (nowMs : Z) : outcome SignedPreKeyPrivate :=
  match rnd with
  | None => Err "rand: read failed"
  | Some private =>
      let public := x25519_base private in
      let timestamp := u64 nowMs in
      let sigData := spk_sigData keyID public timestamp in
      let signature := ed25519_Sign (ik_PrivateKey identityKey) sigData in
      Ok (mkSignedPreKeyPrivate keyID public private signature timestamp)
  end.

(** [n] keys are left to make, the next is number [i]; [rnd i] are its bytes *)
Fixpoint opk_loop (n : nat) (startID i : Z) (rnd : Z → option (list Z))
  : outcome (list OneTimePreKeyPrivate) :=
  match n with
  | O => Ok []
  | S n' =>
      match rnd i with
      | None => Err "rand: read failed"
      | Some private =>
          keys ← opk_loop n' startID (i + 1) rnd;
          Ok (mkOneTimePreKeyPrivate (startID +u32 u32 i) (x25519_base private) private :: keys)
      end
  end.

(** [make] panics on a negative count. *)
Definition GenerateOneTimePreKeys (startID count : Z) (rnd : Z → option (list Z))
  : outcome (list OneTimePreKeyPrivate) :=
  if count <? 0 then Panic else opk_loop (Z.to_nat count) startID 0 rnd.

Definition CreateKeyBundle (address : list Z) (identityKey : IdentityKeyPair)
  (signedPreKey : SignedPreKeyPrivate) (oneTimePreKeys : list OneTimePreKeyPrivate)
  (registrationID : Z) : KeyBundle :=
  mkKeyBundle address (ik_DHPublic identityKey)
    (mkSignedPreKey (spkp_KeyID signedPreKey) (spkp_PublicKey signedPreKey)
       (spkp_Signature signedPreKey) (spkp_Timestamp signedPreKey))
    ((λ opk, mkOneTimePreKey (opkp_KeyID opk) (opkp_PublicKey opk)) <$> oneTimePreKeys)
    registrationID.

Definition VerifySignedPreKey (identityKey : list Z) (spk : SignedPreKey) : bool :=
  let sigData := spk_sigData (spk_KeyID spk) (spk_PublicKey spk) (spk_Timestamp spk) in
  ed25519_Verify identityKey sigData (spk_Signature spk).

(** ** The agreement *)

(** the concatenated DH outputs, the fourth only when a one-time prekey is used *)
Definition dh_concat (dh1 dh2 dh3 : list Z) (dh4 : option (list Z)) : list Z :=
  match dh4 with
  | Some d => dh1 ++ dh2 ++ dh3 ++ d
  | None => dh1 ++ dh2 ++ dh3
  end.

Definition derive_secret (dhConcat : list Z) : outcome (list Z) :=
  let salt := replicate 32 0 in
  match hkdf_read dhConcat salt X3DHInfo 32 with
  | Some sharedSecret => Ok sharedSecret
  | None => Err "hkdf: entropy limit reached"
  end.

(** shared secret, ephemeral private and public key, initial message *)
Definition X3DHInitiator (senderAddress : list Z) (aliceIdentity : IdentityKeyPair)
  (bobBundle : KeyBundle) (rnd : option (list Z))
  : outcome (list Z * list Z * list Z * InitialMessage) :=
  match rnd with
  | None => Err "rand: read failed"
  | Some ephemeralPrivate =>
      let ephemeralPublic := x25519_base ephemeralPrivate in
      let spk := kb_SignedPreKey bobBundle in
      let dh1 := x25519 (ik_DHPrivate aliceIdentity) (spk_PublicKey spk) in
      let dh2 := x25519 ephemeralPrivate (kb_IdentityKey bobBundle) in
      let dh3 := x25519 ephemeralPrivate (spk_PublicKey spk) in
      let '(dh4, usedOPKID) :=
        match kb_OneTimePreKeys bobBundle with
        | opk :: _ => (Some (x25519 ephemeralPrivate (opk_PublicKey opk)), opk_KeyID opk)
        | [] => (None, 0)
        end in
      sharedSecret ← derive_secret (dh_concat dh1 dh2 dh3 dh4);
      Ok (sharedSecret, ephemeralPrivate, ephemeralPublic,
          mkInitialMessage senderAddress (ik_DHPublic aliceIdentity) ephemeralPublic
            (spk_KeyID spk) usedOPKID [])
  end.

(** The map is the responder's; it is changed only on success. *)
Definition X3DHResponder (bobIdentity : IdentityKeyPair) (bobSignedPreKey : SignedPreKeyPrivate)
  (bobOneTimePreKeys : opk_map) (initialMsg : InitialMessage) : opk_map * outcome (list Z) :=
  let id := im_UsedOneTimePreKeyID initialMsg in
  let usedOPK : outcome (option OneTimePreKeyPrivate) :=
    if negb (id =? 0) then
      match bobOneTimePreKeys !! id with
      | Some opk => Ok (Some opk)
      | None => Err ("one-time prekey not found: " +:+ pretty id)
      end
    else Ok None in
  match usedOPK with
  | Err e => (bobOneTimePreKeys, Err e)
  | Panic => (bobOneTimePreKeys, Panic)
  | Ok usedOPK =>
      let dh1 := x25519 (spkp_PrivateKey bobSignedPreKey) (im_IdentityKey initialMsg) in
      let dh2 := x25519 (ik_DHPrivate bobIdentity) (im_EphemeralKey initialMsg) in
      let dh3 := x25519 (spkp_PrivateKey bobSignedPreKey) (im_EphemeralKey initialMsg) in
      let dh4 := (λ opk, x25519 (opkp_PrivateKey opk) (im_EphemeralKey initialMsg)) <$> usedOPK in
      match derive_secret (dh_concat dh1 dh2 dh3 dh4) with
      | Ok sharedSecret =>
          (match usedOPK with
           | Some _ => delete id bobOneTimePreKeys
           | None => bobOneTimePreKeys
           end, Ok sharedSecret)
      | Err e => (bobOneTimePreKeys, Err e)
      | Panic => (bobOneTimePreKeys, Panic)
      end
  end.

End x3dh.

(** ** Wire formats *)

Definition OneTimePreKey_wf (k : OneTimePreKey) : Prop :=
  in_range 32 (opk_KeyID k) ∧ array 32 (opk_PublicKey k).
#[export] Instance OneTimePreKey_wf_dec k : Decision (OneTimePreKey_wf k).
Proof. unfold OneTimePreKey_wf. apply _. Defined.
Definition SignedPreKey_wf (k : SignedPreKey) : Prop :=
  in_range 32 (spk_KeyID k) ∧ array 32 (spk_PublicKey k) ∧ array 64 (spk_Signature k) ∧
  in_range 64 (spk_Timestamp k).
#[export] Instance SignedPreKey_wf_dec k : Decision (SignedPreKey_wf k).
Proof. unfold SignedPreKey_wf. apply _. Defined.
Definition KeyBundle_wf (kb : KeyBundle) : Prop :=
  array 20 (kb_Address kb) ∧ array 32 (kb_IdentityKey kb) ∧ in_range 32 (kb_RegistrationID kb) ∧
  SignedPreKey_wf (kb_SignedPreKey kb) ∧ in_range 32 (len (kb_OneTimePreKeys kb)) ∧
  Forall OneTimePreKey_wf (kb_OneTimePreKeys kb).
#[export] Instance KeyBundle_wf_dec kb : Decision (KeyBundle_wf kb).
Proof. unfold KeyBundle_wf. apply _. Defined.

Definition KeyBundle_Encode (kb : KeyBundle) : outcome (list Z) :=
  let spk := kb_SignedPreKey kb in
  wr_run (20 + 32 + 4 + 108 + 4 + len (kb_OneTimePreKeys kb) * 36) (
    wr_copy (kb_Address kb) ;;; wr_adv 20 ;;;
    wr_copy (kb_IdentityKey kb) ;;; wr_adv 32 ;;;
    wr_uint 4 (kb_RegistrationID kb) ;;; wr_adv 4 ;;;
    wr_uint 4 (spk_KeyID spk) ;;; wr_adv 4 ;;;
    wr_copy (spk_PublicKey spk) ;;; wr_adv 32 ;;;
    wr_copy (spk_Signature spk) ;;; wr_adv 64 ;;;
    wr_uint 8 (spk_Timestamp spk) ;;; wr_adv 8 ;;;
    wr_uint 4 (u32 (len (kb_OneTimePreKeys kb))) ;;; wr_adv 4 ;;;
    wr_each (kb_OneTimePreKeys kb) (λ opk,
      wr_uint 4 (opk_KeyID opk) ;;; wr_adv 4 ;;; wr_copy (opk_PublicKey opk) ;;; wr_adv 32)).

Definition OneTimePreKey_rd : rd OneTimePreKey :=
  id ← rd_uint 4;
  pk ← rd_copy 32;
  mret (mkOneTimePreKey id pk).
Definition KeyBundle_rd : rd KeyBundle :=
  address ← rd_copy 20;
  identity ← rd_copy 32;
  regID ← rd_uint 4;
  keyID ← rd_uint 4;
  pk ← rd_copy 32;
  signature ← rd_copy 64;
  timestamp ← rd_uint 8;
  opkCount ← rd_uint 4;
  opks ← rd_times (Z.to_nat opkCount) OneTimePreKey_rd;
  mret (mkKeyBundle address identity (mkSignedPreKey keyID pk signature timestamp) opks regID).
Definition DecodeKeyBundle : slice → outcome KeyBundle :=
  rd_run (_ ← rd_need (20 + 32 + 4 + 108 + 4) "buffer too short for key bundle"; KeyBundle_rd).

Definition opk_layout (k : OneTimePreKey) : list Z := be_put 4 (opk_KeyID k) ++ opk_PublicKey k.
Definition KeyBundle_layout (kb : KeyBundle) : list Z :=
  let spk := kb_SignedPreKey kb in
  kb_Address kb ++ kb_IdentityKey kb ++ be_put 4 (kb_RegistrationID kb) ++
  be_put 4 (spk_KeyID spk) ++ spk_PublicKey spk ++ spk_Signature spk ++
  be_put 8 (spk_Timestamp spk) ++ be_put 4 (len (kb_OneTimePreKeys kb)) ++
  concat (opk_layout <$> kb_OneTimePreKeys kb).

Lemma opk_layout_len l :
  Forall OneTimePreKey_wf l → len (concat (opk_layout <$> l)) = len l * 36.
Proof.
  intros Hl. apply len_concat_const. eapply Forall_impl; [exact Hl|].
  intros k [_ Hk]. unfold opk_layout. rewrite len_app, len_be_put, (array_len _ _ Hk). lia.
Qed.

Lemma OneTimePreKey_reads k : OneTimePreKey_wf k → reads OneTimePreKey_rd (opk_layout k) k.
Proof.
  destruct k. intros [? ?]. unfold opk_layout, OneTimePreKey_rd. cbn in *. read_steps; wire_leaf.
Qed.
Lemma OneTimePreKey_starves k : OneTimePreKey_wf k → starves OneTimePreKey_rd (opk_layout k).
Proof.
  destruct k. intros [? ?]. unfold opk_layout, OneTimePreKey_rd. cbn in *. starve_steps; wire_leaf.
Qed.

Lemma KeyBundle_starves kb : KeyBundle_wf kb → starves KeyBundle_rd (KeyBundle_layout kb).
Proof.
  destruct kb as [a i [] o r]. intros (?&?&?&(?&?&?&?)&?&Hk).
  unfold KeyBundle_rd, KeyBundle_layout. cbn in *. starve_steps; try wire_leaf.
  unfold len. rewrite Nat2Z.id. rewrite Forall_forall in Hk.
  eapply starves_bind; [symmetry; apply app_nil_r| | |apply starves_ret].
  - apply reads_times. auto using OneTimePreKey_reads.
  - apply starves_times. auto using OneTimePreKey_reads, OneTimePreKey_starves.
Qed.

#[export] Program Instance KeyBundle_wire : Wire KeyBundle := {|
  wire_wf := KeyBundle_wf; wire_layout := KeyBundle_layout;
  wire_encode := KeyBundle_Encode; wire_decode := DecodeKeyBundle |}.
Next Obligation.
  intros m (?&?&?&(?&?&?&?)&?&Hk). unfold KeyBundle_Encode, KeyBundle_layout.
  rewrite ?u32_id by done. apply wr_run_emits.
  - emit_steps; try wire_leaf. apply writes_emits, writes_each. intros x Hx.
    rewrite Forall_forall in Hk. destruct (Hk x Hx) as [? ?].
    unfold opk_layout. apply writes_adv; [apply writes_uint|apply writes_copy]; wire_leaf.
  - rewrite !len_app, !len_be_put, opk_layout_len by done. wf_lens. lia.
Qed.
Next Obligation.
  intros [a i [] o r] rest spare (?&?&?&(?&?&?&?)&?&Hk). unfold DecodeKeyBundle.
  rewrite rd_run_need_ok.
  - apply rd_run_reads. read_steps; try wire_leaf.
    eapply reads_bind; [symmetry; apply app_nil_r| |apply reads_ret].
    cbn. unfold len. rewrite Nat2Z.id. rewrite Forall_forall in Hk.
    apply reads_times. auto using OneTimePreKey_reads.
  - unfold KeyBundle_layout. cbn -[len app Z.le] in *.
    pose proof (len_nonneg (concat (opk_layout <$> o))). wire_size.
Qed.
Next Obligation.
  intros s m. apply yields_run. unfold KeyBundle_rd. yield_steps.
  eapply yields_bind; [apply (yields_times _ _ OneTimePreKey_wf)|].
  - unfold OneTimePreKey_rd. yield_steps. apply yields_ret. by split.
  - intros l [Hl HF]. apply yields_ret. unfold KeyBundle_wf, SignedPreKey_wf. cbn [kb_Address
      kb_IdentityKey kb_RegistrationID kb_SignedPreKey kb_OneTimePreKeys spk_KeyID spk_PublicKey
      spk_Signature spk_Timestamp].
    split_and!; try done; unfold in_range, len in *; rewrite ?Hl; lia.
Qed.

Definition InitialMessage_wf (m : InitialMessage) : Prop :=
  array 20 (im_SenderAddress m) ∧ array 32 (im_IdentityKey m) ∧ array 32 (im_EphemeralKey m) ∧
  in_range 32 (im_UsedSignedPreKeyID m) ∧ in_range 32 (im_UsedOneTimePreKeyID m) ∧
  blob (im_Ciphertext m).
#[export] Instance InitialMessage_wf_dec m : Decision (InitialMessage_wf m).
Proof. unfold InitialMessage_wf. apply _. Defined.

Definition InitialMessage_Encode (im : InitialMessage) : outcome (list Z) :=
  wr_run (20 + 32 + 32 + 4 + 4 + 4 + len (im_Ciphertext im)) (
    wr_copy (im_SenderAddress im) ;;; wr_adv 20 ;;;
    wr_copy (im_IdentityKey im) ;;; wr_adv 32 ;;;
    wr_copy (im_EphemeralKey im) ;;; wr_adv 32 ;;;
    wr_uint 4 (im_UsedSignedPreKeyID im) ;;; wr_adv 4 ;;;
    wr_uint 4 (im_UsedOneTimePreKeyID im) ;;; wr_adv 4 ;;;
    wr_uint 4 (u32 (len (im_Ciphertext im))) ;;; wr_adv 4 ;;;
    wr_copy (im_Ciphertext im)).

Definition InitialMessage_rd : rd InitialMessage :=
  sender ← rd_copy 20;
  identity ← rd_copy 32;
  ephemeral ← rd_copy 32;
  spk ← rd_uint 4;
  opk ← rd_uint 4;
  ciphertextLen ← rd_uint 4;
  _ ← rd_need_more ciphertextLen "buffer too short for ciphertext";
  ciphertext ← rd_copy ciphertextLen;
  mret (mkInitialMessage sender identity ephemeral spk opk ciphertext).
Definition InitialMessage_Decode : slice → outcome InitialMessage :=
  rd_run (_ ← rd_need (20 + 32 + 32 + 4 + 4 + 4) "buffer too short for initial message";
          InitialMessage_rd).

Definition InitialMessage_layout (m : InitialMessage) : list Z :=
  im_SenderAddress m ++ im_IdentityKey m ++ im_EphemeralKey m ++
  be_put 4 (im_UsedSignedPreKeyID m) ++ be_put 4 (im_UsedOneTimePreKeyID m) ++
  be_put 4 (len (im_Ciphertext m)) ++ im_Ciphertext m.

#[export] Program Instance InitialMessage_wire : Wire InitialMessage := {|
  wire_wf := InitialMessage_wf; wire_layout := InitialMessage_layout;
  wire_encode := InitialMessage_Encode; wire_decode := InitialMessage_Decode |}.
Next Obligation.
  intros m (?&?&?&?&?&?). unfold InitialMessage_Encode, InitialMessage_layout. wire_encode.
Qed.
Next Obligation.
  intros [] rest spare (?&?&?&?&?&?). unfold InitialMessage_Decode. rewrite rd_run_need_ok.
  - apply rd_run_reads. read_steps; try wire_leaf.
    apply reads_need_more; [done|]. read_steps; wire_leaf.
  - unfold InitialMessage_layout. cbn -[len app Z.le] in *.
    pose proof (len_nonneg im_Ciphertext0). wire_size.
Qed.
Next Obligation.
  intros s m. apply yields_run. unfold InitialMessage_rd. yield_steps. apply yields_ret.
  split_and!; eauto using array_blob.
Qed.

Lemma InitialMessage_Decode_safe s : slice_bytes s → InitialMessage_Decode s ≠ Panic.
Proof. intros. apply fits_run; [done|]. unfold InitialMessage_rd. fit_steps. Qed.
