(* ===== verification/Session.v ===== *)
(** * The client's forward-secrecy sessions: pkg/network/x3dh_manager.go,
    session_manager.go, and the session parts of message_sender.go and
    message_handler.go

    [Client] holds the fields of the Go struct these functions use.  Ratchet
    sessions are pointers in a map: a method that mutates its session before
    failing leaves the mutated session in the map, so the new state is always
    written back.  Go ranges over a map in no particular order: [range] is the
    order of one loop.  The optional on-disk copy ([sessionStorage]) is written
    but not read by these functions; its errors are only logged. *)

From S2P Require Import Prelude GoBytes Wire NodeID Ratchet Ed25519 X3DH Aes.

Record Client := mkClient {
  cl_Address : list Z; cl_connected : bool;
  cl_x3dhIdentity : option IdentityKeyPair; cl_signedPreKey : option SignedPreKeyPrivate;
  cl_oneTimePreKeys : opk_map; cl_registrationID : Z;
  cl_ratchetSessions : gmap (list Z) RatchetState; cl_keyBundleCache : gmap (list Z) KeyBundle }.

Definition with_identity (c : Client) (i : IdentityKeyPair) : Client :=
  mkClient (cl_Address c) (cl_connected c) (Some i) (cl_signedPreKey c) (cl_oneTimePreKeys c)
    (cl_registrationID c) (cl_ratchetSessions c) (cl_keyBundleCache c).
Definition with_spk (c : Client) (k : SignedPreKeyPrivate) : Client :=
  mkClient (cl_Address c) (cl_connected c) (cl_x3dhIdentity c) (Some k) (cl_oneTimePreKeys c)
    (cl_registrationID c) (cl_ratchetSessions c) (cl_keyBundleCache c).
Definition with_opks (c : Client) (m : opk_map) : Client :=
  mkClient (cl_Address c) (cl_connected c) (cl_x3dhIdentity c) (cl_signedPreKey c) m
    (cl_registrationID c) (cl_ratchetSessions c) (cl_keyBundleCache c).
Definition with_registration (c : Client) (r : Z) : Client :=
  mkClient (cl_Address c) (cl_connected c) (cl_x3dhIdentity c) (cl_signedPreKey c)
    (cl_oneTimePreKeys c) r (cl_ratchetSessions c) (cl_keyBundleCache c).
Definition with_sessions (c : Client) (m : gmap (list Z) RatchetState) : Client :=
  mkClient (cl_Address c) (cl_connected c) (cl_x3dhIdentity c) (cl_signedPreKey c)
    (cl_oneTimePreKeys c) (cl_registrationID c) m (cl_keyBundleCache c).
Definition with_bundles (c : Client) (m : gmap (list Z) KeyBundle) : Client :=
  mkClient (cl_Address c) (cl_connected c) (cl_x3dhIdentity c) (cl_signedPreKey c)
    (cl_oneTimePreKeys c) (cl_registrationID c) (cl_ratchetSessions c) m.

(** [for _, opk := range keys { c.oneTimePreKeys[opk.KeyID] = opk }] *)
Definition file_opks (keys : list OneTimePreKeyPrivate) (m : opk_map) : opk_map :=
  foldl (λ m opk, <[opkp_KeyID opk := opk]> m) m keys.

Section client.
Context `{RatchetOps} `{Ed25519} `{AesGcm}.

(** ** x3dh_manager.go *)

(** the random bytes one [InitializeX3DH] draws *)
Record x3dh_random := mkX3dhRandom {
  xr_ed : option (list Z); xr_dh : option (list Z); xr_spk : option (list Z);
  xr_opk : Z → option (list Z) }.

Definition InitializeX3DH (c : Client) (r : x3dh_random) (nowMs now : Z) : Client * outcome unit :=
  match wrap_err "failed to generate identity keypair: " (GenerateIdentityKeyPair (xr_ed r) (xr_dh r)) with
  | Err e => (c, Err e)
  | Panic => (c, Panic)
  | Ok identity =>
      let c := with_identity c identity in
      match wrap_err "failed to generate signed prekey: "
              (GenerateSignedPreKey 1 identity (xr_spk r) nowMs) with
      | Err e => (c, Err e)
      | Panic => (c, Panic)
      | Ok signedPreKey =>
          let c := with_spk c signedPreKey in
          match wrap_err "failed to generate one-time prekeys: "
                  (GenerateOneTimePreKeys 100 50 (xr_opk r)) with
          | Err e => (c, Err e)
          | Panic => (c, Panic)
          | Ok oneTimePreKeys =>
              let c := with_opks c (file_opks oneTimePreKeys (cl_oneTimePreKeys c)) in
              (with_registration c (u32 now), Ok tt)
          end
      end
  end.

(** [range]: the values of the map in the order of the loop *)
Definition GetKeyBundle (c : Client) (range : opk_map → list OneTimePreKeyPrivate) : outcome KeyBundle :=
  match cl_x3dhIdentity c, cl_signedPreKey c with
  | Some identity, Some spk =>
      let opks := range (cl_oneTimePreKeys c) in
      Ok (CreateKeyBundle (cl_Address c) identity spk opks (cl_registrationID c))
  | _, _ => Err "X3DH not initialized - call InitializeX3DH() first"
  end.

(** [if id > maxID { maxID = id }] over the keys of the map *)
Definition max_id (m : opk_map) : Z :=
  foldl (λ maxID kv, if maxID <? kv.1 then kv.1 else maxID) 0 (map_to_list m).

Definition RefillOneTimePreKeys (c : Client) (threshold : Z) (rnd : Z → option (list Z))
  : Client * outcome unit :=
  if threshold <=? Z.of_nat (size (cl_oneTimePreKeys c)) then (c, Ok tt)
  else
    let maxID := max_id (cl_oneTimePreKeys c) in
    match wrap_err "failed to generate one-time prekeys: "
            (GenerateOneTimePreKeys (maxID +u32 1) 50 rnd) with
    | Err e => (c, Err e)
    | Panic => (c, Panic)
    | Ok newKeys => (with_opks c (file_opks newKeys (cl_oneTimePreKeys c)), Ok tt)
    end.

Definition CacheKeyBundle (c : Client) (addr : list Z) (bundle : KeyBundle) : Client :=
  with_bundles c (<[addr := bundle]> (cl_keyBundleCache c)).
Definition GetCachedKeyBundle (c : Client) (addr : list Z) : option KeyBundle :=
  cl_keyBundleCache c !! addr.
Definition ClearKeyBundleCache (c : Client) : Client := with_bundles c ∅.
Definition RemoveCachedKeyBundle (c : Client) (addr : list Z) : Client :=
  with_bundles c (delete addr (cl_keyBundleCache c)).

(** ** session_manager.go *)

Definition set_session (c : Client) (addr : list Z) (s : RatchetState) : Client :=
  with_sessions c (<[addr := s]> (cl_ratchetSessions c)).

(** the receiver's state with the initiator's key and the first receiving chain *)
Definition receiver_state (s : RatchetState) (remote root chain : list Z) : RatchetState :=
  mkRatchetState root (SendingChainKey s) (SendingMsgNum s) chain (ReceivingMsgNum s)
    (DHSendingPrivate s) (DHSendingPublic s) remote (PreviousChainLen s) (SkippedMessageKeys s)
    (LocalAddress s) (RemoteAddress s).

Definition InitializeRatchetSession (c : Client) (from : list Z) (initialMsg : InitialMessage)
  : Client * outcome unit :=
  match cl_x3dhIdentity c, cl_signedPreKey c with
  | Some identity, Some spk =>
      match cl_ratchetSessions c !! from with
      | Some _ => (c, Ok tt)
      | None =>
          let '(opks, r) := X3DHResponder identity spk (cl_oneTimePreKeys c) initialMsg in
          let c := with_opks c opks in
          match wrap_err "X3DH responder failed: " r with
          | Err e => (c, Err e)
          | Panic => (c, Panic)
          | Ok sharedSecret =>
              match NewRatchetStateReceiver (mk_slice sharedSecret) (spkp_PrivateKey spk)
                      (spkp_PublicKey spk) (cl_Address c) from with
              | Err e => (c, Err e)
              | Panic => (c, Panic)
              | Ok session =>
                  let remote := im_EphemeralKey initialMsg in
                  match (dhOutput ← wrap_err "initial DH failed: " (DH (DHSendingPrivate session) remote);
                         wrap_err "initial KDF failed: " (KDF_RK (RootKey session) dhOutput)) with
                  | Err e => (c, Err e)
                  | Panic => (c, Panic)
                  | Ok (newRootKey, receivingChainKey) =>
                      (set_session c from (receiver_state session remote newRootKey receivingChainKey),
                       Ok tt)
                  end
              end
          end
      end
  | _, _ => (c, Err "X3DH not initialized")
  end.

Definition GetRatchetSession (c : Client) (addr : list Z) : option RatchetState :=
  cl_ratchetSessions c !! addr.
Definition SetRatchetSession (c : Client) (addr : list Z) (s : RatchetState) : Client :=
  set_session c addr s.

(** ** message_sender.go: SendRatchetMessage up to the onion routing *)

(** [fmt.Sprintf("%x", addr[:8])] *)
Definition addr_prefix (addr : list Z) : string := bytes_string (hex_encode (take 8 addr)).

(** [payload = "X3DH" ++ initialMsg.Encode()]; [send] is the rest of the
    function, which builds the onion and writes it ([send_onion] of
    Messaging.v) *)
Definition x3dh_magic : list Z := string_bytes "X3DH".
Definition sendX3DHInitialMessage (initialMsg : InitialMessage) (send : list Z → outcome unit)
  : outcome unit :=
  encoded ← InitialMessage_Encode initialMsg; send (x3dh_magic ++ encoded).

(** [headerLen := uint16(len(header)); payload = [headerLen:2][header][ciphertext]] *)
Definition ratchet_payload (header ciphertext : list Z) : list Z :=
  let headerLen := u16 (len header) in
  [u8 (Z.shiftr headerLen 8); u8 headerLen] ++ header ++ ciphertext.

(** The session with the recipient, agreed upon now when there is none: the new
    session is in the map before the initial message is sent, and stays there when
    sending fails. *)
Definition establish_session (c : Client) (identity : IdentityKeyPair) (to : list Z)
  (recipientKeyBundle : option KeyBundle) (eph : option (list Z)) (send : list Z → outcome unit)
  : Client * outcome RatchetState :=
  match cl_ratchetSessions c !! to with
  | Some session => (c, Ok session)
  | None =>
      match (match recipientKeyBundle with
             | Some b => Some b
             | None => GetCachedKeyBundle c to
             end) with
      | None => (c, Err ("no key bundle available for " +:+ addr_prefix to
                         +:+ " - provide bundle or cache it first"))
      | Some bundle =>
          match (x ← wrap_err "X3DH failed: " (X3DHInitiator (cl_Address c) identity bundle eph);
                 s ← wrap_err "failed to initialize ratchet state: "
                   (NewRatchetState (mk_slice x.1.1.1) (spk_PublicKey (kb_SignedPreKey bundle))
                      x.1.1.2 x.1.2 (cl_Address c) to);
                 Ok (s, x.2)) with
          | Err e => (c, Err e)
          | Panic => (c, Panic)
          | Ok (session, initialMsg) =>
              (set_session c to session,
               _ ← wrap_err "failed to send X3DH initial message: " 
                      (sendX3DHInitialMessage initialMsg send);
               Ok session)
          end
      end
  end.

(** The ephemeral key and nonce drawn are [eph] and [nonce].  Returns the
    payload, which [SendRatchetMessage] of Messaging.v then sends. *)
Definition ratchet_message (c : Client) (to : list Z) (recipientKeyBundle : option KeyBundle)
  (plaintext : list Z) (eph nonce : option (list Z)) (send : list Z → outcome unit)
  : Client * outcome (list Z) :=
  if negb (cl_connected c) then (c, Err "not connected")
  else match cl_x3dhIdentity c with
  | None => (c, Err "X3DH not initialized - call InitializeX3DH() first")
  | Some identity =>
      let '(c, established) := establish_session c identity to recipientKeyBundle eph send in
      match established with
      | Err e => (c, Err e)
      | Panic => (c, Panic)
      | Ok session =>
          let '(session', r) := RatchetEncrypt session plaintext (AESEncryptGCM nonce) in
          (set_session c to session',
           '(header, ciphertext) ← wrap_err "ratchet encryption failed: " r;
           Ok (ratchet_payload header ciphertext))
      end
  end.

(** ** Receiving *)

(** the three-way split of a ratchet payload; [None]: it does not look like one *)
Definition split_payload (payload : slice) : outcome (option (slice * slice)) :=
  if slen payload <? 2 then Ok None
  else
    let b i := default 0 (sdata payload !! i) in
    let headerLen := Z.lor (u16 (Z.shiftl (b 0%nat) 8)) (b 1%nat) in
    if (headerLen <? 40) || (200 <? headerLen) || (slen payload <? (2 +u16 headerLen)) then Ok None
    else
      header ← reslice payload 2 (2 +u16 headerLen);
      rest ← reslice payload (2 +u16 headerLen) (slen payload);
      Ok (Some (header, rest)).

(** session_manager.go *)
Definition tryDecryptRatchetMessage (c : Client) (payload : slice) (from : list Z)
  (rnd : option (list Z)) : Client * outcome (option (list Z)) :=
  match split_payload payload with
  | Err e => (c, Err e)
  | Panic => (c, Panic)
  | Ok None => (c, Ok None)
  | Ok (Some (header, ciphertext)) =>
      match cl_ratchetSessions c !! from with
      | None => (c, Ok None)
      | Some session =>
          let '(session', r) := RatchetDecrypt session header (sdata ciphertext) AESDecryptGCM rnd in
          (set_session c from session',
           match r with Ok pt => Ok (Some pt) | Err _ => Ok None | Panic => Panic end)
      end
  end.

(** message_handler.go, the third stage of [handleDirectMessage]: the sender is
    not known, every session is tried in turn until one decrypts *)
Fixpoint try_sessions (c : Client) (header : slice) (ciphertext : list Z)
  (rnd : list Z → option (list Z)) (addrs : list (list Z)) : Client * outcome (option (list Z)) :=
  match addrs with
  | [] => (c, Ok None)
  | addr :: rest =>
      match cl_ratchetSessions c !! addr with
      | None => try_sessions c header ciphertext rnd rest
      | Some session =>
          let '(session', r) := RatchetDecrypt session header ciphertext AESDecryptGCM (rnd addr) in
          let c := set_session c addr session' in
          match r with
          | Ok plaintext => (c, Ok (Some plaintext))
          | Err _ => try_sessions c header ciphertext rnd rest
          | Panic => (c, Panic)
          end
      end
  end.

Definition handle_ratchet (c : Client) (decrypted : slice) (rnd : list Z → option (list Z))
  (range : list (list Z)) : Client * outcome (option (list Z)) :=
  if slen decrypted <=? 2 then (c, Ok None)
  else match split_payload decrypted with
  | Err e => (c, Err e)
  | Panic => (c, Panic)
  | Ok None => (c, Ok None)
  | Ok (Some (header, ciphertext)) => try_sessions c header (sdata ciphertext) rnd range
  end.

(** the second stage: an X3DH initial message.  Errors are logged. *)
Definition is_x3dh (decrypted : slice) : bool :=
  (4 <? slen decrypted) && bool_decide (take 4 (sdata decrypted) = x3dh_magic).

Definition handle_initial (c : Client) (decrypted : slice) : Client * outcome unit :=
  match (s ← reslice decrypted 4 (slen decrypted); InitialMessage_Decode s) with
  | Panic => (c, Panic)
  | Err _ => (c, Ok tt)
  | Ok initialMsg =>
      let '(c, r) := InitializeRatchetSession c (im_SenderAddress initialMsg) initialMsg in
      (c, match r with Panic => Panic | _ => Ok tt end)
  end.

(** Both stages, on what is left after the RSA attempt; [Ok None] also when the
    payload was an initial message. *)
Definition handle_session_message (c : Client) (decrypted : slice) (rnd : list Z → option (list Z))
  (range : list (list Z)) : Client * outcome (option (list Z)) :=
  if is_x3dh decrypted then
    let '(c, r) := handle_initial c decrypted in (c, _ ← r; Ok None)
  else handle_ratchet c decrypted rnd range.

End client.
