(* ===== verification/WireProofs.v ===== *)
(** * Theorems on the wire formats and on padding *)

From S2P Require Import Prelude GoBytes Wire WireGroups Padding Ratchet Ed25519 X3DH.

(** Encoding a well-formed message succeeds, and decoding gives it back
    whatever bytes follow it and whatever capacity the slice has. *)
Definition roundtrips {M} (wf : M → Prop) (enc : M → outcome (list Z))
  (dec : slice → outcome M) : Prop :=
  ∀ m, wf m → ∃ out, enc m = Ok out ∧
    ∀ rest spare, dec (Slice (out ++ rest) spare) = Ok m.

(** A decoder accepts exactly the buffers that start with an encoding, and
    returns the message encoded. *)
Definition decodes_exactly {M} (wf : M → Prop) (enc : M → outcome (list Z))
  (dec : slice → outcome M) : Prop :=
  ∀ buf m, bytes buf → dec (mk_slice buf) = Ok m ↔
    wf m ∧ ∃ out rest, enc m = Ok out ∧ buf = out ++ rest.

Section generic.
Context `{Wire M}.
Lemma roundtrips_wire : roundtrips (M:=M) wire_wf wire_encode wire_decode.
Proof.
  intros m Hm. exists (wire_layout m). split; [by apply wire_encode_layout|].
  intros. by apply wire_decode_layout.
Qed.
Lemma decodes_exactly_wire :
  (∀ buf m, bytes buf → wire_decode (mk_slice buf) = Ok m → ∃ k, take k buf = wire_layout m) →
  decodes_exactly (M:=M) wire_wf wire_encode wire_decode.
Proof.
  intros Hex buf m Hb. split.
  - intros Hd. assert (wire_wf m) as Hm.
    { eapply wire_decode_wf, Hd. unfold slice_bytes. cbn. by rewrite app_nil_r. }
    split; [done|]. destruct (Hex buf m Hb Hd) as [k Hk]. exists (wire_layout m), (drop k buf).
    split; [by apply wire_encode_layout|]. by rewrite <- Hk, take_drop.
  - intros (Hm & out & rest & He & ->). rewrite wire_encode_layout in He by done. injection He as <-.
    by apply wire_decode_layout.
Qed.
End generic.

(** C18: every wire format of pkg/protocol round-trips: for each well-formed
    message [Encode] does not panic and [Decode] returns the same message from
    any buffer that starts with the encoding. *)
Theorem wire_formats_roundtrip :
  roundtrips Header_wf Header_Encode Header_Decode ∧
  roundtrips DirectMessage_wf DirectMessage_Encode DirectMessage_Decode ∧
  roundtrips AckMessage_wf AckMessage_Encode AckMessage_Decode ∧
  roundtrips NackMessage_wf NackMessage_Encode NackMessage_Decode ∧
  roundtrips GroupMessage_wf GroupMessage_Encode GroupMessage_Decode ∧
  roundtrips ReadReceipt_wf ReadReceipt_Encode ReadReceipt_Decode ∧
  roundtrips GroupCreate_wf GroupCreate_Encode GroupCreate_Decode ∧
  roundtrips GroupJoin_wf GroupJoin_Encode GroupJoin_Decode ∧
  roundtrips GroupLeave_wf GroupLeave_Encode GroupLeave_Decode ∧
  roundtrips GroupUpdate_wf GroupUpdate_Encode GroupUpdate_Decode ∧
  roundtrips Handshake_wf Handshake_Encode Handshake_Decode ∧
  roundtrips RelayForward_wf RelayForward_Encode RelayForward_Decode ∧
  roundtrips ProfileUpdate_wf ProfileUpdate_Encode ProfileUpdate_Decode ∧
  roundtrips Typing_wf Typing_Encode Typing_Decode ∧
  roundtrips MessageHeader_wf MessageHeader_Encode MessageHeader_Decode ∧
  roundtrips KeyBundle_wf KeyBundle_Encode DecodeKeyBundle ∧
  roundtrips InitialMessage_wf InitialMessage_Encode InitialMessage_Decode.
Proof.
  split_and!; match goal with |- @roundtrips ?M _ _ _ => exact (@roundtrips_wire M _) end.
Qed.

(** what a decoder has read is the encoding of what it returns *)
Ltac exact_steps :=
  prefix_steps; repeat match goal with E : (_ =? _) = true |- _ => apply Z.eqb_eq in E end; subst;
  apply consumes_ret; cbn -[be_put len]; by rewrite ?app_nil_r, <- ?app_assoc.
Ltac exact_format rd layout :=
  match goal with |- @decodes_exactly ?M _ _ _ => refine (@decodes_exactly_wire M _ _) end;
  intros buf m Hb Hd; refine (consumes_run _ (λ m l, l = layout m) buf m Hd Hb _); unfold rd, layout; exact_steps.

Lemma OneTimePreKey_consumes : consumes OneTimePreKey_rd (λ k l, l = opk_layout k).
Proof. unfold OneTimePreKey_rd, opk_layout. exact_steps. Qed.

Ltac exact_times rd layout one :=
  match goal with |- @decodes_exactly ?M _ _ _ => refine (@decodes_exactly_wire M _ _) end;
  intros buf m Hb Hd; refine (consumes_run _ (λ m l, l = layout m) buf m Hd Hb _); unfold rd, layout;
  prefix_steps; eapply consumes_bind; [apply (consumes_times _ _ _ one)|intros ? ? [-> ?]];
  match goal with E : length ?l = Z.to_nat ?n |- _ => assert (n = len l) by (unfold len; lia) end; subst;
  apply consumes_ret; cbn -[be_put len]; by rewrite ?app_nil_r, <- ?app_assoc.

(** what a typing indicator is decoded from: the last byte may be any *)
Lemma typing_exact buf t : bytes buf → Typing_Decode (mk_slice buf) = Ok t ↔
  Typing_wf t ∧ ∃ typing rest, ti_IsTyping t = (typing =? 1) ∧
    buf = [1] ++ ti_From t ++ ti_To t ++ be_put 8 (ti_Timestamp t) ++ [typing] ++ rest.
Proof.
  intros Hb. split.
  - intros Hd. split.
    { change (wire_wf t). eapply wire_decode_wf, Hd. unfold slice_bytes. cbn. by rewrite app_nil_r. }
    destruct (consumes_run _ (λ t l, ∃ typing, ti_IsTyping t = (typing =? 1) ∧
      l = [1] ++ ti_From t ++ ti_To t ++ be_put 8 (ti_Timestamp t) ++ [typing]) buf t Hd Hb) as (k & typing & Ht & Hk).
    { unfold Typing_rd. prefix_steps. match goal with E : (_ =? 1) = true |- _ => apply Z.eqb_eq in E end.
      subst. apply consumes_ret. eexists. split; [reflexivity|]. cbn -[be_put len]. done. }
    exists typing, (drop k buf). split; [done|]. rewrite <- (take_drop k buf), Hk at 1. by rewrite <- !app_assoc.
  - intros ((?&?&?) & typing & rest & Ht & ->). unfold Typing_Decode. destruct t as [from to ts typ]. cbn in *. subst typ.
    change (1 :: from ++ to ++ be_put 8 ts ++ typing :: rest) with ([1] ++ from ++ to ++ be_put 8 ts ++ [typing] ++ rest).
    replace ([1] ++ from ++ to ++ be_put 8 ts ++ [typing] ++ rest)
      with (([1] ++ from ++ to ++ be_put 8 ts ++ [typing]) ++ rest) by by rewrite <- !app_assoc.
    unfold mk_slice. rewrite rd_run_need_ok by wire_size. apply rd_run_reads. unfold Typing_rd.
    eapply reads_bind; [reflexivity|apply reads_byte|].
    eapply reads_bind; [symmetry; apply app_nil_l|apply reads_guard|].
    read_steps; wire_leaf.
Qed.

(** C32: the decoders of pkg/protocol accept exactly the encodings.  [Decode]
    returns [m] from a buffer whose capacity is its length, as the ones read
    from a connection, if and only if [m] is well formed - arrays of their
    length, integers of their width, fields that fit their length prefix - and
    the buffer starts with the bytes [Encode] writes for [m]: no other bytes
    are read as [m], so a field decoded from the wrong place, swapped with
    another or skipped would break it.  The typing indicator is the exception:
    any last byte other than 1 means not typing. *)
Theorem decoders_exact :
  decodes_exactly Header_wf Header_Encode Header_Decode ∧
  decodes_exactly DirectMessage_wf DirectMessage_Encode DirectMessage_Decode ∧
  decodes_exactly AckMessage_wf AckMessage_Encode AckMessage_Decode ∧
  decodes_exactly NackMessage_wf NackMessage_Encode NackMessage_Decode ∧
  decodes_exactly GroupMessage_wf GroupMessage_Encode GroupMessage_Decode ∧
  decodes_exactly ReadReceipt_wf ReadReceipt_Encode ReadReceipt_Decode ∧
  decodes_exactly GroupCreate_wf GroupCreate_Encode GroupCreate_Decode ∧
  decodes_exactly GroupJoin_wf GroupJoin_Encode GroupJoin_Decode ∧
  decodes_exactly GroupLeave_wf GroupLeave_Encode GroupLeave_Decode ∧
  decodes_exactly GroupUpdate_wf GroupUpdate_Encode GroupUpdate_Decode ∧
  decodes_exactly Handshake_wf Handshake_Encode Handshake_Decode ∧
  decodes_exactly RelayForward_wf RelayForward_Encode RelayForward_Decode ∧
  decodes_exactly ProfileUpdate_wf ProfileUpdate_Encode ProfileUpdate_Decode ∧
  decodes_exactly MessageHeader_wf MessageHeader_Encode MessageHeader_Decode ∧
  decodes_exactly KeyBundle_wf KeyBundle_Encode DecodeKeyBundle ∧
  decodes_exactly InitialMessage_wf InitialMessage_Encode InitialMessage_Decode ∧
  (∀ buf t, bytes buf → Typing_Decode (mk_slice buf) = Ok t ↔
     Typing_wf t ∧ ∃ typing rest, ti_IsTyping t = (typing =? 1) ∧
       buf = [1] ++ ti_From t ++ ti_To t ++ be_put 8 (ti_Timestamp t) ++ [typing] ++ rest).
Proof.
  split_and!.
  - exact_format Header_Decode Header_layout.
  - exact_format DirectMessage_rd DirectMessage_layout.
  - exact_format AckMessage_rd AckMessage_layout.
  - exact_format NackMessage_rd NackMessage_layout.
  - exact_format GroupMessage_rd GroupMessage_layout.
  - exact_format ReadReceipt_rd ReadReceipt_layout.
  - exact_times GroupCreate_rd GroupCreate_layout (consumes_copy 20 ltac:(lia)).
  - exact_format GroupJoin_rd GroupJoin_layout.
  - exact_format GroupLeave_rd GroupLeave_layout.
  - exact_format GroupUpdate_rd GroupUpdate_layout.
  - exact_format Handshake_rd Handshake_layout.
  - exact_format RelayForward_rd RelayForward_layout.
  - exact_format ProfileUpdate_rd ProfileUpdate_layout.
  - exact_format MessageHeader_rd MessageHeader_layout.
  - exact_times KeyBundle_rd KeyBundle_layout OneTimePreKey_consumes.
  - exact_format InitialMessage_rd InitialMessage_layout.
  - apply typing_exact.
Qed.

(** The formats are inhabited: a message of every shape of field. *)
Example direct_message_ex :
  let m := mkDirectMessage (replicate 20 1) (replicate 20 2) 1700000000000 7 0
             (replicate 16 3) [104; 105] [9; 9; 9] in
  DirectMessage_wf m ∧
  (out ← DirectMessage_Encode m; DirectMessage_Decode (mk_slice out)) = Ok m.
Proof.
  split; [|vm_compute; reflexivity].
  apply (bool_decide_eq_true_1 (DirectMessage_wf _)). vm_compute. done.
Qed.

Lemma Header_Decode_safe s : slice_bytes s → Header_Decode s ≠ Panic.
Proof. intros. apply fits_run; [done|]. unfold HeaderSize. fit_steps. Qed.
Lemma MessageHeader_Decode_safe s : slice_bytes s → MessageHeader_Decode s ≠ Panic.
Proof. intros. apply fits_run; [done|]. unfold MessageHeader_rd. fit_steps. Qed.

(** the decoders that start with a length check return or report an error on
    every input, they never panic. *)
Theorem guarded_decoders_total (s : slice) : slice_bytes s →
  Header_Decode s ≠ Panic ∧ AckMessage_Decode s ≠ Panic ∧ NackMessage_Decode s ≠ Panic ∧
  ReadReceipt_Decode s ≠ Panic ∧ Typing_Decode s ≠ Panic ∧ MessageHeader_Decode s ≠ Panic ∧
  InitialMessage_Decode s ≠ Panic.
Proof.
  intros Hs. split_and!; auto using Header_Decode_safe, AckMessage_Decode_safe,
    NackMessage_Decode_safe, ReadReceipt_Decode_safe, Typing_Decode_safe,
    MessageHeader_Decode_safe, InitialMessage_Decode_safe.
Qed.

(** the decoders without a length check (handshake and direct message, the
    first bytes a relay or a client reads from a peer) panic on every encoding
    that is cut short; the key bundle decoder, which only checks its fixed
    part, panics on every bundle cut inside its one-time prekeys. *)
Theorem truncated_input_panics hs dm kb k :
  Handshake_wf hs → DirectMessage_wf dm → KeyBundle_wf kb →
  ((k < length (Handshake_layout hs))%nat →
     Handshake_Decode (mk_slice (take k (Handshake_layout hs))) = Panic) ∧
  ((k < length (DirectMessage_layout dm))%nat →
     DirectMessage_Decode (mk_slice (take k (DirectMessage_layout dm))) = Panic) ∧
  ((168 ≤ k < length (KeyBundle_layout kb))%nat →
     DecodeKeyBundle (mk_slice (take k (KeyBundle_layout kb))) = Panic).
Proof.
  intros Hh Hd Hb. split_and!; intros Hk.
  - by apply rd_run_starves, Hk; apply Handshake_starves.
  - by apply rd_run_starves, Hk; apply DirectMessage_starves.
  - unfold DecodeKeyBundle. rewrite rd_run_need, bool_decide_false.
    + apply rd_run_starves; [by apply KeyBundle_starves|lia].
    + unfold slen, mk_slice, len. cbn [sdata]. rewrite length_take. lia.
Qed.

(** the bytes a group update or a profile update signs determine every field
    but the signature: two messages with the same signed bytes agree. *)
Theorem signed_bytes_bind (u1 u2 : GroupUpdateMessage) (p1 p2 : ProfileUpdate) :
  GroupUpdate_wf u1 → GroupUpdate_wf u2 → ProfileUpdate_wf p1 → ProfileUpdate_wf p2 →
  (GroupUpdate_EncodeForSigning u1 = GroupUpdate_EncodeForSigning u2 →
     strip_update u1 = strip_update u2) ∧
  (ProfileUpdate_EncodeForSigning p1 = ProfileUpdate_EncodeForSigning p2 →
     strip_profile p1 = strip_profile p2).
Proof.
  intros Hu1 Hu2 Hp1 Hp2. split; intros E.
  - rewrite !GroupUpdate_EncodeForSigning_signed in E by done.
    by apply GroupUpdate_signed_inj, Ok_inj.
  - rewrite !ProfileUpdate_EncodeForSigning_signed in E by done.
    by apply ProfileUpdate_signed_inj, Ok_inj.
Qed.

(** join and leave requests sign the same bytes: a signature made for joining
    a group at some time is a valid signature for leaving it. *)
Theorem join_signs_as_leave (j : GroupJoinMessage) (sig : list Z) :
  GroupJoin_wf j →
  GroupJoin_EncodeForSigning j = Ok (GroupJoin_signed j) ∧
  GroupLeave_EncodeForSigning
    (mkGroupLeave (gj_GroupID j) (gj_MemberAddr j) (gj_Timestamp j) sig)
  = GroupJoin_EncodeForSigning j.
Proof. intros Hj. split; [by apply GroupJoin_EncodeForSigning_signed|done]. Qed.

(** ** The header on a stream *)

(** reading a header from a connection accepts exactly the 32-byte encodings
    with the protocol's magic and version, and leaves the rest of the stream
    for the payload. *)
Theorem read_header_spec (r : list Z) (h : Header) (rest : list Z) :
  bytes r →
  ReadHeader r = Ok (h, rest) ↔
  Header_wf h ∧ h_Magic h = ProtocolMagic ∧ h_Version h = ProtocolVersion ∧
  r = Header_layout h ++ rest.
Proof.
  intros Hr. unfold ReadHeader, ReadFull. split.
  - case_bool_decide as Hlen; [|by case_bool_decide]. cbn [mbind outcome_bind].
    intros (h' & Hd & H)%outcome_bind_ok. apply outcome_bind_ok in H as ([] & Hv & H).
    apply Ok_inj in H. injection H as -> <-.
    assert (Header_wf h) as Hh.
    { eapply Header_Decode_wf, Hd. unfold slice_bytes. cbn. rewrite app_nil_r.
      by apply bytes_take. }
    unfold Header_Validate in Hv. destruct (h_Magic h =? ProtocolMagic) eqn:E1; [|done].
    destruct (h_Version h =? ProtocolVersion) eqn:E2; [|done].
    apply Z.eqb_eq in E1, E2. split_and!; try done.
    rewrite <- (take_drop (Z.to_nat HeaderSize) r) at 1. f_equal.
    apply Header_Decode_bytes; [by apply bytes_take| |done].
    rewrite length_take. unfold len, HeaderSize in *. lia.
  - intros (Hh & E1 & E2 & ->). pose proof (length_Header_layout h Hh) as Hl.
    rewrite bool_decide_true by (rewrite len_app; unfold len, HeaderSize; lia).
    cbn [mbind outcome_bind]. change (Z.to_nat HeaderSize) with 32%nat.
    rewrite <- Hl, take_app_length, drop_app_length.
    unfold mk_slice. rewrite <- (app_nil_r (Header_layout h)).
    rewrite Header_Decode_layout by done. cbn.
    unfold Header_Validate. by rewrite E1, E2, !Z.eqb_refl.
Qed.

(** ** Padding *)

(** a padded message is restored: whatever scheme other than none and whatever
    random bytes were drawn, removing the padding gives back the payload and
    the header, with the padded flag cleared. *)
Theorem padding_roundtrip msg scheme r1 fill padded :
  in_range 32 (slen (msg_Payload msg)) → scheme ≠ PaddingNone →
  AddMessagePadding msg scheme r1 fill = Ok padded →
  Header_HasFlag (msg_Header padded) FlagPadded = true ∧
  ∃ msg', RemoveMessagePadding padded = Ok msg' ∧
    sdata (msg_Payload msg') = sdata (msg_Payload msg) ∧
    msg_Header msg' = repack (msg_Header msg) (slen (msg_Payload msg))
      (Z.ldiff (h_Flags (msg_Header msg)) FlagPadded).
Proof.
  intros Hl Hs Ha. split.
  - unfold AddMessagePadding in Ha. replace (scheme =? PaddingNone) with false in Ha by lia.
    apply outcome_bind_ok in Ha as ([p n] & _ & H). apply Ok_inj in H as <-.
    apply has_padded_flag.
  - destruct (remove_add_padding msg scheme r1 fill padded) as (spare & ->); [done..|]. eauto.
Qed.

(** the fixed-size scheme reveals a cell size only: the padded length is the
    smallest of 512, 1024, 4096 and the multiples of 8192 that holds the
    message, so messages of one cell are indistinguishable by length, and the
    size estimate is exact. *)
Theorem fixed_padding_cell (m : slice) (fill : Z → option (list Z)) p n :
  (∀ k l, 0 ≤ k → fill k = Some l → len l = k) →
  AddPadding m PaddingFixedSize None fill = Ok (p, n) →
  slen p = EstimatePaddedSize (slen m) PaddingFixedSize ∧ n = slen m ∧
  is_cell (slen p) ∧ slen m ≤ slen p ∧
  (∀ c, is_cell c → slen m ≤ c → slen p ≤ c).
Proof.
  intros Hfill Hp. pose proof (len_nonneg (sdata m)) as Hm. fold (slen m) in Hm.
  assert (slen p = fixed_target (slen m) ∧ n = slen m) as [-> ->].
  { unfold AddPadding in Hp. cbn in Hp. unfold addFixedSizePadding in Hp.
    destruct (fixed_target (slen m) - slen m =? 0) eqn:E.
    - injection Hp as <- <-. apply Z.eqb_eq in E. split; [lia|done].
    - apply pad_to_prefix in Hp as (-> & r & Hr & ->). split; [|done].
      apply Hfill in Hr; [|pose proof (fixed_target_ge (slen m) Hm); lia].
      unfold slen at 1. cbn [sdata mk_slice]. rewrite len_app.
      unfold slen in *. lia. }
  split_and!; [done|done|by apply fixed_target_cell|by apply fixed_target_ge|].
  intros. by apply fixed_target_least.
Qed.

(** the two copies of the padding code agree on the three schemes: they
    return the same padded bytes and length, or both fail, for the same random
    draws. *)
Theorem padding_copies_agree (m : slice) (scheme : Z) (r1 : option Z)
  (fill : Z → option (list Z)) :
  scheme = PaddingNone ∨ scheme = PaddingFixedSize ∨ scheme = PaddingRandom →
  (∀ b, r1 = Some b → 0 ≤ b) →
  is_ok (addPadding m scheme r1 fill) = is_ok (AddPadding m scheme r1 fill) ∧
  ∀ p n, addPadding m scheme r1 fill = Ok (p, n) →
    ∃ p', AddPadding m scheme r1 fill = Ok (p', n) ∧ sdata p' = sdata p.
Proof.
  intros Hs Hr. unfold addPadding, AddPadding, addFixedSizePadding, addRandomPadding, pad_to.
  destruct Hs as [-> | [-> | ->]]; cbn [Z.eqb PaddingNone PaddingFixedSize PaddingRandom
    Pos.eqb mbind outcome_bind].
  - split; [done|eauto].
  - case_match; [split; [done|eauto]|]. destruct (fill _); split; eauto; done.
  - destruct r1 as [b|]; [|split; done]. cbn [mbind outcome_bind].
    specialize (Hr b eq_refl). replace (slen m + b - slen m) with b by lia.
    destruct (b =? 0) eqn:E.
    + apply Z.eqb_eq in E as ->. cbn. split; [done|]. intros p n [= <- <-]. eauto.
    + replace (0 <? b) with true by lia. destruct (fill b); split; eauto; done.
Qed.

(** ** Witnesses *)

Definition ex_hs : HandshakeMessage :=
  mkHandshake 256 (replicate 20 1) [45; 45] 0 1700000000 [].
Definition ex_dm : DirectMessage :=
  mkDirectMessage (replicate 20 1) (replicate 20 2) 5 6 0 (replicate 16 3) [104] [9].
Definition ex_gu (sig : list Z) : GroupUpdateMessage :=
  mkGroupUpdate (replicate 32 7) 1 (replicate 20 1) 5 [110] (replicate 20 2) sig.
Definition ex_pu (sig : list Z) : ProfileUpdate :=
  mkProfileUpdate (replicate 20 1) (replicate 32 2) 3 (replicate 32 4) (replicate 256 5)
    [6] 7 sig.
Definition ex_gj : GroupJoinMessage := mkGroupJoin (replicate 32 1) (replicate 20 2) 3 [4].
Definition ex_hdr : Header :=
  mkHeader ProtocolMagic ProtocolVersion MsgTypeDirectMessage 3 0 (replicate 16 1) 0.
Definition ex_msg : Message := mkMessage ex_hdr (mk_slice [1; 2; 3]).
Definition ex_fill (n : Z) : option (list Z) := Some (replicate (Z.to_nat n) 77).

Lemma guarded_decoders_total_witness :
  AckMessage_Decode (mk_slice [1; 2; 3]) = Err "buffer too short for ACK message" ∧
  AckMessage_Decode (mk_slice [1; 2; 3]) ≠ Panic.
Proof.
  split; [reflexivity|]. apply (guarded_decoders_total (mk_slice [1; 2; 3])). by_decision.
Defined.

Definition ex_kb : KeyBundle :=
  mkKeyBundle (replicate 20 1) (replicate 32 2) (mkSignedPreKey 1 (replicate 32 3) (replicate 64 4) 5)
    [mkOneTimePreKey 100 (replicate 32 6)] 7.

Lemma truncated_input_panics_witness :
  Handshake_Decode (mk_slice (take 5 (Handshake_layout ex_hs))) = Panic ∧
  DecodeKeyBundle (mk_slice (take 170 (KeyBundle_layout ex_kb))) = Panic.
Proof.
  split.
  - apply (truncated_input_panics ex_hs ex_dm ex_kb 5); [by_decision..|vm_compute; lia].
  - apply (truncated_input_panics ex_hs ex_dm ex_kb 170); [by_decision..|vm_compute; lia].
Defined.

Lemma signed_bytes_bind_witness :
  strip_update (ex_gu [1]) = strip_update (ex_gu [2]) ∧
  strip_profile (ex_pu [1]) = strip_profile (ex_pu [2]).
Proof.
  split; apply (signed_bytes_bind (ex_gu [1]) (ex_gu [2]) (ex_pu [1]) (ex_pu [2]));
    first [by_decision | reflexivity].
Defined.

Lemma join_signs_as_leave_witness :
  GroupLeave_EncodeForSigning (mkGroupLeave (replicate 32 1) (replicate 20 2) 3 [])
  = GroupJoin_EncodeForSigning ex_gj.
Proof.
  apply (join_signs_as_leave ex_gj []). split_and!; by_decision.
Defined.

Lemma read_header_spec_witness :
  ReadHeader (Header_layout ex_hdr ++ [8; 9]) = Ok (ex_hdr, [8; 9]).
Proof.
  apply (read_header_spec (Header_layout ex_hdr ++ [8; 9]) ex_hdr [8; 9]); [by_decision|].
  split_and!; [by_decision|reflexivity..].
Defined.

Lemma padding_roundtrip_witness :
  ∃ padded, AddMessagePadding ex_msg PaddingFixedSize None ex_fill = Ok padded ∧
    slen (msg_Payload padded) = 516 ∧
    ∃ msg', RemoveMessagePadding padded = Ok msg' ∧ sdata (msg_Payload msg') = [1; 2; 3].
Proof.
  eexists. split; [vm_compute; reflexivity|]. split; [vm_compute; reflexivity|].
  edestruct (padding_roundtrip ex_msg PaddingFixedSize None ex_fill) as (_ & msg' & E & D & _);
    [by_decision|discriminate|vm_compute; reflexivity|].
  exists msg'. split; [exact E|exact D].
Defined.

Lemma fixed_padding_cell_witness :
  ∃ p n, AddPadding (mk_slice [1; 2; 3]) PaddingFixedSize None ex_fill = Ok (p, n) ∧
    slen p = 512 ∧ is_cell (slen p).
Proof.
  do 2 eexists. split; [vm_compute; reflexivity|]. split; [vm_compute; reflexivity|].
  eapply (fixed_padding_cell (mk_slice [1; 2; 3]) ex_fill); [|vm_compute; reflexivity].
  intros k l Hk [= <-]. rewrite len_replicate. lia.
Defined.

Lemma padding_copies_agree_witness :
  is_ok (addPadding (mk_slice [1; 2; 3]) PaddingRandom (Some 5) ex_fill) = true.
Proof.
  rewrite (proj1 (padding_copies_agree (mk_slice [1; 2; 3]) PaddingRandom (Some 5) ex_fill
    ltac:(auto) ltac:(intros b [= <-]; lia))).
  reflexivity.
Defined.

Lemma decoders_exact_witness :
  DirectMessage_wf ex_dm ∧
  Typing_Decode (mk_slice ([1] ++ replicate 20 1 ++ replicate 20 2 ++ be_put 8 5 ++ [7] ++ [9]))
  = Ok (mkTyping (replicate 20 1) (replicate 20 2) 5 false).
Proof.
  pose proof decoders_exact as Hd. destruct Hd as (_ & Hdm & Hd).
  do 14 (destruct Hd as [_ Hd]). split.
  - apply (Hdm (DirectMessage_layout ex_dm) ex_dm); [by_decision|by vm_compute].
  - apply Hd; [by_decision|]. split; [split_and!; by_decision|]. exists 7, [9]. by split.
Defined.
