(* ===== verification/RatchetProofs.v ===== *)
(** * Theorems on the double ratchet

    A two-party session with in-order delivery never loses a message, what a
    gap in the delivery order does to the receiver, and the bounds on skipped
    keys. *)

From S2P Require Import Prelude GoBytes Wire Ratchet.

(** ** Sessions

    Two parties exchange messages; each message is delivered before the next
    one is sent.  An event names the sender, the plaintext, the nonce of the
    encryption and the key the receiver draws if it ratchets. *)

Record event := mkEvent {
  ev_from_alice : bool; ev_plain : list Z; ev_nonce : list Z; ev_rnd : list Z }.

Section session.
Context `{RatchetOps}.
Context (aes_enc : list Z → list Z → list Z → outcome (list Z)).
Context (aes_dec : list Z → list Z → outcome (list Z)).

(** one message from [P] to [Q] *)
Definition transfer (P Q : RatchetState) (e : event)
  : outcome (RatchetState * RatchetState * list Z) :=
  let '(P', r) := RatchetEncrypt P (ev_plain e) (λ pt k, aes_enc (ev_nonce e) pt k) in
  '(header, ct) ← r;
  let '(Q', r') := RatchetDecrypt Q (mk_slice header) ct aes_dec (Some (ev_rnd e)) in
  pt ← r'; Ok (P', Q', pt).

Fixpoint exec (A B : RatchetState) (es : list event)
  : outcome (RatchetState * RatchetState * list (list Z)) :=
  match es with
  | [] => Ok (A, B, [])
  | e :: es' =>
      '(A', B', pt) ←
        (if ev_from_alice e then transfer A B e
         else '(B', A', pt) ← transfer B A e; Ok (A', B', pt));
      '(A'', B'', pts) ← exec A' B' es';
      Ok (A'', B'', pt :: pts)
  end.
End session.

Section proofs.
Context `{RatchetLaws}.

(** ** Chains *)

Definition ck_at (ck : list Z) (k : nat) : list Z := Nat.iter k (λ c, (KDF_CK c).1) ck.
Definition mk_at (ck : list Z) (k : nat) : list Z := (KDF_CK (ck_at ck k)).2.

Lemma ck_at_S ck k : ck_at ck (S k) = ck_at (KDF_CK ck).1 k.
Proof. unfold ck_at. by rewrite Nat.iter_succ_r. Qed.
Lemma ck_at_last ck k : ck_at ck (S k) = (KDF_CK (ck_at ck k)).1.
Proof. done. Qed.
Lemma ck_at_add ck j k : ck_at (ck_at ck j) k = ck_at ck (j + k).
Proof. unfold ck_at. by rewrite Nat.add_comm, Nat.iter_add. Qed.
Lemma mk_at_add ck j k : mk_at (ck_at ck j) k = mk_at ck (j + k).
Proof. unfold mk_at. by rewrite ck_at_add. Qed.

Lemma skip_loop_chain n dh i ck sk : (skip_loop n dh i ck sk).1 = ck_at ck n.
Proof.
  revert i ck sk. induction n as [|n IH]; intros i ck sk; [done|].
  cbn [skip_loop]. destruct (KDF_CK ck) as [ck' mk] eqn:E. by rewrite IH, ck_at_S, E.
Qed.

(** The loop files exactly the keys of the numbers it passes. *)
Lemma skip_loop_keys n dh i ck sk d j :
  (skip_loop n dh i ck sk).2 !! (d, j) =
  if decide (d = dh ∧ i ≤ j < i + Z.of_nat n) then Some (mk_at ck (Z.to_nat (j - i)))
  else sk !! (d, j).
Proof.
  revert i ck sk. induction n as [|n IH]; intros i ck sk.
  { cbn. rewrite decide_False by lia. done. }
  cbn [skip_loop]. destruct (KDF_CK ck) as [ck' mk] eqn:E. rewrite IH.
  destruct (decide (d = dh ∧ j = i)) as [[-> ->]|Hne].
  - rewrite decide_False by lia. rewrite lookup_insert_eq, decide_True by (split; [done|lia]).
    rewrite Z.sub_diag. unfold mk_at. change (ck_at ck _) with ck. by rewrite E.
  - rewrite lookup_insert_ne by (intros [= <- <-]; by destruct Hne).
    destruct (decide (d = dh ∧ i + 1 ≤ j < i + 1 + Z.of_nat n)) as [Hd|Hd].
    + rewrite decide_True by (destruct Hd; split; [done|lia]). f_equal.
      replace (Z.to_nat (j - i)) with (S (Z.to_nat (j - (i + 1)))) by lia.
      unfold mk_at. by rewrite ck_at_S, E.
    + rewrite decide_False; [done|]. intros [-> ?]. destruct Hd. split; [done|].
      assert (j ≠ i) by (intros ->; by destruct Hne). lia.
Qed.

Lemma skip_loop_size n dh i ck sk : (size (skip_loop n dh i ck sk).2 ≤ size sk + n)%nat.
Proof.
  revert i ck sk. induction n as [|n IH]; intros i ck sk; [cbn; lia|].
  cbn [skip_loop]. destruct (KDF_CK ck) as [ck' mk].
  etrans; [apply IH|]. destruct (sk !! (dh, i)) eqn:E.
  - rewrite map_size_insert_Some by eauto. lia.
  - rewrite map_size_insert_None by done. lia.
Qed.

(** ** Skipping *)

Lemma SkipMessageKeys_none s dh n : in_range 32 n → SkipMessageKeys s dh n n = (s, Ok tt).
Proof.
  intros Hn. unfold SkipMessageKeys. rewrite Z.sub_diag. cbn. by destruct s.
Qed.

Lemma SkipMessageKeys_ok s dh from to :
  0 ≤ to - from ≤ MaxSkip →
  ∃ sk, SkipMessageKeys s dh from to
    = (with_receiving s (ck_at (ReceivingChainKey s) (Z.to_nat (to - from)))
         (ReceivingMsgNum s) sk, Ok tt)
  ∧ ∀ d j, sk !! (d, j) =
      if decide (d = dh ∧ from ≤ j < to)
      then Some (mk_at (ReceivingChainKey s) (Z.to_nat (j - from)))
      else SkippedMessageKeys s !! (d, j).
Proof.
  intros Hle. unfold SkipMessageKeys. unfold MaxSkip in *.
  rewrite u32_id by (unfold in_range; lia).
  replace (1000 <? to - from) with false by lia.
  pose proof (skip_loop_chain (Z.to_nat (to - from)) dh from (ReceivingChainKey s)
    (SkippedMessageKeys s)) as Hc.
  pose proof (skip_loop_keys (Z.to_nat (to - from)) dh from (ReceivingChainKey s)
    (SkippedMessageKeys s)) as Hk.
  destruct (skip_loop _ _ _ _ _) as [ck sk]. simpl in Hc, Hk. subst ck.
  exists sk. split; [done|]. intros d j. rewrite Hk.
  replace (from + Z.of_nat (Z.to_nat (to - from))) with to by lia. done.
Qed.

(** ** The session invariant

    [sync L F]: [L] ratcheted last and has sent nothing on its new chain.  [F]
    does not know [L]'s public key yet but derives [L]'s sending chain from it;
    [F]'s messages are read on the chain both already share. *)

Record sync (L F : RatchetState) : Prop := {
  sy_pair_l : DHSendingPublic L = x25519_base (DHSendingPrivate L);
  sy_pair_f : DHSendingPublic F = x25519_base (DHSendingPrivate F);
  sy_known : DHReceivingPublic L = DHSendingPublic F;
  sy_new : DHReceivingPublic F ≠ DHSendingPublic L;
  sy_chain : ReceivingChainKey L = SendingChainKey F;
  sy_num : ReceivingMsgNum L = SendingMsgNum F;
  sy_root : KDF_RK (RootKey F) (x25519 (DHSendingPrivate F) (DHSendingPublic L))
            = Ok (RootKey L, SendingChainKey L);
  sy_fresh : SendingMsgNum L = 0;
  sy_prev : PreviousChainLen L = ReceivingMsgNum F;
  sy_skip_l : SkippedMessageKeys L = ∅;
  sy_skip_f : SkippedMessageKeys F = ∅;
  sy_range : in_range 32 (SendingMsgNum F) ∧ in_range 32 (ReceivingMsgNum F) ∧
             in_range 32 (PreviousChainLen F) ∧
             array 32 (DHSendingPublic L) ∧ array 32 (DHSendingPublic F);
}.

Lemma KDF_RK_total root dh : ∃ rk ck, KDF_RK root dh = Ok (rk, ck).
Proof.
  unfold KDF_RK. destruct (hkdf_total dh root KDFRootInfo 64) as (out & -> & _); [lia|].
  eauto.
Qed.

Lemma decode_header h : MessageHeader_wf h →
  ∃ b, MessageHeader_Encode h = Ok b ∧ MessageHeader_Decode (mk_slice b) = Ok h.
Proof.
  intros Hh. destruct (wire_roundtrip (H:=MessageHeader_wire) h [] [] Hh) as (out & He & Hd).
  exists out. rewrite app_nil_r in Hd. done.
Qed.

(** A message in step with the receiving chain, no skipped keys around. *)
Lemma decrypt_chain_next s h ct dec :
  SkippedMessageKeys s = ∅ → mh_MessageNum h = ReceivingMsgNum s →
  decrypt_chain s h ct dec
  = (with_receiving s (KDF_CK (ReceivingChainKey s)).1 (ReceivingMsgNum s +u32 1) ∅,
     dec ct (KDF_CK (ReceivingChainKey s)).2).
Proof.
  intros Hs Hn. unfold decrypt_chain. rewrite Hn, Z.ltb_irrefl.
  rewrite Hs, lookup_empty. by destruct (KDF_CK _).
Qed.

Lemma DHRatchet_ok s remote r rk1 ckr rk2 cks :
  KDF_RK (RootKey s) (x25519 (DHSendingPrivate s) remote) = Ok (rk1, ckr) →
  KDF_RK rk1 (x25519 r remote) = Ok (rk2, cks) →
  DHRatchet s remote (Some r)
  = (mkRatchetState rk2 cks 0 ckr 0 r (x25519_base r) remote (SendingMsgNum s)
       (SkippedMessageKeys s) (LocalAddress s) (RemoteAddress s), Ok tt).
Proof.
  intros H1 H2. unfold DHRatchet. cbn -[KDF_RK]. rewrite H1. cbn -[KDF_RK]. by rewrite H2.
Qed.

(** *** The moves of a session *)

Section moves.
Context (aes_enc : list Z → list Z → list Z → outcome (list Z)).
Context (aes_dec : list Z → list Z → outcome (list Z)).
(** AES-256-GCM accepts every plaintext and opens what it sealed. *)
Hypothesis aes_correct : ∀ nonce pt k, ∃ ct,
  aes_enc nonce pt k = Ok ct ∧ aes_dec ct k = Ok pt.

(** the follower speaks: the leader reads on the shared chain *)
Lemma transfer_follower L F e :
  sync L F → ∃ F' L', transfer aes_enc aes_dec F L e = Ok (F', L', ev_plain e)
    ∧ sync L' F' ∧ DHSendingPublic L' = DHSendingPublic L
    ∧ DHSendingPublic F' = DHSendingPublic F
    ∧ DHReceivingPublic F' = DHReceivingPublic F.
Proof.
  intros [? ? Hk Hn Hc Hm Hr Hf Hp Hl1 Hl2 (R1&R2&R3&R4&R5)].
  unfold transfer, RatchetEncrypt. destruct (KDF_CK (SendingChainKey F)) as [ck mk] eqn:E.
  destruct (aes_correct (ev_nonce e) (ev_plain e) mk) as (ct & -> & Hdec).
  destruct (decode_header (mkMessageHeader (DHSendingPublic F) (PreviousChainLen F)
    (SendingMsgNum F))) as (b & -> & Hdh); [by split_and!|].
  cbn [mbind outcome_bind]. unfold RatchetDecrypt. rewrite Hdh.
  cbn [mh_DHPublicKey]. rewrite bool_decide_false by (intros []; done).
  rewrite decrypt_chain_next by done. rewrite Hc, E. cbn [snd]. rewrite Hdec.
  cbn. do 2 eexists. split; [done|].
  split_and!; try done. constructor; cbn; try done.
  - by rewrite Hm.
  - split_and!; try done. apply u32_range.
Qed.

(** the leader speaks: the follower ratchets and takes the lead *)
Lemma transfer_leader L F e :
  sync L F → array 32 (x25519_base (ev_rnd e)) →
  x25519_base (ev_rnd e) ≠ DHSendingPublic F →
  ∃ L' F', transfer aes_enc aes_dec L F e = Ok (L', F', ev_plain e)
    ∧ sync F' L' ∧ DHSendingPublic F' = x25519_base (ev_rnd e)
    ∧ DHSendingPublic L' = DHSendingPublic L ∧ DHReceivingPublic L' = DHSendingPublic F.
Proof.
  intros [Pl Pf Hk Hn Hc Hm Hr Hf Hp Hl1 Hl2 (R1&R2&R3&R4&R5)] Hrnd Hnew.
  unfold transfer, RatchetEncrypt. destruct (KDF_CK (SendingChainKey L)) as [ck mk] eqn:E.
  destruct (aes_correct (ev_nonce e) (ev_plain e) mk) as (ct & -> & Hdec).
  destruct (decode_header (mkMessageHeader (DHSendingPublic L) (PreviousChainLen L)
    (SendingMsgNum L))) as (b & -> & Hdh).
  { split_and!; cbn; [done|by rewrite Hp|by rewrite Hf]. }
  cbn [mbind outcome_bind]. unfold RatchetDecrypt. rewrite Hdh.
  cbn [mh_DHPublicKey mh_PreviousChainLen]. rewrite bool_decide_true by congruence.
  rewrite Hp, SkipMessageKeys_none by done.
  destruct (KDF_RK_total (RootKey L) (x25519 (ev_rnd e) (DHSendingPublic L)))
    as (rk2 & cks & Hk2).
  rewrite (DHRatchet_ok _ _ _ _ _ _ _ Hr Hk2).
  rewrite decrypt_chain_next by (cbn; try done; by rewrite Hf).
  cbn [ReceivingChainKey]. rewrite E. cbn [snd].
  rewrite Hdec. cbn. do 2 eexists. split; [done|]. split_and!; try done.
  constructor; cbn; try done.
  - by rewrite Hk.
  - by rewrite Hf.
  - rewrite Pl, x25519_comm in Hk2. done.
  - split_and!; try done; rewrite ?Hf, ?Hm, ?Hp; done.
Qed.

(** Public keys drawn by the events of a run. *)
Definition drawn (es : list event) : list (list Z) := (λ e, x25519_base (ev_rnd e)) <$> es.

Lemma exec_in_order es A B (used : list (list Z)) :
  sync A B ∨ sync B A →
  DHSendingPublic A ∈ used → DHSendingPublic B ∈ used →
  NoDup (drawn es) → (∀ k, k ∈ drawn es → k ∉ used) → Forall (array 32) (drawn es) →
  ∃ A' B', exec aes_enc aes_dec A B es = Ok (A', B', ev_plain <$> es).
Proof.
  revert A B used. induction es as [|e es IH]; intros A B used Hs HA HB Hnd Hfr Harr.
  { by exists A, B. }
  apply NoDup_cons in Hnd as [Hnd1 Hnd2]. apply Forall_cons in Harr as [Ha1 Ha2].
  assert (x25519_base (ev_rnd e) ∉ used) as Hnew by (apply Hfr; left).
  assert (∀ k, k ∈ drawn es → k ∉ x25519_base (ev_rnd e) :: used) as Hfr'.
  { intros k Hk. rewrite not_elem_of_cons. split; [by intros ->|].
    apply Hfr. by right. }
  assert (∃ A' B', (if ev_from_alice e then transfer aes_enc aes_dec A B e
      else '(B', A', pt) ← transfer aes_enc aes_dec B A e; Ok (A', B', pt))
      = Ok (A', B', ev_plain e) ∧ (sync A' B' ∨ sync B' A')
      ∧ DHSendingPublic A' ∈ x25519_base (ev_rnd e) :: used
      ∧ DHSendingPublic B' ∈ x25519_base (ev_rnd e) :: used) as (A'&B'&Ht&Hs'&HA'&HB').
  { destruct (ev_from_alice e), Hs as [Hs|Hs].
    - destruct (transfer_leader A B e) as (A'&B'&->&?&E1&E2&_); [done..|set_solver|].
      exists A', B'. rewrite E1, E2. split_and!; [done|by right|by right|by left].
    - destruct (transfer_follower B A e) as (A'&B'&->&?&E1&E2&_); [done..|].
      exists A', B'. rewrite E1, E2. split_and!; [done|by right|by right|by right].
    - destruct (transfer_follower A B e) as (B'&A'&->&?&E1&E2&_); [done..|].
      exists A', B'. rewrite E1, E2. split_and!; [done|by left|by right|by right].
    - destruct (transfer_leader B A e) as (B'&A'&->&?&E1&E2&_); [done..|set_solver|].
      exists A', B'. rewrite E1, E2. split_and!; [done|by left|by left|by right]. }
  destruct (IH A' B' (x25519_base (ev_rnd e) :: used)) as (A''&B''&E); [done..|].
  exists A'', B''. cbn [exec]. rewrite Ht. cbn [mbind outcome_bind]. by rewrite E.
Qed.

(** Initiator and responder start in step. *)
Lemma initial_sync secret a b la ra lb rb :
  array 32 secret → array 32 (x25519_base a) → array 32 (x25519_base b) →
  x25519_base a ≠ zero32 →
  ∃ A B, NewRatchetState (mk_slice secret) (x25519_base b) a (x25519_base a) la ra = Ok A
    ∧ NewRatchetStateReceiver (mk_slice secret) b (x25519_base b) lb rb = Ok B
    ∧ DHSendingPublic A = x25519_base a ∧ DHSendingPublic B = x25519_base b ∧ sync A B.
Proof.
  intros [Hlen _] Ha Hb Hz.
  assert (copy32 (mk_slice secret) = Ok secret) as Hc.
  { unfold copy32, reslice. rewrite bool_decide_true
      by (unfold scap, len; cbn -[Z.of_nat]; rewrite Hlen; cbn; lia).
    cbn. rewrite app_nil_r, drop_0. f_equal. apply take_ge. change (Z.to_nat (32 - 0)) with 32%nat. lia. }
  unfold NewRatchetState, NewRatchetStateReceiver. rewrite Hc. cbn [mbind outcome_bind].
  unfold DH. cbn [wrap_err mbind outcome_bind].
  destruct (KDF_RK_total secret (x25519 a (x25519_base b))) as (rk & ck & Hk). rewrite Hk.
  cbn. do 2 eexists. split_and!; try done.
  constructor; cbn; try done.
  rewrite x25519_comm in Hk. done.
Qed.
End moves.

(** ** Gaps in the delivery order *)

(** A message ahead of the chain: the numbers in between are filed, the
    message gets its own key, and the counter moves by one only. *)
Lemma decrypt_chain_gap s h ct dec k n :
  k = ReceivingMsgNum s → n = mh_MessageNum h → 0 ≤ k < n → n - k ≤ MaxSkip →
  n < 2 ^ 32 → SkippedMessageKeys s !! (mh_DHPublicKey h, n) = None →
  ∃ sk, decrypt_chain s h ct dec
    = (with_receiving s (ck_at (ReceivingChainKey s) (S (Z.to_nat (n - k)))) (k + 1) sk,
       dec ct (mk_at (ReceivingChainKey s) (Z.to_nat (n - k))))
  ∧ ∀ d j, sk !! (d, j) =
      if decide (d = mh_DHPublicKey h ∧ k ≤ j < n)
      then Some (mk_at (ReceivingChainKey s) (Z.to_nat (j - k)))
      else SkippedMessageKeys s !! (d, j).
Proof.
  intros -> -> Hk Hmax Hn Hnone. unfold decrypt_chain.
  replace (ReceivingMsgNum s <? mh_MessageNum h) with true by lia.
  destruct (SkipMessageKeys_ok s (mh_DHPublicKey h) (ReceivingMsgNum s) (mh_MessageNum h))
    as (sk & -> & Hsk); [lia|].
  exists sk. split; [|done]. cbn [with_receiving SkippedMessageKeys ReceivingChainKey].
  rewrite Hsk, decide_False, Hnone by lia.
  destruct (KDF_CK _) as [ck mk] eqn:E. cbn [ReceivingMsgNum with_receiving].
  rewrite u32_id by (unfold in_range; lia).
  assert (ck_at (ReceivingChainKey s) (S (Z.to_nat (mh_MessageNum h - ReceivingMsgNum s))) = ck)
    as ->. { by rewrite ck_at_last, E. }
  unfold mk_at. by rewrite E.
Qed.

(** The whole decryption when the header carries the chain's DH key. *)
Lemma RatchetDecrypt_same_chain s hb h ct dec rnd :
  MessageHeader_Decode hb = Ok h → mh_DHPublicKey h = DHReceivingPublic s →
  RatchetDecrypt s hb ct dec rnd = decrypt_chain s h ct dec.
Proof.
  intros Hd He. unfold RatchetDecrypt. rewrite Hd, bool_decide_false; [done|].
  intros []. done.
Qed.
End proofs.

(** ** Properties *)

Section claims.
Context `{RatchetLaws}.

(** C6: initiator and responder set up from the same 32-byte secret exchange any
    sequence of messages, in any turn order, without loss: when every message
    is delivered before the next is sent, each call succeeds and the receiver
    obtains exactly the plaintext that was sent (the public keys of the run
    are distinct and not zero, AES opens what it sealed). *)
Theorem session_in_order
  (aes_enc : list Z → list Z → list Z → outcome (list Z))
  (aes_dec : list Z → list Z → outcome (list Z))
  (aes_correct : ∀ nonce pt k, ∃ ct, aes_enc nonce pt k = Ok ct ∧ aes_dec ct k = Ok pt)
  (secret a b la ra lb rb : list Z) (es : list event) :
  array 32 secret →
  NoDup (zero32 :: x25519_base a :: x25519_base b :: drawn es) →
  Forall (array 32) (x25519_base a :: x25519_base b :: drawn es) →
  ∃ A B A' B',
    NewRatchetState (mk_slice secret) (x25519_base b) a (x25519_base a) la ra = Ok A ∧
    NewRatchetStateReceiver (mk_slice secret) b (x25519_base b) lb rb = Ok B ∧
    exec aes_enc aes_dec A B es = Ok (A', B', ev_plain <$> es).
Proof.
  intros Hsec Hnd Hall.
  rewrite !NoDup_cons, !not_elem_of_cons in Hnd. destruct Hnd as ((?&?&?)&(?&?)&?&?).
  apply Forall_cons in Hall as [Ha [Hb Hes]%Forall_cons].
  destruct (initial_sync secret a b la ra lb rb) as (A&B&HA&HB&EA&EB&Hs); [done..|].
  destruct (exec_in_order aes_enc aes_dec aes_correct es A B
    [x25519_base a; x25519_base b]) as (A'&B'&E).
  - by left.
  - rewrite EA. by left.
  - rewrite EB. right. by left.
  - done.
  - intros k Hk. rewrite !not_elem_of_cons. split_and!; [by intros ->..|apply not_elem_of_nil].
  - done.
  - by exists A, B, A', B'.
Qed.

(** a message up to 1000 numbers ahead of the receiving chain is decrypted
    with its own key, and a message it overtook, delivered next, is decrypted
    with its own key as well. *)
Theorem gap_then_late_message s hb h ct hb' h' ct' dec rnd rnd' ck k n :
  MessageHeader_Decode hb = Ok h → MessageHeader_Decode hb' = Ok h' →
  mh_DHPublicKey h = DHReceivingPublic s → mh_DHPublicKey h' = DHReceivingPublic s →
  ReceivingChainKey s = ck → ReceivingMsgNum s = k → mh_MessageNum h = n →
  0 ≤ k < n → n - k ≤ MaxSkip → n < 2 ^ 32 → k ≤ mh_MessageNum h' < n →
  SkippedMessageKeys s !! (mh_DHPublicKey h, n) = None →
  (RatchetDecrypt s hb ct dec rnd).2 = dec ct (mk_at ck (Z.to_nat (n - k))) ∧
  (RatchetDecrypt (RatchetDecrypt s hb ct dec rnd).1 hb' ct' dec rnd').2
    = dec ct' (mk_at ck (Z.to_nat (mh_MessageNum h' - k))).
Proof.
  intros Hd Hd' He He' <- Hk Hn H1 H2 H3 H4 Hnone.
  rewrite (RatchetDecrypt_same_chain _ _ _ _ _ _ Hd He).
  destruct (decrypt_chain_gap s h ct dec k n) as (sk & -> & Hsk); [done..|].
  split; [done|]. cbn [fst].
  rewrite (RatchetDecrypt_same_chain (with_receiving s _ _ _) _ _ _ _ _ Hd' He'). unfold decrypt_chain.
  cbn [ReceivingMsgNum with_receiving].
  assert (sk !! (mh_DHPublicKey h', mh_MessageNum h')
    = Some (mk_at (ReceivingChainKey s) (Z.to_nat (mh_MessageNum h' - k)))) as Hlook.
  { rewrite Hsk, decide_True; [done|]. by rewrite He, He'. }
  destruct (k + 1 <? mh_MessageNum h') eqn:Hlt.
  - destruct (SkipMessageKeys_ok (with_receiving s (ck_at (ReceivingChainKey s)
      (S (Z.to_nat (n - k)))) (k + 1) sk) (mh_DHPublicKey h') (k + 1) (mh_MessageNum h'))
      as (sk' & -> & Hsk'); [lia|].
    cbn [SkippedMessageKeys with_receiving].
    rewrite Hsk', decide_False by lia. cbn [SkippedMessageKeys with_receiving].
    by rewrite Hlook.
  - cbn [SkippedMessageKeys with_receiving]. by rewrite Hlook.
Qed.

(** after a gap the counter of the receiving chain is behind the chain key:
    the next message in order, number [n+1], is decrypted with the key of
    number [k + 2(n-k) + 1], not with its own. *)
Theorem gap_desynchronises s hb h ct hb' h' ct' dec rnd rnd' ck k n :
  MessageHeader_Decode hb = Ok h → MessageHeader_Decode hb' = Ok h' →
  mh_DHPublicKey h = DHReceivingPublic s → mh_DHPublicKey h' = DHReceivingPublic s →
  ReceivingChainKey s = ck → ReceivingMsgNum s = k → mh_MessageNum h = n →
  mh_MessageNum h' = n + 1 →
  0 ≤ k < n → n - k ≤ MaxSkip → n + 1 < 2 ^ 32 →
  SkippedMessageKeys s !! (mh_DHPublicKey h, n) = None →
  SkippedMessageKeys s !! (mh_DHPublicKey h, n + 1) = None →
  (RatchetDecrypt (RatchetDecrypt s hb ct dec rnd).1 hb' ct' dec rnd').2
    = dec ct' (mk_at ck (Z.to_nat (2 * (n - k) + 1))).
Proof.
  intros Hd Hd' He He' <- Hk Hn Hn' H1 H2 H3 Hnone Hnone'.
  rewrite (RatchetDecrypt_same_chain _ _ _ _ _ _ Hd He).
  destruct (decrypt_chain_gap s h ct dec k n) as (sk & -> & Hsk); [done||lia..|].
  cbn [fst]. rewrite (RatchetDecrypt_same_chain (with_receiving s _ _ _) _ _ _ _ _ Hd' He').
  destruct (decrypt_chain_gap (with_receiving s (ck_at (ReceivingChainKey s)
    (S (Z.to_nat (n - k)))) (k + 1) sk) h' ct' dec (k + 1) (n + 1)) as (sk' & -> & _).
  - done.
  - done.
  - lia.
  - lia.
  - lia.
  - cbn [SkippedMessageKeys with_receiving]. rewrite Hsk, decide_False by lia.
    by rewrite He', <- He.
  - cbn [snd ReceivingChainKey with_receiving]. rewrite mk_at_add. do 2 f_equal. lia.
Qed.

(** one call of [SkipMessageKeys] files at most 1000 keys; it refuses exactly
    the distances above 1000 (counted modulo 2^32) and then changes nothing. *)
Theorem skip_bounded (s : RatchetState) (dh : list Z) (from to : Z) :
  in_range 32 from → in_range 32 to →
  (size (SkippedMessageKeys (SkipMessageKeys s dh from to).1)
     ≤ size (SkippedMessageKeys s) + 1000)%nat ∧
  (is_ok (SkipMessageKeys s dh from to).2 = false ↔ MaxSkip < (to - from) mod 2 ^ 32) ∧
  (is_ok (SkipMessageKeys s dh from to).2 = false → (SkipMessageKeys s dh from to).1 = s).
Proof.
  unfold in_range. intros Hf Ht. unfold SkipMessageKeys, u32, wrap.
  destruct (MaxSkip <? (to - from) mod 2 ^ 32) eqn:E.
  { cbn. apply Z.ltb_lt in E. split_and!; [lia|done|done]. }
  pose proof (skip_loop_size (Z.to_nat (to - from)) dh from (ReceivingChainKey s)
    (SkippedMessageKeys s)) as Hs.
  destruct (skip_loop _ _ _ _ _) as [ck sk]. cbn in *. apply Z.ltb_ge in E.
  split_and!; [|split; [done|lia]|done].
  unfold MaxSkip in E. destruct (decide (to - from ≤ 0)); [lia|].
  rewrite Z.mod_small in E by lia. lia.
Qed.

(** a responder that sends before it received anything encrypts with a key
    that depends on nothing secret: the key of the all-zero chain. *)
Theorem responder_first_key (secret b pub la ra pt : list Z) B
  (enc : list Z → list Z → outcome (list Z)) :
  NewRatchetStateReceiver (mk_slice secret) b pub la ra = Ok B →
  (RatchetEncrypt B pt enc).2
  = (ct ← enc pt (take 32 (sha256 (zero32 ++ [0x01])));
     h ← MessageHeader_Encode (mkMessageHeader pub 0 0); Ok (h, ct)).
Proof.
  unfold NewRatchetStateReceiver. intros (root & _ & HB)%outcome_bind_ok.
  apply Ok_inj in HB as <-. done.
Qed.

(** a late message of an earlier chain is decrypted with its filed key, but
    before the key is looked up the receiver has ratcheted back to the earlier
    DH key and replaced its own key pair. *)
Theorem late_message_ratchets_back s hb h ct dec r mk :
  MessageHeader_Decode hb = Ok h → mh_DHPublicKey h ≠ DHReceivingPublic s →
  mh_PreviousChainLen h = ReceivingMsgNum s → in_range 32 (ReceivingMsgNum s) →
  mh_MessageNum h = 0 →
  SkippedMessageKeys s !! (mh_DHPublicKey h, 0) = Some mk →
  (RatchetDecrypt s hb ct dec (Some r)).2 = dec ct mk ∧
  DHReceivingPublic (RatchetDecrypt s hb ct dec (Some r)).1 = mh_DHPublicKey h ∧
  DHSendingPublic (RatchetDecrypt s hb ct dec (Some r)).1 = x25519_base r.
Proof.
  intros Hd Hne Hp Hr Hn Hk. unfold RatchetDecrypt.
  rewrite Hd, bool_decide_true, Hp, SkipMessageKeys_none by done.
  destruct (KDF_RK_total (RootKey s) (x25519 (DHSendingPrivate s) (mh_DHPublicKey h)))
    as (rk1 & ck1 & H1).
  destruct (KDF_RK_total rk1 (x25519 r (mh_DHPublicKey h))) as (rk2 & ck2 & H2).
  rewrite (DHRatchet_ok _ _ _ _ _ _ _ H1 H2). unfold decrypt_chain. rewrite Hn.
  cbn [ReceivingMsgNum SkippedMessageKeys]. rewrite Z.ltb_irrefl.
  cbn [SkippedMessageKeys]. by rewrite Hk.
Qed.
End claims.

(** ** Witnesses

    The laws can hold: exclusive-or is a commutative key exchange on 32-byte
    strings, and a key derivation that copies its input delivers every
    length. *)

Module Toy.
Definition xor_list (a b : list Z) : list Z := zip_with Z.lxor a b.
Definition ops : RatchetOps := {|
  sha256 := λ l, take 32 (foldr Z.add 0 l :: l ++ replicate 32 0);
  hkdf_read := λ ikm salt _ n,
    Some (take (Z.to_nat n) (ikm ++ salt ++ replicate (Z.to_nat n) 0));
  x25519 := xor_list;
  x25519_base := λ p, p |}.

Lemma laws : @RatchetLaws ops.
Proof.
  constructor; cbn.
  - intros a. unfold xor_list. induction a as [|x a IH]; intros [|y b]; cbn; try done.
    by rewrite IH, Z.lxor_comm.
  - intros l. change (length (take 32 (foldr Z.add 0 l :: l ++ replicate 32 0)) = 32%nat).
    rewrite length_take. rewrite length_cons, length_app, length_replicate. lia.
  - intros ikm salt info n Hn. eexists. split; [done|].
    unfold len. rewrite length_take, !length_app, length_replicate. lia.
Qed.

(** a cipher that checks its key *)
Definition enc (nonce pt k : list Z) : outcome (list Z) := Ok (k ++ pt).
Definition dec (ct k : list Z) : outcome (list Z) :=
  if bool_decide (take (length k) ct = k) then Ok (drop (length k) ct)
  else Err "cipher: message authentication failed".
Lemma enc_dec nonce pt k : ∃ ct, enc nonce pt k = Ok ct ∧ dec ct k = Ok pt.
Proof.
  eexists. split; [done|]. unfold dec.
  by rewrite take_app_length, drop_app_length, bool_decide_true.
Qed.

Definition key (b : Z) : list Z := replicate 32 b.
Definition es : list event :=
  [mkEvent true [1;2] [] (key 10); mkEvent true [3] [] (key 11);
   mkEvent false [4] [] (key 12); mkEvent true [5] [] (key 13)].
(** a receiver at the start of a chain, and three messages of it *)
Definition rcv : RatchetState :=
  mkRatchetState (key 1) (key 2) 0 (key 3) 0 (key 4) (key 4) (key 5) 0 ∅ [] [].
Definition hdr (n : Z) : MessageHeader := mkMessageHeader (key 5) 0 n.
Definition hdr_bytes (n : Z) : slice := mk_slice (MessageHeader_layout (hdr n)).
Definition ct (n : nat) : list Z := @mk_at ops (key 3) n ++ [7].
End Toy.

Lemma session_in_order_witness :
  let O := Toy.ops in
  ∃ A B A' B', NewRatchetState (mk_slice (Toy.key 9)) (Toy.key 8) (Toy.key 7) (Toy.key 7) [] []
      = Ok A
    ∧ NewRatchetStateReceiver (mk_slice (Toy.key 9)) (Toy.key 8) (Toy.key 8) [] [] = Ok B
    ∧ exec Toy.enc Toy.dec A B Toy.es = Ok (A', B', [[1;2];[3];[4];[5]]).
Proof.
  apply (@session_in_order Toy.ops Toy.laws Toy.enc Toy.dec Toy.enc_dec (Toy.key 9)
    (Toy.key 7) (Toy.key 8) [] [] [] [] Toy.es).
  - split; [done|]. apply (bool_decide_eq_true_1 (bytes (Toy.key 9))). vm_compute. done.
  - apply (bool_decide_eq_true_1 (NoDup _)). vm_compute. done.
  - apply (bool_decide_eq_true_1 (Forall _ _)). vm_compute. done.
Defined.

Lemma gap_then_late_message_witness :
  let O := Toy.ops in
  (RatchetDecrypt Toy.rcv (Toy.hdr_bytes 2) (Toy.ct 2) Toy.dec None).2 = Ok [7] ∧
  (RatchetDecrypt (RatchetDecrypt Toy.rcv (Toy.hdr_bytes 2) (Toy.ct 2) Toy.dec None).1
     (Toy.hdr_bytes 1) (Toy.ct 1) Toy.dec None).2 = Ok [7].
Proof.
  exact (@gap_then_late_message Toy.ops Toy.rcv (Toy.hdr_bytes 2) (Toy.hdr 2) (Toy.ct 2)
    (Toy.hdr_bytes 1) (Toy.hdr 1) (Toy.ct 1) Toy.dec None None (Toy.key 3) 0 2
    eq_refl eq_refl eq_refl eq_refl eq_refl eq_refl eq_refl
    ltac:(lia) ltac:(unfold MaxSkip; lia) ltac:(lia) ltac:(cbn; lia) eq_refl).
Defined.

(** After messages 2 (delivered first), message 3 does not open. *)
Lemma gap_desynchronises_witness :
  let O := Toy.ops in
  (RatchetDecrypt (RatchetDecrypt Toy.rcv (Toy.hdr_bytes 2) (Toy.ct 2) Toy.dec None).1
     (Toy.hdr_bytes 3) (Toy.ct 3) Toy.dec None).2
  = Err "cipher: message authentication failed".
Proof.
  etransitivity.
  - exact (@gap_desynchronises Toy.ops Toy.rcv (Toy.hdr_bytes 2) (Toy.hdr 2) (Toy.ct 2)
      (Toy.hdr_bytes 3) (Toy.hdr 3) (Toy.ct 3) Toy.dec None None (Toy.key 3) 0 2
      eq_refl eq_refl eq_refl eq_refl eq_refl eq_refl eq_refl eq_refl
      ltac:(lia) ltac:(unfold MaxSkip; lia) ltac:(lia) eq_refl eq_refl).
  - vm_compute. reflexivity.
Defined.

Lemma skip_bounded_witness :
  let O := Toy.ops in
  size (SkippedMessageKeys (SkipMessageKeys Toy.rcv (Toy.key 5) 0 3).1) = 3%nat ∧
  (SkipMessageKeys Toy.rcv (Toy.key 5) 3 0).1 = Toy.rcv.
Proof.
  split; [vm_compute; reflexivity|].
  apply (@skip_bounded Toy.ops Toy.rcv (Toy.key 5) 3 0);
    [unfold in_range; lia..|vm_compute; reflexivity].
Defined.

Lemma responder_first_key_witness :
  let O := Toy.ops in
  ∃ B, NewRatchetStateReceiver (mk_slice (Toy.key 9)) (Toy.key 8) (Toy.key 8) [] [] = Ok B
    ∧ (RatchetEncrypt B [1] (Toy.enc [])).2
      = Ok (MessageHeader_layout (mkMessageHeader (Toy.key 8) 0 0),
            take 32 (sha256 (zero32 ++ [1])) ++ [1]).
Proof.
  eexists. split; [reflexivity|].
  rewrite (@responder_first_key Toy.ops (Toy.key 9) (Toy.key 8) (Toy.key 8) [] [] [1] _
    (Toy.enc []) eq_refl).
  vm_compute. reflexivity.
Defined.

Lemma late_message_ratchets_back_witness :
  let O := Toy.ops in
  let s := with_receiving Toy.rcv (Toy.key 3) 0 {[ (Toy.key 6, 0) := Toy.key 2 ]} in
  let r := RatchetDecrypt s (mk_slice (MessageHeader_layout (mkMessageHeader (Toy.key 6) 0 0)))
             (Toy.key 2 ++ [7]) Toy.dec (Some (Toy.key 20)) in
  r.2 = Ok [7] ∧ DHReceivingPublic r.1 = Toy.key 6 ∧ DHSendingPublic r.1 = Toy.key 20.
Proof.
  exact (@late_message_ratchets_back Toy.ops Toy.laws
    (with_receiving Toy.rcv (Toy.key 3) 0 {[ (Toy.key 6, 0) := Toy.key 2 ]})
    (mk_slice (MessageHeader_layout (mkMessageHeader (Toy.key 6) 0 0)))
    (mkMessageHeader (Toy.key 6) 0 0) (Toy.key 2 ++ [7]) Toy.dec (Toy.key 20) (Toy.key 2)
    eq_refl ltac:(discriminate) eq_refl ltac:(unfold in_range; cbn; lia) eq_refl eq_refl).
Defined.
