(* ===== verification/RoutingTable.v ===== *)
(** * The Kademlia routing table: pkg/dht/routing_table.go

    Buckets are lists of contacts from least to most recently seen
    ([container/list]); the table is an array of 160 buckets.  The locks
    serialise the operations, so each is one step; [now] is the clock. *)

From S2P Require Import Prelude GoBytes NodeID.

Definition K : nat := 20.
Definition Alpha : nat := 3.
Definition BucketCount : nat := 160.

Record Contact := mkContact {
  c_ID : list Z; c_Address : list Z; c_LastSeen : Z; c_FailedPings : Z }.

#[export] Instance Contact_eq_dec : EqDecision Contact.
Proof. solve_decision. Defined.

Definition NewContact (id address : list Z) (now : Z) : Contact := mkContact id address now 0.

Definition touch (c : Contact) (now : Z) : Contact :=
  mkContact (c_ID c) (c_Address c) now 0.

(** ** Buckets *)

Definition Bucket_AddContact (b : list Contact) (contact : Contact) (now : Z)
  : list Contact * bool :=
  match list_find (λ c, c_ID c = c_ID contact) b with
  | Some (i, c) => (delete i b ++ [touch c now], true)
  | None => if (length b <? K)%nat then (b ++ [contact], true) else (b, false)
  end.

Definition Bucket_RemoveContact (b : list Contact) (id : list Z) : list Contact :=
  match list_find (λ c, c_ID c = id) b with
  | Some (i, _) => delete i b
  | None => b
  end.

(** ** The table *)

Record RoutingTable := mkRoutingTable {
  rt_self : list Z; rt_buckets : list (list Contact) }.

Definition NewRoutingTable (self : list Z) : RoutingTable :=
  mkRoutingTable self (replicate BucketCount []).

Definition getBucketIndex (rt : RoutingTable) (id : list Z) : Z :=
  scan_prefix (Z.of_nat BucketCount - 1) 0 (Xor (rt_self rt) id).

(** [rt.buckets[i]]: indexing the array panics out of range *)
Definition bucket_at (rt : RoutingTable) (i : Z) : outcome (list Contact) :=
  match rt_buckets rt !! Z.to_nat i with Some b => Ok b | None => Panic end.
Definition set_bucket (rt : RoutingTable) (i : Z) (b : list Contact) : RoutingTable :=
  mkRoutingTable (rt_self rt) (<[Z.to_nat i := b]> (rt_buckets rt)).

Definition AddContact (rt : RoutingTable) (contact : Contact) (now : Z)
  : outcome (RoutingTable * bool) :=
  if Equals (c_ID contact) (rt_self rt) then Ok (rt, false)
  else
    let bucketIndex := getBucketIndex rt (c_ID contact) in
    b ← bucket_at rt bucketIndex;
    let '(b', added) := Bucket_AddContact b contact now in
    Ok (set_bucket rt bucketIndex b', added).

Definition RemoveContact (rt : RoutingTable) (id : list Z) : outcome RoutingTable :=
  let bucketIndex := getBucketIndex rt id in
  b ← bucket_at rt bucketIndex;
  Ok (set_bucket rt bucketIndex (Bucket_RemoveContact b id)).

Definition GetContact (rt : RoutingTable) (id : list Z) : outcome (option Contact) :=
  b ← bucket_at rt (getBucketIndex rt id);
  Ok (snd <$> list_find (λ c, c_ID c = id) b).

Definition Size (rt : RoutingTable) : nat :=
  foldl (λ n b, (n + length b)%nat) 0%nat (rt_buckets rt).

Definition GetAllContacts (rt : RoutingTable) : list Contact := concat (rt_buckets rt).

(** ** Sorting by distance

    The double loop of [FindClosest]: position [i] holds [x]; for each later
    position, a closer contact is swapped with it. *)

Fixpoint sort_pass (target : list Z) (x : Contact) (l : list Contact)
  : Contact * list Contact :=
  match l with
  | [] => (x, [])
  | y :: l' =>
      if CloserTo (c_ID y) target (c_ID x) then
        let '(m, r) := sort_pass target y l' in (m, x :: r)
      else
        let '(m, r) := sort_pass target x l' in (m, y :: r)
  end.

(** [n] is the number of positions not yet settled *)
Fixpoint sort_loop (n : nat) (target : list Z) (l : list Contact) : list Contact :=
  match n, l with
  | S n', x :: l' => let '(m, r) := sort_pass target x l' in m :: sort_loop n' target r
  | _, _ => l
  end.

(** [allContacts[:count]] panics for a negative [count] *)
Definition FindClosest (rt : RoutingTable) (target : list Z) (count : Z)
  : outcome (list Contact) :=
  let allContacts := GetAllContacts rt in
  let sorted := sort_loop (length allContacts) target allContacts in
  if count <? len sorted then
    if count <? 0 then Panic else Ok (take (Z.to_nat count) sorted)
  else Ok sorted.

(** ** Invariant *)

Definition bucket_ok (self : list Z) (i : nat) (b : list Contact) : Prop :=
  (length b ≤ K)%nat ∧ NoDup (c_ID <$> b) ∧
  Forall (λ c, is_id (c_ID c) ∧ c_ID c ≠ self ∧
    scan_prefix (Z.of_nat BucketCount - 1) 0 (Xor self (c_ID c)) = Z.of_nat i) b.

Record rt_wf (rt : RoutingTable) : Prop := {
  rt_wf_self : is_id (rt_self rt);
  rt_wf_len : length (rt_buckets rt) = BucketCount;
  rt_wf_bucket : ∀ i b, rt_buckets rt !! i = Some b → bucket_ok (rt_self rt) i b }.

Lemma bucket_index_range rt id :
  is_id (rt_self rt) → is_id id → 0 ≤ getBucketIndex rt id < 160.
Proof.
  intros Hs Hi. unfold getBucketIndex, BucketCount. pose proof (Xor_id _ _ Hs Hi) as [Hl Hx].
  pose proof (Distance_range _ _ Hs Hi) as Hd. unfold Distance in Hd.
  rewrite scan_prefix_spec by done. unfold len. rewrite Hl.
  destruct (be_get _ =? 0) eqn:E; [lia|]. apply Z.eqb_neq in E.
  assert (Z.log2 (be_get (Xor (rt_self rt) id)) < 160) by (apply Z.log2_lt_pow2; lia).
  pose proof (Z.log2_nonneg (be_get (Xor (rt_self rt) id))). lia.
Qed.

Lemma bucket_at_wf rt id :
  rt_wf rt → is_id id → ∃ b, bucket_at rt (getBucketIndex rt id) = Ok b
    ∧ rt_buckets rt !! Z.to_nat (getBucketIndex rt id) = Some b
    ∧ bucket_ok (rt_self rt) (Z.to_nat (getBucketIndex rt id)) b.
Proof.
  intros Hw Hi. pose proof (bucket_index_range rt id (rt_wf_self _ Hw) Hi).
  destruct (lookup_lt_is_Some_2 (rt_buckets rt) (Z.to_nat (getBucketIndex rt id))) as [b Hb].
  { rewrite (rt_wf_len _ Hw). unfold BucketCount. lia. }
  exists b. unfold bucket_at. rewrite Hb. split_and!; [done..|]. by apply (rt_wf_bucket _ Hw).
Qed.

Lemma set_bucket_wf rt i b :
  rt_wf rt → bucket_ok (rt_self rt) (Z.to_nat i) b → rt_wf (set_bucket rt i b).
Proof.
  intros [Hs Hl Hb] Hok. constructor; cbn; [done|by rewrite length_insert|].
  intros j b' Hj. apply list_lookup_insert_Some in Hj as [(<- & <- & _)|[_ Hj]]; [done|].
  by apply Hb.
Qed.

Lemma bucket_remove_ok self i b id :
  bucket_ok self i b → bucket_ok self i (Bucket_RemoveContact b id).
Proof.
  intros (Hl & Hn & Hf). unfold Bucket_RemoveContact.
  destruct (list_find _ b) as [[j c]|] eqn:E; [|done].
  assert (delete j b `sublist_of` b) as Hsub by apply sublist_delete.
  split_and!.
  - apply sublist_length in Hsub. lia.
  - eapply sublist_NoDup; [exact Hn|]. by apply fmap_sublist.
  - rewrite Forall_forall in *. intros x Hx. apply Hf. by eapply elem_of_sublist.
Qed.

Lemma bucket_add_ok self i b contact now b' added :
  Bucket_AddContact b contact now = (b', added) → bucket_ok self i b →
  is_id (c_ID contact) → c_ID contact ≠ self →
  scan_prefix (Z.of_nat BucketCount - 1) 0 (Xor self (c_ID contact)) = Z.of_nat i →
  bucket_ok self i b'.
Proof.
  unfold Bucket_AddContact. intros E (Hl & Hn & Hf) Hid Hne Hix.
  destruct (list_find _ b) as [[j c]|] eqn:F.
  - apply list_find_Some in F as (Hj & Hc & _). injection E as <- <-.
    assert ((c_ID <$> delete j b ++ [touch c now]) ≡ₚ (c_ID <$> b)) as Hp.
    { rewrite fmap_app. cbn. rewrite (delete_Permutation b j c Hj) at 2. cbn.
      by rewrite (Permutation_app_comm _ [_]). }
    split_and!.
    + rewrite <- (length_fmap c_ID), Hp, length_fmap. done.
    + by rewrite Hp.
    + apply Forall_app. split; [by apply Forall_delete|]. apply Forall_singleton. cbn.
      rewrite Forall_forall in Hf. apply Hf. by eapply list_elem_of_lookup_2.
  - apply list_find_None in F.
    destruct (length b <? K)%nat eqn:L; injection E as <- <-; [|done].
    apply Nat.ltb_lt in L. split_and!.
    + rewrite length_app. cbn. lia.
    + rewrite fmap_app. apply NoDup_app. split_and!; [done| |apply NoDup_singleton].
      intros x Hx. cbn. rewrite list_elem_of_singleton. intros ->.
      apply list_elem_of_fmap in Hx as (c & Hc & Hin). rewrite Forall_forall in F.
      by apply (F c Hin).
    + apply Forall_app. split; [done|]. by apply Forall_singleton.
Qed.

Lemma bucket_index_of rt contact :
  is_id (rt_self rt) → is_id (c_ID contact) →
  scan_prefix (Z.of_nat BucketCount - 1) 0 (Xor (rt_self rt) (c_ID contact))
  = Z.of_nat (Z.to_nat (getBucketIndex rt (c_ID contact))).
Proof.
  intros Hs Hi. pose proof (bucket_index_range rt _ Hs Hi). by rewrite Z2Nat.id by lia.
Qed.

Lemma AddContact_wf rt contact now :
  rt_wf rt → is_id (c_ID contact) →
  ∃ rt' added, AddContact rt contact now = Ok (rt', added) ∧ rt_wf rt'
    ∧ rt_self rt' = rt_self rt.
Proof.
  intros Hw Hi. unfold AddContact. destruct (Equals _ _) eqn:E; [by eauto|].
  assert (c_ID contact ≠ rt_self rt) as Hne.
  { intros Heq. apply Equals_spec in Heq. congruence. }
  destruct (bucket_at_wf rt (c_ID contact) Hw Hi) as (b & -> & Hb & Hok). cbn.
  destruct (Bucket_AddContact b contact now) as [b' added] eqn:A.
  eexists _, added. split_and!; [done| |done]. apply set_bucket_wf; [done|].
  eapply bucket_add_ok; [done..|]. apply bucket_index_of; [apply Hw|done].
Qed.

Lemma RemoveContact_wf rt id :
  rt_wf rt → is_id id →
  ∃ rt', RemoveContact rt id = Ok rt' ∧ rt_wf rt' ∧ rt_self rt' = rt_self rt.
Proof.
  intros Hw Hi. unfold RemoveContact.
  destruct (bucket_at_wf rt id Hw Hi) as (b & -> & Hb & Hok). cbn.
  eexists. split_and!; [done| |done]. apply set_bucket_wf; [done|]. by apply bucket_remove_ok.
Qed.

Lemma NewRoutingTable_wf self : is_id self → rt_wf (NewRoutingTable self).
Proof.
  intros Hs. constructor; [done|apply length_replicate|].
  intros i b Hb. apply lookup_replicate_1 in Hb as [-> _].
  split_and!; cbn; [lia|apply NoDup_nil_2|by constructor].
Qed.

(** ** The sort *)

Lemma sort_pass_perm target x l m r :
  sort_pass target x l = (m, r) → m :: r ≡ₚ x :: l.
Proof.
  revert x m r. induction l as [|y l IH]; cbn; intros x m r E; [by injection E as <- <-|].
  destruct (CloserTo _ _ _), (sort_pass _ _ l) as [m' r'] eqn:P; injection E as <- <-;
    apply IH in P.
  - by rewrite Permutation_swap, P.
  - by rewrite Permutation_swap, P, Permutation_swap.
Qed.

Lemma sort_loop_perm n target l : sort_loop n target l ≡ₚ l.
Proof.
  revert l. induction n as [|n IH]; intros [|x l]; cbn; [done..|].
  destruct (sort_pass target x l) as [m r] eqn:P. rewrite IH. by eapply sort_pass_perm.
Qed.

Definition ids_ok (l : list Contact) : Prop := Forall (λ c, is_id (c_ID c)) l.
Definition nearer (target : list Z) (c d : Contact) : Prop :=
  Distance (c_ID c) target ≤ Distance (c_ID d) target.

#[export] Instance ids_ok_perm : Proper ((≡ₚ) ==> iff) ids_ok.
Proof. unfold ids_ok. solve_proper. Qed.

Lemma sort_pass_min target x l m r :
  is_id target → ids_ok (x :: l) → sort_pass target x l = (m, r) →
  nearer target m x ∧ Forall (nearer target m) r.
Proof.
  intros Ht. revert x m r.
  induction l as [|y l IH]; cbn; intros x m r Hi E;
    [injection E as <- <-; unfold nearer; split; [lia|constructor]|].
  inversion_clear Hi as [|? ? Hx Hi']. inversion_clear Hi' as [|? ? Hy Hi].
  rewrite CloserTo_distance in E by done. unfold nearer in *.
  destruct (_ <? _) eqn:C; [apply Z.ltb_lt in C|apply Z.ltb_ge in C];
    destruct (sort_pass _ _ l) as [m' r'] eqn:P; injection E as <- <-;
    (apply IH in P as [H1 H2]; [|by constructor]); (split; [lia|constructor; [lia|done]]).
Qed.

Lemma sort_loop_sorted target l :
  is_id target → ids_ok l → StronglySorted (nearer target) (sort_loop (length l) target l).
Proof.
  intros Ht. remember (length l) as n eqn:Hn. revert l Hn.
  induction n as [|n IH]; intros [|x l] Hn Hi; try done; cbn; [constructor|].
  destruct (sort_pass target x l) as [m r] eqn:P.
  pose proof (sort_pass_perm _ _ _ _ _ P) as Hp.
  pose proof (sort_pass_min _ _ _ _ _ Ht Hi P) as [_ Hm].
  assert (length r = n) by (apply Permutation_length in Hp; cbn in *; lia).
  rewrite <- Hp in Hi. inversion_clear Hi as [|? ? ? Hr].
  constructor; [apply IH; [done|exact Hr]|]. by rewrite sort_loop_perm.
Qed.

(** ** The table as a map from identifiers *)

Lemma list_find_ext_in {A} (P : A → Prop) `{∀ x, Decision (P x)} l i x :
  list_find P l = Some (i, x) → x ∈ l ∧ P x.
Proof.
  intros (Hi & Hp & _)%list_find_Some. split; [by eapply list_elem_of_lookup_2|done].
Qed.

(** In a list without repeated identifiers, a search finds the member. *)
Lemma find_id_iff (b : list Contact) id c :
  NoDup (c_ID <$> b) →
  snd <$> list_find (λ c, c_ID c = id) b = Some c ↔ c ∈ b ∧ c_ID c = id.
Proof.
  intros Hn. split.
  - intros ([i c'] & E & ->)%fmap_Some. cbn in *. by apply list_find_ext_in in E.
  - intros [Hc Hid]. destruct (list_find _ b) as [[i c']|] eqn:E; cbn.
    + apply list_find_ext_in in E as [Hin Hid']. f_equal.
      apply list_elem_of_lookup in Hc as [j Hj]. apply list_elem_of_lookup in Hin as [k Hk].
      assert (j = k) as ->.
      { eapply (NoDup_lookup _ _ _ id Hn); rewrite list_lookup_fmap;
          [rewrite Hj|rewrite Hk]; cbn; congruence. }
      congruence.
    + apply list_find_None in E. rewrite Forall_forall in E. by destruct (E c Hc).
Qed.

Lemma find_id_None (b : list Contact) id :
  list_find (λ c, c_ID c = id) b = None ↔ ∀ c, c ∈ b → c_ID c ≠ id.
Proof. rewrite list_find_None, Forall_forall. done. Qed.

(** Membership after [Bucket_AddContact], for a contact with another identifier. *)
Lemma bucket_add_other b contact now b' added c :
  Bucket_AddContact b contact now = (b', added) → NoDup (c_ID <$> b) →
  c_ID c ≠ c_ID contact → c ∈ b' ↔ c ∈ b.
Proof.
  unfold Bucket_AddContact. intros E Hn Hne.
  destruct (list_find _ b) as [[j d]|] eqn:F.
  - apply list_find_Some in F as (Hj & Hd & _). injection E as <- <-.
    rewrite elem_of_app, list_elem_of_singleton.
    rewrite (delete_Permutation b j d Hj) at 2. rewrite elem_of_cons.
    split; [intros [?| ->]; [by right|done]|intros [->|?]; [done|by left]].
  - destruct (length b <? K)%nat; injection E as <- <-; [|done].
    rewrite elem_of_app, list_elem_of_singleton.
    split; [intros [?| ->]; done|by left].
Qed.

Lemma bucket_remove_mem b id c :
  NoDup (c_ID <$> b) → c ∈ Bucket_RemoveContact b id ↔ c ∈ b ∧ c_ID c ≠ id.
Proof.
  intros Hn. unfold Bucket_RemoveContact. destruct (list_find _ b) as [[j d]|] eqn:F.
  - apply list_find_Some in F as (Hj & Hd & _).
    rewrite (delete_Permutation b j d Hj) in Hn. cbn in Hn. apply NoDup_cons in Hn as [Hnin Hn].
    rewrite (delete_Permutation b j d Hj) at 2. rewrite elem_of_cons. subst id. split.
    + intros Hc. split; [by right|]. intros E. apply Hnin. rewrite <- E.
      by apply list_elem_of_fmap_2.
    + by intros [[->|Hc] Hne].
  - rewrite find_id_None in F. split; [eauto|by intros [? _]].
Qed.

Lemma Size_concat rt : Size rt = length (GetAllContacts rt).
Proof.
  unfold Size, GetAllContacts.
  assert (∀ n, foldl (λ n b, (n + length b)%nat) n (rt_buckets rt)
    = (n + length (concat (rt_buckets rt)))%nat) as H; [|by rewrite H].
  induction (rt_buckets rt) as [|b bs IH]; intros n; cbn; [lia|].
  rewrite IH, length_app. lia.
Qed.

Lemma elem_of_all rt c :
  c ∈ GetAllContacts rt ↔ ∃ i b, rt_buckets rt !! i = Some b ∧ c ∈ b.
Proof.
  unfold GetAllContacts. rewrite list_elem_of_In, in_concat. split.
  - intros (b & Hb%list_elem_of_In & Hc%list_elem_of_In).
    apply list_elem_of_lookup in Hb as [i Hi]. eauto.
  - intros (i & b & Hi & Hc). exists b. rewrite <- !list_elem_of_In.
    split; [by eapply list_elem_of_lookup_2|done].
Qed.

(** A contact of a well-formed table lies in the bucket of its identifier. *)
Lemma bucket_of_member rt i b c :
  rt_wf rt → rt_buckets rt !! i = Some b → c ∈ b →
  is_id (c_ID c) ∧ c_ID c ≠ rt_self rt ∧ i = Z.to_nat (getBucketIndex rt (c_ID c)).
Proof.
  intros Hw Hi Hc. destruct (rt_wf_bucket _ Hw i b Hi) as (_ & _ & Hf).
  rewrite Forall_forall in Hf. destruct (Hf c Hc) as (? & ? & E).
  split_and!; [done..|]. unfold getBucketIndex. rewrite E. lia.
Qed.

Lemma all_ids_ok rt : rt_wf rt → ids_ok (GetAllContacts rt).
Proof.
  intros Hw. apply Forall_forall. intros c (i & b & Hi & Hc)%elem_of_all.
  by destruct (bucket_of_member _ _ _ _ Hw Hi Hc).
Qed.

Lemma GetContact_spec rt id c :
  rt_wf rt → is_id id →
  GetContact rt id = Ok (Some c) ↔ c ∈ GetAllContacts rt ∧ c_ID c = id.
Proof.
  intros Hw Hi. unfold GetContact.
  destruct (bucket_at_wf rt id Hw Hi) as (b & -> & Hb & Hok). cbn.
  rewrite elem_of_all. pose proof (find_id_iff b id c (proj1 (proj2 Hok))) as F. split.
  - intros E%Ok_inj. apply F in E as [Hc E]. eauto.
  - intros [(i & b' & Hb' & Hc) E]. f_equal. apply F. split; [|done].
    destruct (bucket_of_member _ _ _ _ Hw Hb' Hc) as (_ & _ & ->). rewrite E in Hb'. congruence.
Qed.

Lemma concat_ids_NoDup (f : nat → list Z → Prop) (bs : list (list Contact)) :
  (∀ i j id, f i id → f j id → i = j) →
  (∀ i b, bs !! i = Some b → NoDup (c_ID <$> b) ∧ ∀ c, c ∈ b → f i (c_ID c)) →
  NoDup (c_ID <$> concat bs).
Proof.
  revert f. induction bs as [|b bs IH]; intros f Hf Hb; cbn; [apply NoDup_nil_2|].
  rewrite fmap_app. apply NoDup_app. destruct (Hb 0%nat b eq_refl) as [Hn Hin]. split_and!.
  - done.
  - intros id (c & -> & Hc)%list_elem_of_fmap (d & E & Hd)%list_elem_of_fmap.
    apply list_elem_of_In, in_concat in Hd as (b' & Hb' & Hd).
    apply list_elem_of_In, list_elem_of_lookup in Hb' as [j Hj].
    apply list_elem_of_In in Hd. destruct (Hb (S j) b' Hj) as [_ Hin'].
    specialize (Hin c Hc). specialize (Hin' d Hd). rewrite <- E in Hin'.
    by specialize (Hf _ _ _ Hin Hin').
  - apply (IH (λ i, f (S i))).
    + intros i j id H1 H2. by specialize (Hf _ _ _ H1 H2) as [= ->].
    + intros i b' Hb'. exact (Hb (S i) b' Hb').
Qed.

Lemma all_ids_NoDup rt : rt_wf rt → NoDup (c_ID <$> GetAllContacts rt).
Proof.
  intros Hw.
  apply (concat_ids_NoDup (λ i id, i = Z.to_nat (getBucketIndex rt id))); [congruence|].
  intros i b Hb. split; [apply (rt_wf_bucket _ Hw i b Hb)|].
  intros c Hc. by destruct (bucket_of_member _ _ _ _ Hw Hb Hc) as (_ & _ & ?).
Qed.

Lemma find_id_None_Get rt id :
  rt_wf rt → is_id id →
  GetContact rt id = Ok None ↔ ∀ c, c ∈ GetAllContacts rt → c_ID c ≠ id.
Proof.
  intros Hw Hi. split.
  - intros E c Hc Hid. assert (GetContact rt id = Ok (Some c)) by (by apply GetContact_spec).
    congruence.
  - intros H. unfold GetContact. destruct (bucket_at_wf rt id Hw Hi) as (b & -> & Hb & _). cbn.
    destruct (list_find _ b) as [[i c]|] eqn:E; [|done]. exfalso.
    apply list_find_ext_in in E as [Hc Hid]. apply (H c); [|done]. apply elem_of_all. eauto.
Qed.

(** Membership after replacing the bucket of one identifier. *)
Lemma elem_of_set_bucket rt i b b' c :
  rt_buckets rt !! i = Some b →
  c ∈ GetAllContacts (set_bucket rt (Z.of_nat i) b') ↔
  c ∈ b' ∨ ∃ j d, j ≠ i ∧ rt_buckets rt !! j = Some d ∧ c ∈ d.
Proof.
  intros Hb. rewrite elem_of_all. cbn. rewrite Nat2Z.id.
  pose proof (lookup_lt_Some _ _ _ Hb) as Hlt. split.
  - intros (j & d & Hj & Hc).
    apply list_lookup_insert_Some in Hj as [(<- & <- & _)|[Hne Hj]]; [by left|].
    right. exists j, d. split_and!; [congruence|done..].
  - intros [Hc|(j & d & Hne & Hj & Hc)].
    + exists i, b'. split; [by apply list_lookup_insert_eq|done].
    + exists j, d. split; [by rewrite list_lookup_insert_ne|done].
Qed.

Lemma elem_of_other_bucket rt i b c :
  rt_wf rt → rt_buckets rt !! i = Some b →
  (∃ j d, j ≠ i ∧ rt_buckets rt !! j = Some d ∧ c ∈ d) ↔ c ∈ GetAllContacts rt ∧ c ∉ b.
Proof.
  intros Hw Hb. rewrite elem_of_all. split.
  - intros (j & d & Hne & Hj & Hc). split; [eauto|]. intros Hin.
    destruct (bucket_of_member _ _ _ _ Hw Hj Hc) as (_ & _ & ->).
    by destruct (bucket_of_member _ _ _ _ Hw Hb Hin) as (_ & _ & ->).
  - intros [(j & d & Hj & Hc) Hnin]. exists j, d. split_and!; [|done..].
    intros ->. apply Hnin. congruence.
Qed.

(** What a bucket update that keeps other identifiers does to the table. *)
Lemma set_bucket_other rt id b b' c :
  rt_wf rt → is_id id →
  rt_buckets rt !! Z.to_nat (getBucketIndex rt id) = Some b →
  (c ∈ b' ↔ c ∈ b) →
  c ∈ GetAllContacts (set_bucket rt (getBucketIndex rt id) b') ↔ c ∈ GetAllContacts rt.
Proof.
  intros Hw Hi Hb Hsame.
  pose proof (bucket_index_range rt id (rt_wf_self _ Hw) Hi).
  rewrite <- (Z2Nat.id (getBucketIndex rt id)) by lia.
  rewrite (elem_of_set_bucket _ _ b) by done. rewrite Hsame.
  rewrite (elem_of_other_bucket _ _ b) by done. split.
  - intros [Hc|[Hc _]]; [|done]. apply elem_of_all. eauto.
  - intros Hc. destruct (decide (c ∈ b)); [by left|by right].
Qed.

(** ** Reachable tables *)

Inductive rt_step : RoutingTable → RoutingTable → Prop :=
| rt_step_add rt contact now rt' added :
    is_id (c_ID contact) → AddContact rt contact now = Ok (rt', added) → rt_step rt rt'
| rt_step_remove rt id rt' :
    is_id id → RemoveContact rt id = Ok rt' → rt_step rt rt'.

Lemma rt_step_wf rt rt' : rt_step rt rt' → rt_wf rt → rt_wf rt' ∧ rt_self rt' = rt_self rt.
Proof.
  intros [rt0 contact now rt1 added Hi E|rt0 id rt1 Hi E] Hw.
  - destruct (AddContact_wf rt0 contact now Hw Hi) as (? & ? & E' & ? & ?).
    rewrite E in E'. by injection E' as <- <-.
  - destruct (RemoveContact_wf rt0 id Hw Hi) as (? & E' & ? & ?).
    rewrite E in E'. by injection E' as <-.
Qed.

Lemma rt_reachable_wf self rt :
  is_id self → rtc rt_step (NewRoutingTable self) rt → rt_wf rt ∧ rt_self rt = self.
Proof.
  intros Hs. apply (rtc_ind_r (λ rt, rt_wf rt ∧ rt_self rt = self)).
  - split; [by apply NewRoutingTable_wf|done].
  - intros y z _ Hst [Hw Hself]. destruct (rt_step_wf _ _ Hst Hw). split; [done|congruence].
Qed.

Lemma Size_bound rt : rt_wf rt → (Size rt ≤ 3200)%nat.
Proof.
  intros Hw. rewrite Size_concat. unfold GetAllContacts.
  assert (Forall (λ b, (length b ≤ K)%nat) (rt_buckets rt)) as Hf.
  { apply Forall_lookup. intros i b Hb. apply (rt_wf_bucket _ Hw i b Hb). }
  assert (length (concat (rt_buckets rt)) ≤ K * length (rt_buckets rt))%nat as H.
  { clear Hw. unfold K in *. induction Hf; cbn [concat length]; [lia|]. rewrite length_app. lia. }
  rewrite (rt_wf_len _ Hw) in H. unfold K, BucketCount in H. lia.
Qed.

(** [2 ^ (159 - i) <= distance < 2 ^ (160 - i)] for the members of bucket [i] *)
Lemma bucket_distance rt i b c :
  rt_wf rt → rt_buckets rt !! i = Some b → c ∈ b →
  2 ^ (159 - Z.of_nat i) ≤ Distance (rt_self rt) (c_ID c) < 2 ^ (160 - Z.of_nat i).
Proof.
  intros Hw Hb Hc. destruct (rt_wf_bucket _ Hw i b Hb) as (_ & _ & Hf).
  rewrite Forall_forall in Hf. destruct (Hf c Hc) as (Hid & Hne & E).
  pose proof (rt_wf_self _ Hw) as Hs.
  pose proof (Xor_id _ _ Hs Hid) as [Hl Hx].
  rewrite scan_prefix_spec in E by done. unfold len in E. rewrite Hl in E.
  change (be_get (Xor (rt_self rt) (c_ID c))) with (Distance (rt_self rt) (c_ID c)) in E.
  destruct (_ =? 0) eqn:Z0.
  { apply Z.eqb_eq, Distance_zero in Z0; [congruence|done..]. }
  apply Z.eqb_neq in Z0. pose proof (Distance_range _ _ Hs Hid).
  pose proof (Z.log2_spec (Distance (rt_self rt) (c_ID c)) ltac:(lia)) as L.
  replace (160 - Z.of_nat i) with (Z.succ (Z.log2 (Distance (rt_self rt) (c_ID c)))) by lia.
  replace (159 - Z.of_nat i) with (Z.log2 (Distance (rt_self rt) (c_ID c))) by lia. done.
Qed.

(** A lookup only depends on the contacts with its identifier. *)
Lemma GetContact_same rt rt' id :
  rt_wf rt → rt_wf rt' → is_id id →
  (∀ c, c_ID c = id → c ∈ GetAllContacts rt' ↔ c ∈ GetAllContacts rt) →
  GetContact rt' id = GetContact rt id.
Proof.
  intros Hw Hw' Hid Hsame.
  assert (∃ o, GetContact rt id = Ok o) as [o Ho].
  { unfold GetContact. destruct (bucket_at_wf rt id Hw Hid) as (? & -> & _). by eexists. }
  rewrite Ho. destruct o as [c|].
  - apply GetContact_spec in Ho as [Hc Hcid]; [|done..]. apply GetContact_spec; [done..|].
    by rewrite Hsame.
  - rewrite find_id_None_Get in Ho by done. apply find_id_None_Get; [done..|].
    intros c Hc Hcid. apply (Ho c); [|done]. by apply Hsame.
Qed.

Lemma elem_of_new_bucket rt id b b' c :
  rt_wf rt → is_id id → rt_buckets rt !! Z.to_nat (getBucketIndex rt id) = Some b →
  c ∈ b' → c ∈ GetAllContacts (set_bucket rt (getBucketIndex rt id) b').
Proof.
  intros Hw Hi Hb Hc. pose proof (bucket_index_range rt _ (rt_wf_self _ Hw) Hi).
  rewrite <- (Z2Nat.id (getBucketIndex _ _)) by lia.
  apply (elem_of_set_bucket _ _ b); [done|by left].
Qed.

Lemma AddContact_other rt contact now rt' added id :
  rt_wf rt → is_id (c_ID contact) → AddContact rt contact now = Ok (rt', added) →
  is_id id → id ≠ c_ID contact → GetContact rt' id = GetContact rt id.
Proof.
  intros Hw Hi E Hid Hne.
  destruct (AddContact_wf rt contact now Hw Hi) as (? & ? & E' & Hw' & _).
  rewrite E in E'. injection E' as <- <-. unfold AddContact in E.
  destruct (Equals _ _); [by injection E as <- <-|].
  destruct (bucket_at_wf rt (c_ID contact) Hw Hi) as (b & Hat & Hb & Hok).
  rewrite Hat in E. cbn in E.
  destruct (Bucket_AddContact b contact now) as [b' a'] eqn:A. injection E as <- <-.
  apply GetContact_same; [done..|]. intros c Hc. eapply set_bucket_other; [done..|].
  eapply bucket_add_other; [done|apply Hok|congruence].
Qed.

(** A property of contacts that refreshing keeps holds of the whole table. *)
Lemma AddContact_Forall (P : Contact → Prop) rt contact now rt' added :
  rt_wf rt → is_id (c_ID contact) → AddContact rt contact now = Ok (rt', added) →
  P contact → (∀ c, P c → P (touch c now)) →
  Forall P (GetAllContacts rt) → Forall P (GetAllContacts rt').
Proof.
  intros Hw Hi E Hc Ht Hall. rewrite Forall_forall in *. unfold AddContact in E.
  destruct (Equals _ _); [by injection E as <- <-|].
  destruct (bucket_at_wf rt (c_ID contact) Hw Hi) as (b & Hat & Hb & Hok).
  rewrite Hat in E. cbn in E.
  destruct (Bucket_AddContact b contact now) as [b' a'] eqn:A. injection E as <- <-.
  assert (∀ c, c ∈ b → P c) as Hbucket by (intros c Hin; apply Hall, elem_of_all; eauto).
  pose proof (bucket_index_range rt _ (rt_wf_self _ Hw) Hi).
  intros c Hin. rewrite <- (Z2Nat.id (getBucketIndex _ _)) in Hin by lia.
  rewrite (elem_of_set_bucket _ _ b) in Hin by done.
  destruct Hin as [Hin|(j & d & _ & Hj & Hin)]; [|apply Hall, elem_of_all; eauto].
  unfold Bucket_AddContact in A. destruct (list_find _ b) as [[j d]|] eqn:F.
  - injection A as <- <-. apply elem_of_app in Hin as [Hin| ->%list_elem_of_singleton].
    + apply Hbucket. by eapply elem_of_sublist, sublist_delete.
    + apply Ht, Hbucket. by apply list_find_ext_in in F as [? _].
  - destruct (length b <? K)%nat; injection A as <- <-; [|by apply Hbucket].
    apply elem_of_app in Hin as [Hin| ->%list_elem_of_singleton]; [by apply Hbucket|done].
Qed.

(** Two parts of a sorted list with distinct identifiers are separated. *)
Lemma separated target l rest :
  is_id target → ids_ok (l ++ rest) → NoDup (c_ID <$> l ++ rest) →
  StronglySorted (nearer target) (l ++ rest) →
  ∀ c d, c ∈ l → d ∈ rest → Distance (c_ID c) target < Distance (c_ID d) target.
Proof.
  intros Ht Hi Hn Hs c d Hc Hd.
  pose proof (StronglySorted_app_1_elem_of _ l rest c d Hs Hc Hd) as Hle. unfold nearer in Hle.
  apply Forall_app in Hi as [Hl Hr]. rewrite Forall_forall in Hl, Hr.
  rewrite fmap_app in Hn. apply NoDup_app in Hn as (_ & Hdis & _).
  enough (Distance (c_ID c) target ≠ Distance (c_ID d) target) by lia. intros E.
  apply Distance_inj in E; [|by auto..]. apply (Hdis (c_ID c)); [by apply list_elem_of_fmap_2|].
  rewrite E. by apply list_elem_of_fmap_2.
Qed.

Lemma FindClosest_spec rt target count :
  rt_wf rt → is_id target → 0 ≤ count →
  ∃ l rest, FindClosest rt target count = Ok l ∧
    l ++ rest ≡ₚ GetAllContacts rt ∧
    len l = Z.min count (Z.of_nat (Size rt)) ∧
    NoDup (c_ID <$> l) ∧ StronglySorted (nearer target) l ∧
    (∀ c d, c ∈ l → d ∈ rest → Distance (c_ID c) target < Distance (c_ID d) target).
Proof.
  intros Hw Ht Hpos. unfold FindClosest. set (all := GetAllContacts rt).
  set (sorted := sort_loop (length all) target all).
  assert (sorted ≡ₚ all) as Hp by apply sort_loop_perm.
  pose proof (all_ids_ok rt Hw) as Hids.
  assert (StronglySorted (nearer target) sorted) as Hs by (by apply sort_loop_sorted).
  pose proof (Permutation_length Hp) as Hlen.
  exists (take (Z.to_nat count) sorted), (drop (Z.to_nat count) sorted).
  rewrite take_drop. split_and!.
  - destruct (Z.ltb_spec count (len sorted)) as [_|Hge].
    + by destruct (Z.ltb_spec count 0); [lia|].
    + f_equal. rewrite take_ge; [done|]. unfold len in Hge. lia.
  - done.
  - unfold len. rewrite length_take, Hlen, Size_concat. fold all. lia.
  - rewrite fmap_take. eapply sublist_NoDup; [|apply sublist_take].
    rewrite Hp. by apply all_ids_NoDup.
  - rewrite <- (take_drop (Z.to_nat count) sorted) in Hs. by eapply StronglySorted_app_1_l.
  - apply separated; rewrite ?take_drop; [done|by rewrite Hp| |done].
    rewrite Hp. by apply all_ids_NoDup.
Qed.

(** ** Properties *)

(** C14: every table reachable from [NewRoutingTable] by adding and removing
    contacts has 160 buckets of at most 20 contacts, holds no identifier twice
    and never its own, keeps bucket [i] to contacts whose distance from the
    node is in [2^(159-i), 2^(160-i)).  On it [AddContact], [RemoveContact] and
    [GetContact] of 20-byte identifiers never panic, nor does [FindClosest]
    for a count that is not negative. *)
Theorem routing_table_invariant (self : list Z) (rt : RoutingTable) :
  is_id self → rtc rt_step (NewRoutingTable self) rt →
  length (rt_buckets rt) = 160%nat ∧ (Size rt ≤ 3200)%nat ∧
  NoDup (c_ID <$> GetAllContacts rt) ∧
  (∀ i b c, rt_buckets rt !! i = Some b → c ∈ b →
     (length b ≤ 20)%nat ∧ c_ID c ≠ self ∧
     2 ^ (159 - Z.of_nat i) ≤ Distance self (c_ID c) < 2 ^ (160 - Z.of_nat i)) ∧
  (∀ contact now, is_id (c_ID contact) → is_ok (AddContact rt contact now) = true) ∧
  (∀ id, is_id id → is_ok (RemoveContact rt id) = true ∧ is_ok (GetContact rt id) = true) ∧
  (∀ target count, is_id target → 0 ≤ count → is_ok (FindClosest rt target count) = true).
Proof.
  intros Hs Hr. destruct (rt_reachable_wf _ _ Hs Hr) as [Hw <-]. split_and!.
  - apply (rt_wf_len _ Hw).
  - by apply Size_bound.
  - by apply all_ids_NoDup.
  - intros i b c Hb Hc. split_and!; [apply (rt_wf_bucket _ Hw i b Hb)| |by eapply bucket_distance..].
    by destruct (bucket_of_member _ _ _ _ Hw Hb Hc) as (_ & ? & _).
  - intros contact now Hi. by destruct (AddContact_wf rt contact now Hw Hi) as (? & ? & -> & _).
  - intros id Hi. split; [by destruct (RemoveContact_wf rt id Hw Hi) as (? & -> & _)|].
    unfold GetContact. by destruct (bucket_at_wf rt id Hw Hi) as (? & -> & _).
  - intros target count Ht Hc. by destruct (FindClosest_spec rt target count Hw Ht Hc) as (? & ? & -> & _).
Qed.

(** [AddContact] on a well-formed table.  The node itself is refused; a
    known contact is refreshed in place (its stored address kept) and
    reported as added; an unknown one is stored when its bucket has room and
    refused without any change when the bucket is full; no other identifier
    is affected. *)
Theorem add_contact_spec (rt : RoutingTable) (contact : Contact) (now : Z) :
  rt_wf rt → is_id (c_ID contact) →
  ∃ rt' added b, AddContact rt contact now = Ok (rt', added) ∧ rt_wf rt' ∧
    bucket_at rt (getBucketIndex rt (c_ID contact)) = Ok b ∧
    (∀ id, is_id id → id ≠ c_ID contact → GetContact rt' id = GetContact rt id) ∧
    if decide (c_ID contact = rt_self rt) then rt' = rt ∧ added = false
    else match GetContact rt (c_ID contact) with
    | Ok (Some old) =>
        added = true ∧ GetContact rt' (c_ID contact) = Ok (Some (touch old now))
    | _ =>
        if decide (length b < K)%nat
        then added = true ∧ GetContact rt' (c_ID contact) = Ok (Some contact)
        else added = false ∧ GetAllContacts rt' = GetAllContacts rt
    end.
Proof.
  intros Hw Hi.
  destruct (AddContact_wf rt contact now Hw Hi) as (rt' & added & E & Hw' & Hs').
  destruct (bucket_at_wf rt (c_ID contact) Hw Hi) as (b & Hat & Hb & Hok).
  exists rt', added, b. split_and!; [done..|by intros; eapply AddContact_other|].
  unfold AddContact in E. destruct (decide _) as [Heq|Hne].
  { apply Equals_spec in Heq. rewrite Heq in E. by injection E as <- <-. }
  destruct (Equals _ _) eqn:Eq; [by apply Equals_spec in Eq|]. rewrite Hat in E. cbn in E.
  destruct (Bucket_AddContact b contact now) as [b' a'] eqn:A. injection E as <- <-.
  unfold GetContact at 1. rewrite Hat. cbn.
  pose proof (λ c, elem_of_new_bucket rt _ b b' c Hw Hi Hb) as Hin.
  unfold Bucket_AddContact in A. destruct (list_find _ b) as [[j c]|] eqn:F; cbn.
  - injection A as <- <-. split; [done|]. apply GetContact_spec; [done..|].
    apply list_find_ext_in in F as [_ F]. split; [|done]. apply Hin.
    apply elem_of_app. right. by apply list_elem_of_singleton.
  - destruct (length b <? K)%nat eqn:L; injection A as <- <-.
    + apply Nat.ltb_lt in L. rewrite decide_True by done. split; [done|].
      apply GetContact_spec; [done..|]. split; [|done]. apply Hin.
      apply elem_of_app. right. by apply list_elem_of_singleton.
    + apply Nat.ltb_ge in L. rewrite decide_False by lia. split; [done|].
      unfold GetAllContacts. cbn. by rewrite list_insert_id.
Qed.

(** [RemoveContact] makes the identifier unknown and touches no other. *)
Theorem remove_contact_spec (rt : RoutingTable) (id : list Z) :
  rt_wf rt → is_id id →
  ∃ rt', RemoveContact rt id = Ok rt' ∧ rt_wf rt' ∧
    GetContact rt' id = Ok None ∧
    (∀ id', is_id id' → id' ≠ id → GetContact rt' id' = GetContact rt id').
Proof.
  intros Hw Hi. destruct (RemoveContact_wf rt id Hw Hi) as (rt' & E & Hw' & _).
  exists rt'. split_and!; [done..| |]; unfold RemoveContact in E;
    destruct (bucket_at_wf rt id Hw Hi) as (b & Hat & Hb & Hok); rewrite Hat in E;
    cbn in E; injection E as <-.
  - apply find_id_None_Get; [done..|]. intros c Hc Hid.
    pose proof (bucket_index_range rt id (rt_wf_self _ Hw) Hi).
    rewrite <- (Z2Nat.id (getBucketIndex rt id)) in Hc by lia.
    rewrite (elem_of_set_bucket _ _ b) in Hc by done. destruct Hc as [Hc|(j & d & Hne & Hj & Hc)].
    + apply bucket_remove_mem in Hc as [_ Hc]; [done|apply Hok].
    + destruct (bucket_of_member _ _ _ _ Hw Hj Hc) as (_ & _ & ->). by rewrite Hid in Hne.
  - intros id' Hi' Hne. apply GetContact_same; [done..|]. intros c Hc.
    eapply set_bucket_other; [done..|]. rewrite bucket_remove_mem by apply Hok.
    split; [by intros [? _]|]. intros Hb'. split; [done|congruence].
Qed.

(** C19: [FindClosest] returns [min(count, Size)] distinct contacts of the
    table in order of increasing XOR distance from the target, and every
    contact it leaves out is strictly farther than every one it returns; a
    negative count panics. *)
Theorem find_closest_correct (rt : RoutingTable) (target : list Z) (count : Z) :
  rt_wf rt → is_id target →
  if decide (count < 0) then FindClosest rt target count = Panic
  else ∃ l rest, FindClosest rt target count = Ok l ∧
    l ++ rest ≡ₚ GetAllContacts rt ∧
    len l = Z.min count (Z.of_nat (Size rt)) ∧
    NoDup (c_ID <$> l) ∧ StronglySorted (nearer target) l ∧
    (∀ c d, c ∈ l → d ∈ rest → Distance (c_ID c) target < Distance (c_ID d) target).
Proof.
  intros Hw Ht. destruct (decide _) as [Hneg|]; [|apply FindClosest_spec; [done..|lia]].
  unfold FindClosest. set (sorted := sort_loop _ _ _). pose proof (len_nonneg sorted).
  destruct (Z.ltb_spec count (len sorted)); [|lia]. by destruct (Z.ltb_spec count 0); [|lia].
Qed.

(** ** Witnesses *)

Definition ex_contact (b : Z) : Contact := NewContact (id_of b) [49; 50] 7.
Definition ex_rt : RoutingTable :=
  match AddContact (NewRoutingTable (id_of 1)) (ex_contact 2) 9 with
  | Ok (rt, _) => match AddContact rt (ex_contact 5) 9 with Ok (rt', _) => rt' | _ => rt end
  | _ => NewRoutingTable (id_of 1)
  end.

Lemma ex_rt_reachable : rtc rt_step (NewRoutingTable (id_of 1)) ex_rt.
Proof.
  eapply rtc_l; [apply (rt_step_add _ (ex_contact 2) 9 _ true); [by_decision|vm_compute; reflexivity]|].
  apply rtc_once, (rt_step_add _ (ex_contact 5) 9 _ true); [by_decision|vm_compute; reflexivity].
Qed.

Lemma ex_rt_wf : rt_wf ex_rt.
Proof. apply (rt_reachable_wf (id_of 1)); [by_decision|apply ex_rt_reachable]. Qed.

Lemma routing_table_invariant_witness : (Size ex_rt ≤ 3200)%nat ∧ Size ex_rt = 2%nat.
Proof.
  split; [|by vm_compute].
  apply (routing_table_invariant (id_of 1) ex_rt); [by_decision|apply ex_rt_reachable].
Defined.

Lemma add_contact_spec_witness :
  GetContact ex_rt (id_of 2) = Ok (Some (ex_contact 2)) ∧
  ∃ rt', AddContact ex_rt (ex_contact 2) 11 = Ok (rt', true) ∧
    GetContact rt' (id_of 2) = Ok (Some (touch (ex_contact 2) 11)).
Proof.
  split; [by vm_compute|].
  destruct (add_contact_spec ex_rt (ex_contact 2) 11 ex_rt_wf ltac:(by_decision))
    as (rt' & added & b & E & _ & _ & _ & H).
  rewrite decide_False in H by by_decision.
  assert (GetContact ex_rt (c_ID (ex_contact 2)) = Ok (Some (ex_contact 2))) as G by by vm_compute.
  rewrite G in H. destruct H as [-> H]. by exists rt'.
Defined.

Lemma remove_contact_spec_witness :
  ∃ rt', RemoveContact ex_rt (id_of 2) = Ok rt' ∧ GetContact rt' (id_of 2) = Ok None ∧
    GetContact rt' (id_of 5) = Ok (Some (ex_contact 5)).
Proof.
  destruct (remove_contact_spec ex_rt (id_of 2) ex_rt_wf ltac:(by_decision))
    as (rt' & E & _ & H & Ho).
  exists rt'. split_and!; [done..|]. rewrite Ho by by_decision. by vm_compute.
Defined.

Lemma find_closest_correct_witness :
  (∃ l rest, FindClosest ex_rt (id_of 4) 1 = Ok l ∧ l ++ rest ≡ₚ GetAllContacts ex_rt) ∧
  FindClosest ex_rt (id_of 4) 1 = Ok [ex_contact 5].
Proof.
  split; [|by vm_compute].
  pose proof (find_closest_correct ex_rt (id_of 4) 1 ex_rt_wf ltac:(by_decision)) as H.
  rewrite decide_False in H by lia. destruct H as (l & rest & E & Hp & _). by exists l, rest.
Defined.
