(* ===== verification/DhtStore.v ===== *)
(** * Local values of a DHT node: pkg/dht/storage.go and pkg/dht/signed_entry.go

    [time.Time] is a number of nanoseconds and [time.Duration] a 64-bit one;
    every [time.Now()] of the source is an argument.  [encoding/json] is the
    operations of [Json], with the documented behaviour the code relies on in
    [JsonLaws]. *)

From Stdlib Require Import SpecFloat.
From S2P Require Import Prelude GoBytes Ed25519 NodeID.

(** ** Interfaces *)

(** [json.Marshal] and [json.Unmarshal] at one Go type.  [json_typed] holds of
    the values of the Go type, [json_plain] of those that survive a round trip. *)
Class Json (A : Type) := {
  json_marshal : A → outcome (list Z);
  json_unmarshal : list Z → outcome A }.

Class JsonLaws (A : Type) `{Json A} (typed plain : A → Prop) := {
  json_no_panic : ∀ d, json_unmarshal (A := A) d ≠ Panic;
  json_decoded : ∀ d a, json_unmarshal d = Ok a → typed a;
  json_total : ∀ a, typed a → ∃ d, json_marshal a = Ok d ∧ bytes d;
  json_round : ∀ a d, plain a → json_marshal a = Ok d → json_unmarshal d = Ok a }.

(** a Go string, by its bytes *)
Abbreviation gostring := (list Z).

(** ** time *)

Definition Second : Z := 1000000000.
(** [Time.Unix]: whole seconds *)
Definition Unix (t : Z) : Z := s64 (t / Second).
(** [time.Duration(s) * time.Second] *)
Definition duration_of_seconds (s : Z) : Z := s64 (s * Second).

(** [t.Sub(u)], which saturates *)
Definition time_Sub (t u : Z) : Z := Z.max (- 2 ^ 63) (Z.min (2 ^ 63 - 1) (t - u)).

(** [int64(d.Seconds())]: [float64(d/Second) + float64(d%Second)/1e9], truncated *)
Definition f64_of (z : Z) : spec_float := binary_normalize 53 1024 z 0 false.
Definition Seconds (d : Z) : spec_float :=
  SFadd 53 1024 (f64_of (Z.quot d Second))
    (SFdiv 53 1024 (f64_of (Z.rem d Second)) (f64_of Second)).
Definition int64_of (f : spec_float) : Z :=
  match f with
  | S754_finite s m e =>
      let v := if 0 <=? e then Zpos m * 2 ^ e else Zpos m / 2 ^ (- e) in
      if s then - v else v
  | _ => 0
  end.

(** ** storage.go *)

Record StoredValue := mkStoredValue {
  sv_Key : list Z; sv_Value : list Z; sv_ExpiresAt : Z; sv_Publisher : list Z }.

Abbreviation Storage := (gmap (list Z) StoredValue).

Definition NewStorage : Storage := ∅.

Definition Storage_Store (s : Storage) (key value : list Z) (ttl : Z) (publisher : list Z) (now : Z)
  : Storage :=
  <[ key := mkStoredValue key value (now + ttl) publisher ]> s.

Definition Storage_Get (s : Storage) (key : list Z) (now : Z) : option (list Z) :=
  match s !! key with
  | None => None
  | Some stored => if sv_ExpiresAt stored <? now then None else Some (sv_Value stored)
  end.

Definition Storage_Delete (s : Storage) (key : list Z) : Storage := delete key s.

(** Go iterates over a map in an unspecified order: the list is one order. *)
Definition Storage_GetAll (s : Storage) (now : Z) : list StoredValue :=
  filter (λ v, now < sv_ExpiresAt v) (snd <$> map_to_list s).

(** Deletes, while ranging over the map, the keys whose value has expired. *)
Definition expire_keys (s : Storage) (now : Z) (keys : list (list Z * StoredValue)) : Storage :=
  foldl (λ d kv, if sv_ExpiresAt kv.2 <? now then delete kv.1 d else d) s keys.
Definition ExpireOldValues (s : Storage) (now : Z) : Storage :=
  expire_keys s now (map_to_list s).

Definition Storage_Size (s : Storage) : nat := size s.
Definition Storage_Has (s : Storage) (key : list Z) (now : Z) : bool :=
  match Storage_Get s key now with Some _ => true | None => false end.

(** ** signed_entry.go *)

Record SignedEntry := mkSignedEntry {
  se_Key : list Z; se_Value : list Z; se_PublicKey : list Z; se_Signature : list Z;
  se_Timestamp : Z; se_TTL : Z; se_Nonce : list Z }.

Definition is_s64 (z : Z) : Prop := - 2 ^ 63 ≤ z < 2 ^ 63.
#[export] Instance is_s64_dec z : Decision (is_s64 z).
Proof. unfold is_s64. apply _. Defined.

Definition SignedEntry_typed (e : SignedEntry) : Prop :=
  is_id (se_Key e) ∧ bytes (se_Value e) ∧ bytes (se_PublicKey e) ∧ bytes (se_Signature e) ∧
  is_s64 (se_Timestamp e) ∧ is_s64 (se_TTL e) ∧ bytes (se_Nonce e).

(** [for i := 0; i < 8; i++ { b[i] = byte(v >> (56 - i*8)) }] *)
Definition int64_bytes (v : Z) : list Z :=
  (λ i, u8 (Z.shiftr v (56 - Z.of_nat i * 8))) <$> seq 0 8.

Definition signatureMessage (e : SignedEntry) : list Z :=
  se_Key e ++ se_Value e ++ se_PublicKey e ++ int64_bytes (se_Timestamp e)
  ++ int64_bytes (se_TTL e) ++ se_Nonce e.

Definition IsExpired (e : SignedEntry) (now : Z) : bool :=
  let expiryTime := se_Timestamp e +s64 se_TTL e in
  expiryTime <? Unix now.

Section signed.
Context `{Ed25519} `{Json SignedEntry}.

(** [ed25519.Sign] panics on a key of the wrong length. *)
Definition Sign (e : SignedEntry) (privateKey : list Z) : outcome SignedEntry :=
  let message := signatureMessage e in
  if negb (len privateKey =? 64) then Panic
  else Ok (mkSignedEntry (se_Key e) (se_Value e) (se_PublicKey e)
             (ed25519_Sign privateKey message) (se_Timestamp e) (se_TTL e) (se_Nonce e)).

(** [rnd] is what [rand.Read] puts in the nonce ([None]: it failed). *)
Definition SignEntry (key value privateKey : list Z) (ttl : Z) (rnd : option (list Z)) (now : Z)
  : outcome SignedEntry :=
  if negb (len privateKey =? 64) then
    Err ("invalid private key size: " +:+ pretty (len privateKey))
  else match rnd with
  | None => Err "failed to generate nonce: "
  | Some nonce =>
      let entry := mkSignedEntry key value (drop 32 privateKey) []
                     (Unix now) (int64_of (Seconds ttl)) nonce in
      Sign entry privateKey
  end.

Definition Verify (e : SignedEntry) (now : Z) : outcome unit :=
  if negb (len (se_PublicKey e) =? 32) then
    Err ("invalid public key size: " +:+ pretty (len (se_PublicKey e)))
  else if negb (len (se_Signature e) =? 64) then
    Err ("invalid signature size: " +:+ pretty (len (se_Signature e)))
  else if IsExpired e now then Err "entry expired"
  else
    let message := signatureMessage e in
    if negb (ed25519_Verify (se_PublicKey e) message (se_Signature e))
    then Err "invalid signature" else Ok tt.

Definition DecodeSignedEntry (data : list Z) : outcome SignedEntry := json_unmarshal data.
Definition SignedEntry_Encode (e : SignedEntry) : outcome (list Z) := json_marshal e.

Definition VerifyAndExtract (data : list Z) (now : Z) : outcome (list Z) :=
  entry ← wrap_err "failed to decode entry: " (DecodeSignedEntry data);
  _ ← wrap_err "signature verification failed: " (Verify entry now);
  Ok (se_Value entry).

(** The entry carries a signature of its public key over its fields. *)
Definition authentic (e : SignedEntry) : Prop :=
  len (se_PublicKey e) = 32 ∧ len (se_Signature e) = 64 ∧
  ed25519_Verify (se_PublicKey e) (signatureMessage e) (se_Signature e) = true.

Lemma Verify_spec e now :
  Verify e now = Ok tt ↔ authentic e ∧ IsExpired e now = false.
Proof.
  unfold Verify, authentic.
  destruct (Z.eqb_spec (len (se_PublicKey e)) 32), (Z.eqb_spec (len (se_Signature e)) 64); cbn;
    try (split; [done|naive_solver]).
  destruct (IsExpired e now); [split; [done|naive_solver]|].
  destruct (ed25519_Verify _ _ _); naive_solver.
Qed.

Lemma Verify_no_panic e now : Verify e now ≠ Panic.
Proof. unfold Verify. by repeat case_match. Qed.

Lemma VerifyAndExtract_ok data now v :
  VerifyAndExtract data now = Ok v ↔
  ∃ e, json_unmarshal data = Ok e ∧ authentic e ∧ IsExpired e now = false ∧ se_Value e = v.
Proof.
  unfold VerifyAndExtract, DecodeSignedEntry. destruct (json_unmarshal data) as [e| |]; cbn.
  - pose proof (Verify_spec e now) as V. split.
    + intros E. destruct (Verify e now) as [[]| |] eqn:Ev; cbn in E; try done.
      destruct (proj1 V eq_refl). exists e. by simplify_eq.
    + intros (e' & [= <-] & Ha & Hx & <-). by rewrite (proj2 V (conj Ha Hx)).
  - by split; [|intros (? & ? & _)].
  - by split; [|intros (? & ? & _)].
Qed.

Lemma VerifyAndExtract_expired data now e :
  json_unmarshal data = Ok e → authentic e → IsExpired e now = true →
  VerifyAndExtract data now = Err "signature verification failed: entry expired".
Proof.
  intros Hd (Hp & Hs & _) Hx. unfold VerifyAndExtract, DecodeSignedEntry. rewrite Hd. cbn.
  unfold Verify. by rewrite Hp, Hs, Hx.
Qed.

Lemma VerifyAndExtract_no_panic data now :
  json_unmarshal (A := SignedEntry) data ≠ Panic → VerifyAndExtract data now ≠ Panic.
Proof.
  intros Hd. unfold VerifyAndExtract, DecodeSignedEntry.
  destruct (json_unmarshal data) as [e| |]; [|done..]. cbn.
  pose proof (Verify_no_panic e now). by destruct (Verify e now).
Qed.

End signed.

(** ** Facts *)

Lemma expire_keys_lookup d now l k :
  expire_keys d now l !! k =
  if decide (Exists (λ kv, kv.1 = k ∧ sv_ExpiresAt kv.2 < now) l) then None else d !! k.
Proof.
  unfold expire_keys. revert d. induction l as [|[k' v] l IH]; intros d; cbn [foldl fst snd].
  { rewrite decide_False; [done|]. by intros ?%Exists_nil. }
  rewrite IH. destruct (decide (Exists _ l)) as [Ht|Ht].
  { by rewrite decide_True by (by apply Exists_cons_tl). }
  destruct (Z.ltb_spec (sv_ExpiresAt v) now) as [Hlt|Hge].
  - destruct (decide (k' = k)) as [->|Hne].
    + rewrite decide_True by (by apply Exists_cons_hd). apply lookup_delete_eq.
    + rewrite decide_False by (intros [[? _]|?]%Exists_cons; done). by apply lookup_delete_ne.
  - by rewrite decide_False by (intros [[_ ?]|?]%Exists_cons; cbn in *; [lia|done]).
Qed.

Lemma ExpireOldValues_lookup s now k :
  ExpireOldValues s now !! k = v ← s !! k; if sv_ExpiresAt v <? now then None else Some v.
Proof.
  unfold ExpireOldValues. rewrite expire_keys_lookup.
  destruct (decide _) as [Hx|Hn].
  - apply Exists_exists in Hx as ([k' v] & Hin & Hk & Hlt). cbn in *. subst k'.
    apply elem_of_map_to_list in Hin. rewrite Hin. cbn. by rewrite (proj2 (Z.ltb_lt _ _) Hlt).
  - destruct (s !! k) as [v|] eqn:E; [|done]. cbn.
    destruct (Z.ltb_spec (sv_ExpiresAt v) now) as [Hlt|]; [|done]. exfalso. apply Hn.
    apply Exists_exists. exists (k, v). by rewrite elem_of_map_to_list.
Qed.

Lemma int64_bytes_put v : int64_bytes v = be_put 8 v.
Proof. reflexivity. Qed.
