(* ===== verification/DhtSample.v ===== *)
(** * Concrete instances of the DHT's interfaces

    A small self-describing byte format stands in for [encoding/json] and a
    keyed check value for Ed25519, so that the hypotheses the theorems make
    about them can be discharged and the model evaluated. *)

From S2P Require Import Prelude GoBytes Ed25519 NodeID DhtStore Aes.

(** ** Signatures *)

Definition sample_tag (pub m : list Z) : list Z := be_put 64 (be_get (pub ++ m)).

#[local] Instance sample_crypto : Ed25519 := {|
  ed25519_key seed := seed ++ seed;
  ed25519_Sign k m := sample_tag (drop 32 k) m;
  ed25519_Verify pub m sig := bool_decide (sig = sample_tag pub m) |}.

#[local] Instance sample_crypto_laws : Ed25519Laws.
Proof.
  constructor; cbn.
  - intros seed [Hl Hb]. split; [rewrite length_app; lia|by apply bytes_app].
  - intros k m. split; [apply length_be_put|apply bytes_be_put].
  - intros seed m _. by apply bool_decide_eq_true.
Qed.

(** ** AES-GCM: a cipher that checks its key *)

#[local] Instance sample_aes : AesGcm := {|
  gcm_seal key _ pt := key ++ pt;
  gcm_open key _ ct := if bool_decide (take (length key) ct = key) then Some (drop (length key) ct)
                       else None |}.

#[local] Instance sample_aes_laws : AesGcmLaws.
Proof.
  constructor; cbn.
  - intros key _ pt. by rewrite take_app_length, drop_app_length, bool_decide_true.
  - intros key nonce pt Hk _ Hp. by apply bytes_app.
Qed.

(** ** Fields: each byte [b] is written [1 b], and [0] ends a field *)

Definition write_field (l : list Z) : list Z := (b ← l; [1; b]) ++ [0].
Definition write_fields (fs : list (list Z)) : list Z := fs ≫= write_field.

Fixpoint read_fields (cur d : list Z) : option (list (list Z)) :=
  match d with
  | [] => match cur with [] => Some [] | _ => None end
  | x :: d' =>
      if x =? 0 then fs ← read_fields [] d'; Some (cur :: fs)
      else match d' with b :: d'' => read_fields (cur ++ [b]) d'' | [] => None end
  end.

Lemma read_write_field cur l d :
  read_fields cur (write_field l ++ d) = fs ← read_fields [] d; Some ((cur ++ l) :: fs).
Proof.
  revert cur. induction l as [|b l IH]; intros cur.
  - cbn. by rewrite app_nil_r.
  - change (write_field (b :: l) ++ d) with (1 :: b :: write_field l ++ d). cbn [read_fields].
    change (1 =? 0) with false. cbv iota. rewrite IH, <- app_assoc. done.
Qed.

Lemma read_write_fields fs : read_fields [] (write_fields fs) = Some fs.
Proof.
  induction fs as [|f fs IH]; [done|].
  change (write_fields (f :: fs)) with (write_field f ++ write_fields fs).
  rewrite read_write_field, IH. done.
Qed.

Lemma write_fields_bytes fs : Forall bytes fs → bytes (write_fields fs).
Proof.
  intros H. unfold write_fields, bytes. apply Forall_bind. eapply Forall_impl; [exact H|].
  intros l Hl. apply Forall_app. split; [|by repeat constructor].
  apply Forall_bind. eapply Forall_impl; [exact Hl|]. intros b Hb.
  repeat constructor; [unfold is_byte; lia..|apply Hb|apply Hb].
Qed.

Definition int_field (z : Z) : list Z := be_put 8 z.
Definition field_int (l : list Z) : Z := s64 (be_get l).

Lemma field_int_field z : is_s64 z → field_int (int_field z) = z.
Proof.
  intros Hz. unfold field_int, int_field, is_s64, s64 in *. rewrite be_get_put_mod.
  change (8 * Z.of_nat 8) with 64. rewrite Zplus_mod_idemp_l, Z.mod_small; lia.
Qed.

(** ** A codec from fields *)

Section codec.
Context {A : Type} (to_f : A → list (list Z)) (of_f : list (list Z) → option A).
Context (typed : A → Prop) `{∀ a, Decision (typed a)}.

Definition sample_json : Json A := {|
  json_marshal a :=
    if decide (typed a) then Ok (write_fields (to_f a)) else Err "json: unsupported value";
  json_unmarshal d :=
    match read_fields [] d ≫= of_f with
    | Some a => if decide (typed a) then Ok a else Err "json: cannot unmarshal"
    | None => Err "json: invalid input"
    end |}.

(** what it writes it reads *)
Lemma sample_json_round a d :
  (∀ a, typed a → of_f (to_f a) = Some a) →
  json_marshal (Json := sample_json) a = Ok d → json_unmarshal (Json := sample_json) d = Ok a.
Proof.
  intros Hr E. cbn in *. destruct (decide (typed a)) as [Ha|]; [|done]. injection E as <-.
  rewrite read_write_fields. cbn. by rewrite Hr, decide_True.
Qed.

Lemma sample_json_laws (plain : A → Prop) :
  (∀ a, typed a → of_f (to_f a) = Some a) → (∀ a, typed a → Forall bytes (to_f a)) →
  @JsonLaws A sample_json typed plain.
Proof.
  intros Hr Hb. constructor; cbn.
  - intros d. by repeat case_match.
  - intros d a E. by repeat case_match; simplify_eq.
  - intros a Ha. rewrite decide_True by done. eexists. split; [done|].
    by apply write_fields_bytes, Hb.
  - intros a d _. by apply sample_json_round.
Qed.
End codec.

(** ** Signed entries *)

#[export] Instance SignedEntry_typed_dec e : Decision (SignedEntry_typed e).
Proof. unfold SignedEntry_typed. apply _. Defined.

Definition entry_fields (e : SignedEntry) : list (list Z) :=
  [se_Key e; se_Value e; se_PublicKey e; se_Signature e;
   int_field (se_Timestamp e); int_field (se_TTL e); se_Nonce e].
Definition fields_entry (fs : list (list Z)) : option SignedEntry :=
  match fs with
  | [k; v; p; s; t; l; n] => Some (mkSignedEntry k v p s (field_int t) (field_int l) n)
  | _ => None
  end.

#[local] Instance sample_entry_json : Json SignedEntry :=
  sample_json entry_fields fields_entry SignedEntry_typed.

#[local] Instance sample_entry_laws : JsonLaws SignedEntry SignedEntry_typed SignedEntry_typed.
Proof.
  apply sample_json_laws.
  - intros [] (? & ? & ? & ? & ? & ? & ?). cbn in *. by rewrite !field_int_field.
  - intros [] (? & ? & ? & ? & ? & ? & ?). cbn in *.
    unfold entry_fields. rewrite !Forall_cons. split_and!; try done; try apply bytes_be_put; by eapply array_bytes.
Qed.
