(* ===== verification/Onion.v ===== *)
(** * Onion routing: pkg/crypto/onion.go, hash.go and the RSA wrappers of keys.go

    A layer is a JSON document encrypted under a fresh AES key, which is
    encrypted under the relay's RSA key.  RSA-OAEP, BLAKE2b and encoding/json
    are libraries: [Rsa], [Blake2b] and [Json OnionLayer], with what the code
    relies on in their laws. *)

From S2P Require Import Prelude GoBytes Aes DhtStore.

Class Rsa := {
  PublicKey : Type; PrivateKey : Type;
  rsa_public : PrivateKey → PublicKey;
  (** the last argument are the random bytes of the padding *)
  EncryptOAEP : PublicKey → list Z → list Z → option (list Z);
  DecryptOAEP : PrivateKey → list Z → option (list Z) }.

(** 4096-bit keys with SHA-256: up to 446 bytes of plaintext, 512 of ciphertext *)
Class RsaLaws `{Rsa} := {
  oaep_total : ∀ k d r, bytes d → len d ≤ 446 → ∃ ct, EncryptOAEP k d r = Some ct ∧ array 512 ct;
  oaep_limit : ∀ k d r, 446 < len d → EncryptOAEP k d r = None;
  oaep_correct : ∀ k d r ct, EncryptOAEP (rsa_public k) d r = Some ct → DecryptOAEP k ct = Some d;
  oaep_decrypt_bytes : ∀ k ct d, bytes ct → DecryptOAEP k ct = Some d → bytes d;
  oaep_decrypt_limit : ∀ k ct, 512 < len ct → DecryptOAEP k ct = None }.

Class Blake2b := { blake2b_256 : list Z → list Z }.
Class Blake2bLaws `{Blake2b} := { blake2b_array : ∀ d, array 32 (blake2b_256 d) }.

Record OnionLayer := mkOnionLayer {
  ol_NextHop : list Z; ol_Payload : list Z; ol_PayloadHash : list Z }.
Definition OnionLayer_typed (l : OnionLayer) : Prop :=
  array 20 (ol_NextHop l) ∧ bytes (ol_Payload l) ∧ array 32 (ol_PayloadHash l).

Section onion.
Context `{AesGcm} `{Rsa} `{Blake2b} `{Json OnionLayer}.

(** ** keys.go *)

Definition RSAEncrypt (data : list Z) (publicKey : PublicKey) (rnd : list Z) : outcome (list Z) :=
  match EncryptOAEP publicKey data rnd with
  | Some ciphertext => Ok ciphertext
  | None => Err "encryption failed"
  end.
Definition RSADecrypt (ciphertext : list Z) (privateKey : PrivateKey) : outcome (list Z) :=
  match DecryptOAEP privateKey ciphertext with
  | Some plaintext => Ok plaintext
  | None => Err "decryption failed"
  end.

(** ** hash.go ([blake2b.New256(nil)] does not fail) *)

Definition Hash (data : list Z) : outcome (list Z) := Ok (blake2b_256 data).
Definition VerifyHash (data expectedHash : list Z) : outcome bool :=
  actualHash ← Hash data;
  if negb (len actualHash =? len expectedHash) then Ok false
  else Ok (forallb (λ p, p.1 =? p.2) (zip actualHash expectedHash)).

(** ** onion.go *)

Record RelayInfo := mkRelayInfo { ri_Address : list Z; ri_PublicKey : PublicKey }.

Definition GenerateAESKey (rnd : option (list Z)) : outcome (list Z) :=
  match rnd with Some key => Ok key | None => Err "rand: read failed" end.

(** the random bytes drawn for one layer *)
Record layer_random := mkLayerRandom {
  lr_key : option (list Z); lr_nonce : option (list Z); lr_oaep : list Z }.

(** one turn of the loop *)
Definition build_layer (relay : RelayInfo) (nextHop payload : list Z) (r : layer_random)
  : outcome (list Z) :=
  hash ← Hash payload;
  let layer := mkOnionLayer nextHop payload (take 32 (hash ++ replicate 32 0)) in
  layerJSON ← json_marshal layer;
  aesKey ← GenerateAESKey (lr_key r);
  encryptedData ← AESEncrypt (lr_nonce r) layerJSON aesKey;
  encryptedKey ← RSAEncrypt aesKey (ri_PublicKey relay) (lr_oaep r);
  let keyLen := u16 (len encryptedKey) in
  Ok ([u8 (Z.shiftr keyLen 8); u8 keyLen] ++ encryptedKey ++ encryptedData).

(** the loop from the last relay to the first; [i] is the index of the head of [path] *)
Fixpoint build_layers (i : nat) (path : list RelayInfo) (recipientAddr payload : list Z)
  (rnd : nat → layer_random) : outcome (list Z) :=
  match path with
  | [] => Ok payload
  | relay :: path' =>
      inner ← build_layers (S i) path' recipientAddr payload rnd;
      let nextHop := match path' with next :: _ => ri_Address next | [] => recipientAddr end in
      build_layer relay nextHop inner (rnd i)
  end.

Definition BuildOnionLayers (path : list RelayInfo) (recipientAddr finalPayload : list Z)
  (rnd : nat → layer_random) : outcome (list Z) :=
  match path with
  | [] => Err "invalid path"
  | _ => build_layers 0 path recipientAddr finalPayload rnd
  end.

(** [2+keyLen] is [uint16] arithmetic *)
Definition DecryptOnionLayer (encryptedLayer : slice) (privateKey : PrivateKey) : outcome OnionLayer :=
  if slen encryptedLayer <? 2 then Err "encrypted layer too short"
  else
    let b i := default 0 (sdata encryptedLayer !! i) in
    let keyLen := Z.lor (u16 (Z.shiftl (b 0%nat) 8)) (b 1%nat) in
    if slen encryptedLayer <? (2 +u16 keyLen) then Err "encrypted layer incomplete"
    else
      encryptedKey ← reslice encryptedLayer 2 (2 +u16 keyLen);
      encryptedData ← reslice encryptedLayer (2 +u16 keyLen) (slen encryptedLayer);
      aesKey ← RSADecrypt (sdata encryptedKey) privateKey;
      decrypted ← AESDecrypt (sdata encryptedData) aesKey;
      layer ← match json_unmarshal decrypted with
              | Err _ => Err "invalid onion layer"
              | o => o
              end;
      valid ← VerifyHash (ol_Payload layer) (ol_PayloadHash layer);
      if negb valid then Err "payload hash mismatch" else Ok layer.

End onion.

Definition IsDeliveryAddress (addr : list Z) : bool := bool_decide (addr = replicate 20 0).
