(* ===== verification/OnionProofs.v ===== *)
(** * Theorems on onion routing

    Peeling an onion relay by relay, and when decrypting a layer panics. *)

From S2P Require Import Prelude GoBytes Aes DhtStore DhtSample Onion.

Section onion_proofs.
Context `{AesGcmLaws} `{RsaLaws} `{Blake2bLaws} `{Json OnionLayer}.
Context {json_laws : JsonLaws OnionLayer OnionLayer_typed OnionLayer_typed}.

(** the relays of a path open their layers one after the other; the next hops
    they learn, and what the last one hands over *)
Fixpoint peel (keys : list PrivateKey) (onion : list Z) : outcome (list (list Z) * list Z) :=
  match keys with
  | [] => Ok ([], onion)
  | key :: keys' =>
      layer ← DecryptOnionLayer (mk_slice onion) key;
      '(hops, payload) ← peel keys' (ol_Payload layer);
      Ok (ol_NextHop layer :: hops, payload)
  end.

(** ** One layer *)

Lemma VerifyHash_refl d : VerifyHash d (blake2b_256 d) = Ok true.
Proof.
  unfold VerifyHash, Hash. cbn [mbind outcome_bind]. rewrite Z.eqb_refl. cbn [negb]. f_equal.
  induction (blake2b_256 d) as [|x l IH]; [done|]. cbn. by rewrite Z.eqb_refl, IH.
Qed.

(** the random bytes of a layer have the sizes the code asks for *)
Definition layer_random_ok (r : layer_random) : Prop :=
  ∃ key nonce, lr_key r = Some key ∧ array 32 key ∧ lr_nonce r = Some nonce ∧ array 12 nonce.

(** the two length bytes, for the 512-byte keys of RSA-4096 *)
Lemma split_combined key data :
  length key = 512%nat →
  let s := mk_slice ([u8 (Z.shiftr (u16 (len key)) 8); u8 (u16 (len key))] ++ key ++ data) in
  (slen s <? 2) = false ∧
  2 +u16 Z.lor (u16 (Z.shiftl (default 0 (sdata s !! 0%nat)) 8)) (default 0 (sdata s !! 1%nat)) = 514 ∧
  (slen s <? 514) = false ∧ reslice s 2 514 = Ok (Slice key data) ∧
  reslice s 514 (slen s) = Ok (Slice data []).
Proof.
  intros Hl. replace (len key) with 512 by (unfold len; lia).
  set (all := _ ++ key ++ data). intros s. subst s.
  assert (len all = 514 + len data) as Hall by (unfold all, len; rewrite !length_app, Hl; cbn; lia).
  pose proof (len_nonneg data). assert (len (@nil Z) = 0) as Hnil by done.
  unfold slen, reslice, scap, mk_slice. cbn [sdata sspare].
  assert (drop 514 all = data) as Hd.
  { change (drop 514 all) with (drop 512 (key ++ data)). by apply drop_app_length'. }
  split_and!.
  - apply Z.ltb_ge. lia.
  - done.
  - apply Z.ltb_ge. lia.
  - rewrite bool_decide_true by lia. rewrite app_nil_r. change (Z.to_nat 514) with 514%nat.
    rewrite Hd. change (Z.to_nat (514 - 2)) with 512%nat. change (drop (Z.to_nat 2) all) with (key ++ data).
    by rewrite take_app_length'.
  - rewrite bool_decide_true by lia. rewrite app_nil_r. change (Z.to_nat 514) with 514%nat.
    rewrite Hd, take_ge, drop_ge by (unfold len in *; lia). done.
Qed.

Lemma layer_roundtrip address key nextHop payload r :
  layer_random_ok r → array 20 nextHop → bytes payload →
  ∃ onion, build_layer (mkRelayInfo address (rsa_public key)) nextHop payload r = Ok onion ∧
    bytes onion ∧
    ∃ hash, DecryptOnionLayer (mk_slice onion) key = Ok (mkOnionLayer nextHop payload hash).
Proof.
  intros (aesKey & nonce & Hk & [Hkl Hkb] & Hn & [Hnl Hnb]) Hhop Hpay.
  destruct (blake2b_array payload) as [Hhl Hhb].
  set (layer := mkOnionLayer nextHop payload (blake2b_256 payload)).
  assert (OnionLayer_typed layer) as Ht by (by split_and!).
  destruct (json_total layer Ht) as (doc & Hdoc & Hdocb).
  pose proof (json_round layer doc Ht Hdoc) as Hun.
  assert (aes_key_ok aesKey = true) as Hok by (unfold aes_key_ok, len; by rewrite Hkl).
  destruct (oaep_total (rsa_public key) aesKey (lr_oaep r)) as (ek & Hek & [Hekl Hekb]).
  { done. }
  { unfold len. lia. }
  pose proof (oaep_correct _ _ _ _ Hek) as Hdk.
  destruct (AES_roundtrip nonce doc aesKey Hnl Hok) as (data & Henc & Hdec).
  assert (bytes data) as Hdb.
  { unfold AESEncrypt, NewCipher in Henc. rewrite Hok in Henc. injection Henc as <-.
    apply bytes_app. split; [done|]. by apply gcm_bytes. }
  destruct (split_combined ek data Hekl) as (S1 & S2 & S3 & S4 & S5).
  eexists. split_and!.
  - unfold build_layer, Hash. cbn [mbind outcome_bind]. rewrite take_app_length' by done.
    fold layer. rewrite Hdoc, Hk, Hn. cbn [mbind outcome_bind GenerateAESKey ri_PublicKey].
    rewrite Henc. unfold RSAEncrypt. rewrite Hek. done.
  - rewrite !bytes_app. split_and!; [|done|done]. unfold u8, wrap.
    repeat apply List.Forall_cons; try apply List.Forall_nil; apply Z.mod_pos_bound; lia.
  - exists (blake2b_256 payload). unfold DecryptOnionLayer. cbn zeta. rewrite S1, S2, S3, S4, S5.
    cbn [mbind outcome_bind sdata]. unfold RSADecrypt. rewrite Hdk. cbn [mbind outcome_bind].
    rewrite Hdec. cbn [mbind outcome_bind]. rewrite Hun. cbn [mbind outcome_bind].
    change (ol_PayloadHash layer) with (blake2b_256 payload).
    change (ol_Payload layer) with payload. by rewrite VerifyHash_refl.
Qed.

Lemma key_length b0 b1 :
  0 ≤ b0 < 256 → 0 ≤ b1 < 256 → Z.lor (u16 (Z.shiftl b0 8)) b1 = 256 * b0 + b1.
Proof.
  intros Hb0 Hb1. replace (u16 (Z.shiftl b0 8)) with (Z.shiftl b0 8).
  - rewrite lor_shiftl_low by lia. lia.
  - rewrite Z.shiftl_mul_pow2 by lia. symmetry. apply Z.mod_small. lia.
Qed.

(** ** Whole paths *)

(** the relays of a path: address and private key *)
Definition relays (path : list (list Z * PrivateKey)) : list RelayInfo :=
  (λ p, mkRelayInfo p.1 (rsa_public p.2)) <$> path.

(** where each relay must send what it finds *)
Fixpoint next_hops (path : list (list Z * PrivateKey)) (recipient : list Z) : list (list Z) :=
  match path with
  | [] => []
  | _ :: path' => match path' with q :: _ => q.1 | [] => recipient end :: next_hops path' recipient
  end.

Lemma build_layers_peel path recipient payload rnd : ∀ i,
  (∀ i, layer_random_ok (rnd i)) → Forall (λ p, array 20 p.1) path → array 20 recipient →
  bytes payload →
  ∃ onion, build_layers i (relays path) recipient payload rnd = Ok onion ∧ bytes onion ∧
    peel path.*2 onion = Ok (next_hops path recipient, payload).
Proof.
  induction path as [|[addr key] path IH]; intros i Hr Hp Hrec Hpay.
  { exists payload. done. }
  apply Forall_cons in Hp as [_ Hp]. destruct (IH (S i) Hr Hp Hrec Hpay) as (inner & Hb & Hib & Hpeel).
  set (hop := match relays path with next :: _ => ri_Address next | [] => recipient end).
  assert (hop = match path with q :: _ => q.1 | [] => recipient end) as Hhop by (by destruct path).
  assert (array 20 hop) as Ha.
  { rewrite Hhop. destruct path; [done|]. by apply Forall_cons in Hp as [? _]. }
  destruct (layer_roundtrip addr key hop inner (rnd i) (Hr i) Ha Hib) as (onion & Hl & Hob & hash & Hd).
  exists onion. split_and!; [|done|].
  { change (relays ((addr, key) :: path)) with (mkRelayInfo addr (rsa_public key) :: relays path).
    cbn [build_layers]. rewrite Hb. cbn [mbind outcome_bind]. exact Hl. }
  rewrite fmap_cons. cbn [peel snd]. rewrite Hd. cbn [mbind outcome_bind ol_Payload ol_NextHop].
  rewrite Hpeel. cbn [mbind outcome_bind next_hops]. by rewrite Hhop.
Qed.

(** ** Properties *)

(** C12: An onion built for any non-empty path of relays can be built, and the
    relays of the path, each opening one layer with its private key, find
    where to send the rest: the next relay, and the last one the recipient,
    to whom it hands exactly the payload that was sent. *)
Theorem onion_routing (path : list (list Z * PrivateKey)) (recipient payload : list Z)
    (rnd : nat → layer_random) :
  path ≠ [] → (∀ i, layer_random_ok (rnd i)) → Forall (λ p, array 20 p.1) path →
  array 20 recipient → bytes payload →
  ∃ onion, BuildOnionLayers (relays path) recipient payload rnd = Ok onion ∧
    peel path.*2 onion = Ok (next_hops path recipient, payload).
Proof.
  intros Hne Hr Hp Hrec Hpay.
  destruct (build_layers_peel path recipient payload rnd 0 Hr Hp Hrec Hpay) as (onion & Hb & _ & Hpl).
  exists onion. split; [|done]. by destruct path.
Qed.

(** Decrypting a layer panics exactly for the key lengths 65534 and 65535, for
    which [2+keyLen] wraps around in [uint16]; every other input, whatever its
    bytes, gives a layer or an error. *)
Theorem onion_layer_panics (l : list Z) (key : PrivateKey) :
  bytes l →
  DecryptOnionLayer (mk_slice l) key = Panic ↔ ∃ b rest, l = 255 :: b :: rest ∧ 254 ≤ b.
Proof.
  intros Hb. destruct l as [|b0 [|b1 rest]].
  1,2: split; [by unfold DecryptOnionLayer, slen|by intros (? & ? & ? & _)].
  apply Forall_cons in Hb as [Hb0 Hb]. apply Forall_cons in Hb as [Hb1 _]. unfold is_byte in *.
  unfold DecryptOnionLayer. pose proof (len_nonneg rest).
  assert (slen (mk_slice (b0 :: b1 :: rest)) = 2 + len rest) as Hl
    by (unfold slen, len; cbn; lia).
  rewrite Hl. destruct (Z.ltb_spec (2 + len rest) 2); [lia|]. cbn [mk_slice sdata].
  change (default 0 ((b0 :: b1 :: rest) !! 0%nat)) with b0.
  change (default 0 ((b0 :: b1 :: rest) !! 1%nat)) with b1. rewrite key_length by done.
  unfold u16, wrap. destruct (decide (65534 ≤ 256 * b0 + b1)) as [Hbig|Hsmall].
  - replace ((2 + (256 * b0 + b1)) mod 2 ^ 16) with (256 * b0 + b1 - 65534)
      by (apply (Z.mod_unique_pos _ _ 1); lia).
    destruct (Z.ltb_spec (2 + len rest) (256 * b0 + b1 - 65534)); [lia|].
    assert (∀ s, reslice s 2 (256 * b0 + b1 - 65534) = Panic) as ->
      by (intros s; unfold reslice; rewrite bool_decide_false by lia; done).
    cbn [mbind outcome_bind].
    split; [|done]. intros _. exists b1, rest. split; [|lia]. by replace b0 with 255 by lia.
  - rewrite Z.mod_small by lia. split; [|intros (? & ? & ? & ?); simplify_eq; lia]. intros E. exfalso.
    destruct (Z.ltb_spec (2 + len rest) (2 + (256 * b0 + b1))); [done|].
    assert (scap (Slice (b0 :: b1 :: rest) []) = 2 + len rest) as Hc by (unfold scap, len; cbn; lia).
    unfold reslice in E. rewrite !bool_decide_true in E by (unfold mk_slice; rewrite ?Hc; lia).
    cbn [mbind outcome_bind sdata] in E. revert E. unfold RSADecrypt.
    destruct (DecryptOAEP key _) as [aesKey|]; [|done]. cbn [mbind outcome_bind].
    destruct (AESDecrypt _ aesKey) as [doc| |] eqn:Ea; [|done|by destruct (AESDecrypt_no_panic _ _ Ea)].
    cbn [mbind outcome_bind]. destruct (json_unmarshal doc) as [layer| |] eqn:Ej;
      [|done|by destruct (json_no_panic _ Ej)].
    cbn [mbind outcome_bind]. unfold VerifyHash, Hash. cbn [mbind outcome_bind].
    destruct (negb (_ =? _)); [done|]. cbn [mbind outcome_bind]. by destruct (forallb _ _).
Qed.

End onion_proofs.

(** ** Witnesses *)

Module OnionSample.
(** keys are numbers; a ciphertext is the key, the length and the plaintext, filled up *)
#[local] Instance rsa : Rsa := {|
  PublicKey := Z; PrivateKey := Z; rsa_public k := k;
  EncryptOAEP k d _ :=
    if bool_decide (bytes d ∧ len d ≤ 446) then
      Some (be_put 1 k ++ be_put 2 (len d) ++ d ++ replicate (509 - length d) 0)
    else None;
  DecryptOAEP k ct :=
    if bool_decide (len ct ≤ 512 ∧ take 1 ct = be_put 1 k) then
      Some (take (Z.to_nat (be_get (take 2 (drop 1 ct)))) (drop 3 ct))
    else None |}.

#[local] Instance rsa_laws : RsaLaws.
Proof.
  constructor; cbn -[be_put be_get take drop].
  - intros k d r Hb Hl. rewrite bool_decide_true by done. eexists. split; [done|]. split.
    + rewrite !length_app, !length_be_put, length_replicate. unfold len in *. lia.
    + rewrite !bytes_app. split_and!; [apply bytes_be_put|apply bytes_be_put|done|apply bytes_replicate0].
  - intros k d r Hl. rewrite bool_decide_false; [done|]. intros [_ ?]. lia.
  - intros k d r ct. case_bool_decide as Hd; [|done]. intros E. apply (inj Some) in E. subst ct. destruct Hd as [_ Hd].
    rewrite take_app_length' by (by rewrite length_be_put). rewrite bool_decide_true.
    2: { split; [|done]. unfold len in *. rewrite !length_app, !length_be_put, length_replicate. lia. }
    rewrite (drop_app_length' (be_put 1 k)) by (by rewrite length_be_put).
    rewrite take_app_length' by (by rewrite length_be_put).
    rewrite be_get_put by (pose proof (len_nonneg d); unfold in_range; lia).
    rewrite (assoc_L (++) (be_put 1 k)), drop_app_length'
      by (by rewrite length_app, !length_be_put).
    unfold len. rewrite Nat2Z.id. by rewrite take_app_length.
  - intros k ct d Hb. case_bool_decide; [|done]. intros E. apply (inj Some) in E as <-. by apply bytes_take, bytes_drop.
  - intros k ct Hl. rewrite bool_decide_false; [done|]. intros [? _]. lia.
Qed.

#[local] Instance blake : Blake2b := {| blake2b_256 d := take 32 (be_put 8 (be_get d) ++ replicate 32 0) |}.
#[local] Instance blake_laws : Blake2bLaws.
Proof.
  constructor. intros d. cbn -[be_put replicate]. split.
  - rewrite length_take, length_app, length_be_put. done.
  - apply bytes_take, bytes_app. split; [apply bytes_be_put|apply bytes_replicate0].
Qed.

#[export] Instance OnionLayer_typed_dec l : Decision (OnionLayer_typed l).
Proof. unfold OnionLayer_typed. apply _. Defined.
#[local] Instance json : Json OnionLayer :=
  sample_json (λ l, [ol_NextHop l; ol_Payload l; ol_PayloadHash l])
    (λ fs, match fs with [a; b; c] => Some (mkOnionLayer a b c) | _ => None end) OnionLayer_typed.
#[local] Instance json_laws : JsonLaws OnionLayer OnionLayer_typed OnionLayer_typed.
Proof.
  apply sample_json_laws; [by intros []|]. intros l (? & ? & ?).
  rewrite !Forall_cons. split_and!; try done; by eapply array_bytes.
Qed.

Definition path : list (list Z * PrivateKey) := [(replicate 20 1, 11); (replicate 20 2, 22); (replicate 20 3, 33)].
Definition secret : PrivateKey := 33.
Definition rnd (i : nat) : layer_random := mkLayerRandom (Some (replicate 32 4)) (Some (replicate 12 5)) [].
End OnionSample.

Section witnesses.
#[local] Existing Instances sample_aes sample_aes_laws OnionSample.rsa OnionSample.rsa_laws OnionSample.blake
  OnionSample.blake_laws OnionSample.json OnionSample.json_laws.

Lemma onion_routing_witness :
  ∃ onion, BuildOnionLayers (relays OnionSample.path) (replicate 20 9) [1; 2; 3] OnionSample.rnd = Ok onion ∧
    peel OnionSample.path.*2 onion = Ok ([replicate 20 2; replicate 20 3; replicate 20 9], [1; 2; 3]).
Proof.
  apply (onion_routing OnionSample.path (replicate 20 9) [1; 2; 3] OnionSample.rnd).
  - done.
  - intros i. by exists (replicate 32 4), (replicate 12 5); split_and!; try done;
      apply (bool_decide_eq_true_1 (array _ _)); vm_compute.
  - by apply (bool_decide_eq_true_1 (Forall _ _)); vm_compute.
  - by apply (bool_decide_eq_true_1 (array _ _)); vm_compute.
  - by apply (bool_decide_eq_true_1 (bytes _)); vm_compute.
Defined.

Lemma onion_layer_panics_witness :
  DecryptOnionLayer (mk_slice [255; 254]) OnionSample.secret = Panic.
Proof.
  apply (onion_layer_panics [255; 254]).
  - by apply (bool_decide_eq_true_1 (bytes _)); vm_compute.
  - by exists 254, [].
Defined.

End witnesses.
