(* ===== verification/X3DHProofs.v ===== *)
(** * Theorems on the X3DH key agreement *)

From S2P Require Import Prelude GoBytes Wire Ratchet RatchetProofs Ed25519 DhtSample X3DH Aes Session.

Lemma file_opks_cons k keys m : file_opks (k :: keys) m = file_opks keys (<[opkp_KeyID k := k]> m).
Proof. done. Qed.

Lemma file_opks_lookup keys m id :
  id ∉ (opkp_KeyID <$> keys) → file_opks keys m !! id = m !! id.
Proof.
  revert m. induction keys as [|k keys IH]; intros m Hid; [done|].
  apply not_elem_of_cons in Hid as [Hne Hid]. rewrite file_opks_cons, IH by done. by rewrite lookup_insert_ne.
Qed.

Lemma file_opks_member keys m k :
  NoDup (opkp_KeyID <$> keys) → k ∈ keys → file_opks keys m !! opkp_KeyID k = Some k.
Proof.
  revert m. induction keys as [|k' keys IH]; intros m Hn Hk; [by apply not_elem_of_nil in Hk|].
  apply NoDup_cons in Hn as [Hnin Hn]. rewrite file_opks_cons.
  apply elem_of_cons in Hk as [->|Hk]; [|by apply IH].
  rewrite file_opks_lookup by done. apply lookup_insert_eq.
Qed.

Lemma file_opks_inv keys m id k :
  file_opks keys m !! id = Some k → (k ∈ keys ∧ opkp_KeyID k = id) ∨ m !! id = Some k.
Proof.
  revert m. induction keys as [|k' keys IH]; intros m; [by right|]. rewrite file_opks_cons.
  intros [[? ?]|Hl]%IH; [left; split; [by right|done]|].
  apply lookup_insert_Some in Hl as [[<- ->]|[_ Hl]]; [left; split; [by left|done]|by right].
Qed.

Section x3dh_proofs.
Context `{RatchetLaws} `{Ed25519Laws}.

(** ** Generated keys *)

Definition identity_ok (k : IdentityKeyPair) : Prop := ik_DHPublic k = x25519_base (ik_DHPrivate k).
Definition spk_ok (k : SignedPreKeyPrivate) : Prop := spkp_PublicKey k = x25519_base (spkp_PrivateKey k).
Definition opk_ok (k : OneTimePreKeyPrivate) : Prop := opkp_PublicKey k = x25519_base (opkp_PrivateKey k).

Lemma GenerateIdentityKeyPair_ok r1 r2 k : GenerateIdentityKeyPair r1 r2 = Ok k → identity_ok k.
Proof. unfold GenerateIdentityKeyPair. intros E. repeat case_match; simplify_eq/=. done. Qed.
Lemma GenerateSignedPreKey_ok id ik r now k : GenerateSignedPreKey id ik r now = Ok k → spk_ok k.
Proof. unfold GenerateSignedPreKey. intros E. repeat case_match; simplify_eq/=. done. Qed.

Lemma opk_loop_ok n startID i rnd keys :
  0 ≤ startID → 0 ≤ i → startID + i + Z.of_nat n ≤ 2 ^ 32 →
  opk_loop n startID i rnd = Ok keys →
  Forall opk_ok keys ∧ opkp_KeyID <$> keys = seqZ (startID + i) (Z.of_nat n).
Proof.
  revert i keys. induction n as [|n IH]; intros i keys Hs Hi Hb E; cbn in E.
  { by simplify_eq. }
  destruct (rnd i) as [p|]; [|done]. outcome_inv.
  match goal with H : opk_loop _ _ _ _ = Ok ?ks |- _ =>
    destruct (IH (i + 1) ks ltac:(lia) ltac:(lia) ltac:(lia) H) as [Hf Hid] end.
  split; [by constructor|]. rewrite seqZ_cons by lia. cbn. f_equal.
  - rewrite (u32_id i), u32_id by (unfold in_range; lia). done.
  - rewrite Hid. f_equal; lia.
Qed.

Lemma GenerateOneTimePreKeys_ok startID count rnd keys :
  0 ≤ startID → startID + count ≤ 2 ^ 32 → GenerateOneTimePreKeys startID count rnd = Ok keys →
  Forall opk_ok keys ∧ opkp_KeyID <$> keys = seqZ startID count.
Proof.
  intros Hs Hb. unfold GenerateOneTimePreKeys. destruct (Z.ltb_spec count 0); [done|]. intros E.
  apply opk_loop_ok in E as [? Hid]; [|lia..]. split; [done|].
  rewrite Hid. f_equal; lia.
Qed.

Lemma derive_secret_total ikm : ∃ k, derive_secret ikm = Ok k ∧ len k = 32.
Proof.
  unfold derive_secret. destruct (hkdf_total ikm (replicate 32 0) X3DHInfo 32 ltac:(lia))
    as (k & -> & Hk). eauto.
Qed.

(** the inputs of the key derivation, for the two sides *)
Definition shared_ikm (alice bob : IdentityKeyPair) (spk : SignedPreKeyPrivate)
  (opk : option OneTimePreKeyPrivate) (ephemeral : list Z) : list Z :=
  dh_concat (x25519 (ik_DHPrivate alice) (spkp_PublicKey spk))
    (x25519 ephemeral (ik_DHPublic bob)) (x25519 ephemeral (spkp_PublicKey spk))
    ((λ k, x25519 ephemeral (opkp_PublicKey k)) <$> opk).

Lemma initiator_result addr addr' alice bob spk opks reg e :
  ∃ secret, derive_secret (shared_ikm alice bob spk (head opks) e) = Ok secret ∧ len secret = 32 ∧
    X3DHInitiator addr alice (CreateKeyBundle addr' bob spk opks reg) (Some e)
    = Ok (secret, e, x25519_base e,
          mkInitialMessage addr (ik_DHPublic alice) (x25519_base e) (spkp_KeyID spk)
            (from_option opkp_KeyID 0 (head opks)) []).
Proof.
  destruct (derive_secret_total (shared_ikm alice bob spk (head opks) e)) as (k & Hk & Hl).
  exists k. split_and!; [done..|]. unfold X3DHInitiator, shared_ikm in *.
  destruct opks as [|opk opks]; cbn in *; by rewrite Hk.
Qed.

Lemma responder_ikm alice bob spk opk e :
  identity_ok alice → identity_ok bob → spk_ok spk → (∀ k, opk = Some k → opk_ok k) →
  dh_concat (x25519 (spkp_PrivateKey spk) (ik_DHPublic alice))
    (x25519 (ik_DHPrivate bob) (x25519_base e)) (x25519 (spkp_PrivateKey spk) (x25519_base e))
    ((λ k, x25519 (opkp_PrivateKey k) (x25519_base e)) <$> opk)
  = shared_ikm alice bob spk opk e.
Proof.
  intros Ha Hb Hs Ho. unfold shared_ikm. rewrite Ha, Hb, Hs.
  rewrite (x25519_comm (ik_DHPrivate alice)), !(x25519_comm e).
  destruct opk as [k|]; [|done]. cbn. by rewrite (Ho k eq_refl), (x25519_comm e).
Qed.

Lemma responder_result addr alice bob spk opk e m secret :
  identity_ok alice → identity_ok bob → spk_ok spk →
  (∀ k, opk = Some k → opk_ok k ∧ opkp_KeyID k ≠ 0 ∧ m !! opkp_KeyID k = Some k) →
  derive_secret (shared_ikm alice bob spk opk e) = Ok secret →
  X3DHResponder bob spk m
    (mkInitialMessage addr (ik_DHPublic alice) (x25519_base e) (spkp_KeyID spk)
       (from_option opkp_KeyID 0 opk) [])
  = (match opk with Some k => delete (opkp_KeyID k) m | None => m end, Ok secret).
Proof.
  intros Ha Hb Hs Ho Hsec. unfold X3DHResponder.
  cbn [im_UsedOneTimePreKeyID im_IdentityKey im_EphemeralKey].
  assert (∀ k, opk = Some k → opk_ok k) as Ho' by (intros k Hk; apply (Ho k Hk)).
  destruct opk as [k|]; cbn [from_option].
  - destruct (Ho k eq_refl) as (_ & Hne & Hl). destruct (Z.eqb_spec (opkp_KeyID k) 0); [done|].
    cbn [negb]. rewrite Hl. by rewrite (responder_ikm alice bob spk (Some k) e), Hsec.
  - cbn [negb Z.eqb]. by rewrite (responder_ikm alice bob spk None e), Hsec.
Qed.

(** ** Properties *)

(** C17: when an initiator runs X3DH against the bundle of a responder (identity,
    signed prekey and one-time prekeys with non-zero IDs, all freshly
    generated), both sides derive the same 32-byte secret, and the responder
    forgets the one-time prekey that was used and no other. *)
Theorem x3dh_agreement (alice bob : IdentityKeyPair) (spk : SignedPreKeyPrivate)
    (opks : list OneTimePreKeyPrivate) (ra rb : option (list Z) * option (list Z)) (rs : option (list Z))
    (addrA addrB e : list Z) (keyID startID count reg now : Z) (rnd : Z → option (list Z)) :
  GenerateIdentityKeyPair ra.1 ra.2 = Ok alice → GenerateIdentityKeyPair rb.1 rb.2 = Ok bob →
  GenerateSignedPreKey keyID bob rs now = Ok spk →
  0 < startID → startID + count ≤ 2 ^ 32 → GenerateOneTimePreKeys startID count rnd = Ok opks →
  ∃ secret msg,
    X3DHInitiator addrA alice (CreateKeyBundle addrB bob spk opks reg) (Some e)
      = Ok (secret, e, x25519_base e, msg) ∧ len secret = 32 ∧
    X3DHResponder bob spk (file_opks opks ∅) msg
      = (match opks with
         | k :: _ => delete (opkp_KeyID k) (file_opks opks ∅)
         | [] => file_opks opks ∅
         end, Ok secret).
Proof.
  intros Ha%GenerateIdentityKeyPair_ok Hb%GenerateIdentityKeyPair_ok Hs%GenerateSignedPreKey_ok
    Hid Hbound Ho.
  apply GenerateOneTimePreKeys_ok in Ho as [Hopk Hids]; [|lia..].
  destruct (initiator_result addrA addrB alice bob spk opks reg e) as (secret & Hsec & Hlen & Hi).
  exists secret. eexists. split_and!; [exact Hi|done|].
  rewrite (responder_result addrA alice bob spk (head opks) e _ secret); [by destruct opks|done..| |done].
  intros k Hk. destruct opks as [|k' opks]; [done|]. injection Hk as ->.
  assert (NoDup (opkp_KeyID <$> k :: opks)) as Hnd by (rewrite Hids; apply NoDup_seqZ).
  assert (opkp_KeyID k ∈ seqZ startID count) as Hin by (rewrite <- Hids; by left).
  apply elem_of_seqZ in Hin. split_and!; [by apply Forall_cons in Hopk as [? _]|lia|].
  apply file_opks_member; [done|by left].
Qed.

(** a one-time prekey works once: an initial message that used one is
    refused when it arrives again, and the refusal changes nothing. *)
Theorem x3dh_single_use (bob : IdentityKeyPair) (spk : SignedPreKeyPrivate) (m m' : opk_map)
    (msg : InitialMessage) (secret : list Z) :
  im_UsedOneTimePreKeyID msg ≠ 0 → X3DHResponder bob spk m msg = (m', Ok secret) →
  X3DHResponder bob spk m' msg
  = (m', Err ("one-time prekey not found: " +:+ pretty (im_UsedOneTimePreKeyID msg))).
Proof.
  intros Hne. unfold X3DHResponder. destruct (Z.eqb_spec (im_UsedOneTimePreKeyID msg) 0); [done|].
  cbn [negb]. destruct (m !! _) as [k|] eqn:L; [|done].
  destruct (derive_secret _); [|done..]. intros [= <- _]. by rewrite lookup_delete_eq.
Qed.

(** key ID 0 is both a possible one-time prekey ID and the mark for "none":
    when the first prekey of a bundle has ID 0, the initiator derives its
    secret from four Diffie-Hellman values, the responder from the first
    three, and the prekey is kept. *)
Theorem x3dh_key_id_zero (alice bob : IdentityKeyPair) (spk : SignedPreKeyPrivate)
    (k : OneTimePreKeyPrivate) (opks : list OneTimePreKeyPrivate) (m : opk_map)
    (addrA addrB e : list Z) (reg : Z) :
  identity_ok alice → identity_ok bob → spk_ok spk → opkp_KeyID k = 0 →
  ∃ secret secret' msg,
    X3DHInitiator addrA alice (CreateKeyBundle addrB bob spk (k :: opks) reg) (Some e)
      = Ok (secret, e, x25519_base e, msg) ∧
    derive_secret (shared_ikm alice bob spk (Some k) e) = Ok secret ∧
    X3DHResponder bob spk m msg = (m, Ok secret') ∧
    derive_secret (shared_ikm alice bob spk None e) = Ok secret'.
Proof.
  intros Ha Hb Hs Hz.
  destruct (initiator_result addrA addrB alice bob spk (k :: opks) reg e) as (secret & Hsec & _ & Hi).
  destruct (derive_secret_total (shared_ikm alice bob spk None e)) as (secret' & Hsec' & _).
  exists secret, secret'. eexists. split_and!; [exact Hi|exact Hsec| |exact Hsec'].
  unfold X3DHResponder. cbn [im_UsedOneTimePreKeyID im_IdentityKey im_EphemeralKey head from_option].
  rewrite Hz. cbn [negb Z.eqb]. rewrite (responder_ikm alice bob spk None e) by done. by rewrite Hsec'.
Qed.

(** the signature on a published signed prekey verifies under the
    identity's Ed25519 key.  (The bundle publishes the X25519 key instead.) *)
Theorem signed_prekey_verifies (seed dh rs addr : list Z) (keyID reg now : Z)
    (bob : IdentityKeyPair) (spk : SignedPreKeyPrivate) (opks : list OneTimePreKeyPrivate) :
  array 32 seed → GenerateIdentityKeyPair (Some seed) (Some dh) = Ok bob →
  GenerateSignedPreKey keyID bob (Some rs) now = Ok spk →
  let bundle := CreateKeyBundle addr bob spk opks reg in
  VerifySignedPreKey (ik_PublicKey bob) (kb_SignedPreKey bundle) = true ∧
  kb_IdentityKey bundle = x25519_base dh.
Proof.
  intros Hseed [= <-] [= <-]. split; [|done]. apply (ed25519_correct seed). done.
Qed.

End x3dh_proofs.

(** ** Witnesses *)

#[local] Existing Instances Toy.ops Toy.laws sample_crypto sample_crypto_laws.

Definition ex_id (b : Z) : IdentityKeyPair :=
  mkIdentity (Toy.key b) (Toy.key b ++ Toy.key b) (Toy.key (b + 1)) (Toy.key (b + 1)).
Definition ex_spk : SignedPreKeyPrivate :=
  match GenerateSignedPreKey 1 (ex_id 20) (Some (Toy.key 30)) 5 with
  | Ok k => k | _ => mkSignedPreKeyPrivate 0 [] [] [] 0 end.
Definition ex_opks (start : Z) : list OneTimePreKeyPrivate :=
  match GenerateOneTimePreKeys start 2 (λ i, Some (Toy.key (40 + i))) with Ok l => l | _ => [] end.

Lemma x3dh_agreement_witness :
  ∃ secret msg,
    X3DHInitiator [1] (ex_id 10) (CreateKeyBundle [2] (ex_id 20) ex_spk (ex_opks 100) 7)
      (Some (Toy.key 50)) = Ok (secret, Toy.key 50, Toy.key 50, msg) ∧
    (X3DHResponder (ex_id 20) ex_spk (file_opks (ex_opks 100) ∅) msg).2 = Ok secret.
Proof.
  destruct (x3dh_agreement (ex_id 10) (ex_id 20) ex_spk (ex_opks 100)
    (Some (Toy.key 10), Some (Toy.key 11)) (Some (Toy.key 20), Some (Toy.key 21))
    (Some (Toy.key 30)) [1] [2] (Toy.key 50) 1 100 2 7 5 (λ i, Some (Toy.key (40 + i)))
    ltac:(by vm_compute) ltac:(by vm_compute) ltac:(by vm_compute) ltac:(lia) ltac:(lia)
    ltac:(by vm_compute)) as (secret & msg & Hi & _ & Hr).
  exists secret, msg. split; [exact Hi|]. by rewrite Hr.
Defined.

Lemma x3dh_single_use_witness :
  let msg := mkInitialMessage [1] (Toy.key 11) (Toy.key 50) 1 100 [] in
  let m := (X3DHResponder (ex_id 20) ex_spk (file_opks (ex_opks 100) ∅) msg).1 in
  (X3DHResponder (ex_id 20) ex_spk m msg).2 = Err "one-time prekey not found: 100".
Proof.
  intros msg m.
  assert (∃ s, X3DHResponder (ex_id 20) ex_spk (file_opks (ex_opks 100) ∅) msg = (m, Ok s)) as [s E].
  { eexists. vm_compute. reflexivity. }
  by rewrite (x3dh_single_use (ex_id 20) ex_spk (file_opks (ex_opks 100) ∅) m msg s
    ltac:(done) E).
Defined.

(** with the toy key derivation the two secrets differ *)
Lemma x3dh_key_id_zero_witness :
  (∃ secret secret' msg,
    X3DHInitiator [1] (ex_id 10) (CreateKeyBundle [2] (ex_id 20) ex_spk (ex_opks 0) 7)
      (Some (Toy.key 50)) = Ok (secret, Toy.key 50, Toy.key 50, msg) ∧
    X3DHResponder (ex_id 20) ex_spk (file_opks (ex_opks 0) ∅) msg
      = (file_opks (ex_opks 0) ∅, Ok secret')) ∧
  shared_ikm (ex_id 10) (ex_id 20) ex_spk (head (ex_opks 0)) (Toy.key 50)
  ≠ shared_ikm (ex_id 10) (ex_id 20) ex_spk None (Toy.key 50).
Proof.
  split; [|by_decision].
  destruct (x3dh_key_id_zero (ex_id 10) (ex_id 20) ex_spk
    (mkOneTimePreKeyPrivate 0 (Toy.key 40) (Toy.key 40))
    [mkOneTimePreKeyPrivate 1 (Toy.key 41) (Toy.key 41)] (file_opks (ex_opks 0) ∅) [1] [2]
    (Toy.key 50) 7 ltac:(by vm_compute) ltac:(by vm_compute) ltac:(by vm_compute) eq_refl) as (s & s' & msg & H1 & _ & H2 & _).
  exists s, s', msg. split; [exact H1|exact H2].
Defined.

Lemma signed_prekey_verifies_witness :
  VerifySignedPreKey (Toy.key 20)
    (kb_SignedPreKey (CreateKeyBundle [2] (ex_id 20) ex_spk [] 7)) = true.
Proof.
  apply (signed_prekey_verifies (Toy.key 20) (Toy.key 21) (Toy.key 30) [2] 1 7 5 (ex_id 20) ex_spk []);
    [by_decision|reflexivity|reflexivity].
Defined.
