(* ===== verification/SessionProofs.v ===== *)
(** * Theorems on the client's sessions

    First contact and the conversation that follows it, what keys the two
    directions use, and what trying every session does to the others. *)

From S2P Require Import Prelude GoBytes Wire Ratchet RatchetProofs Ed25519 X3DH Aes Session DhtSample X3DHProofs.

(** One message of a conversation. *)
Record utterance := mkUtterance { u_from_alice : bool; u_plain : list Z; u_nonce : list Z }.

Section conversation.
Context `{RatchetOps} `{Ed25519} `{AesGcm}.
Context (addrA addrB : list Z) (bundle : KeyBundle) (eph initial : list Z).

(** the client tries all its sessions, in the order of [map_to_list] *)
Definition receive (c : Client) (payload : list Z) : Client * outcome (option (list Z)) :=
  handle_session_message c (mk_slice payload) (λ _, None) (map_to_list (cl_ratchetSessions c)).*1.

(** a connection that takes [initial] as the only X3DH initial message *)
Definition takes_initial (payload : list Z) : outcome unit :=
  if bool_decide (payload = initial) then Ok tt else Err "write failed".

(** Each message is delivered before the next is sent: the payloads and what
    the receivers decrypted. *)
Fixpoint converse (a b : Client) (us : list utterance)
  : outcome (list (bool * list Z * option (list Z))) :=
  match us with
  | [] => Ok []
  | u :: us' =>
      if u_from_alice u then
        let '(a', r) := ratchet_message a addrB (Some bundle) (u_plain u) (Some eph)
                          (Some (u_nonce u)) takes_initial in
        payload ← r;
        let '(b', r') := receive b payload in
        got ← r'; trace ← converse a' b' us'; Ok ((true, payload, got) :: trace)
      else
        let '(b', r) := ratchet_message b addrA None (u_plain u) None
                          (Some (u_nonce u)) takes_initial in
        payload ← r;
        let '(a', r') := receive a payload in
        got ← r'; trace ← converse a' b' us'; Ok ((false, payload, got) :: trace)
  end.
End conversation.

Section session_proofs.
Context `{RatchetLaws} `{Ed25519Laws} `{AesGcmLaws}.

(** ** Payloads *)

Lemma split_ratchet_payload header ct :
  length header = 40%nat →
  split_payload (mk_slice (ratchet_payload header ct)) = Ok (Some (Slice header ct, Slice ct [])).
Proof.
  intros Hl. unfold split_payload, ratchet_payload, mk_slice, slen, scap, reslice.
  replace (len header) with 40 by (unfold len; lia). cbn [sdata sspare].
  change (u16 40) with 40. change (u8 (Z.shiftr 40 8)) with 0. change (u8 40) with 40.
  set (all := [0; 40] ++ header ++ ct).
  assert (len all = 42 + len ct) as Hall by (unfold all, len; rewrite !length_app, Hl; cbn; lia).
  pose proof (len_nonneg ct).
  destruct (Z.ltb_spec (len all) 2); [lia|]. cbn [lookup default].
  change (default 0 (all !! 0%nat)) with 0. change (default 0 (all !! 1%nat)) with 40.
  change (Z.lor (u16 (Z.shiftl 0 8)) 40) with 40. change (2 +u16 40) with 42.
  cbn [Z.ltb Z.compare Pos.compare Pos.compare_cont orb].
  destruct (Z.ltb_spec (len all) 42); [lia|]. unfold scap. cbn [sdata sspare].
  assert (len (@nil Z) = 0) as Hnil by done.
  rewrite bool_decide_true by lia. cbn [mbind outcome_bind].
  rewrite bool_decide_true by lia. cbn [mbind outcome_bind]. rewrite app_nil_r.
  assert (drop 42 all = ct) as Hct.
  { change (drop 42 all) with (drop 40 (header ++ ct)). by rewrite <- Hl, drop_app_length. }
  assert (take 40 (drop 2 all) = header) as Hh.
  { change (drop 2 all) with (header ++ ct). by rewrite <- Hl, take_app_length. }
  change (Z.to_nat 42) with 42%nat. change (Z.to_nat 2) with 2%nat.
  change (Z.to_nat (42 - 2)) with 40%nat. rewrite Hct, Hh.
  rewrite (take_ge ct), (drop_ge all) by (unfold len in *; lia). done.
Qed.

(** ** A direction of a session *)

(** what [P] sends next is what [Q] expects next *)
Record channel (P Q : RatchetState) : Prop := {
  ch_key : DHSendingPublic P = DHReceivingPublic Q;
  ch_chain : SendingChainKey P = ReceivingChainKey Q;
  ch_num : SendingMsgNum P = ReceivingMsgNum Q;
  ch_skip : SkippedMessageKeys Q = ∅;
  ch_range : in_range 32 (SendingMsgNum P) ∧ in_range 32 (PreviousChainLen P) ∧
             array 32 (DHSendingPublic P) }.

Definition sent (P : RatchetState) : RatchetState :=
  mkRatchetState (RootKey P) (KDF_CK (SendingChainKey P)).1 (SendingMsgNum P +u32 1)
    (ReceivingChainKey P) (ReceivingMsgNum P) (DHSendingPrivate P) (DHSendingPublic P)
    (DHReceivingPublic P) (PreviousChainLen P) (SkippedMessageKeys P) (LocalAddress P)
    (RemoteAddress P).
Definition received (Q : RatchetState) : RatchetState :=
  with_receiving Q (KDF_CK (ReceivingChainKey Q)).1 (ReceivingMsgNum Q +u32 1) ∅.

Lemma channel_forward P Q : channel P Q → channel (sent P) (received Q).
Proof.
  intros [? Hc Hn ? (? & ? & ?)]. constructor; cbn; try done; [by rewrite Hc|by rewrite Hn|].
  split_and!; [apply u32_range|done..].
Qed.
Lemma channel_back P Q : channel P Q → channel Q P → channel (received Q) (sent P).
Proof. intros [_ _ _ Hs _] [? ? ? ? ?]. by constructor. Qed.

Lemma KDF_CK_key ck : aes_key_ok (KDF_CK ck).2 = true.
Proof.
  unfold KDF_CK, aes_key_ok, len. cbn. rewrite length_take, sha256_length. done.
Qed.

(** one message over a channel *)
Lemma channel_transfer P Q pt nonce rnd :
  channel P Q → length nonce = 12%nat →
  ∃ header ct, RatchetEncrypt P pt (AESEncryptGCM (Some nonce)) = (sent P, Ok (header, ct)) ∧
    length header = 40%nat ∧ AESDecryptGCM ct (KDF_CK (SendingChainKey P)).2 = Ok pt ∧
    ∀ spare, RatchetDecrypt Q (Slice header spare) ct AESDecryptGCM rnd = (received Q, Ok pt).
Proof.
  intros [Hk Hc Hn Hs (R1 & R2 & R3)] Hnonce.
  set (h := mkMessageHeader (DHSendingPublic P) (PreviousChainLen P) (SendingMsgNum P)).
  assert (MessageHeader_wf h) as Hh by (by split_and!).
  destruct (AES_roundtrip nonce pt (KDF_CK (SendingChainKey P)).2 Hnonce (KDF_CK_key _))
    as (ct & Henc & Hdec).
  exists (MessageHeader_layout h), ct. split_and!.
  - unfold RatchetEncrypt. destruct (KDF_CK (SendingChainKey P)) as [ck mk] eqn:E.
    change (AESEncryptGCM (Some nonce) pt mk) with (AESEncrypt (Some nonce) pt mk).
    cbn [snd] in Henc. rewrite Henc. fold h.
    change (MessageHeader_Encode h) with (@wire_encode _ MessageHeader_wire h).
    rewrite (@wire_encode_layout _ MessageHeader_wire h Hh).
    unfold sent. by rewrite E.
  - unfold MessageHeader_layout. cbn [h mh_DHPublicKey]. rewrite !length_app, !length_be_put.
    destruct R3 as [-> _]. done.
  - exact Hdec.
  - intros spare.
    pose proof (@wire_decode_layout _ MessageHeader_wire h [] spare Hh) as Hd. rewrite app_nil_r in Hd.
    rewrite (RatchetDecrypt_same_chain Q (Slice (MessageHeader_layout h) spare) h) by done.
    rewrite decrypt_chain_next by done. unfold received. rewrite <- Hc.
    apply (f_equal (pair _)). exact Hdec.
Qed.

(** ** Clients with a session *)

Lemma send_over_session c to P bundle pt eph nonce send identity header ct :
  cl_connected c = true → cl_x3dhIdentity c = Some identity →
  cl_ratchetSessions c !! to = Some P →
  RatchetEncrypt P pt (AESEncryptGCM nonce) = (sent P, Ok (header, ct)) →
  ratchet_message c to bundle pt eph nonce send
  = (set_session c to (sent P), Ok (ratchet_payload header ct)).
Proof.
  intros Hc Hi Hs E. unfold ratchet_message, establish_session. rewrite Hc, Hi, Hs. cbn [negb]. by rewrite E.
Qed.

Lemma ratchet_payload_not_x3dh header ct :
  length header = 40%nat → is_x3dh (mk_slice (ratchet_payload header ct)) = false.
Proof.
  intros Hl. unfold is_x3dh, ratchet_payload, mk_slice. cbn [sdata].
  rewrite bool_decide_false, andb_false_r; [done|].
  replace (len header) with 40 by (unfold len; lia). intros E. by injection E.
Qed.

Lemma handle_payload c header ct rnd range :
  length header = 40%nat →
  handle_session_message c (mk_slice (ratchet_payload header ct)) rnd range
  = try_sessions c (Slice header ct) ct rnd range.
Proof.
  intros Hl. unfold handle_session_message, handle_ratchet. rewrite ratchet_payload_not_x3dh by done.
  destruct (Z.leb_spec (slen (mk_slice (ratchet_payload header ct))) 2) as [Hlt|_].
  { unfold slen, mk_slice, ratchet_payload, len in Hlt. cbn in Hlt. rewrite length_app in Hlt. lia. }
  by rewrite split_ratchet_payload.
Qed.

Lemma receive_over_session c from Q header ct pt :
  cl_ratchetSessions c = {[from := Q]} → length header = 40%nat →
  RatchetDecrypt Q (Slice header ct) ct AESDecryptGCM None = (received Q, Ok pt) →
  receive c (ratchet_payload header ct) = (set_session c from (received Q), Ok (Some pt)).
Proof.
  intros Hs Hl E. unfold receive. rewrite handle_payload by done.
  rewrite Hs, map_to_list_singleton. cbn [fmap list_fmap fst try_sessions].
  rewrite Hs, lookup_singleton_eq. by rewrite E.
Qed.

(** both ends hold a session, in step in both directions *)
Record in_touch (addrA addrB : list Z) (a b : Client) (P Q : RatchetState) : Prop := {
  it_conn_a : cl_connected a = true; it_conn_b : cl_connected b = true;
  it_id_a : is_Some (cl_x3dhIdentity a); it_id_b : is_Some (cl_x3dhIdentity b);
  it_a : cl_ratchetSessions a = {[addrB := P]};
  it_b : cl_ratchetSessions b = {[addrA := Q]};
  it_fwd : channel P Q; it_bwd : channel Q P }.

Definition heard (us : list utterance) : list (option (list Z)) := (λ u, Some (u_plain u)) <$> us.

(** the [n]-th reply opens with the [n]-th key of the all-zero chain *)
Definition replies (trace : list (bool * list Z * option (list Z)))
  : list (bool * list Z * option (list Z)) := filter (λ t, t.1.1 = false) trace.

Lemma drop_payload header ct :
  length header = 40%nat → drop 42 (ratchet_payload header ct) = ct.
Proof.
  intros Hl. unfold ratchet_payload. change (drop 42 ([?x; ?y] ++ ?l)) with (drop 40 l).
  by rewrite <- Hl, drop_app_length.
Qed.

Lemma converse_in_touch addrA addrB bundle eph initial us : ∀ a b P Q n,
  in_touch addrA addrB a b P Q → SendingChainKey Q = ck_at zero32 n →
  Forall (λ u, length (u_nonce u) = 12%nat) us →
  ∃ trace, converse addrA addrB bundle eph initial a b us = Ok trace ∧ snd <$> trace = heard us ∧
    ∀ i t pt, replies trace !! i = Some t → t.2 = Some pt →
      AESDecryptGCM (drop 42 t.1.2) (mk_at zero32 (n + i)) = Ok pt.
Proof.
  induction us as [|u us IH]; intros a b P Q n Hit Hck Hn.
  { exists []. split_and!; [done..|]. by intros [|i] t pt Hi. }
  apply Forall_cons in Hn as [Hu Hn]. destruct Hit as [? ? [ia Ia] [ib Ib] Ha Hb Hf Hw].
  cbn [converse]. destruct (u_from_alice u) eqn:Eu.
  - destruct (channel_transfer P Q (u_plain u) (u_nonce u) None Hf Hu)
      as (header & ct & He & Hl & _ & Hd).
    rewrite (send_over_session _ _ P _ _ _ _ _ ia header ct)
      by (done || by rewrite Ha, lookup_singleton_eq). cbn [mbind outcome_bind].
    rewrite (receive_over_session _ _ Q header ct (u_plain u)) by done. cbn [mbind outcome_bind].
    edestruct (IH (set_session a addrB (sent P)) (set_session b addrA (received Q)) (sent P)
      (received Q) n) as (trace & -> & Hh & Hk); [|done|done|].
    { constructor; cbn; try done; [by eexists..|by rewrite Ha, insert_singleton_eq|by rewrite Hb, insert_singleton_eq
        |by apply channel_forward|by apply channel_back]. }
    eexists. split_and!; [done|cbn; by rewrite Hh|]. intros i t pt Hi Ht.
    apply (Hk i t pt); [|done]. exact Hi.
  - destruct (channel_transfer Q P (u_plain u) (u_nonce u) None Hw Hu)
      as (header & ct & He & Hl & Hopen & Hd).
    rewrite (send_over_session _ _ Q _ _ _ _ _ ib header ct)
      by (done || by rewrite Hb, lookup_singleton_eq). cbn [mbind outcome_bind].
    rewrite (receive_over_session _ _ P header ct (u_plain u)) by done. cbn [mbind outcome_bind].
    edestruct (IH (set_session a addrB (received P)) (set_session b addrA (sent Q)) (received P)
      (sent Q) (S n)) as (trace & -> & Hh & Hk); [| |done|].
    { constructor; cbn; try done; [by eexists..|by rewrite Ha, insert_singleton_eq|by rewrite Hb, insert_singleton_eq
        |by apply channel_back|by apply channel_forward]. }
    { cbn. by rewrite Hck. }
    eexists. split_and!; [done|cbn; by rewrite Hh|]. intros [|i] t pt Hi Ht.
    + injection Hi as <-. injection Ht as <-.
      change (AESDecryptGCM (drop 42 (ratchet_payload header ct)) (mk_at zero32 (n + 0)) = Ok (u_plain u)).
      rewrite drop_payload, Nat.add_0_r by done. unfold mk_at. by rewrite <- Hck.
    + rewrite <- Nat.add_succ_comm. apply (Hk i t pt); [|done]. exact Hi.
Qed.

(** ** First contact *)

(** a pool of one-time prekeys as [InitializeX3DH] and the refill make it *)
Definition opks_ok (m : opk_map) : Prop :=
  ∀ id k, m !! id = Some k → opkp_KeyID k = id ∧ id ≠ 0 ∧ in_range 32 id ∧ opk_ok k.

(** a connected client with its X3DH keys *)
Record ready (c : Client) (i : IdentityKeyPair) (spk : SignedPreKeyPrivate) : Prop := {
  rd_conn : cl_connected c = true; rd_addr : array 20 (cl_Address c);
  rd_identity : cl_x3dhIdentity c = Some i; rd_identity_ok : identity_ok i;
  rd_identity_array : array 32 (ik_DHPublic i);
  rd_spk : cl_signedPreKey c = Some spk; rd_spk_ok : spk_ok spk;
  rd_spk_id : in_range 32 (spkp_KeyID spk); rd_spk_array : array 32 (spkp_PublicKey spk);
  rd_opks : opks_ok (cl_oneTimePreKeys c) }.

Lemma copy32_ok l : len l = 32 → copy32 (mk_slice l) = Ok l.
Proof.
  intros Hl. unfold copy32, reslice, mk_slice, scap. cbn [sdata sspare].
  assert (len (@nil Z) = 0) as Hnil by done. rewrite bool_decide_true by lia. cbn.
  rewrite app_nil_r. f_equal. apply take_ge. unfold len in Hl. lia.
Qed.

Lemma set_session_lookup c addr s : cl_ratchetSessions (set_session c addr s) !! addr = Some s.
Proof. apply lookup_insert_eq. Qed.

(** the first one-time prekey of the bundle is in the pool *)
Lemma head_range (range : opk_map → list OneTimePreKeyPrivate) m k :
  (∀ m, range m ≡ₚ (map_to_list m).*2) → opks_ok m → head (range m) = Some k →
  m !! opkp_KeyID k = Some k ∧ opkp_KeyID k ≠ 0 ∧ in_range 32 (opkp_KeyID k) ∧ opk_ok k.
Proof.
  intros Hrange Hok Hk.
  assert (k ∈ range m) as Hin by (destruct (range m); [done|]; injection Hk as ->; by left).
  rewrite Hrange in Hin. apply list_elem_of_fmap in Hin as ([id k'] & -> & Hin).
  apply elem_of_map_to_list in Hin. destruct (Hok _ _ Hin) as (Hid & ? & ? & ?). cbn in *. by rewrite Hid.
Qed.

Lemma receive_initial c msg :
  InitialMessage_wf msg →
  receive c (x3dh_magic ++ InitialMessage_layout msg)
  = let '(c', r) := InitializeRatchetSession c (im_SenderAddress msg) msg in
    (c', match r with Panic => Panic | _ => Ok None end).
Proof.
  intros Hwf. unfold receive, handle_session_message, is_x3dh, handle_initial.
  pose proof (@wire_decode_layout _ InitialMessage_wire msg [] [] Hwf) as Hd.
  rewrite app_nil_r in Hd. cbn [wire_decode wire_layout InitialMessage_wire] in Hd.
  set (l := InitialMessage_layout msg) in *.
  assert (20 ≤ len l) as Hl.
  { unfold l, InitialMessage_layout. destruct Hwf as ([Hs _] & _).
    unfold len. rewrite length_app, Hs. lia. }
  unfold slen, mk_slice. cbn [sdata sspare]. rewrite len_app. change (len x3dh_magic) with 4.
  destruct (Z.ltb_spec 4 (4 + len l)); [|lia]. cbn [andb].
  rewrite bool_decide_true by done. unfold reslice, scap. cbn [sdata sspare].
  assert (len (@nil Z) = 0) as Hnil by done. rewrite len_app. change (len x3dh_magic) with 4.
  rewrite bool_decide_true by lia. cbn [mbind outcome_bind]. rewrite app_nil_r.
  change (drop (Z.to_nat 4) (x3dh_magic ++ l)) with l. rewrite take_ge, drop_ge
    by (rewrite ?length_app; unfold len in *; cbn; lia).
  rewrite Hd. by destruct (InitializeRatchetSession _ _ _) as [c' []].
Qed.

(** the client's keys after a first [InitializeX3DH] *)
Lemma InitializeX3DH_ready c r nowMs now c' :
  (∀ p, array 32 p → array 32 (x25519_base p)) →
  cl_connected c = true → array 20 (cl_Address c) → cl_oneTimePreKeys c = ∅ →
  (∀ p, xr_dh r = Some p → array 32 p) → (∀ p, xr_spk r = Some p → array 32 p) →
  InitializeX3DH c r nowMs now = (c', Ok tt) →
  (∃ i spk, ready c' i spk) ∧ cl_ratchetSessions c' = cl_ratchetSessions c ∧
  cl_Address c' = cl_Address c.
Proof.
  intros Hbase Hconn Haddr Hempty Hdh Hspk. unfold InitializeX3DH.
  destruct (GenerateIdentityKeyPair _ _) as [i|e|] eqn:Ei; cbn [wrap_err]; [|done..].
  destruct (GenerateSignedPreKey _ _ _ _) as [spk|e|] eqn:Es; cbn [wrap_err]; [|done..].
  destruct (GenerateOneTimePreKeys 100 50 _) as [opks|e|] eqn:Eo; cbn [wrap_err]; [|done..].
  intros E. injection E as <-.
  apply GenerateOneTimePreKeys_ok in Eo as [Hok Hids]; [|lia..].
  split; [|done]. exists i, spk. constructor; cbn -[file_opks]; try done.
  - by apply GenerateIdentityKeyPair_ok in Ei.
  - unfold GenerateIdentityKeyPair in Ei. repeat case_match; simplify_eq/=. eauto.
  - by apply GenerateSignedPreKey_ok in Es.
  - unfold GenerateSignedPreKey in Es. repeat case_match; simplify_eq/=. done.
  - unfold GenerateSignedPreKey in Es. repeat case_match; simplify_eq/=. eauto.
  - rewrite Hempty. intros id k Hk.
    destruct (file_opks_inv opks ∅ id k Hk) as [[Hin Hid]|Hk']; [|done].
    assert (id ∈ seqZ 100 50) as Hs by (rewrite <- Hids, <- Hid; by apply list_elem_of_fmap_2).
    apply elem_of_seqZ in Hs. split_and!; [done|lia|unfold in_range; lia|].
    by eapply Forall_forall in Hin; [|exact Hok].
Qed.

Lemma first_contact a b ia ib spka spkb bundle eph (range : opk_map → list OneTimePreKeyPrivate) :
  ready a ia spka → ready b ib spkb → cl_ratchetSessions a = ∅ → cl_ratchetSessions b = ∅ →
  (∀ m, range m ≡ₚ (map_to_list m).*2) → GetKeyBundle b range = Ok bundle →
  array 32 (x25519_base eph) →
  ∃ initial P Q b1,
    receive b initial = (b1, Ok None) ∧
    (∀ pt nonce, ratchet_message a (cl_Address b) (Some bundle) pt (Some eph) nonce
         (takes_initial initial)
       = ratchet_message (set_session a (cl_Address b) P) (cl_Address b) (Some bundle) pt
           (Some eph) nonce (takes_initial initial)) ∧
    in_touch (cl_Address a) (cl_Address b) (set_session a (cl_Address b) P) b1 P Q ∧
    SendingChainKey Q = zero32.
Proof.
  intros [Hca Haa Hia Hida Hiarr _ _ _ _ _] [Hcb Hab Hib Hidb _ Hspk Hspkok Hspkid Harr Hopks]
    Hsa Hsb Hrange Hbundle Heph.
  unfold GetKeyBundle in Hbundle. rewrite Hib, Hspk in Hbundle. injection Hbundle as <-.
  pose proof (λ k, head_range range _ k Hrange Hopks) as Hhead.
  set (opks := range (cl_oneTimePreKeys b)) in *.
  destruct (initiator_result (cl_Address a) (cl_Address b) ia ib spkb opks (cl_registrationID b) eph)
    as (secret & Hsec & Hlen & Hi).
  set (msg := mkInitialMessage _ _ _ _ _ _) in Hi.
  assert (InitialMessage_wf msg) as Hwf.
  { do 4 (split; [done|]). split; [|by apply (bool_decide_unpack (blob []))]. cbn. destruct (head opks) as [k|]; [|done].
    by destruct (Hhead k eq_refl) as (_ & _ & ? & _). }
  destruct (KDF_RK_total secret (x25519 eph (spkp_PublicKey spkb))) as (rk & ck & Hkdf).
  set (P := mkRatchetState rk ck 0 zero32 0 eph (x25519_base eph) (spkp_PublicKey spkb) 0 ∅
              (cl_Address a) (cl_Address b)).
  set (Q := mkRatchetState rk zero32 0 ck 0 (spkp_PrivateKey spkb) (spkp_PublicKey spkb)
              (x25519_base eph) 0 ∅ (cl_Address b) (cl_Address a)).
  exists (x3dh_magic ++ InitialMessage_layout msg), P, Q. eexists.
  rewrite receive_initial by done. cbn [im_SenderAddress msg].
  split_and!.
  - unfold InitializeRatchetSession. rewrite Hib, Hspk, Hsb, lookup_empty.
    pose proof (responder_result (cl_Address a) ia ib spkb (head opks) eph (cl_oneTimePreKeys b)
      secret Hida Hidb Hspkok) as Hr. fold msg in Hr. rewrite Hr
      by (done || by intros k Hk; destruct (Hhead k Hk) as (? & ? & ? & ?)).
    cbn [wrap_err]. unfold NewRatchetStateReceiver. rewrite (copy32_ok secret Hlen).
    cbn -[KDF_RK]. rewrite <- (x25519_comm eph), <- Hspkok, Hkdf. reflexivity.
  - intros pt nonce. unfold ratchet_message, establish_session. rewrite Hca, Hia, Hsa, lookup_empty. cbn [negb].
    cbn [cl_connected cl_x3dhIdentity set_session with_sessions negb]. rewrite Hca, Hia. cbn [negb].
    rewrite set_session_lookup. rewrite Hi. cbn [wrap_err mbind outcome_bind fst snd].
    unfold NewRatchetState. rewrite (copy32_ok secret Hlen). cbn -[KDF_RK set_session RatchetEncrypt sendX3DHInitialMessage].
    rewrite Hkdf. cbn -[set_session RatchetEncrypt sendX3DHInitialMessage].
    unfold sendX3DHInitialMessage.
    change (InitialMessage_Encode msg) with (@wire_encode _ InitialMessage_wire msg).
    rewrite (@wire_encode_layout _ InitialMessage_wire msg Hwf). cbn [mbind outcome_bind].
    unfold takes_initial. rewrite bool_decide_true by done. done.
  - constructor; cbn; try done; [by rewrite Hsa|by rewrite Hsb].
  - done.
Qed.

(** ** Properties *)

(** a client before its first [InitializeX3DH], and random bytes of the size of keys *)
Definition fresh (c : Client) : Prop :=
  cl_connected c = true ∧ array 20 (cl_Address c) ∧ cl_oneTimePreKeys c = ∅ ∧
  cl_ratchetSessions c = ∅.
Definition drawn (r : x3dh_random) : Prop :=
  ∀ p, xr_dh r = Some p ∨ xr_spk r = Some p → array 32 p.

Section two_clients.
Context (x25519_base_array : ∀ p, array 32 p → array 32 (x25519_base p)).
Context (a0 b0 a b : Client) (ra rb : x3dh_random) (ta tb : Z * Z).
Context (fresh_a : fresh a0) (fresh_b : fresh b0) (drawn_a : drawn ra) (drawn_b : drawn rb).
Context (init_a : InitializeX3DH a0 ra ta.1 ta.2 = (a, Ok tt)).
Context (init_b : InitializeX3DH b0 rb tb.1 tb.2 = (b, Ok tt)).
Context (range : opk_map → list OneTimePreKeyPrivate) (bundle : KeyBundle).
Context (range_all : ∀ m, range m ≡ₚ (map_to_list m).*2).
Context (bundle_b : GetKeyBundle b range = Ok bundle).
Context (eph : list Z) (eph_array : array 32 eph).
Context (first : utterance) (us : list utterance).
Context (alice_first : u_from_alice first = true).
Context (nonces : Forall (λ u, length (u_nonce u) = 12%nat) (first :: us)).

Lemma conversation :
  ∃ initial b1 trace,
    receive b initial = (b1, Ok None) ∧
    converse (cl_Address a) (cl_Address b) bundle eph initial a b1 (first :: us) = Ok trace ∧
    snd <$> trace = heard (first :: us) ∧
    ∀ i t pt, replies trace !! i = Some t → t.2 = Some pt →
      AESDecryptGCM (drop 42 t.1.2) (mk_at zero32 i) = Ok pt.
Proof.
  destruct fresh_a as (Ca & Aa & Oa & Sa), fresh_b as (Cb & Ab & Ob & Sb).
  destruct (InitializeX3DH_ready a0 ra ta.1 ta.2 a) as ((ia & spka & Ra) & Ea & _); [auto..|].
  destruct (InitializeX3DH_ready b0 rb tb.1 tb.2 b) as ((ib & spkb & Rb) & Eb & _); [auto..|].
  destruct (first_contact a b ia ib spka spkb bundle eph range) as
    (initial & P & Q & b1 & Hr & Hs & Hit & Hz); [by rewrite ?Ea, ?Eb; auto..|].
  destruct (converse_in_touch _ _ bundle eph initial (first :: us) _ _ _ _ 0 Hit Hz nonces)
    as (trace & Ht & Hh & Hk).
  exists initial, b1, trace. split_and!; [done| |done|done].
  rewrite <- Ht. cbn [converse]. by rewrite alice_first, Hs.
Qed.

(** C10: Two clients that have initialised X3DH, and a conversation that the one who
    knows the other's bundle begins: the first payload sent makes the other
    end set up its session, and then every message, in either direction and
    in any order of turns, is decrypted to what was sent. *)
Theorem client_conversation :
  ∃ initial b1 trace,
    receive b initial = (b1, Ok None) ∧
    converse (cl_Address a) (cl_Address b) bundle eph initial a b1 (first :: us) = Ok trace ∧
    snd <$> trace = heard (first :: us).
Proof. destruct conversation as (i & b1 & t & ? & ? & ? & _). eauto 10. Qed.

(** C26: In every such conversation the [n]-th message of the one who was contacted
    is encrypted under the [n]-th key of the all-zero chain: a key that depends
    on no secret of either client, so that anybody can read the replies. *)
Theorem replies_under_public_keys :
  ∃ initial b1 trace,
    receive b initial = (b1, Ok None) ∧
    converse (cl_Address a) (cl_Address b) bundle eph initial a b1 (first :: us) = Ok trace ∧
    ∀ n t pt, replies trace !! n = Some t → t.2 = Some pt →
      AESDecryptGCM (drop 42 t.1.2) (mk_at zero32 n) = Ok pt.
Proof. destruct conversation as (i & b1 & t & ? & ? & _ & ?). eauto 10. Qed.
End two_clients.

(** *** Trial decryption *)

Lemma decrypt_chain_keys s h ct dec :
  DHReceivingPublic (decrypt_chain s h ct dec).1 = DHReceivingPublic s ∧
  DHSendingPrivate (decrypt_chain s h ct dec).1 = DHSendingPrivate s.
Proof.
  unfold decrypt_chain, SkipMessageKeys. repeat case_match; simplify_eq/=; done.
Qed.

Lemma foreign_ratchets s hb h ct dec r :
  MessageHeader_Decode hb = Ok h → mh_DHPublicKey h ≠ DHReceivingPublic s →
  mh_PreviousChainLen h = ReceivingMsgNum s → in_range 32 (ReceivingMsgNum s) →
  DHReceivingPublic (RatchetDecrypt s hb ct dec (Some r)).1 = mh_DHPublicKey h ∧
  DHSendingPrivate (RatchetDecrypt s hb ct dec (Some r)).1 = r.
Proof.
  intros Hd Hne Hp Hr. unfold RatchetDecrypt. rewrite Hd, bool_decide_true by done.
  rewrite Hp, SkipMessageKeys_none by done.
  destruct (KDF_RK_total (RootKey s) (x25519 (DHSendingPrivate s) (mh_DHPublicKey h)))
    as (rk & ck & E1).
  destruct (KDF_RK_total rk (x25519 r (mh_DHPublicKey h))) as (rk' & ck' & E2).
  rewrite (DHRatchet_ok _ _ _ _ _ _ _ E1 E2).
  destruct (decrypt_chain_keys (mkRatchetState rk' ck' 0 ck 0 r (x25519_base r) (mh_DHPublicKey h)
    (SendingMsgNum s) (SkippedMessageKeys s) (LocalAddress s) (RemoteAddress s)) h ct dec)
    as [-> ->]. done.
Qed.

Lemma try_sessions_other c header ct rnd addrs addr :
  addr ∉ addrs →
  cl_ratchetSessions (try_sessions c header ct rnd addrs).1 !! addr = cl_ratchetSessions c !! addr.
Proof.
  revert c. induction addrs as [|x addrs IH]; intros c Hn; [done|].
  apply not_elem_of_cons in Hn as [Hne Hn]. cbn [try_sessions].
  destruct (cl_ratchetSessions c !! x) as [s|]; [|by apply IH].
  destruct (RatchetDecrypt _ _ _ _ _) as [s' [pt|e|]]; [| |]; [|rewrite IH by done|];
    cbn; by rewrite lookup_insert_ne.
Qed.

(** A ratchet message of one peer is tried on the sessions of the others: a
    session that has received as many messages as the header's previous chain
    had takes over the foreign key and a new key pair of its own, whether the
    trial decrypts the message or not, and keeps them afterwards. *)
Theorem trial_decryption_corrupts (c : Client) (addr : list Z) (rest : list (list Z))
    (s : RatchetState) (h : MessageHeader) (ct r : list Z) :
  cl_ratchetSessions c !! addr = Some s → addr ∉ rest → MessageHeader_wf h →
  mh_DHPublicKey h ≠ DHReceivingPublic s → mh_PreviousChainLen h = ReceivingMsgNum s →
  let c' := (handle_session_message c (mk_slice (ratchet_payload (MessageHeader_layout h) ct))
               (λ _, Some r) (addr :: rest)).1 in
  ∃ s', cl_ratchetSessions c' !! addr = Some s' ∧
    DHReceivingPublic s' = mh_DHPublicKey h ∧ DHSendingPrivate s' = r.
Proof.
  intros Hs Hn Hh Hne Hp. pose proof Hh as ([Hl _] & Hr & _).
  assert (length (MessageHeader_layout h) = 40%nat) as Hlen.
  { unfold MessageHeader_layout. rewrite !length_app, !length_be_put, Hl. done. }
  rewrite handle_payload by done. cbn [try_sessions]. rewrite Hs.
  pose proof (@wire_decode_layout _ MessageHeader_wire h [] ct Hh) as Hd. rewrite app_nil_r in Hd.
  pose proof (foreign_ratchets s (Slice (MessageHeader_layout h) ct) h ct AESDecryptGCM r Hd Hne Hp)
    as [F1 F2]; [by rewrite <- Hp|].
  destruct (RatchetDecrypt _ _ _ _ _) as [s' res]. exists s'. split; [|done].
  destruct res; [| |]; [|rewrite try_sessions_other by done|]; apply set_session_lookup.
Qed.

End session_proofs.

(** ** Witnesses *)

Module SessionSample.
Definition client (addr : Z) : Client := mkClient (replicate 20 addr) true None None ∅ 0 ∅ ∅.
Definition random (n : Z) : x3dh_random :=
  mkX3dhRandom (Some (Toy.key n)) (Some (Toy.key (n + 1))) (Some (Toy.key (n + 2)))
    (λ i, Some (Toy.key (u8 (n + i)))).
Definition range (m : opk_map) : list OneTimePreKeyPrivate := (map_to_list m).*2.
Definition nonce : list Z := replicate 12 5.
Definition say (alice : bool) (pt : list Z) : utterance := mkUtterance alice pt nonce.
Definition talk : list utterance :=
  [say true [2]; say false [3; 4]; say false []; say true [5]].
End SessionSample.

Section witnesses.
#[local] Existing Instances Toy.ops Toy.laws sample_crypto sample_crypto_laws sample_aes
  sample_aes_laws.
Import SessionSample.

Definition sample_alice : Client := (InitializeX3DH (client 1) (random 10) 7 7).1.
Definition sample_bob : Client := (InitializeX3DH (client 2) (random 20) 7 7).1.
Definition sample_bundle : KeyBundle :=
  match GetKeyBundle sample_bob range with Ok b => b | _ => mkKeyBundle [] [] (mkSignedPreKey 0 [] [] 0) [] 0 end.

Lemma sample_drawn n : 0 ≤ n < 250 → drawn (random n).
Proof.
  intros Hn p Hp. assert (∃ k, p = Toy.key k ∧ 0 ≤ k < 256) as (k & -> & Hk).
  { destruct Hp as [Hp|Hp]; injection Hp as <-; eexists; split; [done|lia|done|lia]. }
  split; [done|]. apply Forall_replicate. done.
Qed.
Lemma sample_base p : array 32 p → array 32 (x25519_base p).
Proof. done. Qed.
Lemma sample_fresh n : 0 ≤ n < 256 → fresh (client n).
Proof. intros Hn. split_and!; try done. split; [done|]. by apply Forall_replicate. Qed.

(** a conversation of five messages in both directions *)
Lemma client_conversation_witness :
  let a := sample_alice in let b := sample_bob in
  ∃ initial b1 trace, receive b initial = (b1, Ok None) ∧
    converse (cl_Address a) (cl_Address b) sample_bundle (Toy.key 40) initial a b1
      (say true [1] :: talk) = Ok trace ∧
    snd <$> trace = heard (say true [1] :: talk).
Proof.
  apply (client_conversation sample_base (client 1) (client 2) sample_alice sample_bob (random 10)
    (random 20) (7, 7) (7, 7) (sample_fresh 1 ltac:(lia)) (sample_fresh 2 ltac:(lia))
    (sample_drawn 10 ltac:(lia)) (sample_drawn 20 ltac:(lia)) ltac:(by vm_compute)
    ltac:(by vm_compute) range sample_bundle (λ m, reflexivity _) ltac:(by vm_compute) (Toy.key 40)).
  - split; [done|]. by apply Forall_replicate.
  - done.
  - by apply (bool_decide_eq_true_1 (Forall _ _)); vm_compute.
Defined.

(** the second reply of the conversation, and the key anybody can compute *)
Lemma replies_under_public_keys_witness :
  let a := sample_alice in let b := sample_bob in
  ∃ initial b1 trace, receive b initial = (b1, Ok None) ∧
    converse (cl_Address a) (cl_Address b) sample_bundle (Toy.key 40) initial a b1
      (say true [1] :: talk) = Ok trace ∧
    ∀ n t pt, replies trace !! n = Some t → t.2 = Some pt →
      AESDecryptGCM (drop 42 t.1.2) (mk_at zero32 n) = Ok pt.
Proof.
  apply (replies_under_public_keys sample_base (client 1) (client 2) sample_alice sample_bob
    (random 10) (random 20) (7, 7) (7, 7) (sample_fresh 1 ltac:(lia)) (sample_fresh 2 ltac:(lia))
    (sample_drawn 10 ltac:(lia)) (sample_drawn 20 ltac:(lia)) ltac:(by vm_compute)
    ltac:(by vm_compute) range sample_bundle (λ m, reflexivity _) ltac:(by vm_compute) (Toy.key 40)).
  - split; [done|]. by apply Forall_replicate.
  - done.
  - by apply (bool_decide_eq_true_1 (Forall _ _)); vm_compute.
Defined.

(** Bob has sessions with two peers who have both sent nothing yet. *)
Definition peer (root pub : Z) : RatchetState :=
  mkRatchetState (Toy.key root) zero32 0 (Toy.key (root + 1)) 0 (Toy.key 30) (Toy.key 30)
    (Toy.key pub) 0 ∅ [] [].
Definition two_peers : Client :=
  with_sessions (client 2) (<[ [1] := peer 50 60 ]> {[ [3] := peer 70 80 ]}).
(** the first message of the peer whose chain key is [k] and public key [pub] *)
Definition first_payload (k pub : Z) (pt : list Z) : list Z :=
  ratchet_payload (MessageHeader_layout (mkMessageHeader (Toy.key pub) 0 0))
    (nonce ++ mk_at (Toy.key k) 0 ++ pt).

Lemma trial_decryption_corrupts_witness :
  let c' := (handle_session_message two_peers (mk_slice (first_payload 71 80 [9]))
               (λ _, Some (Toy.key 33)) [[1]; [3]]).1 in
  ∃ s', cl_ratchetSessions c' !! [1] = Some s' ∧
    DHReceivingPublic s' = Toy.key 80 ∧ DHSendingPrivate s' = Toy.key 33.
Proof.
  apply (trial_decryption_corrupts two_peers [1] [[3]] (peer 50 60)
    (mkMessageHeader (Toy.key 80) 0 0) (nonce ++ mk_at (Toy.key 71) 0 ++ [9]) (Toy.key 33)).
  - by vm_compute.
  - by apply (bool_decide_eq_true_1 ([1] ∉ [[3]])); vm_compute.
  - by apply (bool_decide_eq_true_1 (MessageHeader_wf _)); vm_compute.
  - by vm_compute.
  - done.
Defined.

(** The first peer's message decrypts, unless the second peer's came before. *)
Example trial_loses_message :
  let got c p := (handle_session_message c (mk_slice p) (λ _, Some (Toy.key 33)) [[1]; [3]]).2 in
  let after c p := (handle_session_message c (mk_slice p) (λ _, Some (Toy.key 33)) [[1]; [3]]).1 in
  let p1 := first_payload 51 60 [8] in let p3 := first_payload 71 80 [9] in
  got two_peers p1 = Ok (Some [8]) ∧ got two_peers p3 = Ok (Some [9]) ∧
  got (after two_peers p3) p1 = Ok None.
Proof. by vm_compute. Qed.

End witnesses.
