(* ===== verification/Inbox.v ===== *)
(** * Incoming messages: the delivery half of pkg/network/message_handler.go,
    sequence numbers of message_sender.go

    What a client does with a decrypted payload: find out which kind of message
    it is by trying the decoders in turn, put direct messages in order, and
    deliver.  Saving to the message database, writing to the relay connection
    and calling the application are [effect]s in the order they happen; their
    errors are only logged.  [clock] gives the time and the random header
    identifier of the acknowledgement of a message. *)

From S2P Require Import Prelude GoBytes NodeID Wire WireGroups.

(** ** Effects *)

(** storage.StoredMessage (strings as bytes, the status as text) *)
Record StoredMessage := mkStoredMessage {
  sm_ID : Z; sm_ConversationID : list Z; sm_MessageID : list Z; sm_FromAddress : list Z;
  sm_ToAddress : list Z; sm_Content : list Z; sm_ContentType : Z; sm_Timestamp : Z;
  sm_Status : string; sm_IsOutgoing : bool;
  sm_MeshChunkID : Z; sm_EncryptionKey : list Z; sm_ReplyToID : list Z }.

Inductive effect :=
  | SaveMessage (m : StoredMessage)
  | UpdateMessageStatus (messageID : list Z) (status : string)
  | Write (bytes : outcome (list Z))
  | OnMessageReceived (m : DirectMessage)
  | OnGroupMessageReceived (m : GroupMessage)
  | OnProfileUpdate (m : ProfileUpdate)
  | OnTypingIndicator (m : TypingIndicator)
  | OnReadReceipt (m : ReadReceipt).

(** the fields of [Client] used here; the callbacks and the database may be nil *)
Record Endpoint := mkEndpoint {
  ep_Address : list Z; ep_connected : bool; ep_messageDB : bool;
  ep_OnMessageReceived : bool; ep_OnGroupMessageReceived : bool; ep_OnProfileUpdate : bool;
  ep_OnTypingIndicator : bool; ep_OnReadReceipt : bool }.

Definition when {A} (b : bool) (l : list A) : list A := if b then l else [].

(** ** Helpers *)

(** Go's [<] on strings *)
Fixpoint string_lt (a b : list Z) : bool :=
  match a, b with
  | _, [] => false
  | [], _ :: _ => true
  | x :: a', y :: b' => (x <? y) || ((x =? y) && string_lt a' b')
  end.

(** storage/helpers.go *)
Definition GetConversationID (addr1 addr2 : list Z) : list Z :=
  if string_lt addr1 addr2 then addr1 ++ string_bytes "-" ++ addr2
  else addr2 ++ string_bytes "-" ++ addr1.

(** ** Delivery *)

Record Inbox := mkInbox {
  ib_messageBuffer : gmap (list Z) (gmap Z DirectMessage);
  ib_receivedMessageIDs : gmap (list Z) (gset Z);
  ib_receiveSequenceNumbers : gmap (list Z) Z }.

Definition empty_inbox : Inbox := mkInbox ∅ ∅ ∅.

(** a missing entry reads as the zero value *)
Definition buffer_of (ib : Inbox) (from : list Z) : gmap Z DirectMessage :=
  default ∅ (ib_messageBuffer ib !! from).
Definition received_of (ib : Inbox) (from : list Z) : gset Z :=
  default ∅ (ib_receivedMessageIDs ib !! from).
Definition expected_of (ib : Inbox) (from : list Z) : Z :=
  default 0 (ib_receiveSequenceNumbers ib !! from).

Definition set_buffer (ib : Inbox) (from : list Z) (b : gmap Z DirectMessage) : Inbox :=
  mkInbox (<[from := b]> (ib_messageBuffer ib)) (ib_receivedMessageIDs ib)
    (ib_receiveSequenceNumbers ib).
Definition set_received (ib : Inbox) (from : list Z) (r : gset Z) : Inbox :=
  mkInbox (ib_messageBuffer ib) (<[from := r]> (ib_receivedMessageIDs ib))
    (ib_receiveSequenceNumbers ib).
Definition set_expected (ib : Inbox) (from : list Z) (n : Z) : Inbox :=
  mkInbox (ib_messageBuffer ib) (ib_receivedMessageIDs ib)
    (<[from := n]> (ib_receiveSequenceNumbers ib)).

Section deliver.
Context (ep : Endpoint) (clock : DirectMessage → Z * list Z).

Definition sendAck (to messageID : list Z) (seqNum : Z) (time : Z * list Z) : list effect :=
  when (ep_connected ep)
    [Write (payload ← AckMessage_Encode (mkAckMessage (ep_Address ep) to messageID seqNum (u64 time.1));
            header ← WriteHeader (mkHeader ProtocolMagic ProtocolVersion MsgTypeAck
                       (u32 (len payload)) 0 time.2 0) [];
            Ok (header ++ payload))].

(** the row of a message that is delivered *)
Definition incoming_id (msg : DirectMessage) : list Z :=
  hex_encode (dm_From msg) ++ string_bytes ("-" +:+ pretty (dm_Timestamp msg)).
Definition incoming_message (msg : DirectMessage) : StoredMessage :=
  mkStoredMessage 0
    (GetConversationID (hex_encode (ep_Address ep)) (hex_encode (dm_From msg)))
    (incoming_id msg) (hex_encode (dm_From msg)) (hex_encode (dm_To msg)) (dm_Content msg) (dm_ContentType msg)
    (s64 (dm_Timestamp msg)) "delivered" false 0 [] [].

Definition deliverMessage (msg : DirectMessage) : list effect :=
  when (ep_messageDB ep) [SaveMessage (incoming_message msg)] ++
  sendAck (dm_From msg) (dm_ReplyTo msg) (dm_SequenceNumber msg) (clock msg) ++
  when (ep_OnMessageReceived ep) [OnMessageReceived msg].

(** [for { ... }]; [None]: the fuel ran out *)
Fixpoint deliverBufferedMessages (fuel : nat) (ib : Inbox) (from : list Z)
  : option (Inbox * list effect) :=
  match fuel with
  | O => None
  | S fuel' =>
      let expectedSeq := expected_of ib from in
      match buffer_of ib from !! expectedSeq with
      | None => Some (ib, [])
      | Some bufferedMsg =>
          let effs := deliverMessage bufferedMsg in
          let ib := set_buffer ib from (delete expectedSeq (buffer_of ib from)) in
          let ib := set_expected ib from (expectedSeq +u64 1) in
          '(ib, rest) ← deliverBufferedMessages fuel' ib from;
          Some (ib, effs ++ rest)
      end
  end.

Definition handleOrderedMessage (ib : Inbox) (msg : DirectMessage) : option (Inbox * list effect) :=
  let from := dm_From msg in
  let seqNum := dm_SequenceNumber msg in
  let ib := if bool_decide (ib_messageBuffer ib !! from = None) then set_buffer ib from ∅ else ib in
  let ib :=
    if bool_decide (ib_receivedMessageIDs ib !! from = None) then set_received ib from ∅ else ib in
  if bool_decide (seqNum ∈ received_of ib from) then Some (ib, [])
  else
    let ib := set_received ib from ({[seqNum]} ∪ received_of ib from) in
    let expectedSeq := expected_of ib from in
    if seqNum =? expectedSeq then
      let effs := deliverMessage msg in
      let ib := set_expected ib from (expectedSeq +u64 1) in
      '(ib, rest) ← deliverBufferedMessages (S (size (buffer_of ib from))) ib from;
      Some (ib, effs ++ rest)
    else if expectedSeq <? seqNum then
      Some (set_buffer ib from (<[seqNum := msg]> (buffer_of ib from)), [])
    else Some (ib, []).

(** ** Which kind of message *)

(** a decoder called under [recover]: a panic means it is not this kind *)
Definition attempt {A} (o : outcome A) : option A := match o with Ok a => Some a | _ => None end.

Definition ReadStatusDelivered : Z := 0.
Definition ReadStatusRead : Z := 1.
Definition ReadStatusSeen : Z := 2.

Definition receipt_status (readStatus : Z) : string :=
  if readStatus =? ReadStatusDelivered then "delivered"
  else if readStatus =? ReadStatusRead then "read"
  else if readStatus =? ReadStatusSeen then "read"
  else "".

Definition handleReceipt (receipt : ReadReceipt) : list effect :=
  when (ep_messageDB ep)
    [UpdateMessageStatus (hex_encode (rr_MessageID receipt)) (receipt_status (rr_ReadStatus receipt))]
  ++ when (ep_OnReadReceipt ep) [OnReadReceipt receipt].

(** the tail of [handleDirectMessage], on the final plaintext *)
Definition dispatch (ib : Inbox) (finalPlaintext : slice) : option (Inbox * list effect) :=
  match attempt (directMsg ← DirectMessage_Decode finalPlaintext;
                 if bool_decide (dm_To directMsg = ep_Address ep) then Ok directMsg else Err "") with
  | Some directMsg => handleOrderedMessage ib directMsg
  | None =>
  match attempt (GroupMessage_Decode finalPlaintext) with
  | Some groupMsg => Some (ib, when (ep_OnGroupMessageReceived ep) [OnGroupMessageReceived groupMsg])
  | None =>
  match attempt (ProfileUpdate_Decode finalPlaintext) with
  | Some profile => Some (ib, when (ep_OnProfileUpdate ep) [OnProfileUpdate profile])
  | None =>
  match attempt (indicator ← Typing_Decode finalPlaintext;
                 if bool_decide (ti_To indicator = ep_Address ep) then Ok indicator else Err "") with
  | Some indicator => Some (ib, when (ep_OnTypingIndicator ep) [OnTypingIndicator indicator])
  | None =>
  match attempt (receipt ← ReadReceipt_Decode finalPlaintext;
                 if bool_decide (rr_To receipt = ep_Address ep) then Ok receipt else Err "") with
  | Some receipt => Some (ib, handleReceipt receipt)
  | None => Some (ib, [])
  end end end end end.

(** the messages of one connection, one after the other *)
Fixpoint handle_all (ib : Inbox) (msgs : list DirectMessage) : option (Inbox * list effect) :=
  match msgs with
  | [] => Some (ib, [])
  | msg :: msgs' =>
      '(ib, effs) ← handleOrderedMessage ib msg;
      '(ib, rest) ← handle_all ib msgs';
      Some (ib, effs ++ rest)
  end.

End deliver.

(** ** message_sender.go: numbering *)

Definition GetNextSequenceNumber (seqs : gmap (list Z) Z) (to : list Z) : gmap (list Z) Z * Z :=
  let seqNum := default 0 (seqs !! to) in
  (<[to := seqNum +u64 1]> seqs, seqNum).

(** the message [SendMessage] builds; [nowMs]: [time.Now().UnixMilli()] *)
Definition new_message (from to : list Z) (seqs : gmap (list Z) Z) (nowMs contentType : Z)
  (content : list Z) : gmap (list Z) Z * DirectMessage :=
  let '(seqs, seqNum) := GetNextSequenceNumber seqs to in
  (seqs, mkDirectMessage from to (u64 nowMs) seqNum contentType (replicate 16 0) content []).
