(* ===== verification/InboxProofs.v ===== *)
(** * Theorems on incoming messages

    The delivery order of direct messages against a specification by arrival
    log, the end-to-end order of a numbered stream over any network, and which
    handler each kind of message reaches. *)

From S2P Require Import Prelude GoBytes NodeID Wire WireGroups Inbox.

(** ** The specification *)

(** the first message of a log with a sequence number *)
Fixpoint arrival (log : list DirectMessage) (n : Z) : option DirectMessage :=
  match log with
  | [] => None
  | m :: log' => if dm_SequenceNumber m =? n then Some m else arrival log' n
  end.

(** [ds] are the first arrivals of 0, 1, 2, ... up to the first number missing *)
Definition in_order (log ds : list DirectMessage) : Prop :=
  (∀ i m, ds !! i = Some m → arrival log (Z.of_nat i) = Some m) ∧
  arrival log (len ds) = None.

Lemma arrival_app log log' n :
  arrival (log ++ log') n = match arrival log n with Some m => Some m | None => arrival log' n end.
Proof. induction log as [|m log IH]; cbn; [done|]. by destruct (_ =? n). Qed.

Lemma arrival_snoc log m n :
  n = dm_SequenceNumber m ∨ is_Some (arrival log n) ↔ is_Some (arrival (log ++ [m]) n).
Proof.
  rewrite arrival_app. cbn. destruct (arrival log n) as [m'|].
  - split; [eauto|]. right. eauto.
  - destruct (Z.eqb_spec (dm_SequenceNumber m) n) as [<-|Hne].
    + split; [eauto|by left].
    + split; [intros [->|[? ?]]; done|intros [? ?]; done].
Qed.

Lemma arrival_elem log n m : arrival log n = Some m → m ∈ log ∧ dm_SequenceNumber m = n.
Proof.
  induction log as [|m' log IH]; cbn; [done|]. destruct (Z.eqb_spec (dm_SequenceNumber m') n).
  - intros E. injection E as ->. split; [by left|done].
  - intros [? ?]%IH. split; [by right|done].
Qed.

Lemma arrival_none log n : arrival log n = None → ∀ m, m ∈ log → dm_SequenceNumber m ≠ n.
Proof.
  induction log as [|m' log IH]; cbn; intros E m Hm; [by apply not_elem_of_nil in Hm|].
  destruct (Z.eqb_spec (dm_SequenceNumber m') n); [done|].
  apply elem_of_cons in Hm as [->|Hm]; [done|]. by apply IH.
Qed.

(** numbers below [k] that have all arrived are at most as many as the log *)
Lemma arrivals_bound log k :
  (∀ i, 0 ≤ i < k → is_Some (arrival log i)) → k ≤ len log.
Proof.
  intros Hk. destruct (decide (k ≤ 0)) as [?|?]; [pose proof (len_nonneg log); lia|].
  assert (seqZ 0 k ⊆+ dm_SequenceNumber <$> log) as Hsub.
  { apply NoDup_submseteq; [apply NoDup_seqZ|]. intros i [Hi Hi']%elem_of_seqZ.
    destruct (Hk i) as [m Hm]; [lia|]. apply arrival_elem in Hm as [Hm <-].
    by apply list_elem_of_fmap_2. }
  apply submseteq_length in Hsub. rewrite length_seqZ, length_fmap in Hsub. unfold len. lia.
Qed.

Lemma prefix_bound log ds :
  (∀ i m, ds !! i = Some m → arrival log (Z.of_nat i) = Some m) → len ds ≤ len log.
Proof.
  intros Hd. apply arrivals_bound. intros i Hi.
  destruct (lookup_lt_is_Some_2 ds (Z.to_nat i)) as [m Hm]; [unfold len in Hi; lia|].
  exists m. rewrite <- (Hd _ _ Hm). f_equal. lia.
Qed.

Lemma len_snoc {A} (l : list A) x : len (l ++ [x]) = len l + 1.
Proof. unfold len. rewrite length_app. cbn. lia. Qed.

(** there is only one such list *)
Lemma in_order_unique log ds ds' : in_order log ds → in_order log ds' → ds = ds'.
Proof.
  assert (∀ ds ds', in_order log ds → in_order log ds' → (length ds ≤ length ds')%nat) as Hlen.
  { clear. intros ds ds' [Hd _] [_ Hn]. destruct (decide (length ds ≤ length ds')%nat) as [|Hgt]; [done|].
    destruct (lookup_lt_is_Some_2 ds (length ds')) as [m Hm]; [lia|].
    apply Hd in Hm. unfold len in Hn. congruence. }
  intros H1 H2. pose proof (Hlen _ _ H1 H2). pose proof (Hlen _ _ H2 H1).
  destruct H1 as [H1 _], H2 as [H2 _]. apply list_eq. intros i.
  destruct (ds !! i) as [m|] eqn:E1, (ds' !! i) as [m'|] eqn:E2; [| | |done].
  - apply H1 in E1. apply H2 in E2. congruence.
  - apply lookup_lt_Some in E1. apply lookup_ge_None in E2. lia.
  - apply lookup_lt_Some in E2. apply lookup_ge_None in E1. lia.
Qed.

(** ** The inbox against its log *)

Lemma buffer_of_set ib from from' b :
  buffer_of (set_buffer ib from b) from' = if decide (from' = from) then b else buffer_of ib from'.
Proof.
  unfold buffer_of. cbn. destruct (decide (from' = from)) as [->|?];
    [by rewrite lookup_insert_eq|by rewrite lookup_insert_ne].
Qed.
Lemma received_of_set ib from from' r :
  received_of (set_received ib from r) from' = if decide (from' = from) then r else received_of ib from'.
Proof.
  unfold received_of. cbn. destruct (decide (from' = from)) as [->|?];
    [by rewrite lookup_insert_eq|by rewrite lookup_insert_ne].
Qed.
Lemma expected_of_set ib from from' n :
  expected_of (set_expected ib from n) from' = if decide (from' = from) then n else expected_of ib from'.
Proof.
  unfold expected_of. cbn. destruct (decide (from' = from)) as [->|?];
    [by rewrite lookup_insert_eq|by rewrite lookup_insert_ne].
Qed.

(** the state kept for one peer is the same *)
Definition same_peer (from : list Z) (ib ib' : Inbox) : Prop :=
  buffer_of ib' from = buffer_of ib from ∧ received_of ib' from = received_of ib from ∧
  expected_of ib' from = expected_of ib from.

#[export] Instance same_peer_refl from : Reflexive (same_peer from).
Proof. done. Qed.
#[export] Instance same_peer_trans from : Transitive (same_peer from).
Proof. intros a b c (?&?&?) (?&?&?). split_and!; congruence. Qed.

(** the peer's messages so far, and those delivered; in the middle of the loop
    the message expected next may be in the buffer *)
Record mid (ib : Inbox) (from : list Z) (log ds : list DirectMessage) : Prop := {
  mid_recv : ∀ n, n ∈ received_of ib from ↔ is_Some (arrival log n);
  mid_exp : expected_of ib from = len ds;
  mid_ds : ∀ i m, ds !! i = Some m → arrival log (Z.of_nat i) = Some m;
  mid_buf : ∀ n, buffer_of ib from !! n = if decide (len ds ≤ n) then arrival log n else None }.

Definition holds (ib : Inbox) (from : list Z) (log ds : list DirectMessage) : Prop :=
  mid ib from log ds ∧ arrival log (len ds) = None.

Lemma holds_same ib ib' from log ds : same_peer from ib ib' → holds ib from log ds → holds ib' from log ds.
Proof. intros (E1 & E2 & E3) [[? ? ? ?] ?]. split; [|done]. constructor; rewrite ?E1, ?E2, ?E3; done. Qed.

Lemma holds_in_order ib from log ds : holds ib from log ds → in_order log ds.
Proof. intros [[_ _ ? _] ?]. by split. Qed.

(** the message expected next is delivered and leaves the buffer *)
Lemma mid_step ib from log ds m :
  mid ib from log ds → arrival log (len ds) = Some m → len log < 2 ^ 64 →
  mid (set_expected (set_buffer ib from (delete (len ds) (buffer_of ib from))) from
         (expected_of ib from +u64 1)) from log (ds ++ [m]).
Proof.
  intros [Hr He Hd Hbuf] Ha Hlen.
  assert (∀ i m', (ds ++ [m]) !! i = Some m' → arrival log (Z.of_nat i) = Some m') as Hd'.
  { intros i m' [Hi|[Hi Hl]]%lookup_app_Some; [by apply Hd|].
    apply list_lookup_singleton_Some in Hl as [Hi' <-]. rewrite <- Ha. f_equal. unfold len. lia. }
  pose proof (prefix_bound _ _ Hd') as Hb. pose proof (len_nonneg ds). rewrite len_snoc in Hb.
  constructor.
  - exact Hr.
  - rewrite expected_of_set, decide_True by done. rewrite He, len_snoc.
    apply u64_id. unfold in_range. lia.
  - done.
  - intros n. change (buffer_of (set_expected ?ib _ _)) with (buffer_of ib).
    rewrite buffer_of_set, decide_True by done.
    rewrite len_snoc. destruct (decide (n = len ds)) as [->|Hne].
    + rewrite lookup_delete_eq. by rewrite decide_False by lia.
    + rewrite lookup_delete_ne, Hbuf by done. repeat case_decide; try done; lia.
Qed.

Section ordering.
Context (ep : Endpoint) (clock : DirectMessage → Z * list Z).

(** ** The loop over the buffer *)

Lemma deliverBuffered_spec fuel : ∀ ib from log ds,
  mid ib from log ds → len log < 2 ^ 64 → (size (buffer_of ib from) < fuel)%nat →
  ∃ ib' ds', deliverBufferedMessages ep clock fuel ib from
      = Some (ib', ds' ≫= deliverMessage ep clock) ∧
    holds ib' from log (ds ++ ds') ∧ ∀ from', from' ≠ from → same_peer from' ib ib'.
Proof.
  induction fuel as [|fuel IH]; intros ib from log ds Hm Hlen Hf; [lia|].
  cbn [deliverBufferedMessages]. rewrite (mid_exp _ _ _ _ Hm).
  pose proof (mid_buf _ _ _ _ Hm (len ds)) as Hb. rewrite decide_True in Hb by lia.
  destruct (buffer_of ib from !! len ds) as [m|] eqn:E.
  - symmetry in Hb. pose proof (mid_step _ _ _ _ _ Hm Hb Hlen) as Hs.
    rewrite (mid_exp _ _ _ _ Hm) in Hs.
    destruct (IH _ _ _ _ Hs Hlen) as (ib' & ds' & -> & Hh & Ho).
    { change (buffer_of (set_expected ?ib _ _)) with (buffer_of ib).
      rewrite buffer_of_set, decide_True by done.
      assert (delete (len ds) (buffer_of ib from) !! len ds = None) as Hn by apply lookup_delete_eq.
      apply (map_size_insert_None _ m) in Hn as Hsz. rewrite insert_delete_id in Hsz by done.
      rewrite Hsz in Hf. by apply Nat.succ_lt_mono in Hf. }
    exists ib', (m :: ds'). split_and!.
    + done.
    + by rewrite (cons_middle m ds), (assoc_L (++)).
    + intros from' Hne. etrans; [|apply (Ho from' Hne)]. unfold same_peer.
      change (buffer_of (set_expected ?ib _ _)) with (buffer_of ib).
      by rewrite buffer_of_set, expected_of_set, !decide_False.
  - exists ib, []. rewrite app_nil_r. by split_and!.
Qed.

(** ** One message *)

(** the two nil checks at the start change nothing that can be read *)
Lemma init_same ib from' from :
  let ib1 := if bool_decide (ib_messageBuffer ib !! from = None) then set_buffer ib from ∅ else ib in
  let ib2 :=
    if bool_decide (ib_receivedMessageIDs ib1 !! from = None) then set_received ib1 from ∅ else ib1 in
  same_peer from' ib ib2.
Proof.
  intros ib1 ib2. transitivity ib1.
  - unfold ib1. case_bool_decide as E; [|done]. split_and!; try done.
    rewrite buffer_of_set. case_decide as D; [|done]. unfold buffer_of. by rewrite D, E.
  - unfold ib2. case_bool_decide as E; [|done]. split_and!; try done.
    rewrite received_of_set. case_decide as D; [|done]. unfold received_of. by rewrite D, E.
Qed.

(** the peer's state after the bookkeeping, when the message is in order *)
Lemma mid_next ib from log ds m :
  holds ib from log ds → dm_SequenceNumber m = len ds → len log + 1 < 2 ^ 64 →
  mid (set_expected (set_received ib from ({[dm_SequenceNumber m]} ∪ received_of ib from)) from
         (len ds +u64 1)) from (log ++ [m]) (ds ++ [m]).
Proof.
  intros [[Hr He Hd Hbuf] Hn] Hs Hlen. pose proof (prefix_bound _ _ Hd). pose proof (len_nonneg ds).
  constructor.
  - intros n. change (received_of (set_expected ?ib _ _)) with (received_of ib).
    rewrite received_of_set, decide_True by done.
    by rewrite elem_of_union, elem_of_singleton, Hr, arrival_snoc.
  - rewrite expected_of_set, decide_True, len_snoc by done. apply u64_id. unfold in_range. lia.
  - intros i m' [Hi|[Hi Hl]]%lookup_app_Some; rewrite arrival_app.
    + by rewrite (Hd _ _ Hi).
    + apply list_lookup_singleton_Some in Hl as [Hi' <-].
      replace (Z.of_nat i) with (len ds) by (unfold len; lia). rewrite Hn. cbn. by rewrite Hs, Z.eqb_refl.
  - intros n. change (buffer_of (set_expected (set_received ?ib _ _) _ _)) with (buffer_of ib).
    rewrite Hbuf, len_snoc, arrival_app. cbn. rewrite Hs.
    destruct (decide (len ds + 1 ≤ n)), (decide (len ds ≤ n)), (Z.eqb_spec (len ds) n);
      try done; try lia.
    + by destruct (arrival log n).
    + subst n. exact Hn.
Qed.

(** ... and when it is ahead: it waits in the buffer *)
Lemma mid_wait ib from log ds m :
  holds ib from log ds → len ds < dm_SequenceNumber m → arrival log (dm_SequenceNumber m) = None →
  let ib' := set_received ib from ({[dm_SequenceNumber m]} ∪ received_of ib from) in
  holds (set_buffer ib' from (<[dm_SequenceNumber m := m]> (buffer_of ib' from))) from (log ++ [m]) ds.
Proof.
  intros [[Hr He Hd Hbuf] Hn] Hs Ha ib'. split; [constructor|].
  - intros n. change (received_of (set_buffer ?ib _ _)) with (received_of ib). unfold ib'.
    rewrite received_of_set, decide_True by done.
    by rewrite elem_of_union, elem_of_singleton, Hr, arrival_snoc.
  - exact He.
  - intros i m' Hi. rewrite arrival_app. by rewrite (Hd _ _ Hi).
  - intros n. rewrite buffer_of_set, decide_True by done.
    change (buffer_of ib' from) with (buffer_of ib from). rewrite arrival_app. cbn.
    destruct (Z.eqb_spec (dm_SequenceNumber m) n) as [<-|].
    + rewrite lookup_insert_eq, Ha. by rewrite decide_True by lia.
    + rewrite lookup_insert_ne, Hbuf by done. case_decide; [|done]. by destruct (arrival log n).
  - rewrite arrival_app, Hn. cbn. destruct (Z.eqb_spec (dm_SequenceNumber m) (len ds)); [lia|done].
Qed.

Lemma holds_duplicate ib from log ds m :
  is_Some (arrival log (dm_SequenceNumber m)) → holds ib from log ds → holds ib from (log ++ [m]) ds.
Proof.
  intros [m' Hm'] Hh.
  assert (∀ n, arrival (log ++ [m]) n = arrival log n) as Ha.
  { intros n. rewrite arrival_app. cbn. destruct (Z.eqb_spec (dm_SequenceNumber m) n) as [<-|];
      [by rewrite Hm'|by destruct (arrival log n)]. }
  destruct Hh as [[Hr He Hd Hb] Hn]. split; [constructor|]; intros; rewrite ?Ha; auto.
Qed.

Lemma handle_spec ib m log ds :
  holds ib (dm_From m) log ds → 0 ≤ dm_SequenceNumber m → len log + 1 < 2 ^ 64 →
  ∃ ib' ds', handleOrderedMessage ep clock ib m = Some (ib', ds' ≫= deliverMessage ep clock) ∧
    holds ib' (dm_From m) (log ++ [m]) (ds ++ ds') ∧
    ∀ from', from' ≠ dm_From m → same_peer from' ib ib'.
Proof.
  intros Hh Hs Hlen. unfold handleOrderedMessage.
  pose proof (λ f, init_same ib f (dm_From m)) as Hi. cbn zeta in Hi.
  set (ib1 := if bool_decide (ib_messageBuffer ib !! _ = None) then _ else ib) in *.
  set (ib2 := if bool_decide (ib_receivedMessageIDs ib1 !! _ = None) then _ else ib1) in *.
  apply (holds_same _ ib2) in Hh; [|done]. pose proof Hh as [[Hr He Hd Hb] Hn].
  case_bool_decide as Hdup.
  { exists ib2, []. rewrite app_nil_r. split_and!; [done| |done].
    apply holds_duplicate; [by apply Hr|done]. }
  assert (arrival log (dm_SequenceNumber m) = None) as Ha.
  { apply eq_None_not_Some. by rewrite <- Hr. }
  change (expected_of (set_received ib2 _ _) ?f) with (expected_of ib2 f). rewrite He.
  destruct (Z.eqb_spec (dm_SequenceNumber m) (len ds)) as [E|Hne].
  - pose proof (mid_next _ _ _ _ _ Hh E Hlen) as Hm.
    edestruct (deliverBuffered_spec (S (size (buffer_of (set_expected (set_received ib2 (dm_From m)
      ({[dm_SequenceNumber m]} ∪ received_of ib2 (dm_From m))) (dm_From m) (len ds +u64 1))
      (dm_From m))))) as (ib' & ds' & -> & Hh' & Ho); [exact Hm| |lia|].
    { rewrite len_snoc. lia. }
    exists ib', (m :: ds'). split_and!.
    + done.
    + by rewrite (cons_middle m ds), (assoc_L (++)).
    + intros f Hf. etrans; [apply Hi|]. etrans; [|by apply Ho]. split_and!; [done|..].
      * change (received_of (set_expected ?ib _ _)) with (received_of ib).
        by rewrite received_of_set, decide_False.
      * by rewrite expected_of_set, decide_False.
  - assert (len ds < dm_SequenceNumber m).
    { destruct (decide (dm_SequenceNumber m < len ds)); [|lia].
      destruct (lookup_lt_is_Some_2 ds (Z.to_nat (dm_SequenceNumber m))) as [m' Hm'];
        [unfold len in *; lia|]. apply Hd in Hm'. rewrite Z2Nat.id in Hm' by lia. congruence. }
    destruct (Z.ltb_spec (len ds) (dm_SequenceNumber m)); [|lia].
    eexists _, []. rewrite app_nil_r. split_and!; [done|by apply mid_wait|].
    intros f Hf. etrans; [apply Hi|]. split_and!; [|  |done].
    + by rewrite buffer_of_set, decide_False.
    + change (received_of (set_buffer ?ib _ _)) with (received_of ib).
      by rewrite received_of_set, decide_False.
Qed.

(** ** A run *)

Definition by_peer (from : list Z) (l : list DirectMessage) : list DirectMessage :=
  filter (λ m, dm_From m = from) l.

Lemma by_peer_app from l l' : by_peer from (l ++ l') = by_peer from l ++ by_peer from l'.
Proof. apply filter_app. Qed.
Lemma by_peer_all from l : (∀ m, m ∈ l → dm_From m = from) → by_peer from l = l.
Proof.
  induction l as [|m l IH]; intros Hl; [done|]. unfold by_peer. rewrite filter_cons_True.
  - f_equal. apply IH. intros m' ?. apply Hl. by right.
  - apply Hl. by left.
Qed.
Lemma by_peer_none from from' l :
  (∀ m, m ∈ l → dm_From m = from') → from ≠ from' → by_peer from l = [].
Proof.
  induction l as [|m l IH]; intros Hl Hne; [done|]. unfold by_peer. rewrite filter_cons_False.
  - apply IH; [|done]. intros m' ?. apply Hl. by right.
  - rewrite (Hl m); [done|by left].
Qed.
Lemma len_by_peer from l : len (by_peer from l) ≤ len l.
Proof. unfold len, by_peer. pose proof (length_filter (λ m, dm_From m = from) l). lia. Qed.

Lemma holds_delivered ib from log ds ds' m :
  holds ib from (by_peer from log) (ds ++ ds') → m ∈ ds' → dm_From m = from.
Proof.
  intros [[_ _ Hd _] _] [i Hi]%list_elem_of_lookup_1.
  specialize (Hd (length ds + i)%nat m). rewrite lookup_app_r, Nat.add_comm, Nat.add_sub in Hd by lia.
  apply Hd, arrival_elem in Hi as [Hin _]. by apply list_elem_of_filter in Hin as [? _].
Qed.

Lemma handle_all_spec msgs : ∀ ib log ds,
  (∀ from, holds ib from (by_peer from log) (by_peer from ds)) →
  Forall (λ m, 0 ≤ dm_SequenceNumber m) msgs → len (log ++ msgs) < 2 ^ 64 →
  ∃ ib' all, handle_all ep clock ib msgs = Some (ib', all ≫= deliverMessage ep clock) ∧
    ∀ from, holds ib' from (by_peer from (log ++ msgs)) (by_peer from (ds ++ all)).
Proof.
  induction msgs as [|m msgs IH]; intros ib log ds Hh Hs Hlen.
  { exists ib, []. split; [done|]. intros from. by rewrite !app_nil_r. }
  apply Forall_cons in Hs as [Hm Hs]. cbn [handle_all].
  destruct (handle_spec ib m _ _ (Hh (dm_From m)) Hm) as (ib1 & ds1 & -> & H1 & Ho).
  { pose proof (len_by_peer (dm_From m) log). rewrite len_app in Hlen. unfold len in *. cbn in *. lia. }
  assert (by_peer (dm_From m) [m] = [m]) as Hme.
  { apply by_peer_all. by intros m' ->%list_elem_of_singleton. }
  rewrite <- Hme, <- by_peer_app in H1.
  pose proof (λ m', holds_delivered _ _ _ _ _ m' H1) as Hd1.
  destruct (IH ib1 (log ++ [m]) (ds ++ ds1)) as (ib' & all & Ha & Hr).
  - intros from. rewrite (by_peer_app _ ds). destruct (decide (from = dm_From m)) as [->|Hne].
    + by rewrite (by_peer_all _ ds1).
    + rewrite (by_peer_none _ _ ds1 Hd1 Hne), app_nil_r, by_peer_app.
      rewrite (by_peer_none from (dm_From m) [m]), app_nil_r by
        (done || by intros m' ->%list_elem_of_singleton).
      by apply (holds_same ib); [apply Ho|].
  - done.
  - by rewrite <- (assoc_L (++)).
  - cbn [mbind option_bind]. rewrite Ha. cbn. exists ib', (ds1 ++ all). split.
    + by rewrite bind_app.
    + intros from. specialize (Hr from). by rewrite <- !(assoc_L (++)) in Hr.
Qed.

Lemma holds_empty from : holds empty_inbox from [] [].
Proof.
  split; [constructor|done]; try done.
  - intros n. split; [by intros ?%elem_of_empty|by intros [? ?]].
  - intros n. by case_decide.
Qed.

Lemma handle_all_ordered msgs :
  Forall DirectMessage_wf msgs → len msgs < 2 ^ 64 →
  ∃ ib all, handle_all ep clock empty_inbox msgs = Some (ib, all ≫= deliverMessage ep clock) ∧
    ∀ from, in_order (by_peer from msgs) (by_peer from all).
Proof.
  intros Hwf Hlen. destruct (handle_all_spec msgs empty_inbox [] []) as (ib & all & Ha & Hr).
  - apply holds_empty.
  - eapply Forall_impl; [exact Hwf|]. by intros m (_ & _ & _ & [? _] & _).
  - done.
  - exists ib, all. split; [done|]. intros from. eapply holds_in_order, Hr.
Qed.

(** ** A numbered stream *)

(** a client sends one message after the other: time, content type, content *)
Fixpoint send_all (from to : list Z) (seqs : gmap (list Z) Z) (items : list (Z * Z * list Z))
  : list DirectMessage :=
  match items with
  | [] => []
  | (nowMs, contentType, content) :: items' =>
      let '(seqs, m) := new_message from to seqs nowMs contentType content in
      m :: send_all from to seqs items'
  end.

Lemma send_all_numbers from to items : ∀ seqs n i m,
  default 0 (seqs !! to) = n → 0 ≤ n → n + len items ≤ 2 ^ 64 →
  send_all from to seqs items !! i = Some m →
  dm_SequenceNumber m = n + Z.of_nat i ∧ dm_From m = from.
Proof.
  induction items as [|[[t ty] c] items IH]; intros seqs n i m Hn H0 Hb Hm; [done|].
  cbn in Hm. rewrite Hn in Hm. change (len ((t, ty, c) :: items)) with (Z.of_nat (S (length items))) in Hb.
  destruct i as [|i]; cbn in Hm.
  - injection Hm as <-. cbn. split; [lia|done].
  - assert (0 < length items)%nat as Hpos by (destruct items; [done|cbn; lia]).
    eapply (IH _ (n + 1)) in Hm as [-> ->]; [split; [lia|done]| |lia|unfold len; lia].
    rewrite lookup_insert_eq. cbn. apply u64_id. unfold in_range. lia.
Qed.

Lemma stream_numbers from to items i m :
  len items ≤ 2 ^ 64 → send_all from to ∅ items !! i = Some m →
  dm_SequenceNumber m = Z.of_nat i ∧ dm_From m = from.
Proof. intros Hb. apply (send_all_numbers from to items ∅ 0); [by rewrite lookup_empty|lia|lia]. Qed.

Lemma stream_arrival from to items log n m :
  len items ≤ 2 ^ 64 → (∀ m, m ∈ log → m ∈ send_all from to ∅ items) →
  arrival log n = Some m → send_all from to ∅ items !! Z.to_nat n = Some m ∧ 0 ≤ n.
Proof.
  intros Hb Hlog [Hin <-]%arrival_elem. apply Hlog, list_elem_of_lookup_1 in Hin as [i Hi].
  destruct (stream_numbers from to items i m) as [-> _]; [done|done|].
  split; [|lia]. by rewrite Nat2Z.id.
Qed.

(** the messages delivered from a numbered stream *)
Lemma stream_in_order from to items log ds :
  len items ≤ 2 ^ 64 → (∀ m, m ∈ log → m ∈ send_all from to ∅ items) → in_order log ds →
  ds = take (length ds) (send_all from to ∅ items) ∧ (∀ m, m ∈ ds → m ∈ log) ∧
  ∀ m, send_all from to ∅ items !! length ds = Some m → m ∉ log.
Proof.
  intros Hb Hlog [Hd Hn].
  assert (∀ i m, ds !! i = Some m → send_all from to ∅ items !! i = Some m) as Hs.
  { intros i m Hi%Hd%(stream_arrival from to items); [|done..].
    destruct Hi as [Hi _]. by rewrite Nat2Z.id in Hi. }
  split_and!.
  - apply list_eq. intros i. destruct (decide (i < length ds)%nat) as [Hi|Hi].
    + apply lookup_lt_is_Some_2 in Hi as [m Hm]. rewrite lookup_take_lt by (by eapply lookup_lt_Some).
      by rewrite Hm, (Hs _ _ Hm).
    + rewrite lookup_take_ge by lia. apply lookup_ge_None_2. lia.
  - intros m [i Hi]%list_elem_of_lookup_1. by apply Hd, arrival_elem in Hi as [? _].
  - intros m Hm Hin. apply (arrival_none _ _ Hn m Hin).
    by destruct (stream_numbers from to items _ m Hb Hm) as [-> _].
Qed.

(** ** Properties *)

(** C21: Direct messages of any number of peers, in any order and with any
    repetitions: handling them ends, and what is delivered (saved, acknowledged
    and handed to the application, in this order for each) is for every peer
    exactly the first arrivals of its numbers 0, 1, 2, ... up to the first
    number that has not arrived. *)
Theorem ordered_delivery (msgs : list DirectMessage) :
  Forall DirectMessage_wf msgs → len msgs < 2 ^ 64 →
  ∃ ib all, handle_all ep clock empty_inbox msgs = Some (ib, all ≫= deliverMessage ep clock) ∧
    ∀ from, in_order (by_peer from msgs) (by_peer from all).
Proof. apply handle_all_ordered. Qed.

(** C8: A client numbers the messages it sends to a peer; the network loses,
    repeats and reorders them and mixes in messages of others.  The peer
    delivers a prefix of the sender's messages, each once and in the order they
    were sent; the prefix ends only before a message that has not arrived. *)
Theorem stream_delivered_in_order (sender receiver : list Z) (items : list (Z * Z * list Z))
    (msgs : list DirectMessage) :
  len items ≤ 2 ^ 64 → Forall DirectMessage_wf msgs → len msgs < 2 ^ 64 →
  (∀ m, m ∈ msgs → dm_From m = sender → m ∈ send_all sender receiver ∅ items) →
  ∃ ib all k, handle_all ep clock empty_inbox msgs = Some (ib, all ≫= deliverMessage ep clock) ∧
    by_peer sender all = take k (send_all sender receiver ∅ items) ∧
    (∀ m, m ∈ by_peer sender all → m ∈ msgs) ∧
    ∀ m, send_all sender receiver ∅ items !! k = Some m → m ∉ msgs.
Proof.
  intros Hb Hwf Hlen Hsub. destruct (handle_all_ordered msgs Hwf Hlen) as (ib & all & Ha & Ho).
  destruct (stream_in_order sender receiver items (by_peer sender msgs) (by_peer sender all))
    as (E & Hin & Hk); [done| |done|].
  { intros m [Hm1 Hm2]%list_elem_of_filter. auto. }
  exists ib, all, (length (by_peer sender all)). split_and!; [done..| |].
  - intros m Hm. by apply Hin, list_elem_of_filter in Hm as [_ ?].
  - intros m Hm Hmsg. apply (Hk m Hm), list_elem_of_filter. split; [|done].
    by destruct (stream_numbers sender receiver items _ m Hb Hm).
Qed.

End ordering.

(** ** Which handler a payload reaches *)

(** the bytes a message was decoded from *)
Lemma direct_consumes :
  consumes DirectMessage_rd (λ m l, ∃ rest, l = dm_From m ++ dm_To m ++ rest ∧
    len (dm_From m) = 20 ∧ len (dm_To m) = 20 ∧ 41 ≤ len rest).
Proof.
  unfold DirectMessage_rd. prefix_steps. apply consumes_ret.
  eexists. split_and!; [done..|]. rewrite !len_app, !len_be_put. unfold len in *. cbn. lia.
Qed.
Lemma group_consumes : consumes GroupMessage_rd (λ m l, 69 ≤ len l).
Proof.
  unfold GroupMessage_rd. prefix_steps. apply consumes_ret.
  rewrite !len_app, !len_be_put. unfold len in *. cbn. lia.
Qed.
Lemma profile_consumes : consumes ProfileUpdate_rd (λ m l, 364 ≤ len l).
Proof.
  unfold ProfileUpdate_rd. prefix_steps. apply consumes_ret.
  rewrite !len_app, !len_be_put. unfold len in *. cbn. lia.
Qed.

Lemma attempt_none {A} (m : rd A) (R : A → list Z → Prop) l :
  bytes l → consumes m R → (∀ a k, ¬ R a (take k l)) → attempt (rd_run m (mk_slice l)) = None.
Proof.
  intros Hb Hc HR. destruct (rd_run m (mk_slice l)) as [a| |] eqn:E; [|done..].
  destruct (consumes_run m R l a E Hb Hc) as [k Hk]. by destruct (HR a k).
Qed.

Lemma attempt_direct l (addr : list Z) :
  bytes l → take 20 (drop 20 l) ≠ addr ∨ len l < 81 →
  attempt (directMsg ← DirectMessage_Decode (mk_slice l);
           if bool_decide (dm_To directMsg = addr) then Ok directMsg else Err "") = None.
Proof.
  intros Hb Hl. destruct (DirectMessage_Decode (mk_slice l)) as [m| |] eqn:E; [|done..].
  destruct (consumes_run _ _ l m E Hb direct_consumes) as (k & rest & Hk & H1 & H2 & H3).
  cbn [mbind outcome_bind].
  assert (len (take k l) = 40 + len rest) as Hlen by (rewrite Hk, !len_app; lia).
  assert (len (take k l) ≤ len l) as Hle by (unfold len; rewrite length_take; lia).
  rewrite bool_decide_false; [done|]. intros <-. destruct Hl as [Hl|?]; [|lia]. apply Hl.
  rewrite <- (take_drop k l), Hk.
  assert (length (dm_From m) = 20%nat ∧ length (dm_To m) = 20%nat) as [Hf Ht] by (unfold len in *; lia).
  rewrite <- !(assoc_L (++)), <- Hf, drop_app_length. rewrite Hf, <- Ht. by rewrite take_app_length.
Qed.

Lemma bytes_cons b l : is_byte b → bytes l → bytes (b :: l).
Proof. by constructor. Qed.

Lemma attempt_short l :
  bytes l → len l < 69 →
  attempt (GroupMessage_Decode (mk_slice l)) = None ∧ attempt (ProfileUpdate_Decode (mk_slice l)) = None.
Proof.
  intros Hb Hl.
  assert (∀ k, len (take k l) ≤ len l) by (intros k; unfold len; rewrite length_take; lia).
  split; [eapply attempt_none; [done|apply group_consumes|]|
          eapply attempt_none; [done|apply profile_consumes|]]; intros _ k Hk; specialize (H k); lia.
Qed.

Lemma typing_layout_bytes t : Typing_wf t → bytes (Typing_layout t) ∧ len (Typing_layout t) = 50.
Proof.
  intros ([L1 ?] & [L2 ?] & ?). unfold Typing_layout. split.
  - rewrite !bytes_app. split_and!; try done; [by constructor|apply bytes_be_put|].
    by destruct (ti_IsTyping t); constructor.
  - unfold len. rewrite !length_app, length_be_put, L1, L2. done.
Qed.
Lemma receipt_layout_bytes r : ReadReceipt_wf r → bytes (ReadReceipt_layout r) ∧ len (ReadReceipt_layout r) = 66.
Proof.
  intros ([L1 ?] & [L2 ?] & [L3 ?] & ? & ?). unfold ReadReceipt_layout. split.
  - rewrite !bytes_app. split_and!; try done; [by constructor|apply bytes_be_put|by constructor].
  - unfold len. rewrite !length_app, length_be_put, L1, L2, L3. done.
Qed.
Lemma group_layout_bytes g : GroupMessage_wf g → bytes (GroupMessage_layout g).
Proof.
  intros ([L1 ?] & [L2 ?] & ? & ? & [? ?] & [? ?]). unfold GroupMessage_layout.
  rewrite !bytes_app. split_and!; try done; try apply bytes_be_put. by constructor.
Qed.

(** a whole message, in a buffer of its own *)
Lemma decode_own `{Wire M} (m : M) : wire_wf m → wire_decode (mk_slice (wire_layout m)) = Ok m.
Proof. intros Hm. pose proof (wire_decode_layout m [] [] Hm) as E. by rewrite app_nil_r in E. Qed.

Section dispatch.
Context (ep : Endpoint) (clock : DirectMessage → Z * list Z).

Lemma dispatch_direct ib m :
  DirectMessage_wf m → dm_To m = ep_Address ep →
  dispatch ep clock ib (mk_slice (DirectMessage_layout m)) = handleOrderedMessage ep clock ib m.
Proof.
  intros Hm Hto. unfold dispatch. change (DirectMessage_Decode ?s) with (wire_decode (M:=DirectMessage) s).
  change (DirectMessage_layout m) with (wire_layout m). rewrite decode_own by done.
  cbn [mbind outcome_bind]. by rewrite bool_decide_true.
Qed.

Lemma dispatch_group ib g :
  GroupMessage_wf g → take 20 (gm_GroupID g) ≠ ep_Address ep →
  dispatch ep clock ib (mk_slice (GroupMessage_layout g))
  = Some (ib, when (ep_OnGroupMessageReceived ep) [OnGroupMessageReceived g]).
Proof.
  intros Hg Hto. pose proof Hg as ([L1 _] & [L2 _] & _). unfold dispatch. rewrite attempt_direct.
  - change (GroupMessage_Decode ?s) with (wire_decode (M:=GroupMessage) s).
    change (GroupMessage_layout g) with (wire_layout g). by rewrite decode_own.
  - by apply group_layout_bytes.
  - left. unfold GroupMessage_layout. rewrite drop_app_length' by done.
    by rewrite take_app_le by lia.
Qed.

Lemma dispatch_typing ib t :
  Typing_wf t → ti_To t = ep_Address ep →
  dispatch ep clock ib (mk_slice (Typing_layout t))
  = Some (ib, when (ep_OnTypingIndicator ep) [OnTypingIndicator t]).
Proof.
  intros Ht Hto. destruct (typing_layout_bytes t Ht) as [Hb Hl]. unfold dispatch.
  rewrite attempt_direct by (done || right; lia).
  destruct (attempt_short (Typing_layout t)) as [-> ->]; [done|lia|].
  change (Typing_Decode ?s) with (wire_decode (M:=TypingIndicator) s).
  change (Typing_layout t) with (wire_layout t). rewrite decode_own by done.
  cbn [mbind outcome_bind]. by rewrite bool_decide_true.
Qed.

Lemma dispatch_receipt ib r :
  ReadReceipt_wf r → rr_To r = ep_Address ep →
  dispatch ep clock ib (mk_slice (ReadReceipt_layout r)) = Some (ib, handleReceipt ep r).
Proof.
  intros Hr Hto. destruct (receipt_layout_bytes r Hr) as [Hb Hl]. unfold dispatch.
  rewrite attempt_direct by (done || right; lia).
  destruct (attempt_short (ReadReceipt_layout r)) as [-> ->]; [done|lia|].
  assert (Typing_Decode (mk_slice (ReadReceipt_layout r))
          = Err "invalid message type for typing indicator") as ->.
  { unfold Typing_Decode. rewrite rd_run_need, bool_decide_false; [done|].
    unfold slen. cbn [sdata mk_slice]. lia. }
  cbn [mbind outcome_bind attempt].
  change (ReadReceipt_Decode ?s) with (wire_decode (M:=ReadReceipt) s).
  change (ReadReceipt_layout r) with (wire_layout r). rewrite decode_own by done.
  cbn [mbind outcome_bind]. by rewrite bool_decide_true.
Qed.

(** The decoders are tried in a fixed order on a payload that does not say what
    it is.  Still, a direct message, typing indicator or read receipt addressed
    to the client reaches its handler, and so does a group message unless its
    group identifier begins with the client's address. *)
Theorem dispatch_kinds (ib : Inbox) :
  (∀ m, DirectMessage_wf m → dm_To m = ep_Address ep → ∃ b, DirectMessage_Encode m = Ok b ∧
     dispatch ep clock ib (mk_slice b) = handleOrderedMessage ep clock ib m) ∧
  (∀ g, GroupMessage_wf g → take 20 (gm_GroupID g) ≠ ep_Address ep → ∃ b, GroupMessage_Encode g = Ok b ∧
     dispatch ep clock ib (mk_slice b)
     = Some (ib, when (ep_OnGroupMessageReceived ep) [OnGroupMessageReceived g])) ∧
  (∀ t, Typing_wf t → ti_To t = ep_Address ep → ∃ b, Typing_Encode t = Ok b ∧
     dispatch ep clock ib (mk_slice b)
     = Some (ib, when (ep_OnTypingIndicator ep) [OnTypingIndicator t])) ∧
  (∀ r, ReadReceipt_wf r → rr_To r = ep_Address ep → ∃ b, ReadReceipt_Encode r = Ok b ∧
     dispatch ep clock ib (mk_slice b) = Some (ib, handleReceipt ep r)).
Proof.
  split_and!; intros x Hx Hto; eexists.
  - split; [exact (@wire_encode_layout _ DirectMessage_wire x Hx)|by apply dispatch_direct].
  - split; [exact (@wire_encode_layout _ GroupMessage_wire x Hx)|by apply dispatch_group].
  - split; [exact (@wire_encode_layout _ Typing_wire x Hx)|by apply dispatch_typing].
  - split; [exact (@wire_encode_layout _ ReadReceipt_wire x Hx)|by apply dispatch_receipt].
Qed.

(** *** Profiles *)

(** the group message the decoder sees in a profile without avatar *)
Definition profile_as_group (p : ProfileUpdate) : GroupMessage :=
  mkGroupMessage (pu_Address p) (pu_Username p) (pu_AvatarChunkID p) 0 [] [].

Lemma profile_layout_group p :
  pu_AvatarKey p = replicate 32 0 →
  ∃ rest, ProfileUpdate_layout p = GroupMessage_layout (profile_as_group p) ++ rest.
Proof.
  intros Hk. unfold ProfileUpdate_layout, GroupMessage_layout. cbn -[be_put replicate app]. rewrite Hk.
  eexists (replicate 23 0 ++ _). rewrite <- !(assoc_L (++)). do 3 f_equal.
Qed.

Lemma profile_layout_bytes p :
  ProfileUpdate_wf p →
  bytes (ProfileUpdate_layout p) ∧ take 20 (drop 20 (ProfileUpdate_layout p)) = take 20 (pu_Username p).
Proof.
  intros ([L1 ?] & [L2 ?] & ? & [L3 ?] & [? ?] & [? ?] & ? & [? ?]). unfold ProfileUpdate_layout. split.
  - rewrite !bytes_app. split_and!; try done; apply bytes_be_put.
  - rewrite drop_app_length' by done. by rewrite take_app_le by lia.
Qed.

(** A profile of a user without avatar (an all-zero avatar key) is taken for a
    group message whose group is the user name, so that the profile handler
    is not called. *)
Theorem profile_without_avatar (ib : Inbox) (p : ProfileUpdate) :
  ProfileUpdate_wf p → pu_AvatarKey p = replicate 32 0 → take 20 (pu_Username p) ≠ ep_Address ep →
  ∃ b, ProfileUpdate_Encode p = Ok b ∧
    dispatch ep clock ib (mk_slice b)
    = Some (ib, when (ep_OnGroupMessageReceived ep) [OnGroupMessageReceived (profile_as_group p)]).
Proof.
  intros Hp Hk Hto. exists (ProfileUpdate_layout p).
  split; [exact (@wire_encode_layout _ ProfileUpdate_wire p Hp)|].
  destruct (profile_layout_bytes p Hp) as [Hb Hu]. unfold dispatch.
  rewrite attempt_direct by (done || (left; by rewrite Hu)).
  destruct (profile_layout_group p Hk) as [rest ->].
  pose proof (@wire_decode_layout _ GroupMessage_wire (profile_as_group p) rest []) as Hd.
  unfold mk_slice. cbn [wire_decode wire_layout GroupMessage_wire] in Hd. rewrite Hd; [done|].
  destruct Hp as (? & ? & ? & _). do 3 (split; [done|]). split; [done|].
  split; by apply (bool_decide_unpack (blob [])).
Qed.

End dispatch.

(** ** Witnesses *)

Module InboxSample.
Definition addr (n : Z) : list Z := replicate 20 n.
Definition ep : Endpoint := mkEndpoint (addr 9) true true true true true true true.
Definition clock (m : DirectMessage) : Z * list Z := (1000, replicate 16 7).
Definition msg (from n : Z) : DirectMessage :=
  mkDirectMessage (addr from) (addr 9) 5 n 0 (replicate 16 0) [from; n] [].
(** two peers, out of order, with repetitions; number 3 of the first is missing *)
Definition arrivals : list DirectMessage :=
  [msg 1 2; msg 2 0; msg 1 0; msg 1 0; msg 1 4; msg 1 1; msg 2 1; msg 1 2].
Definition items : list (Z * Z * list Z) := [(5, 0, [1; 0]); (5, 0, [1; 1]); (5, 0, [1; 2]); (5, 0, [1; 3]); (5, 0, [1; 4])].
Definition profile : ProfileUpdate :=
  mkProfileUpdate (addr 1) (replicate 32 65) 0 (replicate 32 0) (replicate 256 0) [1; 2; 3] 77 [4; 5].
End InboxSample.

Lemma ordered_delivery_witness :
  ∃ ib all, handle_all InboxSample.ep InboxSample.clock empty_inbox InboxSample.arrivals
      = Some (ib, all ≫= deliverMessage InboxSample.ep InboxSample.clock) ∧
    ∀ from, in_order (by_peer from InboxSample.arrivals) (by_peer from all).
Proof.
  apply ordered_delivery.
  - by apply (bool_decide_eq_true_1 (Forall DirectMessage_wf _)); vm_compute.
  - done.
Defined.

(** ... which are messages 0, 1, 2 of the first peer and 0, 1 of the second *)
Example ordered_delivery_sample :
  from_option (λ r, omap (λ e, match e with OnMessageReceived m => Some (dm_Content m) | _ => None end) r.2) []
    (handle_all InboxSample.ep InboxSample.clock empty_inbox InboxSample.arrivals)
  = [[2; 0]; [1; 0]; [1; 1]; [1; 2]; [2; 1]].
Proof. by vm_compute. Qed.

Lemma stream_delivered_in_order_witness :
  let stream := send_all (InboxSample.addr 1) (InboxSample.addr 9) ∅ InboxSample.items in
  ∃ ib all k, handle_all InboxSample.ep InboxSample.clock empty_inbox InboxSample.arrivals
      = Some (ib, all ≫= deliverMessage InboxSample.ep InboxSample.clock) ∧
    by_peer (InboxSample.addr 1) all = take k stream ∧
    (∀ m, m ∈ by_peer (InboxSample.addr 1) all → m ∈ InboxSample.arrivals) ∧
    ∀ m, stream !! k = Some m → m ∉ InboxSample.arrivals.
Proof.
  apply stream_delivered_in_order.
  - done.
  - by apply (bool_decide_eq_true_1 (Forall DirectMessage_wf _)); vm_compute.
  - done.
  - intros m Hm Hf. repeat (apply elem_of_cons in Hm as [->|Hm]; [try done; vm_compute; set_solver|]).
    by apply not_elem_of_nil in Hm.
Defined.

Lemma profile_without_avatar_witness :
  ∃ b, ProfileUpdate_Encode InboxSample.profile = Ok b ∧
    dispatch InboxSample.ep InboxSample.clock empty_inbox (mk_slice b)
    = Some (empty_inbox, [OnGroupMessageReceived (profile_as_group InboxSample.profile)]).
Proof.
  apply (profile_without_avatar InboxSample.ep InboxSample.clock empty_inbox InboxSample.profile).
  - by apply (bool_decide_eq_true_1 (ProfileUpdate_wf _)); vm_compute.
  - done.
  - done.
Defined.

(** a profile request carries sequence number 0, like the first message: one of
    the two is discarded *)
Example profile_request_displaces_message :
  from_option (λ r, omap (λ e, match e with OnMessageReceived m => Some (dm_Content m) | _ => None end) r.2) []
    (handle_all InboxSample.ep InboxSample.clock empty_inbox
       [mkDirectMessage (InboxSample.addr 1) (InboxSample.addr 9) 5 0 0 (replicate 16 0)
          (string_bytes "PROFILE_REQUEST") []; InboxSample.msg 1 0])
  = [string_bytes "PROFILE_REQUEST"].
Proof. by vm_compute. Qed.
