(* ===== verification/Messaging.v ===== *)
(** * A client's direct messages: pkg/network/message_sender.go and
    handleDirectMessage of message_handler.go

    The two ends of the path of an ordinary message.  The receiver does not
    know what a payload is and tries, in this order: RSA, an X3DH initial
    message, every ratchet session, hybrid encryption, and the decoders. *)

From S2P Require Import Prelude GoBytes NodeID Wire WireGroups Ratchet Ed25519 X3DH Aes DhtStore Onion Session Inbox.

Section messaging.
Context `{RatchetOps} `{Ed25519} `{AesGcm} `{Rsa} `{Blake2b} `{Json OnionLayer}.

(** ** Sending *)

(** the random values of one [SendMessage]: time, OAEP bytes, onion layers, message identifier *)
Record send_random := mkSendRandom {
  sr_nowMs : Z; sr_oaep : list Z; sr_layers : nat → layer_random; sr_id : list Z }.

(** The common end of the sending functions: [BuildOnionLayers], a
    [MsgTypeRelayForward] header, and the two writes.  [conn]: what writing to
    the relay connection returned.  The result is the bytes written. *)
Definition send_onion (relayPath : list RelayInfo) (to payload : list Z) (r : send_random)
  (conn : outcome unit) : outcome (list Z) :=
  onion ← BuildOnionLayers relayPath to payload (sr_layers r);
  header ← WriteHeader (mkHeader ProtocolMagic ProtocolVersion MsgTypeRelayForward
             (u32 (len onion)) FlagEncrypted (sr_id r) 0) [];
  _ ← conn;
  Ok (header ++ onion).

(** the whole of SendRatchetMessage; [r1] and [conn1] are those of the X3DH
    initial message, if one is sent *)
Definition SendRatchetMessage (c : Client) (to : list Z) (recipientKeyBundle : option KeyBundle)
  (plaintext : list Z) (relayPath : list RelayInfo) (eph nonce : option (list Z))
  (r1 r : send_random) (conn1 conn : outcome unit) : Client * outcome (list Z) :=
  let '(c, sent) := ratchet_message c to recipientKeyBundle plaintext eph nonce
    (λ payload, _ ← send_onion relayPath to payload r1 conn1; Ok tt) in
  (c, payload ← sent; send_onion relayPath to payload r conn).

(** The result is the bytes written and the effect on the database. *)
Definition SendMessage (ep : Endpoint) (seqs : gmap (list Z) Z) (to : list Z)
  (recipientPubKey : PublicKey) (content : list Z) (contentType : Z) (relayPath : list RelayInfo)
  (r : send_random) (conn : outcome unit) : gmap (list Z) Z * outcome (list Z * list effect) :=
  if negb (ep_connected ep) then (seqs, Err "not connected")
  else
    let '(seqs, msg) := new_message (ep_Address ep) to seqs (sr_nowMs r) contentType content in
    (seqs,
     msgPayload ← DirectMessage_Encode msg;
     encryptedMsg ← RSAEncrypt msgPayload recipientPubKey (sr_oaep r);
     written ← send_onion relayPath to encryptedMsg r conn;
     Ok (written,
         when (ep_messageDB ep)
           [SaveMessage (mkStoredMessage 0
              (GetConversationID (hex_encode (ep_Address ep)) (hex_encode to))
              (hex_encode (sr_id r)) (hex_encode (ep_Address ep)) (hex_encode to) content contentType
              (s64 (dm_Timestamp msg)) "sent" true 0 [] [])])).

(** *** Media *)

(** [byte(chunkID >> 56)], ..., then the key; the content of a media message *)
Definition media_content (chunkID : Z) (encryptionKey : list Z) : list Z :=
  [u8 (Z.shiftr chunkID 56); u8 (Z.shiftr chunkID 48); u8 (Z.shiftr chunkID 40); u8 (Z.shiftr chunkID 32);
   u8 (Z.shiftr chunkID 24); u8 (Z.shiftr chunkID 16); u8 (Z.shiftr chunkID 8); u8 chunkID] ++
  take 32 (encryptionKey ++ replicate 32 0).

(** [uploaded]: what the storage client's [UploadEncrypted] returned *)
Definition SendMediaMessage (ep : Endpoint) (seqs : gmap (list Z) Z) (to : list Z)
  (recipientPubKey : PublicKey) (mediaType : Z) (uploaded : outcome (Z * list Z))
  (relayPath : list RelayInfo) (r : send_random) (conn : outcome unit)
  : gmap (list Z) Z * outcome (Z * list Z * (list Z * list effect)) :=
  if negb (ep_connected ep) then (seqs, Err "not connected")
  else
    match uploaded with
    | Err e => (seqs, Err e)
    | Panic => (seqs, Panic)
    | Ok (chunkID, encryptionKey) =>
        let '(seqs, sent) := SendMessage ep seqs to recipientPubKey
          (media_content chunkID encryptionKey) mediaType relayPath r conn in
        (seqs, s ← sent; Ok (chunkID, encryptionKey, s))
    end.

Definition ParseMediaMessage (content : list Z) : outcome (Z * list Z) :=
  if len content <? 40 then Err "invalid media message: too short (expected 40 bytes minimum)"
  else
    let b i := default 0 (content !! i) in
    Ok (Z.lor (Z.lor (Z.lor (Z.lor (Z.lor (Z.lor (Z.lor
          (u64 (Z.shiftl (b 0%nat) 56)) (u64 (Z.shiftl (b 1%nat) 48))) (u64 (Z.shiftl (b 2%nat) 40)))
          (u64 (Z.shiftl (b 3%nat) 32))) (u64 (Z.shiftl (b 4%nat) 24))) (u64 (Z.shiftl (b 5%nat) 16)))
          (u64 (Z.shiftl (b 6%nat) 8))) (b 7%nat),
        take 32 (drop 8 content)).

(** ** Receiving *)

(** a Go byte slice that may be nil; [gcm.Open] returns nil for an empty plaintext *)
Definition non_nil (l : list Z) : option (list Z) := match l with [] => None | _ => Some l end.

(** the fourth stage: [key length:2][RSA-encrypted AES key][AES-encrypted data] *)
Definition hybrid_decrypt (decrypted : slice) (privateKey : PrivateKey) : outcome (option (list Z)) :=
  if slen decrypted <=? 2 then Ok None
  else
    let b i := default 0 (sdata decrypted !! i) in
    let keyLen := Z.lor (u16 (Z.shiftl (b 0%nat) 8)) (b 1%nat) in
    if (0 <? keyLen) && (keyLen <? 1024) && ((2 +u16 keyLen) <? slen decrypted) then
      encryptedKey ← reslice decrypted 2 (2 +u16 keyLen);
      encryptedData ← reslice decrypted (2 +u16 keyLen) (slen decrypted);
      match RSADecrypt (sdata encryptedKey) privateKey with
      | Ok aesKey =>
          match AESDecrypt (sdata encryptedData) aesKey with
          | Ok profileData => Ok (non_nil profileData)
          | Err _ => Ok None
          | Panic => Panic
          end
      | Err _ => Ok None
      | Panic => Panic
      end
    else Ok None.

(** The state is the client's sessions and its inbox.  A panic is caught by the
    handler's [recover]; what it had changed stays changed.  [rnd] and [range]
    are as in [handle_ratchet]; [None]: the delivery loop ran out of fuel. *)
Definition handleDirectMessage (ep : Endpoint) (clock : DirectMessage → Z * list Z)
  (privateKey : PrivateKey) (c : Client) (ib : Inbox) (payload : list Z)
  (rnd : list Z → option (list Z)) (range : list (list Z)) : option (Client * Inbox * list effect) :=
  let decrypted :=
    mk_slice (match RSADecrypt payload privateKey with Ok d => d | _ => payload end) in
  if is_x3dh decrypted then Some ((handle_initial c decrypted).1, ib, [])
  else
    let '(c, r) := handle_ratchet c decrypted rnd range in
    match (plain ← r;
           match plain ≫= non_nil with
           | Some pt => Ok (Some pt)
           | None => hybrid_decrypt decrypted privateKey
           end) with
    | Ok finalPlaintext =>
        '(ib, effs) ← dispatch ep clock ib
                        (from_option mk_slice decrypted finalPlaintext);
        Some (c, ib, effs)
    | _ => Some (c, ib, [])
    end.

End messaging.
