(* ===== verification/MessagingProofs.v ===== *)
(** * Theorems on direct messages from end to end *)

From S2P Require Import Prelude GoBytes NodeID Wire WireGroups Ratchet Ed25519 X3DH Aes DhtStore Onion Session Inbox Messaging DhtSample OnionProofs InboxProofs RatchetProofs.

Section messaging_proofs.
Context `{RatchetOps} `{Ed25519} `{AesGcmLaws} `{RsaLaws} `{Blake2bLaws} `{Json OnionLayer}.
Context {json_laws : JsonLaws OnionLayer OnionLayer_typed OnionLayer_typed}.

(** an address that does not look like the start of another kind of payload *)
Definition plain_address (addr : list Z) : Prop :=
  array 20 addr ∧ 4 ≤ default 0 (addr !! 0%nat) ∧ take 4 addr ≠ x3dh_magic.

Lemma new_message_wf from to seqs nowMs ct content :
  array 20 from → array 20 to → in_range 64 (default 0 (seqs !! to)) → is_byte ct → bytes content →
  len content ≤ 365 → DirectMessage_wf (new_message from to seqs nowMs ct content).2.
Proof.
  intros Hf Ht Hs Hc Hb Hl. pose proof (len_nonneg content).
  split; [done|]. split; [done|]. split; [apply Z.mod_pos_bound; lia|]. do 2 (split; [done|]).
  split; [by apply (bool_decide_unpack (array 16 (replicate 16 0)))|].
  split; [|by apply (bool_decide_unpack (blob []))]. split; [done|]. unfold in_range. cbn. lia.
Qed.

Lemma direct_layout_length m :
  DirectMessage_wf m → len (DirectMessage_layout m) = 81 + len (dm_Content m) + len (dm_Signature m).
Proof.
  intros ([L1 _] & [L2 _] & _ & _ & _ & [L3 _] & _). unfold DirectMessage_layout, len.
  rewrite !length_app, !length_be_put, L1, L2, L3. cbn [length]. lia.
Qed.

Lemma direct_layout_bytes m : DirectMessage_wf m → bytes (DirectMessage_layout m).
Proof.
  intros ([_ ?] & [_ ?] & _ & _ & ? & [_ ?] & [? _] & [? _]). unfold DirectMessage_layout.
  rewrite !bytes_app. split_and!; try done; try apply bytes_be_put. by constructor.
Qed.

(** a payload whose first two bytes cannot be the length of a ratchet header or
    of an encrypted key goes to the decoders as it is *)
Lemma handle_unsealed ep clock key c ib payload d b0 b1 rest rnd range :
  RSADecrypt payload key = Ok d → d = b0 :: b1 :: rest → is_byte b0 → is_byte b1 → 2 < len d →
  200 < 256 * b0 + b1 → 1024 ≤ 256 * b0 + b1 ∨ len d ≤ 2 + (256 * b0 + b1) → take 4 d ≠ x3dh_magic →
  handleDirectMessage ep clock key c ib payload rnd range
  = ('(ib', effs) ← dispatch ep clock ib (mk_slice d); Some (c, ib', effs)).
Proof.
  intros Hd Ed Hb0 Hb1 Hl Hr Hh Hx. unfold handleDirectMessage. rewrite Hd.
  assert (is_x3dh (mk_slice d) = false) as ->.
  { unfold is_x3dh. cbn [sdata mk_slice]. by rewrite bool_decide_false, andb_false_r. }
  assert (slen (mk_slice d) = len d) as Hs by done. subst d.
  unfold handle_ratchet, split_payload, hybrid_decrypt. rewrite Hs.
  destruct (Z.leb_spec (len (b0 :: b1 :: rest)) 2); [lia|].
  destruct (Z.ltb_spec (len (b0 :: b1 :: rest)) 2); [lia|].
  change (default 0 (sdata (mk_slice (b0 :: b1 :: rest)) !! 0%nat)) with b0.
  change (default 0 (sdata (mk_slice (b0 :: b1 :: rest)) !! 1%nat)) with b1.
  rewrite key_length by done. unfold is_byte in *.
  destruct (Z.ltb_spec 200 (256 * b0 + b1)); [|lia]. rewrite orb_true_r. cbn [orb mbind outcome_bind option_bind].
  destruct (Z.ltb_spec (256 * b0 + b1) 1024) as [Hlt|]; [|by rewrite andb_false_r].
  assert (2 +u16 (256 * b0 + b1) = 2 + (256 * b0 + b1)) as E by (apply Z.mod_small; lia). rewrite E.
  destruct (Z.ltb_spec (2 + (256 * b0 + b1)) (len (b0 :: b1 :: rest))); [lia|]. by rewrite andb_false_r.
Qed.

(** in particular one that begins with such an address *)
Lemma handle_plain ep clock key c ib payload d rnd range :
  RSADecrypt payload key = Ok d → bytes d → 20 ≤ len d → plain_address (take 20 d) →
  handleDirectMessage ep clock key c ib payload rnd range
  = ('(ib', effs) ← dispatch ep clock ib (mk_slice d); Some (c, ib', effs)).
Proof.
  intros Hd Hb Hl (_ & Hfirst & Hx).
  destruct d as [|b0 [|b1 d]]; [unfold len in Hl; cbn in Hl; lia..|].
  apply Forall_cons in Hb as [Hb0 Hb]. apply Forall_cons in Hb as [Hb1 _]. cbn in Hfirst. unfold is_byte in *.
  eapply handle_unsealed; try done; [lia|lia|lia|].
  intros E. apply Hx. by rewrite take_take.
Qed.

Lemma send_succeeds ep seqs to key content ct path r :
  ep_connected ep = true → array 20 (ep_Address ep) → array 20 to → bytes content →
  len content ≤ 365 → is_byte ct → in_range 64 (default 0 (seqs !! to)) → path ≠ [] →
  Forall (λ p, array 20 p.1) path → (∀ i, layer_random_ok (sr_layers r i)) → array 16 (sr_id r) →
  let '(seqs', msg) := new_message (ep_Address ep) to seqs (sr_nowMs r) ct content in
  ∃ header onion sealed effs,
    SendMessage ep seqs to (rsa_public key) content ct (relays path) r (Ok tt)
      = (seqs', Ok (header ++ onion, effs)) ∧
    length header = 32%nat ∧ peel path.*2 onion = Ok (next_hops path to, sealed) ∧
    RSADecrypt sealed key = Ok (DirectMessage_layout msg).
Proof.
  intros Hc Ha Hto Hb Hl Hct Hseq Hpath Hp Hr Hid.
  pose proof (new_message_wf (ep_Address ep) to seqs (sr_nowMs r) ct content Ha Hto Hseq Hct Hb Hl) as Hwf.
  destruct (new_message (ep_Address ep) to seqs (sr_nowMs r) ct content) as [seqs' msg] eqn:En.
  assert (dm_Content msg = content ∧ dm_Signature msg = []) as [Hcontent Hsig]
    by (unfold new_message in En; by simplify_eq/=).
  cbn [snd] in Hwf. pose proof (direct_layout_length msg Hwf) as Hlen. rewrite Hcontent, Hsig in Hlen.
  pose proof (direct_layout_bytes msg Hwf) as Hlb.
  destruct (oaep_total (rsa_public key) (DirectMessage_layout msg) (sr_oaep r) Hlb) as (sealed & Hs & [_ Hsb]).
  { rewrite Hlen, len_nil. lia. }
  destruct (build_layers_peel path to sealed (sr_layers r) 0 Hr Hp Hto Hsb) as (onion & Ho & _ & Hpeel).
  set (h := mkHeader ProtocolMagic ProtocolVersion MsgTypeRelayForward (u32 (len onion)) FlagEncrypted (sr_id r) 0).
  assert (Header_wf h) as Hh.
  { do 3 (split; [by apply (bool_decide_unpack (in_range _ _))|]). split; [apply u32_range|].
    split; [by apply (bool_decide_unpack (in_range _ _))|]. split; [done|].
    by apply (bool_decide_unpack (in_range _ _)). }
  eexists (Header_layout h), onion, sealed, _. split_and!; [|by apply length_Header_layout|done|].
  - unfold SendMessage. rewrite Hc. cbn [negb]. rewrite En.
    change (DirectMessage_Encode msg) with (@wire_encode _ DirectMessage_wire msg).
    rewrite (@wire_encode_layout _ DirectMessage_wire msg Hwf). cbn [mbind outcome_bind].
    unfold RSAEncrypt. cbn [wire_layout DirectMessage_wire]. rewrite Hs. cbn [mbind outcome_bind].
    unfold send_onion.
    assert (BuildOnionLayers (relays path) to sealed (sr_layers r) = Ok onion) as -> by (by destruct path).
    cbn [mbind outcome_bind]. unfold WriteHeader. fold h. rewrite Header_Encode_layout by done. done.
  - unfold RSADecrypt. by rewrite (oaep_correct _ _ _ _ Hs).
Qed.

Lemma media_content_layout chunkID key :
  length key = 32%nat → media_content chunkID key = be_put 8 chunkID ++ key.
Proof.
  intros Hk. unfold media_content. rewrite take_app_length' by done. f_equal.
Qed.

Lemma u64_shift b k : is_byte b → 0 ≤ k ≤ 56 → u64 (Z.shiftl b k) = Z.shiftl b k.
Proof.
  intros Hb Hk. apply u64_id. rewrite Z.shiftl_mul_pow2 by lia. unfold in_range, is_byte in *.
  assert (0 < 2 ^ k) by lia. assert (2 ^ k ≤ 2 ^ 56) by (apply Z.pow_le_mono_r; lia). nia.
Qed.

Lemma chunk_id_bytes l :
  bytes l → length l = 8%nat → let b i := default 0 (l !! i) in
  Z.lor (Z.lor (Z.lor (Z.lor (Z.lor (Z.lor (Z.lor
    (u64 (Z.shiftl (b 0%nat) 56)) (u64 (Z.shiftl (b 1%nat) 48))) (u64 (Z.shiftl (b 2%nat) 40)))
    (u64 (Z.shiftl (b 3%nat) 32))) (u64 (Z.shiftl (b 4%nat) 24))) (u64 (Z.shiftl (b 5%nat) 16)))
    (u64 (Z.shiftl (b 6%nat) 8))) (b 7%nat) = be_get l.
Proof.
  intros Hb Hl. do 8 (destruct l as [|? l]; [done|]). destruct l; [|done]. cbn zeta.
  repeat (apply Forall_cons in Hb as [? Hb]). cbn [lookup list_lookup default].
  change (default 0 (Some ?x)) with x. unfold lookup, list_lookup, default, from_option, id.
  rewrite !u64_shift by (done || lia). rewrite <- !Z.lor_assoc.
  assert (be_get [z6] = z6) as E by (unfold be_get; rewrite Z.lor_0_r; apply Z.shiftl_0_r).
  rewrite <- E at 1. done.
Qed.

(** the recipient of a media message finds the chunk and the key *)
Lemma media_roundtrip chunkID key :
  in_range 64 chunkID → length key = 32%nat →
  ParseMediaMessage (media_content chunkID key) = Ok (chunkID, key).
Proof.
  intros Hr Hk. rewrite media_content_layout by done. unfold ParseMediaMessage.
  rewrite len_app, len_be_put. destruct (Z.ltb_spec (Z.of_nat 8 + len key) 40); [unfold len in *; lia|].
  pose proof (chunk_id_bytes (be_put 8 chunkID) (bytes_be_put _ _) (length_be_put _ _)) as Hc.
  rewrite be_get_put in Hc by done. rewrite drop_app_length', take_ge by (by rewrite ?length_be_put || lia).
  do 2 f_equal. exact Hc.
Qed.

(** ** Properties *)

(** A direct message of at most 365 bytes: sending it writes a header and an
    onion; the relays of the path peel the onion and the last one finds the
    recipient's address and a sealed message; and when the recipient handles
    that, whatever its sessions, exactly the message that was built reaches the
    ordering of its inbox. *)
Theorem message_end_to_end (epA epB : Endpoint) (clock : DirectMessage → Z * list Z)
    (keyB : PrivateKey) (c : Client) (ib : Inbox) (seqs : gmap (list Z) Z)
    (path : list (list Z * PrivateKey)) (content : list Z) (ct : Z) (r : send_random) :
  ep_connected epA = true → plain_address (ep_Address epA) → array 20 (ep_Address epB) →
  bytes content → len content ≤ 365 → is_byte ct → in_range 64 (default 0 (seqs !! ep_Address epB)) →
  path ≠ [] → Forall (λ p, array 20 p.1) path → (∀ i, layer_random_ok (sr_layers r i)) →
  array 16 (sr_id r) →
  let '(seqs', msg) := new_message (ep_Address epA) (ep_Address epB) seqs (sr_nowMs r) ct content in
  ∃ header onion sealed effs,
    SendMessage epA seqs (ep_Address epB) (rsa_public keyB) content ct (relays path) r (Ok tt)
      = (seqs', Ok (header ++ onion, effs)) ∧ length header = 32%nat ∧
    peel path.*2 onion = Ok (next_hops path (ep_Address epB), sealed) ∧
    ∀ rnd range, handleDirectMessage epB clock keyB c ib sealed rnd range
      = ('(ib', effs) ← handleOrderedMessage epB clock ib msg; Some (c, ib', effs)).
Proof.
  intros Hc Hplain Hto Hb Hl Hct Hseq Hpath Hp Hr Hid. pose proof Hplain as (Ha & _).
  pose proof (send_succeeds epA seqs (ep_Address epB) keyB content ct path r Hc Ha Hto Hb Hl Hct Hseq
    Hpath Hp Hr Hid) as Hs.
  pose proof (new_message_wf (ep_Address epA) (ep_Address epB) seqs (sr_nowMs r) ct content Ha Hto Hseq Hct Hb Hl) as Hwf.
  destruct (new_message _ _ _ _ _ _) as [seqs' msg] eqn:En. cbn [snd] in Hwf.
  assert (dm_From msg = ep_Address epA ∧ dm_To msg = ep_Address epB) as [Hf Ht]
    by (unfold new_message in En; by simplify_eq/=).
  destruct Hs as (header & onion & sealed & effs & Hsend & Hh & Hpeel & Hdec).
  exists header, onion, sealed, effs. split_and!; [done..|]. intros rnd range.
  rewrite (handle_plain _ _ _ _ _ _ _ _ _ Hdec).
  - by rewrite dispatch_direct.
  - by apply direct_layout_bytes.
  - rewrite direct_layout_length by done. pose proof (len_nonneg (dm_Content msg)).
    pose proof (len_nonneg (dm_Signature msg)). lia.
  - unfold DirectMessage_layout. rewrite Hf, take_app_length' by (by destruct Ha). done.
Qed.

(** C27: A longer message fails, because it does not fit RSA-OAEP, but only after it
    has taken a sequence number.  The receiver waits for that number: whatever
    arrives afterwards, it delivers no message of the sender with a higher
    one. *)
Theorem oversized_message_stalls (epA epB : Endpoint) (clock : DirectMessage → Z * list Z)
    (keyB : PublicKey) (seqs : gmap (list Z) Z) (to : list Z) (path : list RelayInfo)
    (content : list Z) (ct n : Z) (r : send_random) (conn : outcome unit) (msgs : list DirectMessage) :
  ep_connected epA = true → array 20 (ep_Address epA) → array 20 to → is_byte ct → blob content →
  365 < len content → default 0 (seqs !! to) = n → 0 ≤ n < 2 ^ 64 - 1 →
  Forall DirectMessage_wf msgs → len msgs < 2 ^ 64 →
  (∀ m, m ∈ msgs → dm_From m = ep_Address epA → dm_SequenceNumber m ≠ n) →
  SendMessage epA seqs to keyB content ct path r conn
    = (<[to := n + 1]> seqs, Err "encryption failed") ∧
  ∃ ib all, handle_all epB clock empty_inbox msgs = Some (ib, all ≫= deliverMessage epB clock) ∧
    ∀ m, m ∈ all → dm_From m = ep_Address epA → dm_SequenceNumber m < n.
Proof.
  intros Hc Ha Hto Hct Hblob Hlong Hn Hr Hwf Hlen Hmiss. split.
  - unfold SendMessage, new_message, GetNextSequenceNumber. rewrite Hc, Hn. cbn [negb].
    rewrite u64_id by (unfold in_range; lia). f_equal.
    set (msg := mkDirectMessage _ _ _ _ _ _ _ _).
    assert (DirectMessage_wf msg) as Hm.
    { do 2 (split; [done|]). split; [apply Z.mod_pos_bound; lia|].
      split; [unfold in_range; cbn; lia|]. split; [done|].
      split; [by apply (bool_decide_unpack (array 16 (replicate 16 0)))|]. split; [done|].
      by apply (bool_decide_unpack (blob [])). }
    change (DirectMessage_Encode msg) with (@wire_encode _ DirectMessage_wire msg).
    rewrite (@wire_encode_layout _ DirectMessage_wire msg Hm). cbn [mbind outcome_bind].
    unfold RSAEncrypt. rewrite oaep_limit; [done|]. cbn [wire_layout DirectMessage_wire].
    rewrite direct_layout_length by done. change (dm_Content msg) with content.
    change (dm_Signature msg) with (@nil Z). rewrite len_nil. lia.
  - destruct (handle_all_ordered epB clock msgs Hwf Hlen) as (ib & all & Hh & Ho).
    exists ib, all. split; [done|]. intros m Hm Hf. destruct (Ho (ep_Address epA)) as [Hd _].
    assert (m ∈ by_peer (ep_Address epA) all) as [i Hi]%list_elem_of_lookup_1
      by (by apply list_elem_of_filter).
    assert (Z.of_nat i < n) as Hlt.
    { apply Z.nle_gt. intros Hge. apply lookup_lt_Some in Hi as Hilen.
      destruct (lookup_lt_is_Some_2 (by_peer (ep_Address epA) all) (Z.to_nat n)) as [m' Hm']; [lia|].
      apply Hd in Hm'. rewrite Z2Nat.id in Hm' by lia. apply arrival_elem in Hm' as [Hin Hseq].
      apply list_elem_of_filter in Hin as [Hfrom Hin]. by apply (Hmiss m' Hin Hfrom). }
    apply Hd, arrival_elem in Hi as [_ ->]. done.
Qed.

End messaging_proofs.

(** ** Witnesses *)

Module MessagingSample.
Definition epA : Endpoint := mkEndpoint (replicate 20 77) true false true true true true true.
Definition random : send_random := mkSendRandom 5 [] OnionSample.rnd (replicate 16 3).
End MessagingSample.

Section witnesses.
#[local] Existing Instances Toy.ops sample_crypto sample_aes sample_aes_laws OnionSample.rsa
  OnionSample.rsa_laws OnionSample.blake OnionSample.blake_laws OnionSample.json OnionSample.json_laws.

Lemma message_end_to_end_witness :
  let c := mkClient (replicate 20 9) true None None ∅ 0 ∅ ∅ in
  let '(seqs', msg) := new_message (replicate 20 77) (replicate 20 9) ∅ 5 0 [1; 2; 3] in
  ∃ header onion sealed effs,
    SendMessage MessagingSample.epA ∅ (ep_Address InboxSample.ep) (rsa_public OnionSample.secret) [1; 2; 3] 0
      (relays OnionSample.path) MessagingSample.random (Ok tt) = (seqs', Ok (header ++ onion, effs)) ∧
    length header = 32%nat ∧
    peel OnionSample.path.*2 onion = Ok (next_hops OnionSample.path (replicate 20 9), sealed) ∧
    ∀ rnd range, handleDirectMessage InboxSample.ep InboxSample.clock OnionSample.secret c empty_inbox sealed rnd range
      = ('(ib', effs) ← handleOrderedMessage InboxSample.ep InboxSample.clock empty_inbox msg;
         Some (c, ib', effs)).
Proof.
  apply (message_end_to_end MessagingSample.epA InboxSample.ep InboxSample.clock OnionSample.secret _ empty_inbox
    ∅ OnionSample.path [1; 2; 3] 0 MessagingSample.random); try done.
  - split_and!; [by apply (bool_decide_eq_true_1 (array _ _)); vm_compute|done|done].
  - by apply (bool_decide_eq_true_1 (array _ _)); vm_compute.
  - by apply (bool_decide_eq_true_1 (bytes _)); vm_compute.
  - by apply (bool_decide_eq_true_1 (Forall _ _)); vm_compute.
  - intros i. by exists (replicate 32 4), (replicate 12 5); split_and!; try done;
      apply (bool_decide_eq_true_1 (array _ _)); vm_compute.
  - by apply (bool_decide_eq_true_1 (array _ _)); vm_compute.
Defined.

Lemma oversized_message_stalls_witness :
  let content := replicate 366 65 in
  SendMessage MessagingSample.epA ∅ (replicate 20 9) (rsa_public OnionSample.secret) content 0
      (relays OnionSample.path) MessagingSample.random (Ok tt)
    = (<[replicate 20 9 := 0 + 1]> ∅, Err "encryption failed") ∧
  ∃ ib all, handle_all InboxSample.ep InboxSample.clock empty_inbox [InboxSample.msg 77 1; InboxSample.msg 77 2]
      = Some (ib, all ≫= deliverMessage InboxSample.ep InboxSample.clock) ∧
    ∀ m, m ∈ all → dm_From m = replicate 20 77 → dm_SequenceNumber m < 0.
Proof.
  apply (oversized_message_stalls MessagingSample.epA InboxSample.ep InboxSample.clock (rsa_public OnionSample.secret) ∅
    (replicate 20 9) (relays OnionSample.path) (replicate 366 65) 0 0 MessagingSample.random (Ok tt)
    [InboxSample.msg 77 1; InboxSample.msg 77 2]); try done.
  - by apply (bool_decide_eq_true_1 (array _ _)); vm_compute.
  - by apply (bool_decide_eq_true_1 (array _ _)); vm_compute.
  - by apply (bool_decide_eq_true_1 (blob _)); vm_compute.
  - by apply (bool_decide_eq_true_1 (Forall DirectMessage_wf _)); vm_compute.
  - intros m Hm _. repeat (apply elem_of_cons in Hm as [->|Hm]; [done|]). by apply not_elem_of_nil in Hm.
Defined.

End witnesses.
