(* ===== verification/RelayQueue.v ===== *)
(** * The relay's offline queue: pkg/storage/relay_queue.go

    The SQLite table is a list of rows.  [order] is what the database makes of
    [ORDER BY timestamp ASC]: rows with equal timestamps may come in any order.
    [dberr] is the error of a statement that fails for another reason than a
    duplicate identifier.  Addresses and identifiers are stored in hexadecimal. *)

From S2P Require Import Prelude GoBytes NodeID DhtStore.

Record QueuedMessage := mkQueuedMessage {
  qm_ID : Z; qm_RecipientAddr : list Z; qm_MessageID : list Z; qm_EncryptedPayload : list Z;
  qm_Timestamp : Z; qm_ExpiresAt : Z; qm_Attempts : Z }.

#[export] Instance QueuedMessage_eq_dec : EqDecision QueuedMessage.
Proof. solve_decision. Defined.

Record RelayMessageQueue := mkQueue { q_rows : list QueuedMessage; q_nextID : Z; q_ttl : Z }.

Definition with_rows (q : RelayMessageQueue) (rows : list QueuedMessage) : RelayMessageQueue :=
  mkQueue rows (q_nextID q) (q_ttl q).

(** an order the database may return rows in *)
Definition orders (order : list QueuedMessage → list QueuedMessage) : Prop :=
  ∀ l, order l ≡ₚ l ∧ StronglySorted (λ a b, qm_Timestamp a ≤ qm_Timestamp b) (order l).

Definition bucketTimestamp (timestamp : Z) : Z :=
  let oneHour := 3600 in s64 (Z.quot timestamp oneHour * oneHour).

(** a fresh database; 0 stands for the default of 30 days *)
Definition NewRelayMessageQueue (ttl : Z) : RelayMessageQueue :=
  mkQueue [] 1 (if ttl =? 0 then 30 * 24 * 3600 * Second else ttl).

(** [now]: [time.Now().Unix()] *)
Definition QueueMessage (q : RelayMessageQueue) (recipientAddr messageID encryptedPayload : list Z)
  (now : Z) (dberr : option string) : RelayMessageQueue * outcome unit :=
  let recipientHex := hex_encode recipientAddr in
  let messageIDHex := hex_encode messageID in
  let bucketedTimestamp := bucketTimestamp now in
  let expiresAt := now +s64 int64_of (Seconds (q_ttl q)) in
  match dberr with
  | Some e => (q, Err ("failed to queue message: " +:+ e))
  | None =>
      if bool_decide (messageIDHex ∈ qm_MessageID <$> q_rows q) then
        (q, Err "failed to queue message: UNIQUE constraint failed: queued_messages.message_id")
      else
        (mkQueue (q_rows q ++ [mkQueuedMessage (q_nextID q) recipientHex messageIDHex encryptedPayload
                                 bucketedTimestamp expiresAt 0]) (q_nextID q + 1) (q_ttl q), Ok tt)
  end.

(** the rows of [WHERE recipient_addr = ? AND expires_at > ?] *)
Definition waiting (rows : list QueuedMessage) (recipientAddr : list Z) (now : Z) : list QueuedMessage :=
  filter (λ m, qm_RecipientAddr m = hex_encode recipientAddr ∧ now < qm_ExpiresAt m) rows.

Section queue.
Context (order : list QueuedMessage → list QueuedMessage).

Definition GetQueuedMessages (q : RelayMessageQueue) (recipientAddr : list Z) (now : Z)
  (dberr : option string) : outcome (list QueuedMessage) :=
  match dberr with
  | Some e => Err ("failed to get queued messages: " +:+ e)
  | None => Ok (order (waiting (q_rows q) recipientAddr now))
  end.

Definition DeleteMessage (q : RelayMessageQueue) (messageID : list Z) (dberr : option string)
  : RelayMessageQueue * outcome unit :=
  match dberr with
  | Some e => (q, Err ("failed to delete message: " +:+ e))
  | None => (with_rows q (filter (λ m, qm_MessageID m ≠ messageID) (q_rows q)), Ok tt)
  end.

Definition DeleteMessagesForRecipient (q : RelayMessageQueue) (recipientAddr : list Z)
  (dberr : option string) : RelayMessageQueue * outcome unit :=
  match dberr with
  | Some e => (q, Err ("failed to delete messages: " +:+ e))
  | None =>
      (with_rows q (filter (λ m, qm_RecipientAddr m ≠ hex_encode recipientAddr) (q_rows q)), Ok tt)
  end.

Definition IncrementAttempts (q : RelayMessageQueue) (messageID : list Z) (dberr : option string)
  : RelayMessageQueue * outcome unit :=
  match dberr with
  | Some e => (q, Err e)
  | None =>
      (with_rows q ((λ m, if bool_decide (qm_MessageID m = messageID) then
                            mkQueuedMessage (qm_ID m) (qm_RecipientAddr m) (qm_MessageID m)
                              (qm_EncryptedPayload m) (qm_Timestamp m) (qm_ExpiresAt m) (qm_Attempts m + 1)
                          else m) <$> q_rows q), Ok tt)
  end.

Definition GetQueuedMessageCount (q : RelayMessageQueue) (recipientAddr : list Z) (now : Z)
  (dberr : option string) : outcome Z :=
  match dberr with
  | Some e => Err ("failed to get message count: " +:+ e)
  | None => Ok (len (waiting (q_rows q) recipientAddr now))
  end.

Definition GetTotalQueueSize (q : RelayMessageQueue) (now : Z) (dberr : option string) : outcome Z :=
  match dberr with
  | Some e => Err ("failed to get queue size: " +:+ e)
  | None => Ok (len (filter (λ m, now < qm_ExpiresAt m) (q_rows q)))
  end.

(** one tick of the background goroutine *)
Definition cleanupExpiredMessages (q : RelayMessageQueue) (now : Z) (dberr : option string)
  : RelayMessageQueue :=
  match dberr with
  | Some _ => q
  | None => with_rows q (filter (λ m, ¬ qm_ExpiresAt m ≤ now) (q_rows q))
  end.

(** [MIN(timestamp)], 0 when there is no row *)
Definition GetOldestMessageTime (q : RelayMessageQueue) (recipientAddr : list Z) (now : Z)
  (dberr : option string) : outcome Z :=
  match dberr with
  | Some e => Err ("failed to get oldest message time: " +:+ e)
  | None =>
      Ok (match qm_Timestamp <$> waiting (q_rows q) recipientAddr now with
          | [] => 0
          | t :: ts => foldl Z.min t ts
          end)
  end.

End queue.
