(* ===== verification/Relay.v ===== *)
(** * The relay server: pkg/network/relay.go, relay_connection.go, relay_handlers.go
    and relay_delivery.go

    Connections are numbers; [up c] says whether writing to connection [c]
    succeeds during a handler.  What is written, and the call of
    [OnMessageRelayed], are [reffect]s.  A handler that panics takes the
    process down, since the relay does not recover.  A header and its payload
    are written together.  Not modelled: the listener, the statistics, and the
    publication of the relay's metadata in the DHT. *)

From S2P Require Import Prelude GoBytes NodeID Wire WireGroups Padding Aes DhtStore Onion RelayQueue.

(** crypto/x509 and encoding/pem, as keys.go uses them; [ParsePKIXPublicKey]
    gives [Ok None] for a key that is not RSA *)
Class X509 `{Rsa} := {
  pem_Decode : list Z → option (list Z);
  pem_EncodePublic : list Z → list Z;
  ParsePKIXPublicKey : list Z → outcome (option PublicKey);
  MarshalPKIXPublicKey : PublicKey → outcome (list Z) }.

(** decoding undoes encoding *)
Class X509Laws `{X509} := {
  pem_roundtrip d : pem_Decode (pem_EncodePublic d) = Some d;
  pkix_roundtrip key d : MarshalPKIXPublicKey key = Ok d → ParsePKIXPublicKey d = Ok (Some key) }.

Section keys.
Context `{X509}.
Definition ExportPublicKeyPEM (key : PublicKey) : outcome (list Z) :=
  pubASN1 ← MarshalPKIXPublicKey key; Ok (pem_EncodePublic pubASN1).
Definition ImportPublicKeyPEM (pemData : list Z) : outcome PublicKey :=
  match pem_Decode pemData with
  | None => Err "invalid key"
  | Some block =>
      pub ← ParsePKIXPublicKey block;
      match pub with Some rsaPub => Ok rsaPub | None => Err "invalid key" end
  end.
End keys.

Inductive reffect := Sent (conn : nat) (bytes : list Z) | MessageRelayed.

Section relay.
Context `{AesGcm} `{X509} `{Blake2b} `{Json OnionLayer}.

Record Peer := mkPeer {
  p_Conn : nat; p_Address : list Z; p_PublicKey : option PublicKey; p_ClientType : Z; p_LastSeen : Z }.

Record RelayServer := mkRelayServer {
  rs_Address : list Z; rs_PrivateKey : PrivateKey;
  rs_peers : gmap (list Z) Peer; rs_messageQueue : option RelayMessageQueue;
  rs_messagesRelayed : Z; rs_OnMessageRelayed : bool }.

Definition rs_PublicKey (rs : RelayServer) : PublicKey := rsa_public (rs_PrivateKey rs).

Definition with_peers (rs : RelayServer) (m : gmap (list Z) Peer) : RelayServer :=
  mkRelayServer (rs_Address rs) (rs_PrivateKey rs) m (rs_messageQueue rs) (rs_messagesRelayed rs)
    (rs_OnMessageRelayed rs).
Definition with_queue (rs : RelayServer) (q : RelayMessageQueue) : RelayServer :=
  mkRelayServer (rs_Address rs) (rs_PrivateKey rs) (rs_peers rs) (Some q) (rs_messagesRelayed rs)
    (rs_OnMessageRelayed rs).
Definition count_relayed (rs : RelayServer) : RelayServer :=
  mkRelayServer (rs_Address rs) (rs_PrivateKey rs) (rs_peers rs) (rs_messageQueue rs)
    (rs_messagesRelayed rs +u64 1) (rs_OnMessageRelayed rs).

(** the address stays zero: nothing sets it *)
Definition NewRelayServer (privateKey : PrivateKey) : RelayServer :=
  mkRelayServer zero_address privateKey ∅ None 0 false.
Definition AttachMessageQueue (rs : RelayServer) (queue : RelayMessageQueue) : RelayServer :=
  with_queue rs queue.

(** what the outside decides during one handler: which connections can be
    written to, the random message identifier, the clock and the database *)
Record renv := mkRenv {
  e_up : nat → bool; e_id : list Z; e_now : Z; e_dberr : option string }.

(** [WriteHeader(conn, header); conn.Write(payload)] *)
Definition frame (type flags : Z) (id payload : list Z) : outcome (list Z) :=
  header ← WriteHeader (mkHeader ProtocolMagic ProtocolVersion type (u32 (len payload)) flags id 0) [];
  Ok (header ++ payload).
Definition write (e : renv) (conn : nat) (bytes : outcome (list Z)) : list reffect * outcome unit :=
  match bytes with
  | Ok b => if e_up e conn then ([Sent conn b], Ok tt) else ([], Err "write failed")
  | Err s => ([], Err s)
  | Panic => ([], Panic)
  end.

(** ** relay_delivery.go *)

Definition hex_string (l : list Z) : string := bytes_string (hex_encode l).

Definition forwardToNextHop (rs : RelayServer) (nextHop payload : list Z) (e : renv)
  : list reffect * outcome unit :=
  match rs_peers rs !! nextHop with
  | None => ([], Err ("peer not connected: " +:+ hex_string nextHop))
  | Some peer => write e (p_Conn peer) (frame MsgTypeRelayForward 0 (e_id e) payload)
  end.

Definition deliverMessage (rs : RelayServer) (recipientAddr encryptedPayload : list Z) (e : renv)
  : RelayServer * list reffect * outcome unit :=
  match rs_peers rs !! recipientAddr with
  | None =>
      match rs_messageQueue rs with
      | Some queue =>
          let '(queue, r) := QueueMessage queue recipientAddr (e_id e) encryptedPayload (e_now e)
                               (e_dberr e) in
          (with_queue rs queue, [], wrap_err "recipient offline and queue failed: " r)
      | None => (rs, [], Err ("recipient not connected: " +:+ hex_string recipientAddr))
      end
  | Some peer =>
      let '(effs, r) := write e (p_Conn peer)
        (frame MsgTypeDirectMessage FlagEncrypted (e_id e) encryptedPayload) in
      (rs, effs, r)
  end.

(** one turn of the loop of [deliverQueuedMessages] *)
Definition deliver_queued (queue : RelayMessageQueue) (conn : nat) (msg : QueuedMessage) (e : renv)
  : RelayMessageQueue * list reffect :=
  let '(effs, r) := write e conn
    (frame MsgTypeDirectMessage FlagEncrypted (e_id e) (qm_EncryptedPayload msg)) in
  match r with
  | Ok _ => ((DeleteMessage queue (qm_MessageID msg) (e_dberr e)).1, effs)
  | _ => (queue, effs)
  end.

Fixpoint deliver_all (queue : RelayMessageQueue) (conn : nat) (messages : list QueuedMessage)
  (env : nat → renv) (i : nat) : RelayMessageQueue * list reffect :=
  match messages with
  | [] => (queue, [])
  | msg :: messages' =>
      let '(queue, effs) := deliver_queued queue conn msg (env i) in
      let '(queue, effs') := deliver_all queue conn messages' env (S i) in
      (queue, effs ++ effs')
  end.

(** The whole function, when nothing else happens meanwhile; [dberr] is the
    query's. *)
Definition deliverQueuedMessages (order : list QueuedMessage → list QueuedMessage) (rs : RelayServer)
  (recipientAddr : list Z) (now : Z) (dberr : option string) (env : nat → renv)
  : RelayServer * list reffect :=
  match rs_messageQueue rs with
  | None => (rs, [])
  | Some queue =>
      match GetQueuedMessages order queue recipientAddr now dberr with
      | Ok messages =>
          match rs_peers rs !! recipientAddr with
          | None => (rs, [])
          | Some peer =>
              let '(queue, effs) := deliver_all queue (p_Conn peer) messages env 0 in
              (with_queue rs queue, effs)
          end
      | _ => (rs, [])
      end
  end.

(** ** relay.go: connecting to another relay *)

Fixpoint drop_zeros (l : list Z) : list Z :=
  match l with d :: l' => if d =? 48 then drop_zeros l' else l | [] => [] end.

(** [%x] of an unsigned number *)
Definition hex_number (n : Z) : string :=
  match drop_zeros (hex_encode (be_put 8 n)) with [] => "0" | ds => bytes_string ds end.

(** [dial]: the connection, and what the other relay will send on it.  When
    the handshake succeeds, [handleConnection] starts on the connection with
    the rest of the input. *)
Definition ConnectToRelay (rs : RelayServer) (relayAddr : list Z) (dial : outcome (nat * list Z)) (e : renv)
  : RelayServer * list reffect * outcome (option (nat * list Z)) :=
  if bool_decide (is_Some (rs_peers rs !! relayAddr)) then (rs, [], Ok None)
  else match dial with
  | Panic => (rs, [], Panic)
  | Err s => (rs, [], Err ("failed to connect to relay: " +:+ s))
  | Ok (conn, stream) =>
      let '(effs, r) := write e conn
        (pubKeyPEM ← ExportPublicKeyPEM (rs_PublicKey rs);
         payload ← Handshake_Encode (mkHandshake ProtocolVersion (rs_Address rs) pubKeyPEM ClientTypeRelay
                                       (u64 (e_now e)) []);
         frame MsgTypeHandshake 0 (e_id e) payload) in
      let ack :=
        _ ← r;
        '(ackHeader, stream) ← ReadHeader stream;
        if negb (h_Type ackHeader =? MsgTypeHandshakeAck) then
          Err ("expected handshake ACK, got " +:+ hex_number (h_Type ackHeader))
        else if h_Length ackHeader >? 0 then
          '(_, stream) ← ReadFull (h_Length ackHeader) stream; Ok stream
        else Ok stream in
      match ack with
      | Ok stream =>
          let peer := mkPeer conn relayAddr None ClientTypeRelay (e_now e) in
          (with_peers rs (<[relayAddr := peer]> (rs_peers rs)), effs, Ok (Some (conn, stream)))
      | Err s => (rs, effs, Err s)
      | Panic => (rs, effs, Panic)
      end
  end.

(** ** relay_handlers.go *)

Definition sendAck (conn : nat) (messageID : list Z) (e : renv) : list reffect :=
  (write e conn (WriteHeader (mkHeader ProtocolMagic ProtocolVersion MsgTypeAck 0 0 messageID 0) [])).1.
Definition handlePing (conn : nat) (header : Header) (e : renv) : list reffect :=
  (write e conn (WriteHeader (mkHeader ProtocolMagic ProtocolVersion MsgTypePong 0 0
                                (h_MessageID header) 0) [])).1.

Definition sendHandshakeAck (rs : RelayServer) (conn : nat) (e : renv) : list reffect :=
  (write e conn
     (pubKeyPEM ← ExportPublicKeyPEM (rs_PublicKey rs);
      payload ← Handshake_Encode (mkHandshake ProtocolVersion (rs_Address rs) pubKeyPEM ClientTypeRelay
                                    (u64 (e_now e)) []);
      frame MsgTypeHandshakeAck 0 (e_id e) payload)).1.

(** The new state, the address now bound to the connection, and whether the
    delivery of queued messages is started. *)
Definition handleHandshake (rs : RelayServer) (conn : nat) (header : Header) (payload : list Z) (e : renv)
  : outcome (RelayServer * list reffect * list Z * bool) :=
  let padded := mk_slice payload in
  let payload := match RemoveMessagePadding (mkMessage header padded) with
                 | Ok unpadded => msg_Payload unpadded
                 | _ => padded
                 end in
  match RemoveMessagePadding (mkMessage header padded) with
  | Panic => Panic
  | _ =>
    match Handshake_Decode payload with
    | Panic => Panic
    | Err _ => Ok (rs, [], zero_address, false)
    | Ok hs =>
        match ImportPublicKeyPEM (hs_PublicKey hs) with
        | Panic => Panic
        | Err _ => Ok (rs, [], zero_address, false)
        | Ok publicKey =>
            let peer := mkPeer conn (hs_Address hs) (Some publicKey) (hs_ClientType hs) (e_now e) in
            let rs := with_peers rs (<[hs_Address hs := peer]> (rs_peers rs)) in
            let start := bool_decide (is_Some (rs_messageQueue rs)) && (hs_ClientType hs =? ClientTypeUser) in
            Ok (rs, sendHandshakeAck rs conn e, hs_Address hs, start)
        end
    end
  end.

Definition handleRelayForward (rs : RelayServer) (conn : nat) (header : Header) (payload : list Z) (e : renv)
  : outcome (RelayServer * list reffect) :=
  match DecryptOnionLayer (mk_slice payload) (rs_PrivateKey rs) with
  | Panic => Panic
  | Err _ => Ok (rs, [])
  | Ok layer =>
      if IsDeliveryAddress (ol_NextHop layer) then Ok (rs, [])
      else match rs_peers rs !! ol_NextHop layer with
      | None =>
          let '(rs, effs, _) := deliverMessage rs (ol_NextHop layer) (ol_Payload layer) e in
          Ok (rs, effs)
      | Some peer =>
          let '(rs, effs) :=
            if p_ClientType peer =? ClientTypeRelay then
              (rs, (forwardToNextHop rs (ol_NextHop layer) (ol_Payload layer) e).1)
            else
              let '(rs, effs, _) := deliverMessage rs (ol_NextHop layer) (ol_Payload layer) e in
              (rs, effs) in
          let rs := count_relayed rs in
          Ok (rs, effs ++ (if rs_OnMessageRelayed rs then [MessageRelayed] else [])
                       ++ sendAck conn (h_MessageID header) e)
      end
  end.

(** ** relay_connection.go *)

(** the deferred cleanup *)
Definition disconnect (rs : RelayServer) (peerAddr : list Z) : RelayServer :=
  if bool_decide (peerAddr ≠ zero_address) then with_peers rs (delete peerAddr (rs_peers rs)) else rs.

(** one turn of the loop: the loop ends, or goes on with the rest of the input *)
Inductive turn :=
  | Stop
  | Next (rs : RelayServer) (effs : list reffect) (peerAddr : list Z) (start : bool) (rest : list Z).

(** [io.ReadFull] of the announced payload; a short read uses up the input *)
Definition read_payload (header : Header) (stream : list Z) : option (list Z) * list Z :=
  match ReadFull (h_Length header) stream with
  | Ok (payload, rest) => (Some payload, rest)
  | _ => (None, [])
  end.

(** [stream]: what the peer sends from here on.  The payload of a message of
    another type is not read. *)
Definition connection_turn (rs : RelayServer) (conn : nat) (peerAddr stream : list Z) (e : renv)
  : outcome turn :=
  match ReadHeader stream with
  | Panic => Panic
  | Err _ => Ok Stop
  | Ok (header, stream) =>
      if h_Type header =? MsgTypeHandshake then
        match read_payload header stream with
        | (Some payload, rest) =>
            '(rs, effs, peerAddr, start) ← handleHandshake rs conn header payload e;
            Ok (Next rs effs peerAddr start rest)
        | (None, rest) => Ok (Next rs [] zero_address false rest)
        end
      else if h_Type header =? MsgTypeRelayForward then
        match read_payload header stream with
        | (Some payload, rest) =>
            '(rs, effs) ← handleRelayForward rs conn header payload e;
            Ok (Next rs effs peerAddr false rest)
        | (None, rest) => Ok (Next rs [] peerAddr false rest)
        end
      else if h_Type header =? MsgTypePing then
        Ok (Next rs (handlePing conn header e) peerAddr false stream)
      else Ok (Next rs [] peerAddr false stream)
  end.

(** A whole connection, when nothing else happens meanwhile: the addresses for
    which the delivery of queued messages was started come last.  [env i] is
    the outside at the [i]-th turn; [None]: out of fuel. *)
Fixpoint handleConnection (fuel : nat) (rs : RelayServer) (conn : nat) (peerAddr stream : list Z)
  (env : nat → renv) (i : nat) : option (outcome (RelayServer * list reffect * list (list Z))) :=
  match fuel with
  | O => None
  | S fuel' =>
      match connection_turn rs conn peerAddr stream (env i) with
      | Panic => Some Panic
      | Err s => Some (Err s)
      | Ok Stop => Some (Ok (disconnect rs peerAddr, [], []))
      | Ok (Next rs effs peerAddr start rest) =>
          match handleConnection fuel' rs conn peerAddr rest env (S i) with
          | Some (Ok (rs, effs', started)) =>
              Some (Ok (rs, effs ++ effs', (if start then [peerAddr] else []) ++ started))
          | r => r
          end
      end
  end.

End relay.
