(* ===== verification/RelayProofs.v ===== *)
(** * Theorems on the relay server and its queue *)

From S2P Require Import Prelude GoBytes NodeID Wire WireGroups Padding Aes DhtStore Onion OnionProofs Inbox RelayQueue Relay DhtSample.

(** ** Frames *)

Lemma header_wf type flags id length :
  in_range 16 type → in_range 16 flags → array 16 id → in_range 32 length →
  Header_wf (mkHeader ProtocolMagic ProtocolVersion type length flags id 0).
Proof.
  intros. split; [by apply (bool_decide_unpack (in_range 32 ProtocolMagic))|].
  split; [by apply (bool_decide_unpack (in_range 16 ProtocolVersion))|]. do 4 (split; [done|]).
  by apply (bool_decide_unpack (in_range 16 0)).
Qed.

Lemma read_header_layout h rest :
  Header_wf h → h_Magic h = ProtocolMagic → h_Version h = ProtocolVersion →
  ReadHeader (Header_layout h ++ rest) = Ok (h, rest).
Proof.
  intros Hwf Hm Hv. pose proof (length_Header_layout h Hwf) as Hl.
  unfold ReadHeader, ReadFull. rewrite bool_decide_true.
  - change (Z.to_nat HeaderSize) with 32%nat. rewrite take_app_length', drop_app_length' by done.
    cbn [mbind outcome_bind]. pose proof (@wire_decode_layout _ Header_wire h [] [] Hwf) as Hd.
    rewrite app_nil_r in Hd. change (Header_Decode (mk_slice (Header_layout h))) with
      (@wire_decode _ Header_wire (Slice (@wire_layout _ Header_wire h) [])). rewrite Hd.
    cbn [mbind outcome_bind]. unfold Header_Validate. by rewrite Hm, Hv.
  - rewrite len_app. pose proof (len_nonneg rest). unfold len, HeaderSize in *. lia.
Qed.

(** 32 bytes always decode; the magic number decides next *)
Lemma Header_Decode_32 l :
  length l = 32%nat → ∃ h, Header_Decode (mk_slice l) = Ok h ∧ h_Magic h = be_get (take 4 l).
Proof.
  intros Hl. do 32 (destruct l as [|? l]; [done|]). destruct l; [|done].
  eexists. split; [vm_compute; reflexivity|]. done.
Qed.

Lemma ReadHeader_bad_magic stream :
  32 ≤ len stream → be_get (take 4 stream) ≠ ProtocolMagic → ReadHeader stream = Err ErrInvalidMagic.
Proof.
  intros Hl Hm. unfold ReadHeader, ReadFull. rewrite bool_decide_true by done.
  change (Z.to_nat HeaderSize) with 32%nat. cbn [mbind outcome_bind].
  destruct (Header_Decode_32 (take 32 stream)) as (h & -> & Hh).
  { rewrite length_take. unfold len in Hl. lia. }
  cbn [mbind outcome_bind]. rewrite take_take in Hh. change (4 `min` 32)%nat with 4%nat in Hh.
  unfold Header_Validate. rewrite Hh. apply Z.eqb_neq in Hm. by rewrite Hm.
Qed.

Section relay_proofs.
Context `{AesGcmLaws} `{RsaLaws} `{!X509} `{Blake2bLaws} `{Json OnionLayer}.
Context {json_laws : JsonLaws OnionLayer OnionLayer_typed OnionLayer_typed}.

(** the header of a frame *)
Definition frame_header (type flags : Z) (id payload : list Z) : Header :=
  mkHeader ProtocolMagic ProtocolVersion type (u32 (len payload)) flags id 0.

Lemma frame_layout type flags id payload :
  in_range 16 type → in_range 16 flags → array 16 id →
  frame type flags id payload = Ok (Header_layout (frame_header type flags id payload) ++ payload).
Proof.
  intros Ht Hf Hi. unfold frame, WriteHeader. fold (frame_header type flags id payload).
  rewrite Header_Encode_layout; [done|]. apply header_wf; try done. apply u32_range.
Qed.

Lemma read_frame type flags id payload b rest :
  in_range 16 type → in_range 16 flags → array 16 id → len payload < 2 ^ 32 →
  frame type flags id payload = Ok b →
  ∃ h, ReadHeader (b ++ rest) = Ok (h, payload ++ rest) ∧ h_Type h = type ∧ h_Flags h = flags ∧
    read_payload h (payload ++ rest) = (Some payload, rest).
Proof.
  intros Ht Hf Hi Hl. rewrite frame_layout by done. intros <-%Ok_inj.
  pose proof (len_nonneg payload). pose proof (len_nonneg rest).
  exists (frame_header type flags id payload). split_and!; [|done|done|].
  - rewrite <- (assoc_L (++)). apply read_header_layout; [|done|done].
    apply header_wf; try done. apply u32_range.
  - unfold read_payload, ReadFull. cbn [h_Length frame_header].
    rewrite u32_id by (unfold in_range; lia). rewrite bool_decide_true by (rewrite len_app; lia).
    unfold len. rewrite Nat2Z.id. by rewrite take_app_length, drop_app_length.
Qed.

(** ** Termination of a connection *)

Lemma ReadHeader_consumes stream h rest :
  ReadHeader stream = Ok (h, rest) → (length rest < length stream)%nat.
Proof.
  unfold ReadHeader, ReadFull. case_bool_decide as Hl; [|by case_bool_decide].
  cbn [mbind outcome_bind]. destruct (Header_Decode _); [|done..]. cbn [mbind outcome_bind].
  destruct (Header_Validate _); [|done..]. cbn. intros E. injection E as _ <-.
  rewrite length_drop. unfold len, HeaderSize in *. change (Z.to_nat 32) with 32%nat. lia.
Qed.

Lemma read_payload_rest h stream : (length (read_payload h stream).2 ≤ length stream)%nat.
Proof.
  unfold read_payload, ReadFull. case_bool_decide; [|case_bool_decide; cbn; lia].
  cbn. rewrite length_drop. lia.
Qed.

Definition rest_of (t : outcome turn) : list Z :=
  match t with Ok (Next _ _ _ _ rest) => rest | _ => [] end.

Lemma connection_turn_consumes rs conn peerAddr stream e rs' effs peerAddr' start rest :
  connection_turn rs conn peerAddr stream e = Ok (Next rs' effs peerAddr' start rest) →
  (length rest < length stream)%nat.
Proof.
  unfold connection_turn. destruct (ReadHeader stream) as [[h st]| |] eqn:E; [|done..].
  apply ReadHeader_consumes in E. pose proof (read_payload_rest h st) as Hr.
  destruct (_ =? _); [|destruct (_ =? _)].
  - destruct (read_payload h st) as [[payload|] st']; cbn in Hr.
    + destruct (handleHandshake _ _ _ _ _) as [[[[? ?] ?] ?]| |]; [|done..].
      intros Er%(f_equal rest_of). cbn in Er. subst. lia.
    + intros Er%(f_equal rest_of). cbn in Er. subst. cbn. lia.
  - destruct (read_payload h st) as [[payload|] st']; cbn in Hr.
    + destruct (handleRelayForward _ _ _ _ _) as [[? ?]| |]; [|done..].
      intros Er%(f_equal rest_of). cbn in Er. subst. lia.
    + intros Er%(f_equal rest_of). cbn in Er. subst. cbn. lia.
  - destruct (h_Type h =? MsgTypePing); intros Er%(f_equal rest_of); cbn [rest_of] in Er; by subst.
Qed.

Lemma handleConnection_ends fuel : ∀ rs conn peerAddr stream env i,
  (length stream < fuel)%nat → handleConnection fuel rs conn peerAddr stream env i ≠ None.
Proof.
  induction fuel as [|fuel IH]; intros rs conn peerAddr stream env i Hf; [lia|]. cbn [handleConnection].
  destruct (connection_turn rs conn peerAddr stream (env i)) as [[|rs' effs pa start rest]| |] eqn:E; [done| |done|done].
  apply connection_turn_consumes in E.
  pose proof (IH rs' conn pa rest env (S i) ltac:(lia)) as Hn.
  destruct (handleConnection fuel rs' conn pa rest env (S i)) as [[[[? ?] ?]| |]|]; done.
Qed.

(** more fuel changes nothing *)
Lemma handleConnection_fuel fuel : ∀ fuel' rs conn peerAddr stream env i r,
  (fuel ≤ fuel')%nat → handleConnection fuel rs conn peerAddr stream env i = Some r →
  handleConnection fuel' rs conn peerAddr stream env i = Some r.
Proof.
  induction fuel as [|fuel IH]; intros fuel' rs conn peerAddr stream env i r Hf; [done|].
  destruct fuel' as [|fuel']; [lia|]. cbn [handleConnection].
  destruct (connection_turn rs conn peerAddr stream (env i)) as [[|rs' effs pa start rest]| |]; [done| |done|done].
  destruct (handleConnection fuel rs' conn pa rest env (S i)) as [r'|] eqn:E; [|done].
  by rewrite (IH fuel' _ _ _ _ _ _ _ ltac:(lia) E).
Qed.

(** ** A chain of relays *)

(** a relay that a frame reaches: the server, the connection the frame comes
    from, the address bound to it, and the outside *)
Record hop := mkHop { hop_rs : RelayServer; hop_conn : nat; hop_peer : list Z; hop_env : renv }.

(** The bytes written by one relay are what the next one reads.  The connections
    written to, and the last frame. *)
Fixpoint relay_chain (hops : list hop) (bytes : list Z) : outcome (list nat * list Z) :=
  match hops with
  | [] => Ok ([], bytes)
  | h :: hops' =>
      t ← connection_turn (hop_rs h) (hop_conn h) (hop_peer h) bytes (hop_env h);
      match t with
      | Next _ (Sent conn out :: _) _ _ _ =>
          '(conns, last) ← relay_chain hops' out; Ok (conn :: conns, last)
      | _ => Err "nothing was sent"
      end
  end.

Definition next_hop (path : list (list Z * PrivateKey)) (recipient : list Z) : list Z :=
  match path with q :: _ => q.1 | [] => recipient end.

(** each relay of the path has its private key and a working connection to the
    next one, the last one to the recipient, who is not a relay *)
Fixpoint linked (path : list (list Z * PrivateKey)) (hops : list hop) (conns : list nat)
  (recipient : list Z) : Prop :=
  match path, hops, conns with
  | [], [], [] => True
  | (_, key) :: path', h :: hops', conn :: conns' =>
      rs_PrivateKey (hop_rs h) = key ∧ array 16 (e_id (hop_env h)) ∧ e_up (hop_env h) conn = true ∧
      IsDeliveryAddress (next_hop path' recipient) = false ∧
      (∃ peer, rs_peers (hop_rs h) !! next_hop path' recipient = Some peer ∧ p_Conn peer = conn ∧
         (p_ClientType peer =? ClientTypeRelay) = negb (bool_decide (path' = []))) ∧
      linked path' hops' conns' recipient
  | _, _, _ => False
  end.

(** one relay: the frame it reads and the frame it writes *)
Lemma forward_turn h key conn peer id flags onion b layer type :
  rs_PrivateKey (hop_rs h) = key → array 16 (e_id (hop_env h)) → e_up (hop_env h) conn = true →
  in_range 16 flags → array 16 id → len onion < 2 ^ 32 →
  frame MsgTypeRelayForward flags id onion = Ok b →
  DecryptOnionLayer (mk_slice onion) key = Ok layer → IsDeliveryAddress (ol_NextHop layer) = false →
  rs_peers (hop_rs h) !! ol_NextHop layer = Some peer → p_Conn peer = conn →
  type = (if p_ClientType peer =? ClientTypeRelay then MsgTypeRelayForward else MsgTypeDirectMessage) →
  ∃ rs' out effs flags', in_range 16 flags' ∧
    frame type flags' (e_id (hop_env h)) (ol_Payload layer) = Ok out ∧
    (type = MsgTypeDirectMessage → flags' = FlagEncrypted) ∧
    connection_turn (hop_rs h) (hop_conn h) (hop_peer h) b (hop_env h)
    = Ok (Next rs' (Sent conn out :: effs) (hop_peer h) false []).
Proof.
  intros Hkey Hid' Hup Hfl Hid Hlen Hb Hdec Hdel Hpeer Hconn Htype.
  assert (in_range 16 MsgTypeRelayForward) as Hrange by (by_decision).
  destruct (read_frame MsgTypeRelayForward flags id onion b [] Hrange Hfl Hid Hlen Hb)
    as (hd & Hread & Hty & _ & Hpay).
  rewrite !app_nil_r in *. unfold connection_turn. rewrite Hread, Hty.
  change (MsgTypeRelayForward =? MsgTypeHandshake) with false.
  change (MsgTypeRelayForward =? MsgTypeRelayForward) with true. cbv iota. rewrite Hpay.
  unfold handleRelayForward. rewrite Hkey, Hdec, Hdel, Hpeer.
  unfold forwardToNextHop, deliverMessage. rewrite Hpeer.
  assert (in_range 16 MsgTypeDirectMessage) as Hrd by (by_decision).
  assert (in_range 16 FlagEncrypted) as Hre by (by_decision).
  assert (in_range 16 0) as Hr0 by (by_decision).
  destruct (p_ClientType peer =? ClientTypeRelay); subst type.
  - rewrite frame_layout by done. unfold write. rewrite Hconn, Hup. cbn [fst mbind outcome_bind].
    eexists _, _, _, 0. split_and!; [done|by apply frame_layout|done|done].
  - rewrite frame_layout by done. unfold write. rewrite Hconn, Hup. cbn [fst mbind outcome_bind].
    eexists _, _, _, FlagEncrypted. split_and!; [done|by apply frame_layout|done|done].
Qed.

Lemma chain_build path recipient payload rnd : ∀ i hops conns onion flags id b,
  path ≠ [] → linked path hops conns recipient → (∀ i, layer_random_ok (rnd i)) →
  Forall (λ p, array 20 p.1) path → array 20 recipient → bytes payload →
  (∀ j onion, build_layers (i + j) (relays (drop j path)) recipient payload rnd = Ok onion →
     len onion < 2 ^ 32) →
  build_layers i (relays path) recipient payload rnd = Ok onion →
  in_range 16 flags → array 16 id → frame MsgTypeRelayForward flags id onion = Ok b →
  ∃ last id', relay_chain hops b = Ok (conns, last) ∧
    frame MsgTypeDirectMessage FlagEncrypted id' payload = Ok last ∧ array 16 id'.
Proof.
  induction path as [|[addr key] path IH]; intros i hops conns onion flags id b Hne Hlink Hr Hp Hrec Hpay
    Hfit Hbuild Hfl Hid Hb; [done|].
  destruct hops as [|h hops], conns as [|conn conns]; [destruct Hlink..|].
  destruct Hlink as (Hkey & Hid' & Hup & Hdel & (peer & Hpeer & Hconn & Hty) & Hlink).
  apply Forall_cons in Hp as [_ Hp].
  destruct (build_layers_peel path recipient payload rnd (S i) Hr Hp Hrec Hpay) as (inner & Hin & Hib & _).
  pose proof (Hfit 0%nat onion) as Hlen. rewrite Nat.add_0_r in Hlen. specialize (Hlen Hbuild).
  change (relays ((addr, key) :: path)) with (mkRelayInfo addr (rsa_public key) :: relays path) in Hbuild.
  cbn [build_layers] in Hbuild. rewrite Hin in Hbuild. cbn [mbind outcome_bind] in Hbuild.
  assert ((match relays path with next :: _ => ri_Address next | [] => recipient end)
          = next_hop path recipient) as Enext by (by destruct path).
  rewrite Enext in Hbuild.
  assert (array 20 (next_hop path recipient)) as Ha
    by (destruct path; [done|]; by apply Forall_cons in Hp as [? _]).
  destruct (layer_roundtrip addr key _ inner (rnd i) (Hr i) Ha Hib) as (onion' & Hl & _ & hash & Hd).
  rewrite Hl in Hbuild. apply Ok_inj in Hbuild as ->.
  destruct (forward_turn h key conn peer id flags onion b _ _ Hkey Hid' Hup Hfl Hid Hlen Hb Hd Hdel Hpeer
    Hconn eq_refl) as (rs' & out & effs & flags' & Hfl' & Hout & Hdm & Hturn).
  cbn [relay_chain]. rewrite Hturn. cbn [mbind outcome_bind]. rewrite Hty in Hout, Hdm. cbn [ol_Payload] in Hout.
  destruct path as [|q path].
  - destruct hops, conns; [|destruct Hlink..]. cbn in Hin. apply Ok_inj in Hin as ->.
    eexists out, _. cbn [relay_chain mbind outcome_bind]. split; [done|].
    rewrite bool_decide_true in Hout, Hdm by done. cbn in Hout, Hdm. rewrite Hdm in Hout by done. done.
  - rewrite bool_decide_false in Hout by done. cbn [negb] in Hout.
    destruct (IH (S i) hops conns inner flags' (e_id (hop_env h)) out) as (last & id' & Hc & Hlast & ?);
      try done.
    { intros j o Ho. apply (Hfit (S j) o). by rewrite Nat.add_succ_r. }
    exists last, id'. rewrite Hc. done.
Qed.

(** ** Handshakes *)

Lemma ImportExport `{!X509Laws} key pem :
  ExportPublicKeyPEM (rsa_public key) = Ok pem → ImportPublicKeyPEM pem = Ok (rsa_public key).
Proof.
  unfold ExportPublicKeyPEM, ImportPublicKeyPEM. intros (d & Hd & <-%Ok_inj)%outcome_bind_ok.
  by rewrite pem_roundtrip, (pkix_roundtrip _ _ Hd).
Qed.

(** a handshake frame without padding, whatever its signature *)
Lemma handshake_turn rs conn pa hs key id b rest e :
  Handshake_wf hs → len (Handshake_layout hs) < 2 ^ 32 → array 16 id →
  ImportPublicKeyPEM (hs_PublicKey hs) = Ok key →
  frame MsgTypeHandshake 0 id (Handshake_layout hs) = Ok b →
  let rs' := with_peers rs (<[hs_Address hs := mkPeer conn (hs_Address hs) (Some key) (hs_ClientType hs) (e_now e)]>
                              (rs_peers rs)) in
  connection_turn rs conn pa (b ++ rest) e
  = Ok (Next rs' (sendHandshakeAck rs' conn e) (hs_Address hs)
          (bool_decide (is_Some (rs_messageQueue rs)) && (hs_ClientType hs =? ClientTypeUser)) rest).
Proof.
  intros Hwf Hl Hid Hkey Hb.
  destruct (read_frame MsgTypeHandshake 0 id (Handshake_layout hs) b rest) as (h & Hread & Hty & Hfl & Hpay);
    try done; [by_decision..|].
  unfold connection_turn. rewrite Hread, Hty. change (MsgTypeHandshake =? MsgTypeHandshake) with true. cbv iota.
  rewrite Hpay. unfold handleHandshake, RemoveMessagePadding, Header_HasFlag. cbn [msg_Header]. rewrite Hfl.
  rewrite Z.land_0_l. cbn -[Handshake_Decode Handshake_layout sendHandshakeAck].
  pose proof (@wire_decode_layout _ Handshake_wire hs [] [] Hwf) as Hd. rewrite app_nil_r in Hd.
  change (Handshake_Decode (mk_slice (Handshake_layout hs))) with
    (@wire_decode _ Handshake_wire (Slice (@wire_layout _ Handshake_wire hs) [])). rewrite Hd, Hkey. done.
Qed.

(** ** Delivery of queued messages *)

(** a row found by an identifier that waits is a row that waits *)
Lemma waiting_ids order rows addr now m :
  (∀ l, order l ≡ₚ l) → NoDup (qm_MessageID <$> rows) → m ∈ rows →
  qm_MessageID m ∈ qm_MessageID <$> order (waiting rows addr now) ↔ m ∈ waiting rows addr now.
Proof.
  intros Ho Hn Hm. split; [|intros Hw; apply list_elem_of_fmap_2; by rewrite Ho].
  intros (m' & Hid & Hw)%list_elem_of_fmap. rewrite Ho in Hw. pose proof Hw as [_ Hm']%list_elem_of_filter.
  assert (m = m') as ->; [|done]. by eapply NoDup_fmap_inj.
Qed.

Lemma deliver_all_sent conn messages env : ∀ queue i,
  (∀ j, e_up (env j) conn = true ∧ array 16 (e_id (env j)) ∧ e_dberr (env j) = None) →
  let '(queue', effs) := deliver_all queue conn messages env i in
  q_rows queue' = filter (λ m, qm_MessageID m ∉ qm_MessageID <$> messages) (q_rows queue) ∧
  Forall2 (λ m eff, ∃ id b, frame MsgTypeDirectMessage FlagEncrypted id (qm_EncryptedPayload m) = Ok b ∧
                    eff = Sent conn b) messages effs.
Proof.
  induction messages as [|m messages IH]; intros queue i Henv; cbn [deliver_all].
  - split; [|done]. symmetry. apply filter_all. intros x _. apply not_elem_of_nil.
  - destruct (Henv i) as (Hup & Hid & Hdb). unfold deliver_queued, write.
    rewrite frame_layout by (done || by_decision). rewrite Hup.
    unfold DeleteMessage. rewrite Hdb. cbn [fst].
    specialize (IH (with_rows queue (filter (λ m', qm_MessageID m' ≠ qm_MessageID m) (q_rows queue))) (S i) Henv).
    destruct (deliver_all _ _ _ _ _) as [queue' effs]. destruct IH as [Hq He]. split.
    + rewrite Hq. cbn [q_rows with_rows]. rewrite list_filter_filter. apply list_filter_iff.
      intros x. cbn [fmap list_fmap]. rewrite not_elem_of_cons. tauto.
    + constructor; [|done]. eexists (e_id (env i)), _. split; [|done].
      by apply frame_layout; [apply (bool_decide_unpack (in_range _ _))..|].
Qed.

(** ** Properties *)

(** When a recipient is registered and reachable, the delivery of its queued
    messages writes to its connection the payload of every message that waits
    for it, in the order of the query, and leaves in the table exactly the rows
    that did not wait for it. *)
Theorem queue_flushed (order : list QueuedMessage → list QueuedMessage) (rs : RelayServer)
    (queue : RelayMessageQueue) (addr : list Z) (peer : Peer) (now : Z) (env : nat → renv) :
  (∀ l, order l ≡ₚ l) → rs_messageQueue rs = Some queue → NoDup (qm_MessageID <$> q_rows queue) →
  rs_peers rs !! addr = Some peer →
  (∀ j, e_up (env j) (p_Conn peer) = true ∧ array 16 (e_id (env j)) ∧ e_dberr (env j) = None) →
  ∃ queue' effs, deliverQueuedMessages order rs addr now None env = (with_queue rs queue', effs) ∧
    q_rows queue' = filter (λ m, ¬ (qm_RecipientAddr m = hex_encode addr ∧ now < qm_ExpiresAt m)) (q_rows queue) ∧
    GetQueuedMessageCount queue' addr now None = Ok 0 ∧
    Forall2 (λ m eff, ∃ id b, frame MsgTypeDirectMessage FlagEncrypted id (qm_EncryptedPayload m) = Ok b ∧
                      eff = Sent (p_Conn peer) b) (order (waiting (q_rows queue) addr now)) effs.
Proof.
  intros Ho Hq Hn Hp Henv. unfold deliverQueuedMessages. rewrite Hq. cbn [GetQueuedMessages]. rewrite Hp.
  pose proof (deliver_all_sent (p_Conn peer) (order (waiting (q_rows queue) addr now)) env queue 0 Henv) as Hd.
  destruct (deliver_all _ _ _ _ _) as [queue' effs]. destruct Hd as [Hr He]. exists queue', effs.
  assert (q_rows queue' = filter (λ m, ¬ (qm_RecipientAddr m = hex_encode addr ∧ now < qm_ExpiresAt m))
            (q_rows queue)) as Hrows.
  { rewrite Hr. apply filter_ext_in. intros m Hm. rewrite waiting_ids by done. unfold waiting.
    rewrite list_elem_of_filter. tauto. }
  split_and!; [done|done| |done]. cbn [GetQueuedMessageCount]. unfold waiting. rewrite Hrows, list_filter_filter.
  rewrite (filter_ext_in _ (λ _, False)) by tauto. f_equal.
  clear. induction (q_rows queue) as [|m l IH]; [done|]. rewrite filter_cons_False by tauto. exact IH.
Qed.

(** A handshake is believed whatever its signature: any connection can register
    itself for any address, in the place of the peer that was registered, and
    is then sent the messages that wait for that address. *)
Theorem handshake_unverified (rs : RelayServer) (conn : nat) (pa : list Z) (hs : HandshakeMessage)
    (key : PublicKey) (id rest : list Z) (e : renv) :
  Handshake_wf hs → len (Handshake_layout hs) < 2 ^ 32 → array 16 id →
  ImportPublicKeyPEM (hs_PublicKey hs) = Ok key →
  ∃ payload b rs' effs, Handshake_Encode hs = Ok payload ∧ frame MsgTypeHandshake 0 id payload = Ok b ∧
    connection_turn rs conn pa (b ++ rest) e
    = Ok (Next rs' effs (hs_Address hs)
            (bool_decide (is_Some (rs_messageQueue rs)) && (hs_ClientType hs =? ClientTypeUser)) rest) ∧
    p_Conn <$> rs_peers rs' !! hs_Address hs = Some conn ∧
    ∀ addr, addr ≠ hs_Address hs → rs_peers rs' !! addr = rs_peers rs !! addr.
Proof.
  intros Hwf Hl Hid Hkey.
  pose proof (frame_layout MsgTypeHandshake 0 id (Handshake_layout hs)
    ltac:(by_decision) ltac:(by_decision) Hid) as Hf.
  pose proof (handshake_turn rs conn pa hs key id _ rest e Hwf Hl Hid Hkey Hf) as Ht.
  exists (Handshake_layout hs). eexists _, _, _.
  split; [apply (@wire_encode_layout _ Handshake_wire hs Hwf)|]. split; [exact Hf|]. split; [exact Ht|].
  cbn. split; [by rewrite lookup_insert_eq|]. intros addr Ha. by rewrite lookup_insert_ne.
Qed.

(** The handler of a connection ends, whatever bytes the peer sends: every turn
    uses up input. *)
Theorem relay_connection_ends (rs : RelayServer) (conn : nat) (stream : list Z) (env : nat → renv) :
  ∃ r, ∀ fuel, (length stream < fuel)%nat →
    handleConnection fuel rs conn zero_address stream env 0 = Some r.
Proof.
  pose proof (handleConnection_ends (S (length stream)) rs conn zero_address stream env 0 ltac:(lia)) as Hn.
  destruct (handleConnection (S (length stream)) rs conn zero_address stream env 0) as [r|] eqn:E; [|done].
  exists r. intros fuel Hf. by apply (handleConnection_fuel (S (length stream))).
Qed.

(** A relay made by [NewRelayServer] introduces itself to another relay with the
    zero address.  The other relay registers it there: it refuses every onion
    layer whose next hop is that address, so it never forwards to this peer, and
    it keeps the entry when the connection ends. *)
Theorem relay_introduced_as_zero `{!X509Laws} (key : PrivateKey) (pem : list Z) (rs2 : RelayServer)
    (addr stream : list Z) (conn conn2 : nat) (e e2 : renv) :
  ExportPublicKeyPEM (rsa_public key) = Ok pem → bytes pem → len pem < 2 ^ 31 →
  e_up e conn = true → array 16 (e_id e) →
  ∃ b rs2' effs, (ConnectToRelay (NewRelayServer key) addr (Ok (conn, stream)) e).1.2 = [Sent conn b] ∧
    connection_turn rs2 conn2 zero_address b e2 = Ok (Next rs2' effs zero_address false []) ∧
    p_Conn <$> rs_peers rs2' !! zero_address = Some conn2 ∧ disconnect rs2' zero_address = rs2' ∧
    ∀ header payload layer e', DecryptOnionLayer (mk_slice payload) (rs_PrivateKey rs2') = Ok layer →
      ol_NextHop layer = zero_address → handleRelayForward rs2' conn2 header payload e' = Ok (rs2', []).
Proof.
  intros Hpem Hbytes Hlen Hup Hid.
  set (hs := mkHandshake ProtocolVersion zero_address pem ClientTypeRelay (u64 (e_now e)) []).
  pose proof (len_nonneg pem) as Hnn.
  assert (Handshake_wf hs) as Hwf.
  { split_and!; cbn; [by_decision|by_decision| |by_decision|apply Z.mod_pos_bound; lia|by_decision].
    split; [done|]. unfold in_range. lia. }
  assert (len (Handshake_layout hs) < 2 ^ 32) as Hl.
  { unfold Handshake_layout. cbn [hs hs_ProtocolVersion hs_Address hs_PublicKey hs_ClientType hs_Timestamp hs_Signature].
    rewrite !len_app, !len_be_put, len_cons. change (len zero_address) with 20. rewrite !len_nil. lia. }
  pose proof (ImportExport key pem Hpem) as Hkey.
  pose proof (frame_layout MsgTypeHandshake 0 (e_id e) (Handshake_layout hs)
    ltac:(by_decision) ltac:(by_decision) Hid) as Hf.
  pose proof (handshake_turn rs2 conn2 zero_address hs _ (e_id e) _ [] e2 Hwf Hl Hid Hkey Hf) as Ht.
  rewrite app_nil_r in Ht. eexists _, _, _. split_and!.
  - unfold ConnectToRelay. rewrite bool_decide_false by (cbn; rewrite lookup_empty; by intros [? ?]).
    unfold rs_PublicKey. cbn [NewRelayServer rs_PrivateKey rs_Address]. rewrite Hpem. cbn [mbind outcome_bind].
    fold hs. change (Handshake_Encode hs) with (@wire_encode _ Handshake_wire hs).
    rewrite (@wire_encode_layout _ Handshake_wire hs Hwf). cbn [mbind outcome_bind].
    change (@wire_layout _ Handshake_wire hs) with (Handshake_layout hs). rewrite Hf. cbn [write]. rewrite Hup.
    cbn -[ReadHeader Handshake_layout Header_layout]. by destruct (ReadHeader stream ≫= _).
  - rewrite Ht, andb_false_r. done.
  - cbn. by rewrite lookup_insert_eq.
  - unfold disconnect. by rewrite bool_decide_false by tauto.
  - intros header payload layer e' Hd Hz. unfold handleRelayForward. rewrite Hd. unfold IsDeliveryAddress.
    rewrite Hz. done.
Qed.

(** An onion sent into a chain of relays, each connected to the next, comes out
    at the last one as a direct-message frame with exactly the payload, written
    to the recipient's connection. *)
Theorem relays_forward_onion (path : list (list Z * PrivateKey)) (hops : list hop) (conns : list nat)
    (recipient payload : list Z) (rnd : nat → layer_random) (flags : Z) (id : list Z) :
  path ≠ [] → linked path hops conns recipient → (∀ i, layer_random_ok (rnd i)) →
  Forall (λ p, array 20 p.1) path → array 20 recipient → bytes payload →
  (∀ j onion, build_layers j (relays (drop j path)) recipient payload rnd = Ok onion →
     len onion < 2 ^ 32) →
  in_range 16 flags → array 16 id →
  ∃ onion b last id', BuildOnionLayers (relays path) recipient payload rnd = Ok onion ∧
    frame MsgTypeRelayForward flags id onion = Ok b ∧ relay_chain hops b = Ok (conns, last) ∧
    frame MsgTypeDirectMessage FlagEncrypted id' payload = Ok last.
Proof.
  intros Hne Hlink Hr Hp Hrec Hpay Hfit Hfl Hid.
  destruct (build_layers_peel path recipient payload rnd 0 Hr Hp Hrec Hpay) as (onion & Hb & _).
  pose proof (frame_layout MsgTypeRelayForward flags id onion
    ltac:(by_decision) Hfl Hid) as Hf.
  destruct (chain_build path recipient payload rnd 0 hops conns onion flags id _ Hne Hlink Hr Hp Hrec Hpay
    Hfit Hb Hfl Hid Hf) as (last & id' & Hc & Hl & _).
  exists onion. eexists _, last, id'. split_and!; [by destruct path|done..].
Qed.

(** A client acknowledges every direct message it delivers, with a frame to its
    relay.  The relay does not know the type, does not skip the payload and
    takes it for the next header: it closes the connection and forgets the
    client, unless the client's address begins with the protocol's magic
    number. *)
Theorem ack_disconnects_client (ep : Endpoint) (to messageID : list Z) (seqNum : Z) (time : Z * list Z)
    (rs : RelayServer) (conn : nat) (rest : list Z) (env : nat → renv) (i fuel : nat) :
  ep_connected ep = true → array 20 (ep_Address ep) → array 20 to → array 16 messageID →
  in_range 64 seqNum → array 16 time.2 → be_get (take 4 (ep_Address ep)) ≠ ProtocolMagic →
  (2 ≤ fuel)%nat →
  ∃ b, Inbox.sendAck ep to messageID seqNum time = [Write (Ok b)] ∧
    handleConnection fuel rs conn (ep_Address ep) (b ++ rest) env i
    = Some (Ok (disconnect rs (ep_Address ep), [], [])).
Proof.
  intros Hc Ha Hto Hm Hs Hid Hmagic Hf.
  set (ack := mkAckMessage (ep_Address ep) to messageID seqNum (u64 time.1)).
  assert (AckMessage_wf ack) as Hwf by (do 4 (split; [done|]); apply Z.mod_pos_bound; lia).
  set (h := frame_header MsgTypeAck 0 time.2 (AckMessage_layout ack)).
  assert (Header_wf h) as Hh.
  { apply header_wf; [by_decision..|done|apply u32_range]. }
  exists (Header_layout h ++ AckMessage_layout ack). split.
  - unfold Inbox.sendAck. rewrite Hc. cbn [when]. fold ack.
    change (AckMessage_Encode ack) with (@wire_encode _ AckMessage_wire ack).
    rewrite (@wire_encode_layout _ AckMessage_wire ack Hwf). cbn [mbind outcome_bind].
    unfold WriteHeader. fold (frame_header MsgTypeAck 0 time.2 (AckMessage_layout ack)). fold h.
    by rewrite Header_Encode_layout.
  - destruct fuel as [|[|fuel]]; [lia..|]. rewrite <- (assoc_L (++)). cbn [handleConnection].
    unfold connection_turn at 1. rewrite read_header_layout by done.
    change (h_Type h =? ?t) with (MsgTypeAck =? t). cbn -[handleConnection connection_turn disconnect].
    unfold connection_turn. rewrite ReadHeader_bad_magic; [done| |].
    + unfold AckMessage_layout. destruct Ha as [Ha _], Hto as [Ht _]. rewrite !len_app, !len_be_put.
      unfold len. cbn. rewrite Ha, Ht. lia.
    + unfold AckMessage_layout. cbn [ack ack_From]. destruct Ha as [Ha _].
      rewrite <- (assoc_L (++)). by rewrite take_app_le by lia.
Qed.

End relay_proofs.

(** ** A sample network, on which the hypotheses hold *)

Module RelaySample.
Import OnionSample.
#[local] Existing Instances rsa blake json sample_aes.

(** a key is one byte, and its encoding that byte *)
#[local] Instance x509 : X509 := {|
  pem_Decode d := Some d; pem_EncodePublic d := d;
  ParsePKIXPublicKey d := match d with [k] => Ok (Some k) | _ => Err "invalid" end;
  MarshalPKIXPublicKey k := Ok [k] |}.
#[local] Instance x509_laws : X509Laws.
Proof. constructor; [done|]. by intros k d <-%Ok_inj. Qed.

Definition key1 : PrivateKey := 11.
Definition key2 : PrivateKey := 22.
Definition env : renv := mkRenv (λ _, true) (replicate 16 7) 1700000000 None.
Definition client : list Z := replicate 20 9.
Definition relay_peer (conn : nat) (addr : list Z) : Peer := mkPeer conn addr None ClientTypeRelay 0.
(** a relay with one peer *)
Definition server (key : Z) (addr : list Z) (peer : Peer) : RelayServer :=
  mkRelayServer zero_address key (<[addr := peer]> ∅) None 0 false.

(** three relays, of which the last knows the client *)
Definition hops : list hop :=
  [ mkHop (server 11 (replicate 20 2) (relay_peer 5 (replicate 20 2))) 1 zero_address env;
    mkHop (server 22 (replicate 20 3) (relay_peer 6 (replicate 20 3))) 1 zero_address env;
    mkHop (server 33 client (mkPeer 7 client None ClientTypeUser 0)) 1 zero_address env ].

Definition handshake : HandshakeMessage :=
  mkHandshake ProtocolVersion client [33] ClientTypeUser 1700000000 [].
Definition endpoint : Endpoint := mkEndpoint client true true true true true true true.

(** a queue with a message for the client and one for somebody else *)
Definition queue : RelayMessageQueue :=
  let q := (QueueMessage (NewRelayMessageQueue 0) client (replicate 16 1) [1; 2; 3] 1700000000 None).1 in
  (QueueMessage q (replicate 20 8) (replicate 16 2) [4; 5] 1700000000 None).1.
Definition queue_server : RelayServer :=
  with_queue (server 33 client (mkPeer 7 client None ClientTypeUser 0)) queue.
End RelaySample.

Section witnesses.
#[local] Existing Instances sample_aes sample_aes_laws OnionSample.rsa OnionSample.rsa_laws OnionSample.blake
  OnionSample.blake_laws OnionSample.json OnionSample.json_laws RelaySample.x509 RelaySample.x509_laws.

Lemma queue_flushed_witness :
  ∃ queue' effs, deliverQueuedMessages id RelaySample.queue_server RelaySample.client 1700000001 None
      (λ _, RelaySample.env) = (with_queue RelaySample.queue_server queue', effs) ∧ length effs = 1%nat.
Proof.
  destruct (queue_flushed id RelaySample.queue_server RelaySample.queue RelaySample.client
    (mkPeer 7 RelaySample.client None ClientTypeUser 0) 1700000001 (λ _, RelaySample.env))
    as (queue' & effs & Hd & _ & _ & He).
  - intros l. reflexivity.
  - reflexivity.
  - by_decision.
  - apply lookup_insert_eq.
  - intros _. split_and!; [reflexivity|by_decision|reflexivity].
  - exists queue', effs. split; [exact Hd|]. apply Forall2_length in He. rewrite <- He. vm_compute. reflexivity.
Defined.

Lemma handshake_unverified_witness :
  ∃ payload b rs' effs, Handshake_Encode RelaySample.handshake = Ok payload ∧
    frame MsgTypeHandshake 0 (replicate 16 3) payload = Ok b ∧
    connection_turn RelaySample.queue_server 9 zero_address (b ++ []) RelaySample.env
    = Ok (Next rs' effs RelaySample.client true []) ∧
    p_Conn <$> rs_peers rs' !! RelaySample.client = Some 9%nat.
Proof.
  destruct (handshake_unverified RelaySample.queue_server 9 zero_address RelaySample.handshake 33 (replicate 16 3) []
    RelaySample.env) as (payload & b & rs' & effs & H1 & H2 & H3 & H4 & _).
  - by_decision.
  - vm_compute. reflexivity.
  - by_decision.
  - reflexivity.
  - exists payload, b, rs', effs. split_and!; [exact H1|exact H2|exact H3|exact H4].
Defined.

Lemma relay_introduced_as_zero_witness :
  ∃ b rs2' effs,
    (ConnectToRelay (NewRelayServer RelaySample.key1) (replicate 20 2) (Ok (4%nat, [])) RelaySample.env).1.2
    = [Sent 4 b] ∧
    connection_turn (NewRelayServer RelaySample.key2) 5 zero_address b RelaySample.env
    = Ok (Next rs2' effs zero_address false []).
Proof.
  destruct (relay_introduced_as_zero RelaySample.key1 [11] (NewRelayServer RelaySample.key2) (replicate 20 2) [] 4 5
    RelaySample.env RelaySample.env) as (b & rs2' & effs & H1 & H2 & _).
  - reflexivity.
  - by_decision.
  - vm_compute. reflexivity.
  - reflexivity.
  - by_decision.
  - exists b, rs2', effs. split; [exact H1|exact H2].
Defined.

Lemma relays_forward_onion_witness :
  ∃ onion b last id', BuildOnionLayers (relays OnionSample.path) RelaySample.client [1; 2; 3] OnionSample.rnd = Ok onion ∧
    frame MsgTypeRelayForward 0 (replicate 16 3) onion = Ok b ∧
    relay_chain RelaySample.hops b = Ok ([5; 6; 7]%nat, last) ∧
    frame MsgTypeDirectMessage FlagEncrypted id' [1; 2; 3] = Ok last.
Proof.
  apply (relays_forward_onion OnionSample.path RelaySample.hops [5; 6; 7]%nat).
  - done.
  - repeat (split; [first [by_decision|reflexivity]|]). cbn -[lookup].
    split_and!; try by_decision; try done; eexists; (split; [apply lookup_insert_eq|by split]).
  - intros i. by exists (replicate 32 4), (replicate 12 5); split_and!; try done; by_decision.
  - by_decision.
  - by_decision.
  - by_decision.
  - intros j onion E.
    assert (match build_layers j (relays (drop j OnionSample.path)) RelaySample.client [1; 2; 3] OnionSample.rnd with
            | Ok o => len o <? 2 ^ 32 | _ => true end = true) as Hb
      by (destruct j as [|[|[|[|j]]]]; vm_compute; reflexivity).
    rewrite E in Hb. by apply Z.ltb_lt in Hb.
  - by_decision.
  - by_decision.
Defined.

Lemma ack_disconnects_client_witness :
  ∃ b, Inbox.sendAck RelaySample.endpoint (replicate 20 8) (replicate 16 1) 4 (1000, replicate 16 7) = [Write (Ok b)] ∧
    handleConnection 2 RelaySample.queue_server 7 RelaySample.client (b ++ []) (λ _, RelaySample.env) 0
    = Some (Ok (disconnect RelaySample.queue_server RelaySample.client, [], [])).
Proof.
  apply (ack_disconnects_client RelaySample.endpoint (replicate 20 8) (replicate 16 1) 4 (1000, replicate 16 7)
    RelaySample.queue_server 7 [] (λ _, RelaySample.env) 0 2); first [by_decision|reflexivity|lia|vm_compute; congruence].
Defined.

End witnesses.
