(* ===== verification/RelayRun.v ===== *)
(** * Runs of a relay server

    The server's goroutines as a transition system: one per connection, whose
    steps are the turns of its loop; one per delivery of queued messages, whose
    steps are the query, the look-up of the recipient's connection, and the
    messages one by one; connections to other relays; and the queue's cleanup.
    The steps of different goroutines interleave in any way.  Three components
    of the state only record history. *)

From S2P Require Import Prelude GoBytes NodeID Wire WireGroups Padding Aes DhtStore Onion OnionProofs Inbox RelayQueue Relay DhtSample RelayProofs.

(** a goroutine of [deliverQueuedMessages]: before its query, before it looks up
    the connection, and while sending *)
Inductive task :=
  | Waiting (addr : list Z)
  | Queried (addr : list Z) (msgs : list QueuedMessage)
  | Sending (conn : nat) (msgs : list QueuedMessage).

Section run.
Context `{AesGcm} `{X509} `{Blake2b} `{Json OnionLayer}.
Context (order : list QueuedMessage → list QueuedMessage).

Record world := mkWorld {
  w_rs : RelayServer;
  (** open connections: the address bound to it, and the input still to come *)
  w_conns : gmap nat (list Z * list Z);
  w_tasks : list task; w_time : Z;
  (** history: what was written, the rows ever queued, and the entries the
      table of peers ever had *)
  w_out : list reffect; w_queued : list QueuedMessage; w_entries : list (list Z * nat) }.

Definition rows (rs : RelayServer) : list QueuedMessage :=
  from_option q_rows [] (rs_messageQueue rs).
Definition entries (rs : RelayServer) : list (list Z * nat) := map_to_list (p_Conn <$> rs_peers rs).

(** the identifier drawn for a message has not been drawn before *)
Definition fresh_id (w : world) (e : renv) : Prop :=
  e_now e = w_time w ∧ hex_encode (e_id e) ∉ qm_MessageID <$> w_queued w.

(** the server changed: the history follows *)
Definition update (w : world) (rs : RelayServer) (conns : gmap nat (list Z * list Z)) (tasks : list task)
  (effs : list reffect) : world :=
  mkWorld rs conns tasks (w_time w) (w_out w ++ effs)
    (w_queued w ++ drop (length (rows (w_rs w))) (rows rs)) (w_entries w ++ entries rs).

Inductive step (w : world) : world → Prop :=
  | step_accept c stream :
      w_conns w !! c = None →
      step w (update w (w_rs w) (<[c := (zero_address, stream)]> (w_conns w)) (w_tasks w) [])
  | step_connect addr dial e rs effs c stream :
      ConnectToRelay (w_rs w) addr dial e = (rs, effs, Ok (Some (c, stream))) →
      w_conns w !! c = None →
      step w (update w rs (<[c := (zero_address, stream)]> (w_conns w)) (w_tasks w) effs)
  | step_turn c pa stream e rs effs pa' start rest :
      w_conns w !! c = Some (pa, stream) → fresh_id w e →
      connection_turn (w_rs w) c pa stream e = Ok (Next rs effs pa' start rest) →
      step w (update w rs (<[c := (pa', rest)]> (w_conns w))
                (w_tasks w ++ if start then [Waiting pa'] else []) effs)
  | step_close c pa stream e :
      w_conns w !! c = Some (pa, stream) → connection_turn (w_rs w) c pa stream e = Ok Stop →
      step w (update w (disconnect (w_rs w) pa) (delete c (w_conns w)) (w_tasks w) [])
  | step_query k addr queue msgs dberr :
      w_tasks w !! k = Some (Waiting addr) → rs_messageQueue (w_rs w) = Some queue →
      GetQueuedMessages order queue addr (w_time w) dberr = Ok msgs →
      step w (update w (w_rs w) (w_conns w) (<[k := Queried addr msgs]> (w_tasks w)) [])
  | step_lookup k addr msgs peer :
      w_tasks w !! k = Some (Queried addr msgs) → rs_peers (w_rs w) !! addr = Some peer →
      step w (update w (w_rs w) (w_conns w) (<[k := Sending (p_Conn peer) msgs]> (w_tasks w)) [])
  | step_send k conn msg msgs queue queue' e effs :
      w_tasks w !! k = Some (Sending conn (msg :: msgs)) → rs_messageQueue (w_rs w) = Some queue →
      e_now e = w_time w → deliver_queued queue conn msg e = (queue', effs) →
      step w (update w (with_queue (w_rs w) queue') (w_conns w) (<[k := Sending conn msgs]> (w_tasks w)) effs)
  | step_exit k :
      (** nothing left to send, a failed query, or a recipient that has gone *)
      step w (update w (w_rs w) (w_conns w) (delete k (w_tasks w)) [])
  | step_cleanup queue dberr :
      rs_messageQueue (w_rs w) = Some queue →
      step w (update w (with_queue (w_rs w) (cleanupExpiredMessages queue (w_time w) dberr)) (w_conns w)
                (w_tasks w) [])
  | step_time t :
      w_time w ≤ t →
      step w (mkWorld (w_rs w) (w_conns w) (w_tasks w) t (w_out w) (w_queued w) (w_entries w)).

(** a relay that has just started, with an empty queue *)
Definition started (key : PrivateKey) (ttl t : Z) : world :=
  mkWorld (AttachMessageQueue (NewRelayServer key) (NewRelayMessageQueue ttl)) ∅ [] t [] [] [].

(** ** The invariant *)

(** the payload was written to a connection that was registered for the recipient *)
Definition delivered (w : world) (m : QueuedMessage) : Prop :=
  ∃ addr conn id b, qm_RecipientAddr m = hex_encode addr ∧ (addr, conn) ∈ w_entries w ∧
    frame MsgTypeDirectMessage FlagEncrypted id (qm_EncryptedPayload m) = Ok b ∧
    Sent conn b ∈ w_out w.

(** what a delivery holds are rows for the address whose connection it writes to *)
Definition held (w : world) (addr : list Z) (msgs : list QueuedMessage) : Prop :=
  ∀ m, m ∈ msgs → m ∈ w_queued w ∧ qm_RecipientAddr m = hex_encode addr.
Definition task_ok (w : world) (t : task) : Prop :=
  match t with
  | Waiting _ => True
  | Queried addr msgs => held w addr msgs
  | Sending conn msgs => ∃ addr, (addr, conn) ∈ w_entries w ∧ held w addr msgs
  end.

Record invariant (w : world) : Prop := {
  inv_ids : NoDup (qm_MessageID <$> w_queued w);
  inv_rows : ∀ m, m ∈ rows (w_rs w) → m ∈ w_queued w;
  inv_kept : ∀ m, m ∈ w_queued w →
    m ∈ rows (w_rs w) ∨ delivered w m ∨ qm_ExpiresAt m ≤ w_time w;
  inv_peers : ∀ addr peer, rs_peers (w_rs w) !! addr = Some peer → (addr, p_Conn peer) ∈ w_entries w;
  inv_tasks : ∀ t, t ∈ w_tasks w → task_ok w t }.

Lemma entries_lookup rs addr peer :
  rs_peers rs !! addr = Some peer → (addr, p_Conn peer) ∈ entries rs.
Proof. intros Hp. apply elem_of_map_to_list. by rewrite lookup_fmap, Hp. Qed.

(** histories only grow *)
Lemma delivered_mono w w' m :
  w_out w ⊆ w_out w' → w_entries w ⊆ w_entries w' → delivered w m → delivered w' m.
Proof.
  intros Ho He (addr & conn & id & b & Hr & Hb & Hf & Hs).
  exists addr, conn, id, b. split_and!; [done|by apply He|done|by apply Ho].
Qed.

Lemma held_mono w w' addr msgs : w_queued w ⊆ w_queued w' → held w addr msgs → held w' addr msgs.
Proof. intros Hq Hh m Hm. destruct (Hh m Hm). split; [by apply Hq|done]. Qed.

Lemma task_ok_mono w w' t :
  w_queued w ⊆ w_queued w' → w_entries w ⊆ w_entries w' → task_ok w t → task_ok w' t.
Proof.
  intros Hq He. destruct t as [|addr msgs|conn msgs]; [done|by apply held_mono|].
  intros (addr & Hb & Hh). exists addr. split; [by apply He|by eapply held_mono].
Qed.

(** An update preserves the invariant when it adds rows at the end under fresh
    identifiers, or removes rows that were delivered or have expired, and its
    tasks hold what they may. *)
Lemma update_invariant w rs conns tasks effs new :
  invariant w → let w' := update w rs conns tasks effs in
  (∀ m, m ∈ rows rs → m ∈ rows (w_rs w) ∨ m ∈ new) →
  drop (length (rows (w_rs w))) (rows rs) = new →
  (∀ m, m ∈ rows (w_rs w) → m ∈ rows rs ∨ delivered w' m ∨ qm_ExpiresAt m ≤ w_time w) →
  NoDup (qm_MessageID <$> w_queued w ++ new) →
  (∀ t, t ∈ tasks → task_ok w' t) → invariant w'.
Proof.
  intros Hinv w' Hrows Hdrop Hkept Hids Htasks. subst w'. split; cbn -[drop].
  - by rewrite Hdrop.
  - intros m Hm. rewrite Hdrop. apply elem_of_app. destruct (Hrows m Hm) as [Ho|Hn]; [|by right].
    left. by apply (inv_rows w Hinv).
  - intros m. rewrite elem_of_app, Hdrop. intros [Hm|Hm].
    + destruct (inv_kept w Hinv m Hm) as [Hr|[Hd|Ht]]; [by apply Hkept| |auto].
      right. left. eapply delivered_mono; [..|exact Hd]; cbn; set_solver.
    + left. rewrite <- Hdrop in Hm. rewrite <- (take_drop (length (rows (w_rs w))) (rows rs)).
      apply elem_of_app. by right.
  - intros addr peer Hp. apply elem_of_app. right. by apply entries_lookup.
  - done.
Qed.

Lemma update_same_rows w rs conns tasks effs :
  invariant w → rows rs = rows (w_rs w) →
  (∀ t, t ∈ tasks → task_ok (update w rs conns tasks effs) t) →
  invariant (update w rs conns tasks effs).
Proof.
  intros Hinv Hr Ht. apply (update_invariant _ _ _ _ _ []); [done| | | | |done].
  - intros m. rewrite Hr. auto.
  - by rewrite Hr, drop_all.
  - intros m. rewrite Hr. auto.
  - rewrite app_nil_r. by apply inv_ids.
Qed.

(** tasks that were there before, whatever the update *)
Lemma old_task_ok w rs conns tasks effs t :
  invariant w → t ∈ w_tasks w → task_ok (update w rs conns tasks effs) t.
Proof.
  intros Hinv Ht. eapply task_ok_mono; [..|by apply inv_tasks]; cbn; set_solver.
Qed.

Lemma replaced_task_ok w rs conns tasks effs k t0 t :
  invariant w → task_ok (update w rs conns tasks effs) t0 → t ∈ <[k := t0]> (w_tasks w) →
  task_ok (update w rs conns tasks effs) t.
Proof.
  intros Hinv Hok Ht. apply list_elem_of_lookup in Ht as [j Hj].
  destruct (decide (j = k)) as [->|].
  - apply list_lookup_insert_Some in Hj as [(_ & -> & _)|[? _]]; done.
  - rewrite list_lookup_insert_ne in Hj by done. eapply old_task_ok; [done|]. by eapply list_elem_of_lookup_2.
Qed.

(** ** What the operations do to the rows *)

Lemma deliverMessage_rows rs addr payload e :
  rows (deliverMessage rs addr payload e).1.1 = rows rs ∨
  ∃ m, rows (deliverMessage rs addr payload e).1.1 = rows rs ++ [m] ∧ qm_MessageID m = hex_encode (e_id e).
Proof.
  unfold deliverMessage. destruct (rs_peers rs !! addr) as [peer|].
  - destruct (write _ _ _). by left.
  - destruct (rs_messageQueue rs) as [q|] eqn:Eq; [|by left]. unfold QueueMessage, rows.
    destruct (e_dberr e); [left; by rewrite Eq|]. case_bool_decide; [left; by rewrite Eq|].
    right. rewrite Eq. eexists. split; [done|]. done.
Qed.

Lemma handleRelayForward_rows rs conn header payload e rs' effs :
  handleRelayForward rs conn header payload e = Ok (rs', effs) →
  rows rs' = rows rs ∨ ∃ m, rows rs' = rows rs ++ [m] ∧ qm_MessageID m = hex_encode (e_id e).
Proof.
  unfold handleRelayForward. destruct (DecryptOnionLayer _ _) as [layer|s|]; [|intros E; simplify_eq; by left|done].
  destruct (IsDeliveryAddress _); [intros E; simplify_eq; by left|].
  pose proof (deliverMessage_rows rs (ol_NextHop layer) (ol_Payload layer) e) as Hd.
  destruct (deliverMessage rs (ol_NextHop layer) (ol_Payload layer) e) as [[rs1 effs1] r1].
  destruct (rs_peers rs !! ol_NextHop layer) as [peer|]; [|intros E; by simplify_eq].
  destruct (_ =? _); intros E%Ok_inj; apply (f_equal fst) in E; cbn in E; subst; cbn; [by left|done].
Qed.

Lemma handleHandshake_rows rs conn header payload e rs' effs pa start :
  handleHandshake rs conn header payload e = Ok (rs', effs, pa, start) → rows rs' = rows rs.
Proof.
  unfold handleHandshake. destruct (RemoveMessagePadding _) as [p|s|]; [| |done];
    (destruct (Handshake_Decode _) as [hs|s'|]; [|intros E; by simplify_eq|done]);
    (destruct (ImportPublicKeyPEM _) as [key|s''|]; [|intros E; by simplify_eq|done]);
    intros E%Ok_inj; apply (f_equal (λ x, x.1.1.1)) in E; cbn in E; by subst.
Qed.

Definition server_of (t : outcome turn) (rs : RelayServer) : RelayServer :=
  match t with Ok (Next rs' _ _ _ _) => rs' | _ => rs end.

Lemma turn_rows rs c pa stream e :
  let rs' := server_of (connection_turn rs c pa stream e) rs in
  rows rs' = rows rs ∨ ∃ m, rows rs' = rows rs ++ [m] ∧ qm_MessageID m = hex_encode (e_id e).
Proof.
  unfold connection_turn. destruct (ReadHeader stream) as [[h st]| |]; [|by left..].
  destruct (_ =? _); [|destruct (_ =? _)].
  - destruct (read_payload h st) as [[payload|] st']; [|by left].
    destruct (handleHandshake _ _ _ _ _) as [[[[? ?] ?] ?]| |] eqn:E; [|by left..].
    left. by eapply handleHandshake_rows.
  - destruct (read_payload h st) as [[payload|] st']; [|by left].
    destruct (handleRelayForward _ _ _ _ _) as [[? ?]| |] eqn:E; [|by left..].
    by eapply handleRelayForward_rows.
  - destruct (_ =? _); by left.
Qed.

Lemma ConnectToRelay_rows rs addr dial e :
  rows (ConnectToRelay rs addr dial e).1.1 = rows rs.
Proof.
  unfold ConnectToRelay. case_bool_decide; [done|]. destruct dial as [[conn stream]| |]; [|done..].
  destruct (write _ _ _) as [effs r]. by destruct (_ ← r; _).
Qed.

Lemma disconnect_rows rs pa : rows (disconnect rs pa) = rows rs.
Proof. unfold disconnect. by case_bool_decide. Qed.

Lemma deliver_queued_rows queue conn msg e queue' effs :
  deliver_queued queue conn msg e = (queue', effs) →
  q_rows queue' = q_rows queue ∨
  (q_rows queue' = filter (λ m, qm_MessageID m ≠ qm_MessageID msg) (q_rows queue) ∧
   ∃ b, frame MsgTypeDirectMessage FlagEncrypted (e_id e) (qm_EncryptedPayload msg) = Ok b ∧
     Sent conn b ∈ effs).
Proof.
  unfold deliver_queued, write. destruct (frame _ _ _ _) as [b| |] eqn:Eb; [|intros E; simplify_eq; by left..].
  destruct (e_up e conn); [|intros E; simplify_eq; by left].
  intros E; simplify_eq. unfold DeleteMessage. destruct (e_dberr e); [by left|].
  right. split; [done|]. exists b. split; [done|]. by apply list_elem_of_singleton.
Qed.

(** rows with the same identifier are the same row *)
Lemma ids_inj w m m' :
  invariant w → m ∈ w_queued w → m' ∈ w_queued w → qm_MessageID m = qm_MessageID m' → m = m'.
Proof.
  intros Hinv. apply NoDup_fmap_inj. by apply inv_ids.
Qed.

(** ** Preservation *)

Context (Horder : ∀ l, order l ≡ₚ l).

Lemma query_held w queue addr msgs dberr :
  invariant w → rs_messageQueue (w_rs w) = Some queue →
  GetQueuedMessages order queue addr (w_time w) dberr = Ok msgs → held w addr msgs.
Proof.
  intros Hinv Hq. unfold GetQueuedMessages. destruct dberr; [done|]. intros <-%Ok_inj m Hm.
  rewrite Horder in Hm. apply list_elem_of_filter in Hm as [[Ha _] Hm]. split; [|done].
  apply (inv_rows w Hinv). unfold rows. by rewrite Hq.
Qed.

Lemma turn_invariant w c pa stream e rs effs pa' start rest conns :
  invariant w → fresh_id w e → connection_turn (w_rs w) c pa stream e = Ok (Next rs effs pa' start rest) →
  invariant (update w rs conns (w_tasks w ++ if start then [Waiting pa'] else []) effs).
Proof.
  intros Hinv [_ Hid] Ht.
  assert (∀ t, t ∈ w_tasks w ++ (if start then [Waiting pa'] else []) →
            task_ok (update w rs conns (w_tasks w ++ if start then [Waiting pa'] else []) effs) t) as Htasks.
  { intros t [Ho|Hn]%elem_of_app; [by apply old_task_ok|]. destruct start; [|by apply not_elem_of_nil in Hn].
    by apply list_elem_of_singleton in Hn as ->. }
  pose proof (turn_rows (w_rs w) c pa stream e) as Hr. rewrite Ht in Hr. cbn in Hr.
  destruct Hr as [Hr|(m & Hr & Hm)]; [by apply update_same_rows|].
  apply (update_invariant _ _ _ _ _ [m]); [done| | | | |done].
  - intros m'. rewrite Hr. apply elem_of_app.
  - by rewrite Hr, drop_app_length.
  - intros m' Hm'. left. rewrite Hr. apply elem_of_app. by left.
  - rewrite fmap_app. apply NoDup_app. split_and!; [by apply inv_ids| |by apply NoDup_singleton].
    intros x Hx [= ->]%list_elem_of_singleton. by rewrite Hm in Hx.
Qed.

(** rows are only taken out *)
Lemma filter_invariant w queue queue' tasks effs conns P `{∀ m, Decision (P m)} :
  invariant w → rs_messageQueue (w_rs w) = Some queue → q_rows queue' = filter P (q_rows queue) →
  let w' := update w (with_queue (w_rs w) queue') conns tasks effs in
  (∀ m, m ∈ w_queued w → ¬ P m → delivered w' m ∨ qm_ExpiresAt m ≤ w_time w) →
  (∀ t, t ∈ tasks → task_ok w' t) → invariant w'.
Proof.
  intros Hinv Hq Hf w' Hd Ht. subst w'. assert (rows (w_rs w) = q_rows queue) as Hr by (unfold rows; by rewrite Hq).
  apply (update_invariant _ _ _ _ _ []); [done| | | | |done]; rewrite ?Hr; cbn.
  - intros m. rewrite Hf, list_elem_of_filter. intros [_ ?]. by left.
  - apply drop_ge. rewrite Hf. apply length_filter.
  - intros m Hm. destruct (decide (P m)) as [Hp|Hp].
    + left. rewrite Hf. by apply list_elem_of_filter.
    + right. apply Hd; [|done]. apply (inv_rows w Hinv). by rewrite Hr.
  - rewrite app_nil_r. by apply inv_ids.
Qed.

Lemma send_invariant w k conn msg msgs queue queue' e effs :
  invariant w → w_tasks w !! k = Some (Sending conn (msg :: msgs)) → rs_messageQueue (w_rs w) = Some queue →
  deliver_queued queue conn msg e = (queue', effs) →
  invariant (update w (with_queue (w_rs w) queue') (w_conns w) (<[k := Sending conn msgs]> (w_tasks w)) effs).
Proof.
  intros Hinv Hk Hq Hd. set (w' := update _ _ _ _ _).
  destruct (inv_tasks w Hinv (Sending conn (msg :: msgs))) as (addr & Ha & Hheld); [by eapply list_elem_of_lookup_2|].
  assert (∀ t, t ∈ <[k := Sending conn msgs]> (w_tasks w) → task_ok w' t) as Ht.
  { intros t. apply replaced_task_ok; [done|]. exists addr. split; [cbn; set_solver|].
    intros m Hm. destruct (Hheld m) as [? ?]; [by right|]. split; [cbn; set_solver|done]. }
  destruct (deliver_queued_rows _ _ _ _ _ _ Hd) as [Hr|(Hr & b & Hb & Hs)].
  - apply update_same_rows; [done| |done]. unfold rows. by rewrite Hq.
  - eapply filter_invariant; [done|done|exact Hr| |done]. intros m Hm Hid%dec_stable. left.
    destruct (Hheld msg) as [Hmsg Hrec]; [by left|].
    rewrite (ids_inj w m msg Hinv Hm Hmsg Hid). exists addr, conn, (e_id e), b.
    split_and!; [done|cbn; set_solver|done|cbn; set_solver].
Qed.

Lemma step_invariant w w' : invariant w → step w w' → invariant w'.
Proof.
  intros Hinv Hs. destruct Hs.
  - apply update_same_rows; [done..|]. intros t Ht. by apply old_task_ok.
  - apply update_same_rows; [done| |intros t Ht; by apply old_task_ok].
    pose proof (ConnectToRelay_rows (w_rs w) addr dial e) as Hr.
    match goal with E : ConnectToRelay _ _ _ _ = _ |- _ => by rewrite E in Hr end.
  - by eapply turn_invariant.
  - apply update_same_rows; [done|apply disconnect_rows|]. intros t Ht. by apply old_task_ok.
  - apply update_same_rows; [done..|]. intros t. apply replaced_task_ok; [done|].
    eapply held_mono; [|by eapply query_held]. cbn. set_solver.
  - apply update_same_rows; [done..|]. intros t. apply replaced_task_ok; [done|]. exists addr. split.
    + cbn. apply elem_of_app. left. by apply inv_peers.
    + assert (task_ok w (Queried addr msgs)) as Hh by (apply inv_tasks; [done|]; by eapply list_elem_of_lookup_2).
      eapply held_mono; [|exact Hh]. cbn. set_solver.
  - by eapply send_invariant.
  - apply update_same_rows; [done..|]. intros t Ht. apply old_task_ok; [done|].
    rewrite delete_take_drop in Ht. apply elem_of_app in Ht as [Ht|Ht].
    + rewrite <- (take_drop k (w_tasks w)). apply elem_of_app. by left.
    + rewrite <- (take_drop (S k) (w_tasks w)). apply elem_of_app. by right.
  - unfold cleanupExpiredMessages. destruct dberr.
    + apply update_same_rows; [done|unfold rows; by simplify_option_eq|]. intros t Ht. by apply old_task_ok.
    + eapply filter_invariant; [done|done|done| |].
      * intros m _ Hn. right. by apply dec_stable in Hn.
      * intros t Ht. by apply old_task_ok.
  - destruct Hinv as [Hi Hr Hk Hp Ht]. split; cbn; [done|done| |done|done].
    intros m Hm. destruct (Hk m Hm) as [?|[?|?]]; [by left|by right; left|right; right; lia].
Qed.

Lemma started_invariant key ttl t : invariant (started key ttl t).
Proof.
  split; cbn; [apply NoDup_nil_2|done|intros m Hm; by apply not_elem_of_nil in Hm| |].
  - intros addr peer Hp. by rewrite lookup_empty in Hp.
  - intros t' Ht. by apply not_elem_of_nil in Ht.
Qed.

(** C5: A message queued for an absent recipient is not lost, however the server's
    goroutines interleave: at any time it is still in the table, or its payload
    was written to a connection that was registered for the recipient, or it has
    expired. *)
Theorem queued_messages_not_lost (key : PrivateKey) (ttl t : Z) (w : world) (m : QueuedMessage) :
  rtc step (started key ttl t) w → m ∈ w_queued w →
  m ∈ rows (w_rs w) ∨ delivered w m ∨ qm_ExpiresAt m ≤ w_time w.
Proof.
  intros Hrun. apply inv_kept. eapply (rtc_ind_r invariant); [|..|exact Hrun].
  - apply started_invariant.
  - intros y z _ Hs Hi. by eapply step_invariant.
Qed.
End run.

(** ** A sample run *)

Module RunSample.
#[local] Existing Instances sample_aes OnionSample.rsa OnionSample.blake OnionSample.json RelaySample.x509.

(** a client sends one onion, for somebody who is not connected *)
Definition stream : list Z :=
  match BuildOnionLayers (relays [(replicate 20 3, OnionSample.secret)]) RelaySample.client [1; 2; 3] OnionSample.rnd with
  | Ok onion => match frame MsgTypeRelayForward 0 (replicate 16 3) onion with Ok b => b | _ => [] end
  | _ => []
  end.
Definition w0 : world := started OnionSample.secret 0 1700000000.
Definition w1 : world := update w0 (w_rs w0) (<[0%nat := (zero_address, stream)]> (w_conns w0)) (w_tasks w0) [].
Definition next : outcome turn := connection_turn (w_rs w1) 0 zero_address stream RelaySample.env.
Definition w2 : world :=
  match next with
  | Ok (Next rs effs pa start rest) =>
      update w1 rs (<[0%nat := (pa, rest)]> (w_conns w1)) (w_tasks w1 ++ if start then [Waiting pa] else []) effs
  | _ => w1
  end.

Lemma run order : rtc (step order) w0 w2.
Proof.
  apply (rtc_l _ _ w1); [by apply step_accept|]. apply rtc_once. unfold w2.
  assert (match next with Ok (Next _ _ _ _ _) => true | _ => false end = true) as Hn by (vm_compute; reflexivity).
  destruct next as [[|rs effs pa start rest]| |] eqn:E; [done| |done|done].
  eapply step_turn; [apply lookup_insert_eq| |exact E]. split; [done|]. apply not_elem_of_nil.
Qed.
End RunSample.

Section witnesses.
#[local] Existing Instances sample_aes OnionSample.rsa OnionSample.blake OnionSample.json RelaySample.x509.

Lemma queued_messages_not_lost_witness :
  ∃ m, m ∈ w_queued RunSample.w2 ∧
    (m ∈ rows (w_rs RunSample.w2) ∨ delivered RunSample.w2 m ∨ qm_ExpiresAt m ≤ w_time RunSample.w2).
Proof.
  assert (length (w_queued RunSample.w2) = 1%nat) as Hl by (vm_compute; reflexivity).
  destruct (w_queued RunSample.w2) as [|m l] eqn:E; [discriminate Hl|].
  assert (m ∈ w_queued RunSample.w2) as Hm by (rewrite E; left).
  exists m. split; [left|].
  apply (queued_messages_not_lost id (λ l, Permutation_refl l) OnionSample.secret 0 1700000000 RunSample.w2 m);
    [apply RunSample.run|exact Hm].
Defined.
End witnesses.
