(* ===== verification/RelayDiscovery.v ===== *)
(** * Finding relays: relay_metadata.go, relay_discovery.go, guard_relays.go and
    relay_path_builder.go of pkg/network

    Relay records are values: their pointers are only shared for reading.  The
    guard manager of a client and the client share one [RelayDiscovery], which
    is passed along.  The clock is read once per operation.  The iteration
    order of maps, the draws of [rand.Int] and [rand.Intn] and the shuffle are
    arguments; a draw that runs out of random numbers is still running, [None].
    Floating-point operations round one by one. *)

From Stdlib Require Import SpecFloat.
From S2P Require Import Prelude GoBytes NodeID DhtStore Onion Relay.

(** ** relay_metadata.go *)

Record RelayMetadata := mkRelayMetadata {
  md_Address : list Z; md_NetworkAddress : gostring; md_PublicKeyPEM : gostring; md_Region : gostring;
  md_Operator : gostring; md_Version : gostring; md_MaxConnections : Z; md_Uptime : Z; md_LastSeen : Z;
  md_Latency : Z; md_PacketLoss : spec_float; md_Reliability : spec_float }.

#[export] Instance spec_float_eq_dec : EqDecision spec_float.
Proof. solve_decision. Defined.
#[export] Instance RelayMetadata_eq_dec : EqDecision RelayMetadata.
Proof. solve_decision. Defined.

Definition fadd := SFadd 53 1024.
Definition fsub := SFsub 53 1024.
Definition fmul := SFmul 53 1024.
Definition fdiv := SFdiv 53 1024.
(** the literal [a / 10] *)
Definition tenths (a : Z) : spec_float := fdiv (f64_of a) (f64_of 10).
Definition f0 : spec_float := f64_of 0.

Definition Minute : Z := 60 * Second.
Definition Hour : Z := 60 * Minute.

(** [time.Since(time.Unix(s, 0))] *)
Definition Since (now s : Z) : Z := time_Sub now (s * Second).

Definition IsHealthy (r : RelayMetadata) (maxAge now : Z) : bool :=
  let age := Since now (md_LastSeen r) in
  if maxAge <? age then false
  else if SFltb f0 (md_Reliability r) && SFltb (md_Reliability r) (tenths 5) then false
  else if SFltb f0 (md_PacketLoss r) && SFltb (tenths 3) (md_PacketLoss r) then false
  else true.

Definition recency_score (age : Z) : spec_float :=
  if 24 * Hour <? age then f0
  else if Hour <? age then
    fmul (f64_of 30) (fsub (f64_of 1) (fdiv (f64_of age) (fmul (f64_of 24) (Seconds Hour))))
  else f64_of 30.
Definition latency_score (latency : Z) : spec_float :=
  if 500 <? latency then f0
  else if 100 <? latency then
    fmul (f64_of 20) (fsub (f64_of 1) (fdiv (f64_of (s64 (latency - 100))) (f64_of 400)))
  else f64_of 20.

Definition CalculateScore (r : RelayMetadata) (now : Z) : spec_float :=
  let score := f64_of 100 in
  let score := fadd score (recency_score (Since now (md_LastSeen r))) in
  let score := if SFltb f0 (md_Reliability r) then fadd score (fmul (md_Reliability r) (f64_of 30))
               else fadd score (f64_of 15) in
  let score := if 0 <? md_Latency r then fadd score (latency_score (md_Latency r))
               else fadd score (f64_of 10) in
  let score := if SFleb f0 (md_PacketLoss r) then
                 fadd score (fmul (fsub (f64_of 1) (md_PacketLoss r)) (f64_of 10))
               else fadd score (f64_of 5) in
  let uptimeHours := fdiv (f64_of (md_Uptime r)) (f64_of 3600) in
  if SFltb (f64_of 168) uptimeHours then fadd score (f64_of 10)
  else fadd score (fmul (fdiv uptimeHours (f64_of 168)) (f64_of 10)).

(** ** relay_discovery.go *)

Record RelayHealthInfo := mkRelayHealthInfo {
  hi_LastPing : option Z; hi_PingCount : Z; hi_FailureCount : Z; hi_SuccessCount : Z; hi_AverageLatency : Z;
  hi_LastError : option string; hi_ConsecutiveFails : Z }.

(** [rd_dhtNode]: whether there is one; [rd_lastRefresh]: [None] is the zero time *)
Record RelayDiscovery := mkRelayDiscovery {
  rd_dhtNode : bool; rd_knownRelays : gmap (list Z) RelayMetadata; rd_relayHealth : gmap (list Z) RelayHealthInfo;
  rd_blacklist : gmap (list Z) Z; rd_lastRefresh : option Z; rd_refreshPeriod : Z }.

Definition NewRelayDiscovery (dhtNode : bool) : RelayDiscovery :=
  mkRelayDiscovery dhtNode ∅ ∅ ∅ None (5 * Minute).

Definition with_known (rd : RelayDiscovery) (m : gmap (list Z) RelayMetadata) : RelayDiscovery :=
  mkRelayDiscovery (rd_dhtNode rd) m (rd_relayHealth rd) (rd_blacklist rd) (rd_lastRefresh rd) (rd_refreshPeriod rd).
Definition with_blacklist (rd : RelayDiscovery) (b : gmap (list Z) Z) : RelayDiscovery :=
  mkRelayDiscovery (rd_dhtNode rd) (rd_knownRelays rd) (rd_relayHealth rd) b (rd_lastRefresh rd) (rd_refreshPeriod rd).
Definition with_health (rd : RelayDiscovery) (h : gmap (list Z) RelayHealthInfo) : RelayDiscovery :=
  mkRelayDiscovery (rd_dhtNode rd) (rd_knownRelays rd) h (rd_blacklist rd) (rd_lastRefresh rd) (rd_refreshPeriod rd).

Definition AddKnownRelay (rd : RelayDiscovery) (metadata : RelayMetadata) : RelayDiscovery :=
  with_known rd (<[md_Address metadata := metadata]> (rd_knownRelays rd)).
Definition GetRelayCount (rd : RelayDiscovery) : Z := Z.of_nat (size (rd_knownRelays rd)).
Definition GetKnownRelays (rd : RelayDiscovery) : list RelayMetadata := snd <$> map_to_list (rd_knownRelays rd).

Definition set_last_seen (r : RelayMetadata) (t : Z) : RelayMetadata :=
  mkRelayMetadata (md_Address r) (md_NetworkAddress r) (md_PublicKeyPEM r) (md_Region r) (md_Operator r)
    (md_Version r) (md_MaxConnections r) (md_Uptime r) t (md_Latency r) (md_PacketLoss r) (md_Reliability r).

(** [stored] is what the DHT's [Store] answers for the encoded record.  The
    record is the caller's, and is changed in any case. *)
Definition PublishRelay `{Json RelayMetadata} (rd : RelayDiscovery) (metadata : RelayMetadata) (now : Z)
  (stored : list Z → outcome unit) : RelayDiscovery * RelayMetadata * outcome unit :=
  if negb (rd_dhtNode rd) then (rd, metadata, Err "DHT node not initialized")
  else
    let metadata := set_last_seen metadata (Unix now) in
    match wrap_err "failed to encode relay metadata: " (json_marshal metadata) with
    | Ok data =>
        match wrap_err "failed to publish to DHT: " (stored data) with
        | Ok _ => (AddKnownRelay rd metadata, metadata, Ok tt)
        | r => (rd, metadata, r)
        end
    | Err t => (rd, metadata, Err t)
    | Panic => (rd, metadata, Panic)
    end.

Definition refreshRelayCache (rd : RelayDiscovery) (now : Z) : RelayDiscovery * outcome unit :=
  if negb (rd_dhtNode rd) then (rd, Err "DHT node not initialized")
  else (mkRelayDiscovery (rd_dhtNode rd) (rd_knownRelays rd) (rd_relayHealth rd) (rd_blacklist rd) (Some now)
          (rd_refreshPeriod rd), Ok tt).

Definition blacklisted (blacklist : gmap (list Z) Z) (addr : list Z) (now : Z) : bool :=
  match blacklist !! addr with Some expiry => now <? expiry | None => false end.

(** one pass over the known relays: entries of the blacklist that have expired go *)
Fixpoint filter_available (now : Z) (blacklist : gmap (list Z) Z) (known : list (list Z * RelayMetadata))
  : gmap (list Z) Z * list RelayMetadata :=
  match known with
  | [] => (blacklist, [])
  | (addr, meta) :: known' =>
      let keep blacklist :=
        let '(blacklist, available) := filter_available now blacklist known' in
        (blacklist, if IsHealthy meta Hour now then meta :: available else available) in
      match blacklist !! addr with
      | Some expiry =>
          if now <? expiry then filter_available now blacklist known' else keep (delete addr blacklist)
      | None => keep blacklist
      end
  end.

(** [for len(selected) < count]: draws until one is new *)
Fixpoint draw_relays (available : list RelayMetadata) (used : list nat) (count : nat) (draws : list nat)
  : option (outcome (list RelayMetadata)) :=
  match count, draws with
  | O, _ => Some (Ok [])
  | _, [] => None
  | S count', i :: draws' =>
      if bool_decide (i ∈ used) then draw_relays available used count draws'
      else match available !! i with
           | None => Some Panic
           | Some meta =>
               match draw_relays available (i :: used) count' draws' with
               | Some rest => Some (l ← rest; Ok (meta :: l))
               | None => None
               end
           end
  end.

(** the end of both [DiscoverRelays]: all of them, or as many as asked for *)
Definition select_relays (available : list RelayMetadata) (count : Z) (none : string) (draws : list nat)
  : option (outcome (list RelayMetadata)) :=
  if len available =? 0 then Some (Err none)
  else if len available <=? count then Some (Ok available)
  else if count <? 0 then Some Panic
  else draw_relays available [] (Z.to_nat count) draws.

(** the outside during one call: order of the map, random indices *)
Record dsenv := mkDsenv { de_now : Z; de_order : list (list Z * RelayMetadata) → list (list Z * RelayMetadata);
                          de_draws : list nat }.

Definition DiscoverRelays (rd : RelayDiscovery) (count : Z) (e : dsenv)
  : option (RelayDiscovery * outcome (list RelayMetadata)) :=
  if negb (rd_dhtNode rd) then Some (rd, Err "DHT node not initialized")
  else
    let stale := match rd_lastRefresh rd with
                 | None => true
                 | Some t => rd_refreshPeriod rd <? time_Sub (de_now e) t
                 end in
    let rd := if stale then (refreshRelayCache rd (de_now e)).1 else rd in
    let '(blacklist, available) := filter_available (de_now e) (rd_blacklist rd)
                                     (de_order e (map_to_list (rd_knownRelays rd))) in
    r ← select_relays available count "no healthy relays available" (de_draws e);
    Some (with_blacklist rd blacklist, r).

Definition DiscoverRelaysByRegion (rd : RelayDiscovery) (region : gostring) (count : Z) (e : dsenv)
  : option (outcome (list RelayMetadata)) :=
  if negb (rd_dhtNode rd) then Some (Err "DHT node not initialized")
  else
    let regional := snd <$> filter (λ am : list Z * RelayMetadata,
        negb (blacklisted (rd_blacklist rd) am.1 (de_now e)) && bool_decide (md_Region am.2 = region)
        && IsHealthy am.2 Hour (de_now e) = true)
      (de_order e (map_to_list (rd_knownRelays rd))) in
    select_relays regional count ("no healthy relays in region " +:+ bytes_string region) (de_draws e).

Definition BlacklistRelay (rd : RelayDiscovery) (addr : list Z) (duration now : Z) : RelayDiscovery :=
  with_blacklist rd (<[addr := now + duration]> (rd_blacklist rd)).

Definition UpdateRelayHealth (rd : RelayDiscovery) (addr : list Z) (success : bool) (latency : Z)
  (err : option string) (now : Z) : RelayDiscovery :=
  let h := default (mkRelayHealthInfo None 0 0 0 0 None 0) (rd_relayHealth rd !! addr) in
  if success then
    let avg := if hi_AverageLatency h =? 0 then latency
               else Z.quot (s64 (s64 (hi_AverageLatency h * 9) + latency)) 10 in
    with_health rd (<[addr := mkRelayHealthInfo (Some now) (hi_PingCount h + 1) (hi_FailureCount h)
                                (hi_SuccessCount h + 1) avg (hi_LastError h) 0]> (rd_relayHealth rd))
  else
    let fails := hi_ConsecutiveFails h + 1 in
    let rd := with_health rd (<[addr := mkRelayHealthInfo (Some now) (hi_PingCount h + 1) (hi_FailureCount h + 1)
                                (hi_SuccessCount h) (hi_AverageLatency h) err fails]> (rd_relayHealth rd)) in
    if 3 <=? fails then with_blacklist rd (<[addr := now + 10 * Minute]> (rd_blacklist rd)) else rd.

(** *** Circuits *)

Record RelayScore := mkRelayScore { rsc_Metadata : RelayMetadata; rsc_Score : spec_float }.

(** the choice among the sorted relays *)
Fixpoint pick_diverse (hopCount : Z) (selected : list RelayMetadata) (operators regions : list gostring)
  (scores : list RelayScore) : list RelayMetadata :=
  match scores with
  | [] => selected
  | relay :: scores' =>
      let m := rsc_Metadata relay in
      if hopCount <=? len selected then selected
      else if (len selected <? hopCount - 1) && bool_decide (md_Operator m ∈ operators)
              && bool_decide (md_Region m ∈ regions)
      then pick_diverse hopCount selected operators regions scores'
      else pick_diverse hopCount (selected ++ [m]) (md_Operator m :: operators) (md_Region m :: regions) scores'
  end.

Section paths.
Context `{X509}.

Fixpoint circuit_of (selected : list RelayMetadata) : outcome (list RelayInfo) :=
  match selected with
  | [] => Ok []
  | m :: selected' =>
      pubKey ← wrap_err "failed to parse relay public key: " (ImportPublicKeyPEM (md_PublicKeyPEM m));
      rest ← circuit_of selected';
      Ok (mkRelayInfo (md_Address m) pubKey :: rest)
  end.

(** [sorted] is [sort.Slice] by falling score *)
Definition SelectOptimalCircuit (rd : RelayDiscovery) (hopCount : Z) (e : dsenv)
  (sorted : list RelayScore → list RelayScore) : option (RelayDiscovery * outcome (list RelayInfo)) :=
  if hopCount <? 1 then Some (rd, Err "hop count must be at least 1")
  else
    '(rd, r) ← DiscoverRelays rd (hopCount * 3) e;
    Some (rd,
      relays ← r;
      if len relays <? hopCount then
        Err ("not enough relays available: need " +:+ pretty hopCount +:+ ", have " +:+ pretty (len relays))
      else
        let scores := (λ m, mkRelayScore m (CalculateScore m (de_now e))) <$> relays in
        circuit_of (pick_diverse hopCount [] [] [] (sorted scores))).

(** ** guard_relays.go *)

Definition NumGuardRelays : Z := 3.
Definition GuardRotationPeriod : Z := 60 * 24 * Hour.
Definition GuardMinUptime : Z := 7 * 24 * Hour.

Record GuardRelay := mkGuardRelay {
  gr_Metadata : RelayMetadata; gr_FirstUsed : Z; gr_LastUsed : Z; gr_SuccessCount : Z; gr_FailCount : Z }.
Record GuardRelayManager := mkGuardRelayManager { gm_guards : list GuardRelay; gm_rotationTime : Z }.

Definition NewGuardRelayManager (now : Z) : GuardRelayManager :=
  mkGuardRelayManager [] (now + GuardRotationPeriod).

(** the outside during a selection: a discovery and a shuffle *)
Record gsenv := mkGsenv { ge_discover : dsenv; ge_shuffle : list RelayMetadata → list RelayMetadata }.

Definition good_guard (now : Z) (r : RelayMetadata) : bool :=
  let uptime := Since now (s64 (md_LastSeen r - 3600 * 24 * 7)) in
  (GuardMinUptime <=? uptime) && SFleb (tenths 8) (md_Reliability r).

Definition selectNewGuardsLocked (gm : GuardRelayManager) (discovery : option RelayDiscovery) (e : gsenv)
  : option (GuardRelayManager * option RelayDiscovery * outcome unit) :=
  match discovery with
  | None => Some (gm, None, Err "relay discovery not initialized")
  | Some rd =>
      '(rd, r) ← DiscoverRelays rd (NumGuardRelays * 3) (ge_discover e);
      Some match r with
      | Err t => (gm, Some rd, Err ("failed to discover relays: " +:+ t))
      | Panic => (gm, Some rd, Panic)
      | Ok candidates =>
          if len candidates =? 0 then (gm, Some rd, Err "no relays available")
          else
            let now := de_now (ge_discover e) in
            let good := filter (λ r, good_guard now r = true) candidates in
            let good := if len good =? 0 then candidates else good in
            let good := ge_shuffle e good in
            let guards := (λ m, mkGuardRelay m now now 0 0) <$> take (Z.to_nat NumGuardRelays) good in
            (mkGuardRelayManager guards (gm_rotationTime gm), Some rd, Ok tt)
      end
  end.

Definition healthy_guard (g : GuardRelay) : bool :=
  let totalAttempts := gr_SuccessCount g + gr_FailCount g in
  (totalAttempts =? 0) || SFleb (tenths 8) (fdiv (f64_of (gr_SuccessCount g)) (f64_of totalAttempts)).
Definition use_guard (now : Z) (g : GuardRelay) : GuardRelay :=
  mkGuardRelay (gr_Metadata g) (gr_FirstUsed g) now (gr_SuccessCount g) (gr_FailCount g).

(** the places of the healthy guards *)
Definition healthy_places (guards : list GuardRelay) : list nat :=
  (λ p : nat * GuardRelay, p.1) <$> filter (λ p : nat * GuardRelay, healthy_guard p.2 = true) (imap pair guards).

(** the three selections that can become necessary, and [rand.Intn] *)
Record guenv := mkGuenv { gu_now : Z; gu_first : gsenv; gu_rotate : gsenv; gu_replace : gsenv; gu_pick : nat → nat }.

(** the end of [GetGuardRelay]: one of the guards at [places] *)
Definition pick_guard (gm : GuardRelayManager) (rd : option RelayDiscovery) (places : list nat) (e : guenv)
  : GuardRelayManager * option RelayDiscovery * outcome RelayMetadata :=
  match places !! gu_pick e (length places) with
  | None => (gm, rd, Panic)
  | Some n =>
      match gm_guards gm !! n with
      | None => (gm, rd, Panic)
      | Some g =>
          (mkGuardRelayManager (<[n := use_guard (gu_now e) g]> (gm_guards gm)) (gm_rotationTime gm), rd,
           Ok (gr_Metadata g))
      end
  end.

Definition GetGuardRelay (gm : GuardRelayManager) (rd : option RelayDiscovery) (e : guenv)
  : option (GuardRelayManager * option RelayDiscovery * outcome RelayMetadata) :=
  '(gm, rd, r) ← (if len (gm_guards gm) =? 0 then selectNewGuardsLocked gm rd (gu_first e) else Some (gm, rd, Ok tt));
  match r with
  | Err t => Some (gm, rd, Err ("failed to select guard relays: " +:+ t))
  | Panic => Some (gm, rd, Panic)
  | Ok _ =>
      '(gm, rd, r) ← (if gm_rotationTime gm <? gu_now e then
          '(gm, rd, r) ← selectNewGuardsLocked gm rd (gu_rotate e);
          Some match r with
          | Ok _ => (mkGuardRelayManager (gm_guards gm) (gu_now e + GuardRotationPeriod), rd, Ok tt)
          | Err _ => (gm, rd, Ok tt)
          | Panic => (gm, rd, Panic)
          end
        else Some (gm, rd, Ok tt));
      match r with
      | Ok _ =>
          match healthy_places (gm_guards gm) with
          | [] =>
              '(gm, rd, r) ← selectNewGuardsLocked gm rd (gu_replace e);
              Some match r with
              | Ok _ => pick_guard gm rd (seq 0 (length (gm_guards gm))) e
              | Err t => (gm, rd, Err ("failed to select replacement guards: " +:+ t))
              | Panic => (gm, rd, Panic)
              end
          | places => Some (pick_guard gm rd places e)
          end
      | Err t => Some (gm, rd, Err t)
      | Panic => Some (gm, rd, Panic)
      end
  end.

(** the first guard with the address *)
Definition guard_place (gm : GuardRelayManager) (addr : list Z) : option (nat * GuardRelay) :=
  list_find (λ g, md_Address (gr_Metadata g) = addr) (gm_guards gm).

Definition RecordSuccess (gm : GuardRelayManager) (addr : list Z) (now : Z) : GuardRelayManager :=
  match guard_place gm addr with
  | None => gm
  | Some (n, g) =>
      mkGuardRelayManager
        (<[n := mkGuardRelay (gr_Metadata g) (gr_FirstUsed g) now (gr_SuccessCount g + 1) (gr_FailCount g)]>
           (gm_guards gm)) (gm_rotationTime gm)
  end.

Definition removeGuardLocked (gm : GuardRelayManager) (addr : list Z) : GuardRelayManager :=
  match guard_place gm addr with
  | None => gm
  | Some (n, _) => mkGuardRelayManager (delete n (gm_guards gm)) (gm_rotationTime gm)
  end.

Definition RecordFailure (gm : GuardRelayManager) (rd : option RelayDiscovery) (addr : list Z) (e : gsenv)
  : option (GuardRelayManager * option RelayDiscovery) :=
  match guard_place gm addr with
  | None => Some (gm, rd)
  | Some (n, g) =>
      let fails := gr_FailCount g + 1 in
      let gm := mkGuardRelayManager
        (<[n := mkGuardRelay (gr_Metadata g) (gr_FirstUsed g) (gr_LastUsed g) (gr_SuccessCount g) fails]>
           (gm_guards gm)) (gm_rotationTime gm) in
      if 10 <? fails then
        '(gm, rd, _) ← selectNewGuardsLocked (removeGuardLocked gm addr) rd e;
        Some (gm, rd)
      else Some (gm, rd)
  end.

Definition ForceRotation (gm : GuardRelayManager) (rd : option RelayDiscovery) (e : gsenv)
  : option (GuardRelayManager * option RelayDiscovery * outcome unit) :=
  '(gm, rd, r) ← selectNewGuardsLocked gm rd e;
  Some match r with
  | Ok _ => (mkGuardRelayManager (gm_guards gm) (de_now (ge_discover e) + GuardRotationPeriod), rd, Ok tt)
  | r => (gm, rd, r)
  end.

(** ** relay_path_builder.go *)

(** what path building uses of a client *)
Record PathState := mkPathState { pa_guards : option GuardRelayManager; pa_discovery : option RelayDiscovery }.

(** relays whose key cannot be read are left out *)
Fixpoint relay_infos (relays : list RelayMetadata) : outcome (list RelayInfo) :=
  match relays with
  | [] => Ok []
  | m :: relays' =>
      match ImportPublicKeyPEM (md_PublicKeyPEM m) with
      | Ok pubKey => rest ← relay_infos relays'; Ok (mkRelayInfo (md_Address m) pubKey :: rest)
      | Err _ => relay_infos relays'
      | Panic => Panic
      end
  end.

Record pbenv := mkPbenv { pb_guard : guenv; pb_rest : dsenv; pb_failure : gsenv }.

(** the hops after the guard *)
Definition remaining_hops (discovery : option RelayDiscovery) (path : list RelayInfo) (numRelays : Z) (e : dsenv)
  : option (option RelayDiscovery * outcome (list RelayInfo)) :=
  let remainingHops := numRelays - len path in
  match discovery with
  | Some rd =>
      if 0 <? remainingHops then
        '(rd, r) ← DiscoverRelays rd remainingHops e;
        Some (Some rd, relays ← wrap_err "failed to discover relays: " r;
                       rest ← relay_infos (take (Z.to_nat remainingHops) relays);
                       Ok (path ++ rest))
      else Some (Some rd, Ok path)
  | None => Some (None, Ok path)
  end.

Definition path_or_error (numRelays : Z) (r : outcome (list RelayInfo)) : outcome (list RelayInfo) :=
  path ← r;
  if len path <? numRelays then
    Err ("not enough relays available (need " +:+ pretty numRelays +:+ ", found " +:+ pretty (len path) +:+ ")")
  else Ok path.

(** The deferred function records the guard's success when its key could be
    read, and its failure otherwise, whatever becomes of the path. *)
Definition BuildSecureRelayPath (c : PathState) (numRelays : Z) (e : pbenv)
  : option (PathState * outcome (list RelayInfo)) :=
  if numRelays <? 3 then Some (c, Err "relay path must have at least 3 hops")
  else
    let manager := match pa_guards c, pa_discovery c with
                   | None, Some _ => Some (NewGuardRelayManager (gu_now (pb_guard e)))
                   | gm, _ => gm
                   end in
    match manager with
    | None =>
        '(rd, r) ← remaining_hops (pa_discovery c) [] numRelays (pb_rest e);
        Some (mkPathState None rd, path_or_error numRelays r)
    | Some gm =>
        '(gm, rd, g) ← GetGuardRelay gm (pa_discovery c) (pb_guard e);
        match g with
        | Panic => Some (mkPathState (Some gm) rd, Panic)
        | Err _ =>
            '(rd, r) ← remaining_hops rd [] numRelays (pb_rest e);
            Some (mkPathState (Some gm) rd, path_or_error numRelays r)
        | Ok guardRelay =>
            match ImportPublicKeyPEM (md_PublicKeyPEM guardRelay) with
            | Ok guardPubKey =>
                '(rd, r) ← remaining_hops rd [mkRelayInfo (md_Address guardRelay) guardPubKey] numRelays (pb_rest e);
                Some (mkPathState (Some (RecordSuccess gm (md_Address guardRelay) (gu_now (pb_guard e)))) rd,
                      path_or_error numRelays r)
            | Err _ =>
                '(rd, r) ← remaining_hops rd [] numRelays (pb_rest e);
                '(gm, rd) ← RecordFailure gm rd (md_Address guardRelay) (pb_failure e);
                Some (mkPathState (Some gm) rd, path_or_error numRelays r)
            | Panic => Some (mkPathState (Some gm) rd, Panic)
            end
        end
    end.

(** the older one, without guards *)
Definition BuildRelayPath (c : PathState) (numRelays : Z) (e : dsenv) : option (PathState * outcome (list RelayInfo)) :=
  match pa_discovery c with
  | None => Some (c, Err "relay discovery not initialized")
  | Some rd =>
      '(rd, r) ← DiscoverRelays rd numRelays e;
      Some (mkPathState (pa_guards c) (Some rd),
        relays ← wrap_err "failed to discover relays: " r;
        if len relays <? numRelays then
          Err ("not enough relays available (need " +:+ pretty numRelays +:+ ", found " +:+ pretty (len relays) +:+ ")")
        else if numRelays <? 0 then Panic
        else
          path ← relay_infos (take (Z.to_nat numRelays) relays);
          if len path <? numRelays then
            Err ("not enough valid relays (need " +:+ pretty numRelays +:+ ", found " +:+ pretty (len path) +:+ ")")
          else Ok path)
  end.

End paths.
