(* ===== verification/RelayPaths.v ===== *)
(** * Theorems on the choice of relays *)

From Stdlib Require Import SpecFloat.
From S2P Require Import Prelude GoBytes NodeID DhtStore Onion OnionProofs Relay RelayProofs RelayDiscovery.

(** ** Discovery *)

(** the key of a record is its address *)
Definition known_ok (rd : RelayDiscovery) : Prop :=
  ∀ addr m, rd_knownRelays rd !! addr = Some m → md_Address m = addr.

Definition usable (blacklist : gmap (list Z) Z) (now : Z) (am : list Z * RelayMetadata) : bool :=
  negb (blacklisted blacklist am.1 now) && IsHealthy am.2 Hour now.
(** the relays that may be chosen *)
Definition eligible (rd : RelayDiscovery) (now : Z) : list RelayMetadata :=
  snd <$> filter (λ am, usable (rd_blacklist rd) now am = true) (map_to_list (rd_knownRelays rd)).

Lemma AddKnownRelay_ok rd m : known_ok rd → known_ok (AddKnownRelay rd m).
Proof.
  intros Hk addr m' Hm. unfold AddKnownRelay in Hm. cbn [rd_knownRelays with_known] in Hm.
  apply lookup_insert_Some in Hm as [[<- <-]|[_ Hm]]; [done|by apply Hk].
Qed.

Lemma blacklisted_delete bl addr addr' now :
  blacklisted bl addr now = false → blacklisted (delete addr bl) addr' now = blacklisted bl addr' now.
Proof.
  intros Hb. unfold blacklisted in *. destruct (decide (addr' = addr)) as [->|Hne].
  - by rewrite lookup_delete_eq, Hb.
  - by rewrite lookup_delete_ne.
Qed.

(** what expires on the way does not matter *)
Lemma filter_available_spec now known : ∀ bl,
  let '(bl', available) := filter_available now bl known in
  available = snd <$> filter (λ am, usable bl now am = true) known ∧
  ∀ a, blacklisted bl' a now = blacklisted bl a now.
Proof.
  induction known as [|[addr meta] known IH]; intros bl; cbn [filter_available]; [done|].
  assert (∀ bl0, (∀ a, blacklisted bl0 a now = blacklisted bl a now) → blacklisted bl addr now = false →
    let '(bl', available) := (let '(bl1, available) := filter_available now bl0 known in
        (bl1, if IsHealthy meta Hour now then meta :: available else available)) in
    available = snd <$> filter (λ am, usable bl now am = true) ((addr, meta) :: known) ∧
    ∀ a, blacklisted bl' a now = blacklisted bl a now) as Hkeep.
  { intros bl0 Hsame Hnot. specialize (IH bl0). destruct (filter_available now bl0 known) as [bl1 av]. destruct IH as [-> Hb].
    split; [|intros a; by rewrite Hb].
    assert (filter (λ am, usable bl0 now am = true) known = filter (λ am, usable bl now am = true) known) as E.
    { apply filter_ext_in. intros am _. unfold usable. by rewrite Hsame. }
    assert (usable bl now (addr, meta) = IsHealthy meta Hour now) as Hus by (unfold usable; cbn; by rewrite Hnot).
    rewrite E, filter_cons. destruct (IsHealthy meta Hour now); [by rewrite decide_True|].
    rewrite decide_False; [done|]. by rewrite Hus. }
  destruct (bl !! addr) as [expiry|] eqn:Eb; [|apply Hkeep; [done|unfold blacklisted; by rewrite Eb]].
  destruct (now <? expiry) eqn:Ex.
  - specialize (IH bl). destruct (filter_available now bl known) as [bl1 av]. destruct IH as [-> Hb]. split; [|done].
    rewrite filter_cons_False; [done|]. unfold usable, blacklisted. cbn [fst]. by rewrite Eb, Ex.
  - assert (blacklisted bl addr now = false) as Hnot by (unfold blacklisted; by rewrite Eb).
    apply Hkeep; [|done]. intros a. by apply blacklisted_delete.
Qed.

(** the random numbers are in range and [count] of them are different *)
Record enough_draws (draws : list nat) (n count : nat) : Prop := {
  ed_range : ∀ i, i ∈ draws → (i < n)%nat;
  ed_distinct : ∃ idx, NoDup idx ∧ (∀ i, i ∈ idx → i ∈ draws) ∧ (count ≤ length idx)%nat }.

Lemma filter_ne_length (i : nat) (l : list nat) : NoDup l → (length l ≤ S (length (filter (.≠ i) l)))%nat.
Proof.
  intros Hn. change (S (length (filter (.≠ i) l))) with (length (i :: filter (.≠ i) l)).
  apply submseteq_length, NoDup_submseteq; [done|]. intros j Hj. destruct (decide (j = i)) as [->|Hne]; [left|].
  right. by apply list_elem_of_filter.
Qed.

(** distinct new places of the list *)
Lemma draw_relays_spec available draws : ∀ used count idx,
  (∀ i, i ∈ draws → (i < length available)%nat) → NoDup idx → (∀ i, i ∈ idx → i ∈ draws ∧ i ∉ used) →
  (count ≤ length idx)%nat →
  ∃ drawn l, draw_relays available used count draws = Some (Ok l) ∧ length drawn = count ∧ NoDup drawn ∧
    (∀ i, i ∈ drawn → i ∉ used) ∧ Forall2 (λ i m, available !! i = Some m) drawn l.
Proof.
  induction draws as [|i draws IH]; intros used count idx Hr Hn Hidx Hc.
  { assert (idx = []) as ->. { destruct idx as [|j idx]; [done|]. destruct (Hidx j ltac:(left)) as [Hj _]. by apply not_elem_of_nil in Hj. }
    cbn in Hc. assert (count = 0)%nat as -> by lia. exists [], []. split_and!; [done|done|apply NoDup_nil_2|by intros i Hi%not_elem_of_nil|constructor]. }
  destruct count as [|count].
  { exists [], []. split_and!; [done|done|apply NoDup_nil_2|by intros j Hj%not_elem_of_nil|constructor]. }
  cbn [draw_relays]. assert (∀ j, j ∈ draws → (j < length available)%nat) as Hr' by (intros j Hj; apply Hr; by right).
  case_bool_decide as Hu.
  - apply (IH used (S count) idx); try done. intros j Hj. destruct (Hidx j Hj) as [[->|?]%elem_of_cons ?]; done.
  - destruct (lookup_lt_is_Some_2 available i) as [m Hm]; [apply Hr; left|]. rewrite Hm.
    destruct (IH (i :: used) count (filter (.≠ i) idx) Hr') as (drawn & l & -> & Hl & Hnd & Hnew & Hall).
    { by apply NoDup_filter. }
    { intros j [Hj Hin]%list_elem_of_filter. destruct (Hidx j Hin) as [[->|?]%elem_of_cons ?]; [done|].
      split; [done|]. by rewrite not_elem_of_cons. }
    { pose proof (filter_ne_length i idx Hn). lia. }
    exists (i :: drawn), (m :: l). split_and!; [done|cbn; lia|..].
    + apply NoDup_cons. split; [|done]. intros Hi. by apply Hnew, not_elem_of_cons in Hi as [? _].
    + intros j [->|Hj]%elem_of_cons; [done|]. by apply Hnew, not_elem_of_cons in Hj as [_ ?].
    + by constructor.
Qed.

Lemma drawn_NoDup {A B} (f : A → B) (available : list A) drawn l :
  NoDup (f <$> available) → NoDup drawn → Forall2 (λ i m, available !! i = Some m) drawn l → NoDup (f <$> l).
Proof.
  intros Hf Hn Hall. induction Hall as [|i m drawn l Hi Hall IH]; [apply NoDup_nil_2|].
  apply NoDup_cons in Hn as [Hni Hn]. rewrite fmap_cons. apply NoDup_cons. split; [|by apply IH].
  intros (m' & Em & [k Hk]%list_elem_of_lookup_1)%list_elem_of_fmap.
  destruct (Forall2_lookup_r _ _ _ _ _ Hall Hk) as (j & Hj & Hjm). apply Hni. apply list_elem_of_lookup_2 in Hj.
  assert (i = j) as ->; [|done]. eapply (NoDup_lookup (f <$> available)); [done|..];
    rewrite list_lookup_fmap; [by rewrite Hi|]. by rewrite Hjm, Em.
Qed.
Lemma drawn_elem {A} (available : list A) drawn l m :
  Forall2 (λ i m, available !! i = Some m) drawn l → m ∈ l → m ∈ available.
Proof.
  intros Hall [k Hk]%list_elem_of_lookup_1. destruct (Forall2_lookup_r _ _ _ _ _ Hall Hk) as (j & _ & Hj).
  by eapply list_elem_of_lookup_2.
Qed.

Section discover.
Context (rd : RelayDiscovery) (e : dsenv).
Context (Hdht : rd_dhtNode rd = true) (Hknown : known_ok rd) (Horder : ∀ l, de_order e l ≡ₚ l).

Lemma eligible_NoDup now : NoDup (md_Address <$> eligible rd now).
Proof.
  unfold eligible. rewrite <- list_fmap_compose.
  assert (md_Address ∘ snd <$> filter (λ am, usable (rd_blacklist rd) now am = true) (map_to_list (rd_knownRelays rd))
          = fst <$> filter (λ am, usable (rd_blacklist rd) now am = true) (map_to_list (rd_knownRelays rd))) as ->.
  { apply list_fmap_ext. intros i [a m] Hi. cbn. apply list_elem_of_lookup_2, list_elem_of_filter in Hi as [_ Hi].
    apply elem_of_map_to_list in Hi. by apply Hknown. }
  eapply sublist_NoDup; [apply (NoDup_fst_map_to_list (rd_knownRelays rd))|]. apply fmap_sublist, sublist_filter.
Qed.

Lemma eligible_elem now m :
  m ∈ eligible rd now ↔ rd_knownRelays rd !! md_Address m = Some m ∧
    blacklisted (rd_blacklist rd) (md_Address m) now = false ∧ IsHealthy m Hour now = true.
Proof.
  unfold eligible. rewrite list_elem_of_fmap. split.
  - intros ([a m'] & -> & Hm). cbn. apply list_elem_of_filter in Hm as [Hu Hm]. apply elem_of_map_to_list in Hm.
    rewrite (Hknown a m' Hm). unfold usable in Hu. cbn in Hu. apply andb_true_iff in Hu as [Hb Hh].
    split_and!; [done|by apply negb_true_iff|done].
  - intros (Hm & Hb & Hh). exists (md_Address m, m). split; [done|]. apply list_elem_of_filter.
    split; [unfold usable; cbn; by rewrite Hb, Hh|by apply elem_of_map_to_list].
Qed.

(** what a discovery gives *)
Lemma DiscoverRelays_cases count :
  0 ≤ count → enough_draws (de_draws e) (length (eligible rd (de_now e))) (Z.to_nat count) →
  ∃ rd' r, DiscoverRelays rd count e = Some (rd', r) ∧
    rd_dhtNode rd' = true ∧ rd_knownRelays rd' = rd_knownRelays rd ∧
    (∀ a, blacklisted (rd_blacklist rd') a (de_now e) = blacklisted (rd_blacklist rd) a (de_now e)) ∧
    match r with
    | Ok l => NoDup (md_Address <$> l) ∧ (∀ m, m ∈ l → m ∈ eligible rd (de_now e)) ∧
              len l = Z.min count (len (eligible rd (de_now e))) ∧ l ⊆+ eligible rd (de_now e)
    | Err _ => eligible rd (de_now e) = []
    | Panic => False
    end.
Proof.
  intros Hc [Hrange (idx & Hidx & Hin & Hlen)]. unfold DiscoverRelays. rewrite Hdht. cbn [negb].
  set (stale := match rd_lastRefresh rd with None => true | Some t => _ end).
  set (rd1 := if stale then (refreshRelayCache rd (de_now e)).1 else rd).
  assert (rd_dhtNode rd1 = true ∧ rd_knownRelays rd1 = rd_knownRelays rd ∧ rd_blacklist rd1 = rd_blacklist rd) as (Hd1 & Hk1 & Hb1).
  { subst rd1. destruct stale; [|done]. unfold refreshRelayCache. by rewrite Hdht. }
  rewrite Hk1, Hb1. pose proof (filter_available_spec (de_now e) (de_order e (map_to_list (rd_knownRelays rd))) (rd_blacklist rd)) as Hf.
  destruct (filter_available _ _ _) as [bl available]. destruct Hf as [Hav Hbl].
  assert (available ≡ₚ eligible rd (de_now e)) as Hperm by (subst available; unfold eligible; by rewrite (Horder _)).
  assert (NoDup (md_Address <$> available)) as Hnd by (rewrite Hperm; apply eligible_NoDup).
  assert (length available = length (eligible rd (de_now e))) as Hlen' by by rewrite Hperm.
  clear Hav. unfold select_relays. destruct (Z.eqb_spec (len available) 0) as [E|Hne].
  - eexists (with_blacklist rd1 bl), _. split_and!; [done..|]. destruct available; [|done]. by apply Permutation_nil_l in Hperm.
  - destruct (Z.leb_spec (len available) count) as [Hle|Hlt].
    + exists (with_blacklist rd1 bl), (Ok available). split_and!; [done..| | |by rewrite Hperm].
      * intros m. by rewrite Hperm.
      * unfold len in *. lia.
    + destruct (Z.ltb_spec count 0) as [?|_]; [lia|].
      destruct (draw_relays_spec available (de_draws e) [] (Z.to_nat count) idx) as (drawn & l & -> & Hld & Hndd & _ & Hall).
      { intros i Hi. rewrite Hlen'. by apply Hrange. }
      { done. }
      { intros i Hi. split; [by apply Hin|apply not_elem_of_nil]. }
      { done. }
      pose proof (drawn_NoDup md_Address available drawn l Hnd Hndd Hall) as Hndl.
      assert (∀ m, m ∈ l → m ∈ eligible rd (de_now e)) as Hel by (intros m Hm; rewrite <- Hperm; by eapply drawn_elem).
      exists (with_blacklist rd1 bl), (Ok l). split_and!; [done..| |].
      * pose proof (Forall2_length _ _ _ Hall). unfold len in *. lia.
      * apply NoDup_submseteq; [by eapply NoDup_fmap_1|done].
Qed.

End discover.

(** ** Paths *)

Section path_proofs.
Context `{X509}.

Definition readable (m : RelayMetadata) : Prop := ∃ key, ImportPublicKeyPEM (md_PublicKeyPEM m) = Ok key.

Lemma relay_infos_ok relays :
  (∀ m, m ∈ relays → readable m) →
  ∃ infos, relay_infos relays = Ok infos ∧ ri_Address <$> infos = md_Address <$> relays.
Proof.
  induction relays as [|m relays IH]; intros Hr; [by exists []|]. destruct (Hr m ltac:(left)) as [key Hk].
  destruct IH as (infos & E & Ha); [intros m' Hm'; apply Hr; by right|].
  exists (mkRelayInfo (md_Address m) key :: infos). cbn [relay_infos]. rewrite Hk, E. split; [done|].
  by rewrite !fmap_cons, Ha.
Qed.

(** changing a guard's counters *)
Lemma guards_kept (guards : list GuardRelay) (n : nat) g g' :
  guards !! n = Some g → gr_Metadata g' = gr_Metadata g →
  gr_Metadata <$> <[n := g']> guards = gr_Metadata <$> guards.
Proof. intros Hn Hg. rewrite list_fmap_insert, Hg. apply list_insert_id. by rewrite list_lookup_fmap, Hn. Qed.

Lemma RecordSuccess_kept gm addr now : gr_Metadata <$> gm_guards (RecordSuccess gm addr now) = gr_Metadata <$> gm_guards gm.
Proof.
  unfold RecordSuccess, guard_place. destruct (list_find _ _) as [[n g]|] eqn:E; [|done].
  apply list_find_Some in E as (Hn & _). by apply (guards_kept _ n g).
Qed.

Lemma healthy_places_elem guards (n : nat) :
  n ∈ healthy_places guards → ∃ g, guards !! n = Some g ∧ healthy_guard g = true.
Proof.
  unfold healthy_places. intros (p & -> & Hp)%list_elem_of_fmap. apply list_elem_of_filter in Hp as [Hh Hp].
  apply elem_of_lookup_imap in Hp as (j & g & -> & Hg). by exists g.
Qed.

(** guards in use, one of them healthy, and before their rotation *)
Record steady_guards (gm : GuardRelayManager) (e : guenv) : Prop := {
  sg_rotation : gu_now e ≤ gm_rotationTime gm;
  sg_healthy : healthy_places (gm_guards gm) ≠ [];
  sg_pick : ∀ n : nat, (0 < n)%nat → (gu_pick e n < n)%nat }.

Lemma GetGuardRelay_steady gm rd e :
  steady_guards gm e →
  ∃ gm' g, GetGuardRelay gm rd e = Some (gm', rd, Ok (gr_Metadata g)) ∧ g ∈ gm_guards gm ∧ healthy_guard g = true ∧
    gr_Metadata <$> gm_guards gm' = gr_Metadata <$> gm_guards gm.
Proof.
  intros [Hrot Hh Hpick]. unfold GetGuardRelay.
  destruct (Z.eqb_spec (len (gm_guards gm)) 0) as [E|_]; [by destruct (gm_guards gm)|]. cbn [mbind option_bind].
  destruct (Z.ltb_spec (gm_rotationTime gm) (gu_now e)) as [?|_]; [lia|]. cbn [mbind option_bind].
  destruct (healthy_places (gm_guards gm)) as [|p ps] eqn:Ep; [done|]. rewrite <- Ep.
  unfold pick_guard. destruct (lookup_lt_is_Some_2 (healthy_places (gm_guards gm)) (gu_pick e (length (healthy_places (gm_guards gm))))) as [n Hn].
  { apply Hpick. rewrite Ep. cbn. lia. }
  rewrite Hn. destruct (healthy_places_elem (gm_guards gm) n) as (g & Hg & Hhg); [by eapply list_elem_of_lookup_2|].
  rewrite Hg. eexists _, g. split_and!; [done|by eapply list_elem_of_lookup_2|done|]. by apply (guards_kept _ n g).
Qed.

(** what building a path finds in place *)
Record steady_path (c : PathState) (gm : GuardRelayManager) (rd : RelayDiscovery) (numRelays : Z) (e : pbenv) : Prop := {
  sp_guards : pa_guards c = Some gm;
  sp_discovery : pa_discovery c = Some rd;
  sp_steady : steady_guards gm (pb_guard e);
  sp_dht : rd_dhtNode rd = true;
  sp_known : known_ok rd;
  sp_order : ∀ l, de_order (pb_rest e) l ≡ₚ l;
  sp_guard_keys : ∀ g, g ∈ gm_guards gm → readable (gr_Metadata g);
  sp_keys : ∀ m, m ∈ eligible rd (de_now (pb_rest e)) → readable m;
  sp_draws : enough_draws (de_draws (pb_rest e)) (length (eligible rd (de_now (pb_rest e)))) (Z.to_nat (numRelays - 1)) }.

Lemma secure_path_cases c gm rd numRelays e :
  3 ≤ numRelays → steady_path c gm rd numRelays e →
  ∃ c' gm' r g, BuildSecureRelayPath c numRelays e = Some (c', r) ∧ pa_guards c' = Some gm' ∧
    gr_Metadata <$> gm_guards gm' = gr_Metadata <$> gm_guards gm ∧ g ∈ gm_guards gm ∧ healthy_guard g = true ∧
    match r with
    | Ok path => ∃ rest, ri_Address <$> path = md_Address (gr_Metadata g) :: (md_Address <$> rest) ∧
        NoDup (md_Address <$> rest) ∧ rest ⊆+ eligible rd (de_now (pb_rest e)) ∧ len path = numRelays
    | Err _ => len (eligible rd (de_now (pb_rest e))) < numRelays - 1
    | Panic => False
    end.
Proof.
  intros Hn [Hg Hd Hst Hdht Hk Ho Hgk Hkeys Hdraws]. unfold BuildSecureRelayPath.
  destruct (Z.ltb_spec numRelays 3) as [?|_]; [lia|]. rewrite Hg, Hd.
  destruct (GetGuardRelay_steady gm (Some rd) (pb_guard e) Hst) as (gm1 & g & -> & Hin & Hh & Hkept).
  cbn [mbind option_bind]. destruct (Hgk g Hin) as [key ->]. unfold remaining_hops.
  change (len [mkRelayInfo (md_Address (gr_Metadata g)) key]) with 1.
  destruct (Z.ltb_spec 0 (numRelays - 1)) as [_|?]; [|lia].
  destruct (DiscoverRelays_cases rd (pb_rest e) Hdht Hk Ho (numRelays - 1) ltac:(lia) Hdraws)
    as (rd' & r & -> & _ & _ & _ & Hr). cbn [mbind option_bind].
  eexists _, _, _, g. split_and!; [done|done|by rewrite RecordSuccess_kept|done..|].
  destruct r as [l|t|]; [|rewrite Hr; unfold len; cbn; lia|done]. cbn [wrap_err mbind outcome_bind].
  destruct Hr as (Hnd & Hel & Hlen & Hsub). rewrite take_ge by (unfold len in *; lia).
  destruct (relay_infos_ok l) as (infos & -> & Ha); [intros m Hm; by apply Hkeys, Hel|]. cbn [mbind outcome_bind path_or_error].
  assert (len infos = len l) as Hli by (unfold len; by rewrite <- (length_fmap ri_Address infos), Ha, length_fmap).
  rewrite len_app. change (len [mkRelayInfo (md_Address (gr_Metadata g)) key]) with 1.
  destruct (Z.ltb_spec (1 + len infos) numRelays) as [Hfew|Hok].
  - lia.
  - exists l. split_and!; [by rewrite fmap_app, Ha|done|done|]. rewrite len_app. cbn. unfold len in *. cbn. lia.
Qed.

(** C33: Building a path in the steady state: the entry is one of the guards, a
    healthy one, and the guards stay the same; the other hops are distinct
    eligible relays; and it fails only for want of eligible relays. *)
Theorem secure_path_spec (c : PathState) (gm : GuardRelayManager) (rd : RelayDiscovery) (numRelays : Z) (e : pbenv) :
  3 ≤ numRelays → steady_path c gm rd numRelays e →
  ∃ c' gm' r g, BuildSecureRelayPath c numRelays e = Some (c', r) ∧ pa_guards c' = Some gm' ∧
    gr_Metadata <$> gm_guards gm' = gr_Metadata <$> gm_guards gm ∧ g ∈ gm_guards gm ∧ healthy_guard g = true ∧
    match r with
    | Ok path => ∃ rest, ri_Address <$> path = md_Address (gr_Metadata g) :: (md_Address <$> rest) ∧
        NoDup (md_Address <$> rest) ∧ rest ⊆+ eligible rd (de_now (pb_rest e)) ∧ len path = numRelays
    | Err _ => len (eligible rd (de_now (pb_rest e))) < numRelays - 1
    | Panic => False
    end.
Proof. intros Hn Hs. exact (secure_path_cases c gm rd numRelays e Hn Hs). Qed.

(** The guard is not left out of the other hops: with as many eligible relays as
    there are other hops, it is in every path twice. *)
Theorem guard_repeated (c : PathState) (gm : GuardRelayManager) (rd : RelayDiscovery) (numRelays : Z) (e : pbenv) :
  3 ≤ numRelays → steady_path c gm rd numRelays e →
  len (eligible rd (de_now (pb_rest e))) = numRelays - 1 →
  (∀ g, g ∈ gm_guards gm → gr_Metadata g ∈ eligible rd (de_now (pb_rest e))) →
  ∃ c' path, BuildSecureRelayPath c numRelays e = Some (c', Ok path) ∧ ¬ NoDup (ri_Address <$> path).
Proof.
  intros Hn Hs Hlen Hguards.
  destruct (secure_path_cases c gm rd numRelays e Hn Hs) as (c' & gm' & r & g & Hb & _ & _ & Hg & _ & Hr).
  destruct r as [path|t|]; [|lia|done]. destruct Hr as (rest & Haddr & _ & Hsub & Hpl). exists c', path. split; [done|].
  rewrite Haddr. intros [Hni _]%NoDup_cons. apply Hni, list_elem_of_fmap_2.
  rewrite (submseteq_length_Permutation _ _ Hsub); [by apply Hguards|].
  assert (length path = S (length rest)) as Hp by (rewrite <- (length_fmap ri_Address path), Haddr; cbn; by rewrite length_fmap).
  unfold len in *. lia.
Qed.

(** *** Circuits *)

Lemma circuit_of_ok relays :
  (∀ m, m ∈ relays → readable m) → ∃ infos, circuit_of relays = Ok infos ∧ len infos = len relays.
Proof.
  induction relays as [|m relays IH]; intros Hr; [by exists []|]. destruct (Hr m ltac:(left)) as [key Hk].
  destruct IH as (infos & E & Hl); [intros m' Hm'; apply Hr; by right|].
  eexists. cbn [circuit_of]. rewrite Hk, E. split; [done|]. rewrite !len_cons. lia.
Qed.

Lemma pick_one hopCount operator region scores m : 3 ≤ hopCount →
  (∀ s, s ∈ scores → md_Operator (rsc_Metadata s) = operator ∧ md_Region (rsc_Metadata s) = region) →
  pick_diverse hopCount [m] [operator] [region] scores = [m].
Proof.
  intros Hh. induction scores as [|s scores IH]; intros Hs; [done|]. cbn [pick_diverse].
  destruct (Hs s ltac:(left)) as [-> ->]. change (len [m]) with 1.
  destruct (Z.leb_spec hopCount 1) as [?|_]; [lia|]. destruct (Z.ltb_spec 1 (hopCount - 1)) as [_|?]; [|lia].
  rewrite !bool_decide_true by (by left). cbn [andb]. apply IH. intros s' Hs'. apply Hs. by right.
Qed.

(** The preference for different operators and regions goes before the length: if
    all relays have one operator and one region, a circuit of three hops or more
    comes out with a single one, without an error. *)
Theorem circuit_collapses (rd : RelayDiscovery) (hopCount : Z) (e : dsenv) (sorted : list RelayScore → list RelayScore)
    (operator region : gostring) :
  3 ≤ hopCount → (∀ l, sorted l ≡ₚ l) → rd_dhtNode rd = true → known_ok rd → (∀ l, de_order e l ≡ₚ l) →
  (∀ addr m, rd_knownRelays rd !! addr = Some m → md_Operator m = operator ∧ md_Region m = region ∧ readable m) →
  hopCount ≤ len (eligible rd (de_now e)) →
  enough_draws (de_draws e) (length (eligible rd (de_now e))) (Z.to_nat (hopCount * 3)) →
  ∃ rd' circuit, SelectOptimalCircuit rd hopCount e sorted = Some (rd', Ok circuit) ∧ len circuit = 1.
Proof.
  intros Hh Hsort Hdht Hk Ho Hsame Hmany Hdraws. unfold SelectOptimalCircuit.
  destruct (Z.ltb_spec hopCount 1) as [?|_]; [lia|].
  destruct (DiscoverRelays_cases rd e Hdht Hk Ho (hopCount * 3) ltac:(lia) Hdraws) as (rd' & r & -> & _ & _ & _ & Hr).
  cbn [mbind option_bind]. destruct r as [l|t|]; [|rewrite Hr in Hmany; unfold len in Hmany; cbn in Hmany; lia|done].
  destruct Hr as (_ & Hel & Hlen & _). cbn [mbind outcome_bind]. destruct (Z.ltb_spec (len l) hopCount) as [?|Hl]; [lia|].
  set (scores := (λ m, mkRelayScore m (CalculateScore m (de_now e))) <$> l).
  assert (∀ s, s ∈ sorted scores → md_Operator (rsc_Metadata s) = operator ∧ md_Region (rsc_Metadata s) = region ∧ readable (rsc_Metadata s)) as Hs.
  { intros s. rewrite (Hsort scores). intros (m & -> & Hm)%list_elem_of_fmap. cbn. apply Hel in Hm.
    apply eligible_elem in Hm as (Hm & _); [|done]. by eapply Hsame. }
  assert (0 < len (sorted scores)) as Hpos.
  { unfold len. rewrite (Permutation_length (Hsort scores)). subst scores. rewrite length_fmap. unfold len in *. lia. }
  destruct (sorted scores) as [|s scores']; [done|]. destruct (Hs s ltac:(left)) as (Hop & Hreg & Hkey).
  assert (pick_diverse hopCount [] [] [] (s :: scores') = [rsc_Metadata s]) as ->.
  { cbn [pick_diverse]. destruct (Z.leb_spec hopCount (len ([] : list RelayMetadata))) as [?|_]; [unfold len in *; cbn in *; lia|].
    rewrite (bool_decide_false (md_Operator _ ∈ [])) by apply not_elem_of_nil. rewrite andb_false_r. cbn [andb app].
    rewrite Hop, Hreg. apply (pick_one _ operator region); [done|]. intros s' Hs'. destruct (Hs s' ltac:(by right)) as (? & ? & _). done. }
  destruct (circuit_of_ok [rsc_Metadata s]) as (infos & -> & Hi); [by intros m ->%list_elem_of_singleton|].
  by exists rd', infos.
Qed.

(** *** Guards *)

(** A guard needs no uptime: what is computed is the age of the last contact
    plus seven days, and compared with seven days. *)
Theorem guard_uptime_unchecked (r : RelayMetadata) (now : Z) :
  0 ≤ md_LastSeen r → md_LastSeen r * Second ≤ now → now < 2 ^ 62 →
  good_guard now r = SFleb (tenths 8) (md_Reliability r).
Proof.
  intros Hz Hl Hn. unfold good_guard, Since, GuardMinUptime, Hour, Minute, time_Sub, Second in *.
  rewrite s64_id by lia. destruct (Z.leb_spec (7 * 24 * (60 * (60 * 1000000000)))
    (Z.max (- 2 ^ 63) (Z.min (2 ^ 63 - 1) (now - (md_LastSeen r - 3600 * 24 * 7) * 1000000000)))) as [_|?]; [done|lia].
Qed.

End path_proofs.

(** A relay last seen two hours ago scores less than one seen two days ago: the
    age in nanoseconds is divided by a day in seconds. *)
Example score_prefers_older :
  let seen t := mkRelayMetadata (replicate 20 1) [] [] [] [] [] 0 0 t 0 f0 f0 in
  let now := 1700000000 * Second in
  SFltb (CalculateScore (seen (1700000000 - 2 * 3600)) now) (CalculateScore (seen (1700000000 - 48 * 3600)) now) = true.
Proof. vm_compute. reflexivity. Qed.

(** ** Concrete relays *)

Module PathSample.
Definition now : Z := 1700000000 * Second.
Definition relay (a : Z) : RelayMetadata :=
  mkRelayMetadata (replicate 20 a) [] [a] (string_bytes "eu") (string_bytes "op") [] 0 0 1700000000 0 f0 (tenths 9).
(** the first [n] relays *)
Definition discovery (n : nat) : RelayDiscovery :=
  foldl AddKnownRelay (NewRelayDiscovery true) (relay ∘ Z.of_nat <$> seq 1 n).
Definition guards : GuardRelayManager := mkGuardRelayManager [mkGuardRelay (relay 1) 0 0 1 0] (now + GuardRotationPeriod).
Definition select (n : nat) : dsenv := mkDsenv now id (seq 0 n).
Definition env (n : nat) : pbenv :=
  let s := mkGsenv (select n) id in mkPbenv (mkGuenv now s s s (λ _, O)) (select n) s.
Definition client (n : nat) : PathState := mkPathState (Some guards) (Some (discovery n)).

Lemma discovery_known n : known_ok (discovery n).
Proof.
  unfold discovery. assert (known_ok (NewRelayDiscovery true)) as Hn by (intros a m; cbn; by rewrite lookup_empty).
  revert Hn. generalize (NewRelayDiscovery true). induction (relay ∘ Z.of_nat <$> seq 1 n) as [|m l IH]; intros rd Hrd; [done|].
  cbn [foldl]. apply IH. by apply AddKnownRelay_ok.
Qed.
Lemma discovery_relays n addr m : rd_knownRelays (discovery n) !! addr = Some m → ∃ a, m = relay a.
Proof.
  unfold discovery. assert (∀ l (rd : RelayDiscovery),
    (∀ addr m, rd_knownRelays rd !! addr = Some m → ∃ a, m = relay a) → (∀ m, m ∈ l → ∃ a, m = relay a) →
    ∀ addr m, rd_knownRelays (foldl AddKnownRelay rd l) !! addr = Some m → ∃ a, m = relay a) as Hall.
  { induction l as [|m0 l IH]; intros rd Hrd Hl; [done|]. cbn [foldl]. apply IH.
    - intros a m'. unfold AddKnownRelay. cbn [rd_knownRelays with_known].
      intros [[_ <-]|[_ Hm]]%lookup_insert_Some; [apply Hl; left|by eapply Hrd].
    - intros m' Hm'. apply Hl. by right. }
  apply Hall; [intros a m'; cbn; by rewrite lookup_empty|]. intros m' (i & -> & _)%list_elem_of_fmap. by eexists.
Qed.
End PathSample.

Section witnesses.
#[local] Existing Instances OnionSample.rsa RelaySample.x509.
Import PathSample.

Lemma relay_readable a : readable (relay a).
Proof. by exists a. Qed.

Lemma sample_draws n : enough_draws (seq 0 n) n n.
Proof.
  split; [intros i Hi%elem_of_seq; lia|]. exists (seq 0 n). split_and!; [apply NoDup_seq|done|by rewrite length_seq].
Qed.

Lemma client_steady (n : nat) (numRelays : Z) :
  length (eligible (discovery n) now) = n → Z.to_nat (numRelays - 1) = n →
  steady_path (client n) guards (discovery n) numRelays (env n).
Proof.
  intros Hn Hr. split.
  - done.
  - done.
  - split; [by vm_compute|by vm_compute|]. intros k Hk. exact Hk.
  - unfold discovery. generalize (relay ∘ Z.of_nat <$> seq 1 n). intros l.
    assert (∀ rd, rd_dhtNode rd = true → rd_dhtNode (foldl AddKnownRelay rd l) = true) as Hd; [|by apply Hd].
    induction l as [|m l IH]; intros rd Hrd; [done|]. by apply IH.
  - apply discovery_known.
  - done.
  - intros g ->%list_elem_of_singleton. apply relay_readable.
  - intros m (Hm & _)%eligible_elem; [|apply discovery_known]. destruct (discovery_relays n _ _ Hm) as [a ->]. apply relay_readable.
  - cbn [pb_rest env select de_draws de_now]. rewrite Hn, Hr. apply sample_draws.
Qed.

Lemma secure_path_spec_witness :
  ∃ c' path, BuildSecureRelayPath (client 4) 5 (env 4) = Some (c', Ok path) ∧ len path = 5.
Proof.
  destruct (secure_path_spec (client 4) guards (discovery 4) 5 (env 4)) as (c' & gm' & r & g & Hb & _ & _ & _ & _ & Hr).
  - lia.
  - apply client_steady; by vm_compute.
  - assert (len (eligible (discovery 4) (de_now (pb_rest (env 4)))) = 4) as E by (vm_compute; reflexivity).
    destruct r as [path|t|]; [|rewrite E in Hr; lia|destruct Hr]. destruct Hr as (rest & _ & _ & _ & Hl).
    exists c', path. split; [exact Hb|exact Hl].
Defined.

Lemma guard_repeated_witness :
  ∃ c' path, BuildSecureRelayPath (client 2) 3 (env 2) = Some (c', Ok path) ∧ ¬ NoDup (ri_Address <$> path).
Proof.
  apply (guard_repeated (client 2) guards (discovery 2) 3 (env 2)).
  - lia.
  - apply client_steady; by vm_compute.
  - by vm_compute.
  - intros g ->%list_elem_of_singleton. apply eligible_elem; [apply discovery_known|]. by vm_compute.
Defined.

Lemma circuit_collapses_witness :
  ∃ rd' circuit, SelectOptimalCircuit (discovery 9) 3 (select 9) id = Some (rd', Ok circuit) ∧ len circuit = 1.
Proof.
  apply (circuit_collapses (discovery 9) 3 (select 9) id (string_bytes "op") (string_bytes "eu")).
  - lia.
  - intros l. reflexivity.
  - vm_compute. reflexivity.
  - apply discovery_known.
  - intros l. reflexivity.
  - intros addr m Hm. destruct (discovery_relays 9 addr m Hm) as [a ->]. split_and!; [done..|apply relay_readable].
  - by vm_compute.
  - assert (length (eligible (discovery 9) (de_now (select 9))) = 9%nat) as -> by (vm_compute; reflexivity). apply sample_draws.
Defined.

Lemma guard_uptime_unchecked_witness : good_guard now (relay 1) = true.
Proof. rewrite guard_uptime_unchecked; [by vm_compute|by vm_compute..]. Defined.
End witnesses.
