(* ===== verification/RelayRegistry.v ===== *)
(** * The list of relays: pkg/network/relay_registry.go

    A relay record is reached through its endpoint only; records handed out are
    read.  [Json] at [list (option RelayInfo)] encodes a slice of pointers; keys
    are not part of it. *)

From S2P Require Import Prelude GoBytes NodeID DhtStore Onion OnionProofs Relay RelayProofs.

Section registry.
Context `{X509}.

(** [RelayInfo] of pool.go *)
Record RelayInfo := mkRelayInfo {
  ni_Address : list Z; ni_Endpoint : gostring; ni_PublicKey : option PublicKey; ni_PublicKeyPEM : gostring;
  ni_IsActive : bool; ni_Region : gostring; ni_Reputation : Z }.

Abbreviation RelayRegistry := (gmap gostring RelayInfo).

Definition NewRelayRegistry : RelayRegistry := ∅.
Definition AddRelay (r : RelayRegistry) (info : RelayInfo) : RelayRegistry := <[ni_Endpoint info := info]> r.
Definition RemoveRelay (r : RelayRegistry) (endpoint : gostring) : RelayRegistry := delete endpoint r.
Definition GetRelay (r : RelayRegistry) (endpoint : gostring) : option RelayInfo := r !! endpoint.

(** [generated]: what GenerateRSAKeyPair returned, without the error, which is
    ignored: a nil key is dereferenced; so is the error of the PEM encoding *)
Definition sample_info (generated : option PrivateKey) (name endpoint region : string) (reputation : Z) : outcome RelayInfo :=
  match generated with
  | None => Panic
  | Some key =>
      let pem := match ExportPublicKeyPEM (rsa_public key) with Ok d => Ok d | Err _ => Ok [] | Panic => Panic end in
      pem ← pem; Ok (mkRelayInfo (string_bytes name) (string_bytes endpoint) (Some (rsa_public key)) pem true (string_bytes region) reputation)
  end.
Definition CreateSampleRegistry (relay1Key relay2Key relay3Key : option PrivateKey) : outcome RelayRegistry :=
  relay1 ← sample_info relay1Key "relay1______________" "localhost:8081" "us-east" 95;
  relay2 ← sample_info relay2Key "relay2______________" "localhost:8082" "eu-west" 88;
  relay3 ← sample_info relay3Key "relay3______________" "localhost:8083" "ap-south" 92;
  Ok (AddRelay (AddRelay (AddRelay NewRelayRegistry relay1) relay2) relay3).

(** the order of the map *)
Context (order : list (gostring * RelayInfo) → list (gostring * RelayInfo)).

Definition GetAllRelays (r : RelayRegistry) : list RelayInfo := snd <$> order (map_to_list r).
Definition GetOnlineRelays (r : RelayRegistry) : list RelayInfo :=
  filter (λ i, ni_IsActive i = true) (GetAllRelays r).
Definition GetRelaysByRegion (r : RelayRegistry) (region : gostring) : list RelayInfo :=
  filter (λ i, ni_Region i = region ∧ ni_IsActive i = true) (GetAllRelays r).

(** the inner loop: the place [i] is compared with every later one *)
Fixpoint exchange (x : RelayInfo) (rest : list RelayInfo) : RelayInfo * list RelayInfo :=
  match rest with
  | [] => (x, [])
  | y :: rest' =>
      if ni_Reputation x <? ni_Reputation y then
        let '(best, rest') := exchange y rest' in (best, x :: rest')
      else let '(best, rest') := exchange x rest' in (best, y :: rest')
  end.
(** the outer one; [fuel] is the length *)
Fixpoint exchange_sort (fuel : nat) (relays : list RelayInfo) : list RelayInfo :=
  match fuel, relays with
  | S fuel', x :: rest => let '(best, rest) := exchange x rest in best :: exchange_sort fuel' rest
  | _, _ => relays
  end.

Definition GetBestRelays (r : RelayRegistry) (n : Z) : outcome (list RelayInfo) :=
  let relays := GetOnlineRelays r in
  let relays := exchange_sort (length relays) relays in
  if n <? len relays then (if n <? 0 then Panic else Ok (take (Z.to_nat n) relays)) else Ok relays.

Definition set_key (i : RelayInfo) (key : PublicKey) : RelayInfo :=
  mkRelayInfo (ni_Address i) (ni_Endpoint i) (Some key) (ni_PublicKeyPEM i) (ni_IsActive i) (ni_Region i) (ni_Reputation i).

(** the conversion loop: keys that are parsed stay in the registry, also when a
    later one fails *)
Fixpoint path_of (r : RelayRegistry) (relays : list RelayInfo) : RelayRegistry * outcome (list (list Z * option PublicKey)) :=
  match relays with
  | [] => (r, Ok [])
  | i :: relays' =>
      let parsed :=
        match ni_PublicKey i with
        | None => if bool_decide (ni_PublicKeyPEM i = []) then Ok i
                  else key ← wrap_err "failed to parse relay public key: " (ImportPublicKeyPEM (ni_PublicKeyPEM i));
                       Ok (set_key i key)
        | Some _ => Ok i
        end in
      match parsed with
      | Ok i =>
          let '(r, rest) := path_of (AddRelay r i) relays' in
          (r, l ← rest; Ok ((ni_Address i, ni_PublicKey i) :: l))
      | Err t => (r, Err t)
      | Panic => (r, Panic)
      end
  end.

Definition Registry_BuildRelayPath (r : RelayRegistry) (numRelays : Z)
  : RelayRegistry * outcome (list (list Z * option PublicKey)) :=
  match GetBestRelays r numRelays with
  | Ok bestRelays =>
      if len bestRelays <? numRelays then
        (r, Err ("not enough online relays (need " +:+ pretty numRelays +:+ ", found " +:+ pretty (len bestRelays) +:+ ")"))
      else path_of r bestRelays
  | Err t => (r, Err t)
  | Panic => (r, Panic)
  end.

Context `{Json (list (option RelayInfo))}.

(** a new map from the decoded slice; a [null] in it is dereferenced *)
Fixpoint fill (r : RelayRegistry) (relays : list (option RelayInfo)) : RelayRegistry * outcome unit :=
  match relays with
  | [] => (r, Ok tt)
  | None :: _ => (r, Panic)
  | Some i :: relays' => fill (AddRelay r i) relays'
  end.

Definition load (r : RelayRegistry) (data : list Z) : RelayRegistry * outcome unit :=
  match wrap_err "failed to parse registry JSON: " (json_unmarshal data) with
  | Ok relays => fill ∅ relays
  | Err t => (r, Err t)
  | Panic => (r, Panic)
  end.

(** [opened]: the result of opening the file; [contents]: of reading it *)
Definition LoadFromFile (r : RelayRegistry) (opened : outcome unit) (contents : outcome (list Z))
  : RelayRegistry * outcome unit :=
  match wrap_err "failed to open registry file: " opened with
  | Ok _ =>
      match wrap_err "failed to read registry file: " contents with
      | Ok data => load r data
      | Err t => (r, Err t)
      | Panic => (r, Panic)
      end
  | Err t => (r, Err t)
  | Panic => (r, Panic)
  end.

(** what is written to the file *)
Definition SaveToFile (r : RelayRegistry) (write : list Z → outcome unit) : outcome unit :=
  data ← wrap_err "failed to marshal registry: " (json_marshal (Some <$> GetAllRelays r));
  wrap_err "failed to write registry file: " (write data).

(** [response]: status code and body *)
Definition FetchFromURL (r : RelayRegistry) (response : outcome (Z * outcome (list Z)))
  : RelayRegistry * outcome unit :=
  match wrap_err "failed to fetch registry: " response with
  | Ok (status, body) =>
      if negb (status =? 200) then (r, Err ("registry fetch failed: HTTP " +:+ pretty status))
      else match wrap_err "failed to read registry response: " body with
           | Ok data => load r data
           | Err t => (r, Err t)
           | Panic => (r, Panic)
           end
  | Err t => (r, Err t)
  | Panic => (r, Panic)
  end.

Definition HealthCheck (r : RelayRegistry) (endpoint : gostring) : bool :=
  match r !! endpoint with Some info => ni_IsActive info | None => false end.

Definition UpdateRelayStatus (r : RelayRegistry) (endpoint : gostring) (isActive : bool) : RelayRegistry :=
  match r !! endpoint with
  | Some i => <[endpoint := mkRelayInfo (ni_Address i) (ni_Endpoint i) (ni_PublicKey i) (ni_PublicKeyPEM i) isActive
                              (ni_Region i) (ni_Reputation i)]> r
  | None => r
  end.

(** ** The best relays *)

Definition better (a b : RelayInfo) : Prop := ni_Reputation b ≤ ni_Reputation a.

Lemma exchange_spec rest : ∀ x,
  let '(best, rest') := exchange x rest in
  best :: rest' ≡ₚ x :: rest ∧ Forall (better best) (x :: rest).
Proof.
  induction rest as [|y rest IH]; intros x; cbn [exchange]; [split; [done|]; apply Forall_singleton; unfold better; lia|].
  destruct (Z.ltb_spec (ni_Reputation x) (ni_Reputation y)) as [Hlt|Hge].
  - specialize (IH y). destruct (exchange y rest) as [best rest']. destruct IH as [Hp Hb]. split.
    + by rewrite (Permutation_swap x best), Hp.
    + apply Forall_cons in Hb as Hb'. destruct Hb' as [Hy _]. constructor; [unfold better in *; lia|done].
  - specialize (IH x). destruct (exchange x rest) as [best rest']. destruct IH as [Hp Hb]. split.
    + rewrite (Permutation_swap y best), Hp. apply Permutation_swap.
    + apply Forall_cons in Hb as [Hx Hr]. constructor; [done|]. constructor; [unfold better in *; lia|done].
Qed.

Lemma exchange_sort_spec fuel : ∀ relays, (length relays ≤ fuel)%nat →
  exchange_sort fuel relays ≡ₚ relays ∧ StronglySorted better (exchange_sort fuel relays).
Proof.
  induction fuel as [|fuel IH]; intros relays Hl; [destruct relays; [split; [done|constructor]|cbn in Hl; lia]|].
  destruct relays as [|x rest]; [split; [done|constructor]|]. cbn [exchange_sort].
  pose proof (exchange_spec rest x) as He. destruct (exchange x rest) as [best rest']. destruct He as [Hp Hb].
  assert (length rest' ≤ fuel)%nat as Hl' by (apply Permutation_length in Hp; cbn in *; lia).
  destruct (IH rest' Hl') as [Hp' Hs]. split; [by rewrite Hp', Hp|]. constructor; [done|].
  rewrite <- Hp in Hb. apply Forall_cons in Hb as [_ Hb]. by rewrite Hp'.
Qed.

(** The best [n] relays are the [n] online ones of highest reputation, best
    first: nothing left out has a higher one. *)
Theorem best_relays_spec (r : RelayRegistry) (n : Z) :
  (∀ l, order l ≡ₚ l) → 0 ≤ n →
  ∃ best others, GetBestRelays r n = Ok best ∧
    best ++ others ≡ₚ filter (λ i, ni_IsActive i = true) (snd <$> map_to_list r) ∧
    len best = Z.min n (len (best ++ others)) ∧ StronglySorted better (best ++ others).
Proof.
  intros Ho Hn. unfold GetBestRelays. destruct (exchange_sort_spec (length (GetOnlineRelays r)) (GetOnlineRelays r) ltac:(done)) as [Hp Hs].
  set (sorted := exchange_sort _ _) in *. assert (sorted ≡ₚ filter (λ i, ni_IsActive i = true) (snd <$> map_to_list r)) as Hperm.
  { rewrite Hp. unfold GetOnlineRelays, GetAllRelays. by rewrite (Ho _). }
  destruct (Z.ltb_spec n (len sorted)) as [Hlt|Hge].
  - destruct (Z.ltb_spec n 0) as [?|_]; [lia|]. exists (take (Z.to_nat n) sorted), (drop (Z.to_nat n) sorted).
    rewrite take_drop. split_and!; [done..| |done]. unfold len in *. rewrite length_take. lia.
  - exists sorted, []. rewrite app_nil_r. split_and!; [done..| |done]. lia.
Qed.

(** ** Files *)

(** every record is filed under its endpoint *)
Definition saved_ok (r : RelayRegistry) : Prop :=
  ∀ endpoint i, r !! endpoint = Some i → ni_Endpoint i = endpoint.

Lemma fill_list (l : list (gostring * RelayInfo)) : ∀ r,
  (∀ ei, ei ∈ l → ni_Endpoint ei.2 = ei.1) →
  fill r (Some <$> (snd <$> l)) = (foldl (λ r ei, <[ei.1 := ei.2]> r) r l, Ok tt).
Proof.
  induction l as [|[endpoint i] l IH]; intros r Hl; [done|]. cbn. rewrite <- IH; [|intros ei Hei; apply Hl; by right].
  unfold AddRelay. pose proof (Hl (endpoint, i) ltac:(left)) as E. cbn in E. by rewrite E.
Qed.

Lemma foldl_map_list (l : list (gostring * RelayInfo)) : ∀ r : RelayRegistry, NoDup l.*1 →
  ∀ e, foldl (λ r ei, <[ei.1 := ei.2]> r) r l !! e = match list_to_map (M := RelayRegistry) l !! e with Some i => Some i | None => r !! e end.
Proof.
  induction l as [|[e0 i0] l IH]; intros r Hn e; [cbn; by rewrite lookup_empty|]. cbn in *. apply NoDup_cons in Hn as [Hni Hn].
  rewrite IH by done. destruct (decide (e = e0)) as [->|He].
  - rewrite lookup_insert_eq, not_elem_of_list_to_map_1 by done. by rewrite lookup_insert_eq.
  - rewrite !lookup_insert_ne by done. done.
Qed.

(** What is saved is loaded again, as the same registry, whatever the registry
    was before and in whatever order the map was written. *)
Theorem registry_roundtrip {typed plain} `{!JsonLaws (list (option RelayInfo)) typed plain}
    (r before : RelayRegistry) (data : list Z) :
  (∀ l, order l ≡ₚ l) → saved_ok r → plain (Some <$> GetAllRelays r) →
  SaveToFile r (λ d, if bool_decide (d = data) then Ok tt else Err "disk") = Ok tt →
  LoadFromFile before (Ok tt) (Ok data) = (r, Ok tt).
Proof.
  intros Ho Hok Hp. unfold SaveToFile. destruct (json_marshal (Some <$> GetAllRelays r)) as [d|t|] eqn:Hm; [|done..].
  cbn [wrap_err mbind outcome_bind]. case_bool_decide as Ed; [|done]. subst d. intros _.
  unfold LoadFromFile, load. cbn [wrap_err]. rewrite (json_round _ _ Hp Hm). cbn [wrap_err].
  unfold GetAllRelays. set (l := order (map_to_list r)). assert (l ≡ₚ map_to_list r) as Hl by apply Ho.
  rewrite fill_list.
  - f_equal. apply map_eq. intros e. rewrite foldl_map_list by (rewrite Hl; apply NoDup_fst_map_to_list).
    rewrite lookup_empty. rewrite (list_to_map_proper l (map_to_list r)), list_to_map_to_list; [by destruct (r !! e)| |done].
    rewrite Hl. apply NoDup_fst_map_to_list.
  - intros [e i]. rewrite Hl, elem_of_map_to_list. cbn. apply Hok.
Qed.

End registry.

(** a path over the sample registry: its three relays, best reputation first *)
Lemma sample_registry_path `{X509} k1 k2 k3 p1 p2 p3 :
  ExportPublicKeyPEM (rsa_public k1) = Ok p1 → ExportPublicKeyPEM (rsa_public k2) = Ok p2 → ExportPublicKeyPEM (rsa_public k3) = Ok p3 →
  ∃ r, CreateSampleRegistry (Some k1) (Some k2) (Some k3) = Ok r ∧ (Registry_BuildRelayPath id r 3).2 = Ok
    [(string_bytes "relay1______________", Some (rsa_public k1)); (string_bytes "relay3______________", Some (rsa_public k3));
     (string_bytes "relay2______________", Some (rsa_public k2))].
Proof.
  intros H1 H2 H3. unfold CreateSampleRegistry, sample_info. rewrite H1, H2, H3. cbn [mbind outcome_bind].
  eexists. split; [reflexivity|]. vm_compute. reflexivity.
Qed.

(** ** Concrete registries *)

Section witnesses.
#[local] Existing Instances OnionSample.rsa RelaySample.x509.

Definition sample_relay (a reputation : Z) : RelayInfo := mkRelayInfo (replicate 20 a) [a] None [a] true [] reputation.
Definition sample_registry : gmap gostring RelayInfo :=
  AddRelay (AddRelay NewRelayRegistry (sample_relay 1 50)) (sample_relay 2 80).

#[local] Instance sample_info_eq_dec : EqDecision (@RelayInfo OnionSample.rsa).
Proof.
  intros [a1 b1 c1 d1 e1 f1 g1] [a2 b2 c2 d2 e2 f2 g2].
  destruct (decide ((a1, b1, d1, e1, f1, g1) = (a2, b2, d2, e2, f2, g2))) as [E|E]; [|right; congruence].
  destruct (decide ((c1 : option Z) = c2)) as [Ec|Ec]; [left; congruence|right; congruence].
Defined.
(** JSON that knows one slice *)
Definition sample_slice : list (option RelayInfo) := Some <$> GetAllRelays id sample_registry.
#[local] Instance sample_registry_json : Json (list (option (@RelayInfo OnionSample.rsa))) := {|
  json_marshal l := if bool_decide (l = sample_slice) then Ok [1] else Err "json";
  json_unmarshal d := if bool_decide (d = [1]) then Ok sample_slice else Err "json" |}.
#[local] Instance sample_registry_laws : JsonLaws (list (option RelayInfo)) (λ l, l = sample_slice) (λ l, l = sample_slice).
Proof.
  constructor; cbn.
  - intros d. by case_bool_decide.
  - intros d a. case_bool_decide; [|done]. intros E. by apply Ok_inj in E.
  - intros a ->. exists [1]. rewrite bool_decide_true by done. split; [done|by_decision].
  - intros a d -> E. rewrite bool_decide_true in E by done. apply Ok_inj in E as <-. done.
Qed.

Lemma best_relays_spec_witness : ∃ best, GetBestRelays id sample_registry 1 = Ok best ∧ len best = 1.
Proof.
  destruct (best_relays_spec id sample_registry 1) as (best & others & Hb & Hp & Hl & _); [done|lia|].
  exists best. split; [exact Hb|]. rewrite Hl. unfold len. rewrite (Permutation_length Hp). vm_compute. reflexivity.
Defined.

Lemma registry_roundtrip_witness : LoadFromFile NewRelayRegistry (Ok tt) (Ok [1]) = (sample_registry, Ok tt).
Proof.
  apply (registry_roundtrip id sample_registry NewRelayRegistry [1]); [done| |reflexivity|vm_compute; reflexivity].
  intros endpoint i. unfold sample_registry, AddRelay. cbn [ni_Endpoint sample_relay].
  intros [[<- <-]|[_ [[<- <-]|[_ Hi]]%lookup_insert_Some]]%lookup_insert_Some; [done..|].
  unfold NewRelayRegistry in Hi. by rewrite lookup_empty in Hi.
Defined.
End witnesses.
