(* ===== verification/RelayMesh.v ===== *)
(** * Relays connecting to relays: pkg/network/relay_mesh.go

    The manager works on its relay and the relay's [RelayDiscovery].  What a
    relay that is dialled answers is an argument; the goroutine that then serves
    the connection is [handleConnection] of [Relay]. *)

From Stdlib Require Import SpecFloat.
From S2P Require Import Prelude GoBytes NodeID Wire WireGroups DhtStore DhtSample Aes Onion OnionProofs RelayQueue Relay RelayProofs RelayDiscovery RelayPaths.

Record BootstrapRelay := mkBootstrapRelay { br_Address : list Z; br_NetworkAddress : gostring; br_Region : gostring }.
(** [mm_stopped]: [stopChan] is closed *)
Record MeshManager := mkMeshManager {
  mm_bootstrapRelays : list BootstrapRelay; mm_targetPeerCount : Z; mm_running : bool; mm_stopped : bool }.

Definition NewMeshManager (targetPeerCount : Z) : MeshManager := mkMeshManager [] targetPeerCount false false.
Definition SetBootstrapRelays (mm : MeshManager) (relays : list BootstrapRelay) : MeshManager :=
  mkMeshManager relays (mm_targetPeerCount mm) (mm_running mm) (mm_stopped mm).
Definition AddBootstrapRelay (mm : MeshManager) (relay : BootstrapRelay) : MeshManager :=
  mkMeshManager (mm_bootstrapRelays mm ++ [relay]) (mm_targetPeerCount mm) (mm_running mm) (mm_stopped mm).

(** the goroutines it starts are the operations below *)
Definition Start_mesh (mm : MeshManager) : MeshManager * outcome unit :=
  if mm_running mm then (mm, Err "mesh manager already running")
  else (mkMeshManager (mm_bootstrapRelays mm) (mm_targetPeerCount mm) true (mm_stopped mm), Ok tt).
Definition Stop_mesh (mm : MeshManager) : MeshManager * outcome unit :=
  if negb (mm_running mm) then (mm, Ok tt)
  else (mkMeshManager (mm_bootstrapRelays mm) (mm_targetPeerCount mm) false true,
        if mm_stopped mm then Panic else Ok tt).

(** A manager can be started again after it was stopped, but stopping it then
    closes its channel a second time. *)
Example second_stop_panics :
  let mm := (Start_mesh (NewMeshManager 3)).1 in
  let mm := (Start_mesh (Stop_mesh mm).1).1 in
  mm_running mm = true ∧ (Stop_mesh mm).2 = Panic.
Proof. split; reflexivity. Qed.

Section mesh.
Context `{AesGcm} `{X509} `{Blake2b} `{Json OnionLayer}.

(** the state the manager works on *)
Record MeshState := mkMeshState { ms_relay : RelayServer; ms_discovery : option RelayDiscovery }.

(** dialling an address: the connection and what can be read from it *)
Record menv := mkMenv { me_now : Z; me_dial : gostring → outcome (nat * list Z); me_env : gostring → renv }.

Definition peer_count (rs : RelayServer) : Z := Z.of_nat (size (rs_peers rs)).

Definition bootstrap_record (b : BootstrapRelay) (now : Z) : RelayMetadata :=
  mkRelayMetadata (br_Address b) (br_NetworkAddress b) [] (br_Region b) [] [] 0 0 (Unix now) 0 f0 f0.

Fixpoint connectToBootstrapRelays (s : MeshState) (bootstraps : list BootstrapRelay) (e : menv)
  : MeshState * list reffect :=
  match bootstraps with
  | [] => (s, [])
  | b :: bootstraps' =>
      if bool_decide (is_Some (rs_peers (ms_relay s) !! br_Address b)) then connectToBootstrapRelays s bootstraps' e
      else
        let '(rs, effs, r) := ConnectToRelay (ms_relay s) (br_Address b) (me_dial e (br_NetworkAddress b))
                                (me_env e (br_NetworkAddress b)) in
        let discovery :=
          match r, ms_discovery s with
          | Ok _, Some rd => Some (AddKnownRelay rd (bootstrap_record b (me_now e)))
          | _, d => d
          end in
        let '(s, effs') := connectToBootstrapRelays (mkMeshState rs discovery) bootstraps' e in
        (s, effs ++ effs')
  end.

(** the connection loop: the number of new connections *)
Fixpoint connect_relays (rs : RelayServer) (target : Z) (relays : list RelayMetadata) (e : menv)
  : RelayServer * list reffect * Z :=
  match relays with
  | [] => (rs, [], 0)
  | relay :: relays' =>
      if target <=? peer_count rs then (rs, [], 0)
      else if bool_decide (is_Some (rs_peers rs !! md_Address relay)) then connect_relays rs target relays' e
      else if bool_decide (md_Address relay = rs_Address rs) then connect_relays rs target relays' e
      else
        let '(rs, effs, r) := ConnectToRelay rs (md_Address relay) (me_dial e (md_NetworkAddress relay))
                                (me_env e (md_NetworkAddress relay)) in
        let '(rs, effs', n) := connect_relays rs target relays' e in
        (rs, effs ++ effs', if r is Ok _ then n + 1 else n)
  end.

Definition discoverAndConnect (s : MeshState) (target : Z) (de : dsenv) (e : menv) : option (MeshState * list reffect) :=
  match ms_discovery s with
  | None => Some (s, [])
  | Some rd =>
      let currentPeerCount := peer_count (ms_relay s) in
      if target <=? currentPeerCount then Some (s, [])
      else
        let needed := target - currentPeerCount in
        '(rd, r) ← DiscoverRelays rd (needed * 2) de;
        Some match r with
        | Ok relays =>
            let '(rs, effs, _) := connect_relays (ms_relay s) target relays e in (mkMeshState rs (Some rd), effs)
        | _ => (mkMeshState (ms_relay s) (Some rd), [])
        end
  end.

(** the peers that are relays *)
Definition relay_peers (rs : RelayServer) : Z :=
  Z.of_nat (size (filter (λ ap : list Z * Peer, p_ClientType ap.2 = ClientTypeRelay) (rs_peers rs))).

(** whether a discovery is started *)
Definition maintainConnections (rs : RelayServer) (target : Z) : bool := relay_peers rs <? target.

Record MeshStatus := mkMeshStatus {
  mst_relay_peers : Z; mst_client_peers : Z; mst_total_peers : Z; mst_target_peers : Z; mst_mesh_healthy : bool }.
Definition GetMeshStatus (rs : RelayServer) (target : Z) : MeshStatus :=
  let relayPeers := relay_peers rs in
  mkMeshStatus relayPeers (peer_count rs - relayPeers) (peer_count rs) target (target <=? relayPeers).

(** ** Properties *)

(** connecting adds at most the one peer *)
Lemma ConnectToRelay_peers rs addr dial e :
  let '(rs', _, r) := ConnectToRelay rs addr dial e in
  rs_Address rs' = rs_Address rs ∧ rs_peers rs ⊆ rs_peers rs' ∧ peer_count rs' ≤ peer_count rs + 1 ∧
  ∀ a, is_Some (rs_peers rs' !! a) → is_Some (rs_peers rs !! a) ∨ a = addr.
Proof.
  assert (let rs' := rs in rs_Address rs' = rs_Address rs ∧ rs_peers rs ⊆ rs_peers rs' ∧ peer_count rs' ≤ peer_count rs + 1 ∧
    ∀ a, is_Some (rs_peers rs' !! a) → is_Some (rs_peers rs !! a) ∨ a = addr) as Hsame by (split_and!; [done..|lia|auto]).
  unfold ConnectToRelay. case_bool_decide as Hex; [done|]. destruct dial as [[conn stream]|t|]; [|done..].
  destruct (write _ _ _) as [effs w].
  match goal with |- context [match ?a with Ok _ => _ | Err _ => _ | Panic => _ end] => destruct a as [st|t|] end; [|done..].
  assert (rs_peers rs !! addr = None) as Hnone by (by destruct (rs_peers rs !! addr); [destruct Hex|]).
  cbn [rs_Address rs_peers with_peers]. split_and!; [done|by apply insert_subseteq| |].
  - unfold peer_count. cbn [rs_peers with_peers]. rewrite map_size_insert_None by done. lia.
  - intros a. destruct (decide (a = addr)) as [->|Hne]; [by right|]. rewrite lookup_insert_ne by done. by left.
Qed.

Lemma connect_relays_spec target e relays : ∀ rs,
  let '(rs', _, _) := connect_relays rs target relays e in
  rs_peers rs ⊆ rs_peers rs' ∧ peer_count rs' ≤ Z.max target (peer_count rs) ∧
  ∀ a, is_Some (rs_peers rs' !! a) → is_Some (rs_peers rs !! a) ∨
    a ∈ (md_Address <$> relays) ∧ a ≠ rs_Address rs.
Proof.
  induction relays as [|relay relays IH]; intros rs; cbn [connect_relays]; [split_and!; [done|lia|auto]|].
  assert (let '(rs', _, _) := connect_relays rs target relays e in
    rs_peers rs ⊆ rs_peers rs' ∧ peer_count rs' ≤ Z.max target (peer_count rs) ∧
    ∀ a, is_Some (rs_peers rs' !! a) → is_Some (rs_peers rs !! a) ∨
      a ∈ (md_Address <$> relay :: relays) ∧ a ≠ rs_Address rs) as Hskip.
  { specialize (IH rs). destruct (connect_relays rs target relays e) as [[rs' ?] ?]. destruct IH as (? & ? & Ha).
    split_and!; [done..|]. intros a Hs. destruct (Ha a Hs) as [?|[? ?]]; [by left|right]. split; [by right|done]. }
  destruct (Z.leb_spec target (peer_count rs)) as [_|Hroom]; [split_and!; [done|lia|auto]|].
  case_bool_decide; [done|]. case_bool_decide as Hself; [done|].
  pose proof (ConnectToRelay_peers rs (md_Address relay) (me_dial e (md_NetworkAddress relay)) (me_env e (md_NetworkAddress relay))) as Hc.
  destruct (ConnectToRelay _ _ _ _) as [[rs1 effs] r]. destruct Hc as (Haddr & Hsub & Hcount & Hnew).
  specialize (IH rs1). destruct (connect_relays rs1 target relays e) as [[rs2 effs'] n]. destruct IH as (Hsub' & Hcount' & Hnew').
  split_and!; [by etrans|lia|]. intros a Hs. destruct (Hnew' a Hs) as [Ha|[Ha Hne]].
  - destruct (Hnew a Ha) as [?| ->]; [by left|right]. split; [left|done].
  - right. split; [by right|congruence].
Qed.

(** Forming the mesh keeps every peer, never goes beyond the target, and adds
    only known relays that are healthy, not blacklisted and not the relay
    itself. *)
Theorem mesh_grows_to_target (s : MeshState) (rd : RelayDiscovery) (target : Z) (de : dsenv) (e : menv) :
  ms_discovery s = Some rd → rd_dhtNode rd = true → known_ok rd → (∀ l, de_order de l ≡ₚ l) →
  enough_draws (de_draws de) (length (eligible rd (de_now de))) (Z.to_nat ((target - peer_count (ms_relay s)) * 2)) →
  ∃ s' effs, discoverAndConnect s target de e = Some (s', effs) ∧
    rs_peers (ms_relay s) ⊆ rs_peers (ms_relay s') ∧
    peer_count (ms_relay s') ≤ Z.max target (peer_count (ms_relay s)) ∧
    ∀ a, is_Some (rs_peers (ms_relay s') !! a) → rs_peers (ms_relay s) !! a = None →
      a ≠ rs_Address (ms_relay s) ∧ ∃ m, m ∈ eligible rd (de_now de) ∧ md_Address m = a.
Proof.
  intros Hd Hdht Hk Ho Hdraws. unfold discoverAndConnect. rewrite Hd.
  destruct (Z.leb_spec target (peer_count (ms_relay s))) as [Hfull|Hroom].
  { exists s, []. split_and!; [done..|lia|]. intros a [p Hp] Hn. congruence. }
  destruct (DiscoverRelays_cases rd de Hdht Hk Ho ((target - peer_count (ms_relay s)) * 2) ltac:(lia) Hdraws)
    as (rd' & r & -> & _ & _ & _ & Hr). cbn [mbind option_bind].
  destruct r as [relays|t|]; [| |done].
  2: { eexists _, _. split_and!; [done..|cbn; lia|]. cbn. intros a [p Hp] Hn. congruence. }
  destruct Hr as (_ & Hel & _ & _). pose proof (connect_relays_spec target e relays (ms_relay s)) as Hc.
  destruct (connect_relays (ms_relay s) target relays e) as [[rs effs] n]. destruct Hc as (Hsub & Hcount & Hnew).
  eexists _, effs. split_and!; [done..|]. cbn [ms_relay]. intros a Ha Hn.
  destruct (Hnew a Ha) as [[p Hp]|[(m & -> & Hm)%list_elem_of_fmap Hne]]; [congruence|]. split; [done|].
  exists m. split; [by apply Hel|done].
Qed.

End mesh.

(** ** A concrete mesh *)

Section witnesses.
#[local] Existing Instances sample_aes OnionSample.rsa OnionSample.blake OnionSample.json RelaySample.x509.

Lemma mesh_grows_to_target_witness :
  ∃ s' effs, discoverAndConnect
      (mkMeshState (RelaySample.server 11 RelaySample.client (RelaySample.relay_peer 5 RelaySample.client)) (Some (PathSample.discovery 2)))
      2 (PathSample.select 2) (mkMenv PathSample.now (λ _, Err "refused") (λ _, RelaySample.env)) = Some (s', effs) ∧
    peer_count (ms_relay s') ≤ 2.
Proof.
  set (s := mkMeshState (RelaySample.server 11 RelaySample.client (RelaySample.relay_peer 5 RelaySample.client)) (Some (PathSample.discovery 2))).
  assert (peer_count (ms_relay s) = 1) as Hc by (vm_compute; reflexivity).
  destruct (mesh_grows_to_target s (PathSample.discovery 2) 2 (PathSample.select 2)
    (mkMenv PathSample.now (λ _, Err "refused") (λ _, RelaySample.env))) as (s' & effs & Hd & _ & Hl & _).
  - reflexivity.
  - vm_compute. reflexivity.
  - apply PathSample.discovery_known.
  - intros l. reflexivity.
  - rewrite Hc. assert (length (eligible (PathSample.discovery 2) (de_now (PathSample.select 2))) = 2%nat) as -> by (vm_compute; reflexivity).
    apply sample_draws.
  - exists s', effs. split; [exact Hd|]. rewrite Hc in Hl. lia.
Defined.
End witnesses.
