(* ===== verification/Groups.v ===== *)
(** * Groups, profiles, typing indicators and receipts: the sending half

    pkg/network/group_manager.go, profile_manager.go and typing_receipt.go.
    A group message goes to every member as a message of its own.  The result
    of a function comes with the bytes it wrote to the relay connection, also
    when it fails; a write that fails may have written a part.  Members and
    their keys are pointers that are not nil, except where the code asks. *)

From S2P Require Import Prelude GoBytes NodeID Wire WireGroups Ratchet Aes DhtStore Onion Inbox Messaging Relay.

(** ** Writing to a connection *)

Definition written (A : Type) : Type := list Z * outcome A.
#[export] Instance written_ret : MRet written := λ A a, ([], Ok a).
#[export] Instance written_bind : MBind written := λ A B f m,
  match m.2 with
  | Ok a => (m.1 ++ (f a).1, (f a).2)
  | Err t => (m.1, Err t)
  | Panic => (m.1, Panic)
  end.
(** a step that writes nothing *)
Definition pure {A} (o : outcome A) : written A := ([], o).

(** what becomes of one [Write]: all of it, or an error after some bytes *)
Definition conn_Write (fault : option nat) (b : list Z) : written unit :=
  match fault with None => (b, Ok tt) | Some n => (take n b, Err "write failed") end.

(** the two writes of a message *)
Record faults := mkFaults { w_header : option nat; w_payload : option nat }.
Definition no_faults : faults := mkFaults None None.

(** ** crypto/keys.go *)

(** [rsa.SignPKCS1v15] *)
Class RsaSign `{Rsa} := { SignPKCS1v15 : PrivateKey → list Z → outcome (list Z) }.
(** a signature is as long as the key, of 4096 bits *)
Class RsaSignLaws `{RsaSign} := { sign_length : ∀ k d s, SignPKCS1v15 k d = Ok s → array 512 s }.

Section sending.
Context `{RatchetOps} `{AesGcm} `{Rsa} `{!X509} `{!RsaSign} `{Blake2b} `{Json OnionLayer}.

Definition SignData (data : list Z) (privateKey : PrivateKey) : outcome (list Z) :=
  SignPKCS1v15 privateKey (sha256 data).

(** ** The common end *)

(** [BuildOnionLayers], header, the two writes *)
Definition forward (relayPath : list RelayInfo) (to payload : list Z) (r : send_random) (w : faults) : written unit :=
  onion ← pure (BuildOnionLayers relayPath to payload (sr_layers r));
  header ← pure (WriteHeader (mkHeader ProtocolMagic ProtocolVersion MsgTypeRelayForward
                   (u32 (len onion)) FlagEncrypted (sr_id r) 0) []);
  _ ← conn_Write (w_header w) header;
  conn_Write (w_payload w) onion.

Definition send_sealed (payload to : list Z) (key : PublicKey) (relayPath : list RelayInfo) (r : send_random)
  (w : faults) : written unit :=
  encryptedMsg ← pure (RSAEncrypt payload key (sr_oaep r));
  forward relayPath to encryptedMsg r w.

(** ** group_manager.go *)

Record GroupMember := mkGroupMember { mem_Address : list Z; mem_PublicKey : PublicKey }.
Record Group := mkGroup { g_ID : list Z; g_Name : list Z; g_Members : list GroupMember }.

(** the loop over the members: errors are logged *)
Fixpoint fan_out (self payload : list Z) (members : list GroupMember) (relayPath : list RelayInfo)
  (r : nat → send_random) (w : nat → faults) (i : nat) : written unit :=
  match members with
  | [] => mret tt
  | m :: members' =>
      let rest := fan_out self payload members' relayPath r w (S i) in
      if bool_decide (mem_Address m = self) then rest
      else
        let sent := send_sealed payload (mem_Address m) (mem_PublicKey m) relayPath (r i) (w i) in
        match sent.2 with
        | Panic => sent
        | _ => (sent.1 ++ rest.1, rest.2)
        end
  end.

Definition ContentTypeText : Z := 0.

Definition group_message (self : list Z) (group : Group) (content : list Z) (nowMs : Z) : GroupMessage :=
  mkGroupMessage self (g_ID group) (u64 nowMs) ContentTypeText content [].

Definition SendGroupMessage (ep : Endpoint) (group : Group) (content : list Z) (relayPath : list RelayInfo)
  (nowMs : Z) (r : nat → send_random) (w : nat → faults) : written unit :=
  if negb (ep_connected ep) then pure (Err "not connected")
  else
    groupMsgPayload ← pure (GroupMessage_Encode (group_message (ep_Address ep) group content nowMs));
    fan_out (ep_Address ep) groupMsgPayload (g_Members group) relayPath r w 0.

Definition CreateGroup (ep : Endpoint) (groupID groupName : list Z) (members : list GroupMember)
  (relayPath : list RelayInfo) (nowMs : Z) (r : nat → send_random) (w : nat → faults) : written unit :=
  if negb (ep_connected ep) then pure (Err "not connected")
  else
    createPayload ← pure (GroupCreate_Encode (mkGroupCreate groupID groupName (ep_Address ep) (u64 nowMs)
                                                 (mem_Address <$> members)));
    fan_out (ep_Address ep) createPayload members relayPath r w 0.

Definition leave_payload (ep : Endpoint) (key : PrivateKey) (groupID : list Z) (nowMs : Z) : outcome (list Z) :=
  dataToSign ← GroupLeave_EncodeForSigning (mkGroupLeave groupID (ep_Address ep) (u64 nowMs) []);
  signature ← SignData dataToSign key;
  GroupLeave_Encode (mkGroupLeave groupID (ep_Address ep) (u64 nowMs) signature).

Definition LeaveGroup (ep : Endpoint) (key : PrivateKey) (groupID : list Z) (members : list GroupMember)
  (relayPath : list RelayInfo) (nowMs : Z) (r : nat → send_random) (w : nat → faults) : written unit :=
  if negb (ep_connected ep) then pure (Err "not connected")
  else
    leavePayload ← pure (leave_payload ep key groupID nowMs);
    fan_out (ep_Address ep) leavePayload members relayPath r w 0.

Definition GroupUpdateName : Z := 1.
Definition GroupUpdateAddMember : Z := 2.
Definition GroupUpdateRemoveMember : Z := 3.
Definition GroupUpdateAdminChange : Z := 4.

(** the log line of these updates reads the target's address *)
Definition needs_target (updateType : Z) : bool :=
  (updateType =? GroupUpdateAddMember) || (updateType =? GroupUpdateRemoveMember)
  || (updateType =? GroupUpdateAdminChange).

Definition update_payload (ep : Endpoint) (key : PrivateKey) (groupID : list Z) (updateType : Z) (newGroupName : list Z)
  (targetMember : option GroupMember) (nowMs : Z) : outcome (list Z) :=
  let memberAddr := from_option mem_Address (replicate 20 0) targetMember in
  let updateMsg := mkGroupUpdate groupID updateType (ep_Address ep) (u64 nowMs) newGroupName memberAddr in
  dataToSign ← GroupUpdate_EncodeForSigning (updateMsg []);
  signature ← SignData dataToSign key;
  GroupUpdate_Encode (updateMsg signature).

Definition UpdateGroup (ep : Endpoint) (key : PrivateKey) (groupID : list Z) (updateType : Z) (members : list GroupMember)
  (relayPath : list RelayInfo) (newGroupName : list Z) (targetMember : option GroupMember) (nowMs : Z)
  (r : nat → send_random) (w : nat → faults) : written unit :=
  if negb (ep_connected ep) then pure (Err "not connected")
  else
    updatePayload ← pure (update_payload ep key groupID updateType newGroupName targetMember nowMs);
    if needs_target updateType && bool_decide (targetMember = None) then pure Panic
    else fan_out (ep_Address ep) updatePayload members relayPath r w 0.

Definition JoinGroup (ep : Endpoint) (key : PrivateKey) (groupID adminAddr : list Z) (adminPubKey : PublicKey)
  (relayPath : list RelayInfo) (nowMs : Z) (r : send_random) (w : faults) : written unit :=
  if negb (ep_connected ep) then pure (Err "not connected")
  else
    dataToSign ← pure (GroupJoin_EncodeForSigning (mkGroupJoin groupID (ep_Address ep) (u64 nowMs) []));
    signature ← pure (SignData dataToSign key);
    joinPayload ← pure (GroupJoin_Encode (mkGroupJoin groupID (ep_Address ep) (u64 nowMs) signature));
    send_sealed joinPayload adminAddr adminPubKey relayPath r w.

(** ** profile_manager.go *)

(** [copy(a[:], l)] into a zero array of [n] bytes *)
Definition copy_array (n : nat) (l : list Z) : list Z := take n (l ++ replicate n 0).

Definition UpdateProfile (ep : Endpoint) (key : PrivateKey) (username bio : list Z) (avatarChunkID : Z)
  (avatarKey : list Z) (nowMs : Z) : outcome ProfileUpdate :=
  if negb (ep_connected ep) then Err "not connected"
  else
    let profile := mkProfileUpdate (ep_Address ep) (copy_array 32 username) avatarChunkID (copy_array 32 avatarKey)
                     (copy_array 256 bio) in
    pubKeyPEM ← ExportPublicKeyPEM (rsa_public key);
    dataToSign ← ProfileUpdate_EncodeForSigning (profile pubKeyPEM (u64 nowMs) []);
    signature ← SignData dataToSign key;
    Ok (profile pubKeyPEM (u64 nowMs) signature).

(** [key length:2][encrypted AES key][encrypted profile]; [aesKey], [nonce]: random *)
Definition hybrid_encrypt (payload : list Z) (key : PublicKey) (aesKey nonce : option (list Z)) (oaep : list Z)
  : outcome (list Z) :=
  aesKey ← GenerateAESKey aesKey;
  encryptedProfile ← AESEncrypt nonce payload aesKey;
  encryptedKey ← RSAEncrypt aesKey key oaep;
  let keyLen := u16 (len encryptedKey) in
  Ok ([u8 (Z.shiftr keyLen 8); u8 keyLen] ++ encryptedKey ++ encryptedProfile).

Definition BroadcastProfile (ep : Endpoint) (profile : ProfileUpdate) (toAddr : list Z) (toPubKey : PublicKey)
  (relayPath : list RelayInfo) (aesKey nonce : option (list Z)) (r : send_random) (w : faults) : written unit :=
  if negb (ep_connected ep) then pure (Err "not connected")
  else
    profilePayload ← pure (ProfileUpdate_Encode profile);
    combined ← pure (hybrid_encrypt profilePayload toPubKey aesKey nonce (sr_oaep r));
    forward relayPath toAddr combined r w.

Definition profile_request (self target : list Z) (nowMs : Z) : DirectMessage :=
  mkDirectMessage self target (u64 nowMs) 0 ContentTypeText (replicate 16 0) (string_bytes "PROFILE_REQUEST") [].

Definition RequestProfile (ep : Endpoint) (targetAddr : list Z) (targetPubKey : PublicKey) (relayPath : list RelayInfo)
  (r : send_random) (w : faults) : written unit :=
  if negb (ep_connected ep) then pure (Err "not connected")
  else
    msgPayload ← pure (DirectMessage_Encode (profile_request (ep_Address ep) targetAddr (sr_nowMs r)));
    send_sealed msgPayload targetAddr targetPubKey relayPath r w.

(** ** typing_receipt.go *)

Definition SendTypingIndicator (ep : Endpoint) (to : list Z) (recipientPubKey : PublicKey) (isTyping : bool)
  (relayPath : list RelayInfo) (r : send_random) (w : faults) : written unit :=
  if negb (ep_connected ep) then pure (Err "not connected")
  else
    payload ← pure (Typing_Encode (mkTyping (ep_Address ep) to (u64 (sr_nowMs r)) isTyping));
    send_sealed payload to recipientPubKey relayPath r w.

Definition SendReadReceipt (ep : Endpoint) (to : list Z) (recipientPubKey : PublicKey) (messageID : list Z)
  (readStatus : Z) (relayPath : list RelayInfo) (r : send_random) (w : faults) : written unit :=
  if negb (ep_connected ep) then pure (Err "not connected")
  else
    payload ← pure (ReadReceipt_Encode (mkReadReceipt (ep_Address ep) to messageID (u64 (sr_nowMs r)) readStatus));
    send_sealed payload to recipientPubKey relayPath r w.

(** the effect on the database, and what is sent *)
Definition MarkMessageAsRead (ep : Endpoint) (from : list Z) (senderPubKey : PublicKey) (messageID : list Z)
  (relayPath : list RelayInfo) (r : send_random) (w : faults) : list effect * written unit :=
  (when (ep_messageDB ep) [UpdateMessageStatus (hex_encode messageID) "read"],
   SendReadReceipt ep from senderPubKey messageID ReadStatusRead relayPath r w).

End sending.
