(* ===== verification/GroupsProofs.v ===== *)
(** * Theorems on groups, profiles, typing indicators and receipts *)

From S2P Require Import Prelude GoBytes NodeID Wire WireGroups Ratchet Ed25519 X3DH Aes DhtStore Onion Session Inbox Messaging DhtSample OnionProofs InboxProofs RatchetProofs MessagingProofs Relay RelayProofs Groups.

Section groups_proofs.
Context `{RatchetOps} `{Ed25519} `{AesGcmLaws} `{RsaLaws} `{!X509} `{!RsaSign} `{Blake2bLaws} `{Json OnionLayer}.
Context {json_laws : JsonLaws OnionLayer OnionLayer_typed OnionLayer_typed}.

(** ** Sealed messages *)

(** [frame]: header and onion of a payload for [to] over [path], which the relays
    peel down to [sealed] *)
Definition carries (path : list (list Z * PrivateKey)) (to frame sealed : list Z) : Prop :=
  ∃ header onion, frame = header ++ onion ∧ length header = 32%nat ∧
    peel path.*2 onion = Ok (next_hops path to, sealed).

Definition random_ok (r : send_random) : Prop := (∀ i, layer_random_ok (sr_layers r i)) ∧ array 16 (sr_id r).
Definition path_ok (path : list (list Z * PrivateKey)) : Prop := path ≠ [] ∧ Forall (λ p, array 20 p.1) path.

Lemma forward_carries path to payload r :
  path_ok path → random_ok r → array 20 to → bytes payload →
  ∃ frame, forward (relays path) to payload r no_faults = (frame, Ok tt) ∧ carries path to frame payload.
Proof.
  intros [Hne Hp] [Hr Hid] Hto Hb.
  destruct (build_layers_peel path to payload (sr_layers r) 0 Hr Hp Hto Hb) as (onion & Ho & _ & Hpeel).
  set (h := mkHeader ProtocolMagic ProtocolVersion MsgTypeRelayForward (u32 (len onion)) FlagEncrypted (sr_id r) 0).
  assert (Header_wf h) as Hh by (apply header_wf; [by_decision..|done|apply u32_range]).
  exists (Header_layout h ++ onion). split.
  - unfold forward. assert (BuildOnionLayers (relays path) to payload (sr_layers r) = Ok onion) as -> by (by destruct path).
    cbn [mbind written_bind pure fst snd app]. unfold WriteHeader. fold h. rewrite Header_Encode_layout by done. done.
  - exists (Header_layout h), onion. split_and!; [done|by apply length_Header_layout|done].
Qed.

Lemma send_sealed_carries path to key d r :
  path_ok path → random_ok r → array 20 to → bytes d → len d ≤ 446 →
  ∃ frame sealed, send_sealed d to (rsa_public key) (relays path) r no_faults = (frame, Ok tt) ∧
    carries path to frame sealed ∧ RSADecrypt sealed key = Ok d.
Proof.
  intros Hp Hr Hto Hb Hl. destruct (oaep_total (rsa_public key) d (sr_oaep r) Hb Hl) as (sealed & Hs & [_ Hsb]).
  destruct (forward_carries path to sealed r Hp Hr Hto Hsb) as (frame & Hf & Hc).
  exists frame, sealed. split_and!; [|done|].
  - unfold send_sealed, RSAEncrypt. rewrite Hs. cbn [mbind written_bind pure fst snd app]. by rewrite Hf.
  - unfold RSADecrypt. by rewrite (oaep_correct _ _ _ _ Hs).
Qed.

Lemma send_sealed_long path to key d r w :
  446 < len d → send_sealed d to key path r w = ([], Err "encryption failed").
Proof. intros Hl. unfold send_sealed, RSAEncrypt. by rewrite oaep_limit. Qed.

(** ** Groups *)

Definition member_of (m : list Z * PrivateKey) : GroupMember := mkGroupMember m.1 (rsa_public m.2).
Definition others (self : list Z) (members : list (list Z * PrivateKey)) : list (list Z * PrivateKey) :=
  filter (λ m, m.1 ≠ self) members.

Lemma fan_out_carries path self d r members : ∀ i,
  path_ok path → (∀ i, random_ok (r i)) → Forall (λ m, array 20 m.1) members → bytes d → len d ≤ 446 →
  ∃ frames, fan_out self d (member_of <$> members) (relays path) r (λ _, no_faults) i = (concat frames, Ok tt) ∧
    Forall2 (λ m frame, ∃ sealed, carries path m.1 frame sealed ∧ RSADecrypt sealed m.2 = Ok d)
      (others self members) frames.
Proof.
  induction members as [|[addr key] members IH]; intros i Hp Hr Hm Hb Hl; [exists []; split; [done|constructor]|].
  apply Forall_cons in Hm as [Ha Hm]. destruct (IH (S i) Hp Hr Hm Hb Hl) as (frames & Hf & Hall).
  cbn [fmap list_fmap fan_out]. change (mem_Address (member_of (addr, key))) with addr.
  change (mem_PublicKey (member_of (addr, key))) with (rsa_public key).
  unfold others. rewrite filter_cons. cbn [fst]. fold (others self members). case_bool_decide as Hs.
  - rewrite decide_False by (intros Hn; by apply Hn). exists frames. by rewrite Hf.
  - rewrite decide_True by done.
    destruct (send_sealed_carries path addr key d (r i) Hp (Hr i) Ha Hb Hl) as (frame & sealed & Hsend & Hc & Hd).
    exists (frame :: frames). split; [|constructor; [by exists sealed|done]].
    change (list_fmap _ _ member_of members) with (member_of <$> members).
    rewrite Hsend. cbn [snd fst]. by rewrite Hf.
Qed.

(** when the payload does not fit, nothing is written and nobody is told *)
Lemma fan_out_long self d members path r w : ∀ i,
  446 < len d → fan_out self d members path r w i = ([], Ok tt).
Proof.
  induction members as [|m members IH]; intros i Hl; [done|]. cbn [fan_out]. rewrite IH by done.
  case_bool_decide; [done|]. rewrite send_sealed_long by done. done.
Qed.

Lemma group_layout_length g :
  GroupMessage_wf g → len (GroupMessage_layout g) = 69 + len (gm_Content g) + len (gm_Signature g).
Proof.
  intros ([L1 _] & [L2 _] & _). unfold GroupMessage_layout, len. rewrite !length_app, !length_be_put, L1, L2. cbn [length]. lia.
Qed.

Lemma group_message_wf self group content nowMs :
  array 20 self → array 32 (g_ID group) → blob content → GroupMessage_wf (group_message self group content nowMs).
Proof.
  intros Hs Hg Hc. do 2 (split; [done|]). split; [apply Z.mod_pos_bound; lia|]. split; [done|]. split; [done|].
  by apply (bool_decide_unpack (blob [])).
Qed.

(** C29: A group message of at most 377 bytes: one frame for every member but the
    sender is written, in order; the relays peel it down to that member's copy;
    and the member, whatever its state, hands exactly the message to its
    application.  The sender's address is plain (its first byte is at least 4 and it
    does not start with the X3DH magic), and the member's address is not the first
    20 bytes of the group's identifier. *)
Theorem group_message_reaches_members (ep : Endpoint) (groupID name content : list Z)
    (members path : list (list Z * PrivateKey)) (nowMs : Z) (r : nat → send_random) :
  ep_connected ep = true → plain_address (ep_Address ep) → array 32 groupID →
  Forall (λ m, array 20 m.1) members → path_ok path → (∀ i, random_ok (r i)) → bytes content → len content ≤ 377 →
  let group := mkGroup groupID name (member_of <$> members) in
  ∃ frames, SendGroupMessage ep group content (relays path) nowMs r (λ _, no_faults) = (concat frames, Ok tt) ∧
    Forall2 (λ m frame, ∃ sealed, carries path m.1 frame sealed ∧
      ∀ epB clock c ib rnd range, ep_Address epB = m.1 → take 20 groupID ≠ m.1 →
        handleDirectMessage epB clock m.2 c ib sealed rnd range
        = Some (c, ib, when (ep_OnGroupMessageReceived epB)
            [OnGroupMessageReceived (group_message (ep_Address ep) group content nowMs)]))
      (others (ep_Address ep) members) frames.
Proof.
  intros Hc Hplain Hg Hm Hp Hr Hb Hl group. pose proof Hplain as (Ha & _).
  set (msg := group_message (ep_Address ep) group content nowMs).
  assert (blob content) as Hblob by (split; [done|]; pose proof (len_nonneg content); unfold in_range; lia).
  assert (GroupMessage_wf msg) as Hwf by (by apply group_message_wf).
  pose proof (group_layout_length msg Hwf) as Hlen. change (gm_Content msg) with content in Hlen.
  change (gm_Signature msg) with (@nil Z) in Hlen. rewrite len_nil in Hlen.
  destruct (fan_out_carries path (ep_Address ep) (GroupMessage_layout msg) r members 0 Hp Hr Hm) as (frames & Hf & Hall).
  { by apply group_layout_bytes. } { lia. }
  exists frames. split.
  - unfold SendGroupMessage. rewrite Hc. cbn [negb]. fold msg.
    change (GroupMessage_Encode msg) with (@wire_encode _ GroupMessage_wire msg).
    rewrite (@wire_encode_layout _ GroupMessage_wire msg Hwf). cbn [mbind written_bind pure fst snd app].
    cbn [wire_layout GroupMessage_wire]. change (g_Members group) with (member_of <$> members). by rewrite Hf.
  - eapply Forall2_impl; [exact Hall|]. intros [addr key] frame (sealed & Hcar & Hd). exists sealed. split; [done|].
    intros epB clock c ib rnd range Haddr Hid. rewrite (handle_plain _ _ _ _ _ _ _ _ _ Hd).
    + rewrite dispatch_group; [done..|]. by rewrite Haddr.
    + by apply group_layout_bytes.
    + pose proof (len_nonneg content). lia.
    + unfold GroupMessage_layout. change (gm_From msg) with (ep_Address ep). rewrite take_app_length' by (by destruct Ha). done.
Qed.

(** *** What does not fit *)

Lemma array_blob_512 s : array 512 s → blob s ∧ len s = 512.
Proof. intros [Hl Hb]. unfold blob, in_range, len. rewrite Hl. split_and!; [done|lia..]. Qed.

Lemma u64_in_range x : in_range 64 (u64 x).
Proof. apply Z.mod_pos_bound. lia. Qed.

(** the signed requests, encoded *)
Lemma leave_payload_long `{!RsaSignLaws} ep key groupID nowMs :
  array 20 (ep_Address ep) → array 32 groupID → (∀ d, ∃ s, SignPKCS1v15 key d = Ok s) →
  ∃ p, leave_payload ep key groupID nowMs = Ok p ∧ 446 < len p.
Proof.
  intros Ha Hg Hsign. unfold leave_payload. set (m := mkGroupLeave groupID (ep_Address ep) (u64 nowMs)).
  assert (∀ s, blob s → GroupLeave_wf (m s)) as Hwf by (intros s Hs; do 2 (split; [done|]); split; [apply u64_in_range|done]).
  rewrite (GroupLeave_EncodeForSigning_signed (m [])) by apply Hwf, blob_nil. cbn [mbind outcome_bind]. unfold SignData.
  destruct (Hsign (sha256 (GroupLeave_signed (m [])))) as [s Es]. rewrite Es. cbn [mbind outcome_bind].
  destruct (array_blob_512 s (sign_length _ _ _ Es)) as [Hs Hl]. exists (GroupLeave_layout (m s)). split.
  - exact (@wire_encode_layout _ GroupLeave_wire (m s) (Hwf s Hs)).
  - unfold GroupLeave_layout. rewrite !len_app. change (gl_Signature (m s)) with s. rewrite !len_be_put, Hl. unfold len. lia.
Qed.

Lemma update_payload_long `{!RsaSignLaws} ep key groupID updateType name target nowMs :
  array 20 (ep_Address ep) → array 32 groupID → (∀ d, ∃ s, SignPKCS1v15 key d = Ok s) → is_byte updateType → blob name →
  (∀ m, target = Some m → array 20 (mem_Address m)) →
  ∃ p, update_payload ep key groupID updateType name target nowMs = Ok p ∧ 446 < len p.
Proof.
  intros Ha Hg Hsign Hu Hn Ht. unfold update_payload. set (addr := from_option mem_Address (replicate 20 0) target).
  assert (array 20 addr) as Haddr.
  { unfold addr. destruct target as [m|]; [by apply Ht|by apply (bool_decide_unpack (array 20 (replicate 20 0)))]. }
  cbv zeta. set (m := mkGroupUpdate groupID updateType (ep_Address ep) (u64 nowMs) name addr).
  assert (∀ s, blob s → GroupUpdate_wf (m s)) as Hwf by (intros s Hs; do 3 (split; [done|]); split; [apply u64_in_range|done]).
  rewrite (GroupUpdate_EncodeForSigning_signed (m [])) by apply Hwf, blob_nil. cbn [mbind outcome_bind]. unfold SignData.
  destruct (Hsign (sha256 (GroupUpdate_signed (m [])))) as [s Es]. rewrite Es. cbn [mbind outcome_bind].
  destruct (array_blob_512 s (sign_length _ _ _ Es)) as [Hs Hl]. exists (GroupUpdate_layout (m s)). split.
  - exact (@wire_encode_layout _ GroupUpdate_wire (m s) (Hwf s Hs)).
  - unfold GroupUpdate_layout. rewrite !len_app. change (gu_Signature (m s)) with s. rewrite !len_be_put, Hl. unfold len. lia.
Qed.

Lemma JoinGroup_lost `{!RsaSignLaws} ep key groupID admin adminKey path nowMs r w :
  ep_connected ep = true → array 20 (ep_Address ep) → array 32 groupID → (∀ d, ∃ s, SignPKCS1v15 key d = Ok s) →
  JoinGroup ep key groupID admin adminKey path nowMs r w = ([], Err "encryption failed").
Proof.
  intros Hc Ha Hg Hsign. unfold JoinGroup. rewrite Hc. cbn [negb]. set (m := mkGroupJoin groupID (ep_Address ep) (u64 nowMs)).
  assert (∀ s, blob s → GroupJoin_wf (m s)) as Hwf by (intros s Hs; do 2 (split; [done|]); split; [apply u64_in_range|done]).
  rewrite (GroupJoin_EncodeForSigning_signed (m [])) by apply Hwf, blob_nil. cbn [mbind written_bind pure fst snd app]. unfold SignData.
  destruct (Hsign (sha256 (GroupJoin_signed (m [])))) as [s Es]. rewrite Es. cbn [fst snd app].
  destruct (array_blob_512 s (sign_length _ _ _ Es)) as [Hs Hl].
  change (GroupJoin_Encode (m s)) with (@wire_encode _ GroupJoin_wire (m s)).
  rewrite (@wire_encode_layout _ GroupJoin_wire (m s) (Hwf s Hs)). cbn [fst snd app wire_layout GroupJoin_wire].
  rewrite send_sealed_long; [done|].
  unfold GroupJoin_layout. rewrite !len_app. change (gj_Signature (m s)) with s. rewrite !len_be_put, Hl. unfold len. lia.
Qed.

Lemma CreateGroup_lost ep groupID name members path nowMs r w :
  ep_connected ep = true → array 20 (ep_Address ep) → array 32 groupID → Forall (λ m, array 20 (mem_Address m)) members →
  blob name → 19 ≤ len members < 2 ^ 32 → CreateGroup ep groupID name members path nowMs r w = ([], Ok tt).
Proof.
  intros Hc Ha Hg Hm Hn Hl. unfold CreateGroup. rewrite Hc. cbn [negb].
  set (m := mkGroupCreate groupID name (ep_Address ep) (u64 nowMs) (mem_Address <$> members)).
  assert (Forall (array 20) (mem_Address <$> members)) as Hall by (by apply Forall_fmap).
  assert (GroupCreate_wf m) as Hwf.
  { do 3 (split; [done|]). split; [apply u64_in_range|]. split; [|done]. cbn. unfold in_range, len in *. rewrite length_fmap. lia. }
  change (GroupCreate_Encode m) with (@wire_encode _ GroupCreate_wire m).
  rewrite (@wire_encode_layout _ GroupCreate_wire m Hwf). cbn [mbind written_bind pure fst snd app wire_layout GroupCreate_wire].
  rewrite fan_out_long; [done|]. unfold GroupCreate_layout. rewrite !len_app, !len_be_put, (len_concat_const id 20).
  - change (gc_Members m) with (mem_Address <$> members). change (gc_GroupID m) with groupID.
    change (gc_CreatorAddr m) with (ep_Address ep). destruct Hg as [Lg _], Ha as [La _].
    pose proof (len_nonneg (gc_GroupName m)). unfold len in *. rewrite length_fmap. lia.
  - eapply Forall_impl; [exact Hall|]. intros x Hx. by apply array_len in Hx.
Qed.

(** C30: A signature is longer than what RSA-OAEP takes under a key of the same size,
    so that no signed group request is ever sent, whoever the members are:
    leaving and updating a group write nothing and report success, and joining
    one fails.  For the same reason the notice of a group with nineteen or more
    members, and a message of more than 377 bytes, reach nobody although
    success is reported. *)
Theorem group_requests_lost `{!RsaSignLaws} (ep : Endpoint) (key : PrivateKey) (groupID : list Z)
    (members : list GroupMember) (path : list RelayInfo) (nowMs : Z) (r : nat → send_random) (w : nat → faults) :
  ep_connected ep = true → array 20 (ep_Address ep) → array 32 groupID → Forall (λ m, array 20 (mem_Address m)) members →
  len members < 2 ^ 32 → (∀ d, ∃ s, SignPKCS1v15 key d = Ok s) →
  LeaveGroup ep key groupID members path nowMs r w = ([], Ok tt) ∧
  (∀ updateType name target, is_byte updateType → blob name → (∀ m, target = Some m → array 20 (mem_Address m)) →
     target ≠ None ∨ updateType = GroupUpdateName →
     UpdateGroup ep key groupID updateType members path name target nowMs r w = ([], Ok tt)) ∧
  (∀ admin adminKey, JoinGroup ep key groupID admin adminKey path nowMs (r O) (w O) = ([], Err "encryption failed")) ∧
  (∀ name, blob name → 19 ≤ len members → CreateGroup ep groupID name members path nowMs r w = ([], Ok tt)) ∧
  (∀ name content, blob content → 377 < len content →
     SendGroupMessage ep (mkGroup groupID name members) content path nowMs r w = ([], Ok tt)).
Proof.
  intros Hc Ha Hg Hm Hmax Hsign. split_and!.
  - unfold LeaveGroup. rewrite Hc. cbn [negb]. destruct (leave_payload_long ep key groupID nowMs Ha Hg Hsign) as (p & -> & Hl).
    cbn [mbind written_bind pure fst snd app]. by rewrite fan_out_long.
  - intros ut name target Hu Hn Ht Hsome. unfold UpdateGroup. rewrite Hc. cbn [negb].
    destruct (update_payload_long ep key groupID ut name target nowMs Ha Hg Hsign Hu Hn Ht) as (p & -> & Hl).
    cbn [mbind written_bind pure fst snd app].
    assert (needs_target ut && bool_decide (target = None) = false) as ->.
    { destruct Hsome as [Hs|Hut]; [by rewrite bool_decide_false, andb_false_r|by subst ut]. }
    by rewrite fan_out_long.
  - intros admin adminKey. by apply JoinGroup_lost.
  - intros name Hn Hl. by apply CreateGroup_lost.
  - intros name content Hb Hl. unfold SendGroupMessage. rewrite Hc. cbn [negb].
    set (msg := group_message _ _ _ _). assert (GroupMessage_wf msg) as Hwf by (by apply group_message_wf).
    change (GroupMessage_Encode msg) with (@wire_encode _ GroupMessage_wire msg).
    rewrite (@wire_encode_layout _ GroupMessage_wire msg Hwf). cbn [mbind written_bind pure fst snd app wire_layout GroupMessage_wire].
    rewrite fan_out_long; [done|]. rewrite group_layout_length by done.
    change (gm_Content msg) with content. change (gm_Signature msg) with (@nil Z). rewrite len_nil. lia.
Qed.

(** ** Typing indicators and receipts *)

Lemma array_cons n l : array (S n) l → ∃ a rest, l = a :: rest ∧ is_byte a.
Proof. intros [Hl Hb]. destruct l as [|a rest]; [done|]. apply Forall_cons in Hb as [? _]. by exists a, rest. Qed.

(** a short payload with a tag in front of an address *)
Lemma handle_tagged ep clock key c ib sealed tag from rest rnd range :
  RSADecrypt sealed key = Ok (tag :: from ++ rest) → 1 ≤ tag ≤ 3 → array 20 from → len (tag :: from ++ rest) ≤ 258 →
  handleDirectMessage ep clock key c ib sealed rnd range
  = ('(ib', effs) ← dispatch ep clock ib (mk_slice (tag :: from ++ rest)); Some (c, ib', effs)).
Proof.
  intros Hd Ht Hf Hl. destruct (array_cons 19 from Hf) as (a0 & from' & -> & Ha0). unfold is_byte in *.
  eapply (handle_unsealed _ _ _ _ _ _ _ tag a0 (from' ++ rest)); try done; [unfold is_byte; lia| |lia|lia|].
  - destruct Hf as [Hf _]. unfold len. cbn in *. rewrite length_app. lia.
  - intros E. apply (f_equal (λ l : list Z, default 0 (head l))) in E. vm_compute in E. lia.
Qed.

(** Typing indicators and read receipts: what is written carries a sealed copy to
    the recipient, who hands exactly the indicator to its application, or files
    the status of the message. *)
Theorem indicators_reach_recipient (epA epB : Endpoint) (clock : DirectMessage → Z * list Z) (keyB : PrivateKey)
    (c : Client) (ib : Inbox) (path : list (list Z * PrivateKey)) (r : send_random) :
  ep_connected epA = true → array 20 (ep_Address epA) → array 20 (ep_Address epB) → path_ok path → random_ok r →
  (∀ isTyping, ∃ frame sealed,
     SendTypingIndicator epA (ep_Address epB) (rsa_public keyB) isTyping (relays path) r no_faults = (frame, Ok tt) ∧
     carries path (ep_Address epB) frame sealed ∧
     ∀ rnd range, handleDirectMessage epB clock keyB c ib sealed rnd range
       = Some (c, ib, when (ep_OnTypingIndicator epB)
           [OnTypingIndicator (mkTyping (ep_Address epA) (ep_Address epB) (u64 (sr_nowMs r)) isTyping)])) ∧
  (∀ messageID readStatus, array 16 messageID → is_byte readStatus → ∃ frame sealed,
     SendReadReceipt epA (ep_Address epB) (rsa_public keyB) messageID readStatus (relays path) r no_faults = (frame, Ok tt) ∧
     carries path (ep_Address epB) frame sealed ∧
     ∀ rnd range, handleDirectMessage epB clock keyB c ib sealed rnd range
       = Some (c, ib, handleReceipt epB
           (mkReadReceipt (ep_Address epA) (ep_Address epB) messageID (u64 (sr_nowMs r)) readStatus))).
Proof.
  intros Hc Ha Hb Hp Hr. split.
  - intros isTyping. set (t := mkTyping _ _ _ isTyping).
    assert (Typing_wf t) as Hwf by (do 2 (split; [done|]); apply u64_in_range).
    destruct (typing_layout_bytes t Hwf) as [Hbytes Hlen].
    destruct (send_sealed_carries path (ep_Address epB) keyB (Typing_layout t) r Hp Hr Hb Hbytes ltac:(lia)) as (frame & sealed & Hs & Hcar & Hd).
    exists frame, sealed. split_and!; [|done|].
    + unfold SendTypingIndicator. rewrite Hc. cbn [negb]. fold t.
      change (Typing_Encode t) with (@wire_encode _ Typing_wire t). rewrite (@wire_encode_layout _ Typing_wire t Hwf).
      cbn [mbind written_bind pure fst snd app wire_layout Typing_wire]. by rewrite Hs.
    + intros rnd range. etrans; [apply (handle_tagged _ _ _ _ _ _ 1 (ep_Address epA) _ _ _ Hd)|]; [lia|done| |].
      * change (len (Typing_layout t) ≤ 258). lia.
      * change (mk_slice _) with (mk_slice (Typing_layout t)). by rewrite dispatch_typing.
  - intros messageID readStatus Hm Hst. set (t := mkReadReceipt _ _ messageID _ readStatus).
    assert (ReadReceipt_wf t) as Hwf by (do 3 (split; [done|]); split; [apply u64_in_range|done]).
    destruct (receipt_layout_bytes t Hwf) as [Hbytes Hlen].
    destruct (send_sealed_carries path (ep_Address epB) keyB (ReadReceipt_layout t) r Hp Hr Hb Hbytes ltac:(lia)) as (frame & sealed & Hs & Hcar & Hd).
    exists frame, sealed. split_and!; [|done|].
    + unfold SendReadReceipt. rewrite Hc. cbn [negb]. fold t.
      change (ReadReceipt_Encode t) with (@wire_encode _ ReadReceipt_wire t). rewrite (@wire_encode_layout _ ReadReceipt_wire t Hwf).
      cbn [mbind written_bind pure fst snd app wire_layout ReadReceipt_wire]. by rewrite Hs.
    + intros rnd range. etrans; [apply (handle_tagged _ _ _ _ _ _ 2 (ep_Address epA) _ _ _ Hd)|]; [lia|done| |].
      * change (len (ReadReceipt_layout t) ≤ 258). lia.
      * change (mk_slice _) with (mk_slice (ReadReceipt_layout t)). by rewrite dispatch_receipt.
Qed.

(** ** Profiles *)

(** a group message announces the length of its content after 61 bytes *)
Lemma group_content_consumes :
  consumes GroupMessage_rd (λ m l, ∃ pre rest, l = pre ++ be_put 4 (len (gm_Content m)) ++ gm_Content m ++ rest ∧
    length pre = 61%nat).
Proof.
  unfold GroupMessage_rd. prefix_steps. apply consumes_ret. cbn [gm_Content].
  match goal with H : len ?c = ?n |- ∃ pre rest, ?a ++ ?b ++ be_put 8 ?t ++ [?k] ++ be_put 4 ?n ++ ?c ++ ?r = _ ∧ _ =>
    exists (a ++ b ++ be_put 8 t ++ [k]), r; rewrite H; split; [by rewrite <- !(assoc_L (++))|];
    rewrite !length_app, length_be_put; unfold len in *; cbn; lia end.
Qed.

(** what the group decoder would take for that length *)
Definition avatar_length (avatarKey : list Z) : Z := be_get (take 4 (drop 1 avatarKey)).

Lemma attempt_profile_as_group p :
  ProfileUpdate_wf p → len (ProfileUpdate_layout p) < avatar_length (pu_AvatarKey p) →
  attempt (GroupMessage_Decode (mk_slice (ProfileUpdate_layout p))) = None.
Proof.
  intros Hp Hlen. destruct (profile_layout_bytes p Hp) as [Hb _]. pose proof Hp as ([L1 _] & [L2 _] & _ & [L3 _] & _).
  destruct (GroupMessage_Decode _) as [m| |] eqn:E; [|done..].
  destruct (consumes_run _ _ _ m E Hb group_content_consumes) as (k & pre & rest & Hk & Hpre).
  assert (be_put 4 (len (gm_Content m)) = take 4 (drop 1 (pu_AvatarKey p))) as Hput.
  { transitivity (take 4 (drop 61 (ProfileUpdate_layout p))).
    - rewrite <- (take_drop k (ProfileUpdate_layout p)), Hk, <- !(assoc_L (++)), drop_app_length' by done.
      by rewrite take_app_length' by (by rewrite length_be_put).
    - unfold ProfileUpdate_layout. rewrite (assoc_L (++) (pu_Address p)), (assoc_L (++) (_ ++ _) (be_put 8 _)).
      rewrite (drop_app_ge _ _ 61) by (rewrite !length_app, length_be_put, L1, L2; lia).
      rewrite !length_app, length_be_put, L1, L2. change (61 - (20 + 32 + 8))%nat with 1%nat.
      rewrite drop_app_le by lia. rewrite take_app_le by (rewrite length_drop; lia). done. }
  unfold avatar_length in Hlen. rewrite <- Hput, be_get_put_mod in Hlen. exfalso.
  pose proof (len_nonneg (gm_Content m)). pose proof (Z.mod_le (len (gm_Content m)) (2 ^ (8 * Z.of_nat 4)) ltac:(lia) ltac:(lia)).
  assert (len (gm_Content m) ≤ len (take k (ProfileUpdate_layout p))) as Hc.
  { rewrite Hk, !len_app. unfold len. lia. }
  assert (len (take k (ProfileUpdate_layout p)) ≤ len (ProfileUpdate_layout p)) by (unfold len; rewrite length_take; lia). lia.
Qed.

Lemma dispatch_profile ep clock ib p :
  ProfileUpdate_wf p → take 20 (pu_Username p) ≠ ep_Address ep →
  len (ProfileUpdate_layout p) < avatar_length (pu_AvatarKey p) →
  dispatch ep clock ib (mk_slice (ProfileUpdate_layout p))
  = Some (ib, when (ep_OnProfileUpdate ep) [OnProfileUpdate p]).
Proof.
  intros Hp Hu Hl. destruct (profile_layout_bytes p Hp) as [Hb Hname]. unfold dispatch.
  rewrite attempt_direct by (done || (left; by rewrite Hname)). rewrite attempt_profile_as_group by done.
  change (ProfileUpdate_Decode ?s) with (wire_decode (M:=ProfileUpdate) s).
  change (ProfileUpdate_layout p) with (wire_layout p). by rewrite decode_own.
Qed.

(** the hybrid form is opened by the fourth stage *)
Lemma hybrid_opened d key aesKey nonce oaep :
  array 32 aesKey → array 12 nonce → bytes d → d ≠ [] →
  ∃ combined, hybrid_encrypt d (rsa_public key) (Some aesKey) (Some nonce) oaep = Ok combined ∧ bytes combined ∧
    ∀ ep clock c ib rnd range, handleDirectMessage ep clock key c ib combined rnd range
      = ('(ib', effs) ← dispatch ep clock ib (mk_slice d); Some (c, ib', effs)).
Proof.
  intros [Hkl Hkb] [Hnl Hnb] Hb Hd. assert (aes_key_ok aesKey = true) as Hok by (unfold aes_key_ok, len; by rewrite Hkl).
  destruct (oaep_total (rsa_public key) aesKey oaep Hkb) as (ek & Hek & [Hekl Hekb]); [unfold len; lia|].
  pose proof (oaep_correct _ _ _ _ Hek) as Hdk.
  destruct (AES_roundtrip nonce d aesKey Hnl Hok) as (data & Henc & Hdec).
  assert (bytes data ∧ 12 ≤ len data) as [Hdb Hdl].
  { unfold AESEncrypt, NewCipher in Henc. rewrite Hok in Henc. apply Ok_inj in Henc as <-.
    split; [apply bytes_app; split; [done|by apply gcm_bytes]|]. rewrite len_app. unfold len. lia. }
  destruct (split_combined ek data Hekl) as (_ & S2 & _ & S4 & S5).
  assert (len ek = 512) as Hel by (unfold len; lia).
  set (combined := [u8 (Z.shiftr (u16 (len ek)) 8); u8 (u16 (len ek))] ++ ek ++ data) in *.
  assert (len combined = 514 + len data) as Hlen by (unfold combined; rewrite !len_app, Hel; unfold len; cbn; lia).
  exists combined. split_and!.
  - unfold hybrid_encrypt, GenerateAESKey, RSAEncrypt. cbn [mbind outcome_bind]. rewrite Henc. cbn [mbind outcome_bind].
    by rewrite Hek.
  - unfold combined. rewrite !bytes_app, Hel. split_and!; [by_decision|done|done].
  - intros ep clock c ib rnd range. unfold handleDirectMessage.
    assert (RSADecrypt combined key = Err "decryption failed") as ->.
    { unfold RSADecrypt. rewrite oaep_decrypt_limit; [done|]. lia. }
    assert (is_x3dh (mk_slice combined) = false) as ->.
    { unfold is_x3dh. rewrite bool_decide_false, andb_false_r; [done|]. unfold combined. rewrite Hel. done. }
    assert (default 0 (combined !! 0%nat) = 2 ∧ default 0 (combined !! 1%nat) = 0) as [E0 E1]
      by (unfold combined; rewrite Hel; done).
    assert (slen (mk_slice combined) = 514 + len data) as Hs by done.
    unfold handle_ratchet, split_payload, hybrid_decrypt. cbn [sdata mk_slice] in *. rewrite E0, E1 in *.
    change (Z.lor (u16 (Z.shiftl 2 8)) 0) with 512 in *. cbv zeta.
    destruct (Z.leb_spec (slen (mk_slice combined)) 2); [lia|]. destruct (Z.ltb_spec (slen (mk_slice combined)) 2); [lia|].
    change ((512 <? 40) || (200 <? 512)) with true. cbn [orb mbind outcome_bind option_bind].
    destruct (Z.ltb_spec (2 +u16 512) (slen (mk_slice combined))) as [_|Hlt]; [|rewrite S2 in Hlt; lia].
    change ((0 <? 512) && (512 <? 1024) && true) with true. cbv iota. rewrite S2, S4, S5. cbn [mbind outcome_bind sdata].
    unfold RSADecrypt. rewrite Hdk. rewrite Hdec. unfold non_nil. by destruct d.
Qed.

Lemma copy_array_ok n l : bytes l → array n (copy_array n l).
Proof.
  intros Hl. unfold copy_array. split; [rewrite length_take, length_app, length_replicate; lia|].
  apply bytes_take, bytes_app. split; [done|apply bytes_replicate0].
Qed.

Lemma UpdateProfile_wf `{!RsaSignLaws} ep key username bio chunk avatarKey nowMs p :
  array 20 (ep_Address ep) → bytes username → bytes bio → bytes avatarKey → in_range 64 chunk →
  (∀ pem, ExportPublicKeyPEM (rsa_public key) = Ok pem → blob pem) →
  UpdateProfile ep key username bio chunk avatarKey nowMs = Ok p →
  ProfileUpdate_wf p ∧ pu_Username p = copy_array 32 username ∧ pu_AvatarKey p = copy_array 32 avatarKey ∧
  SignData (ProfileUpdate_signed p) key = Ok (pu_Signature p).
Proof.
  intros Ha Hu Hb Hk Hc Hpem. unfold UpdateProfile. destruct (ep_connected ep); [|done]. cbn [negb].
  destruct (ExportPublicKeyPEM (rsa_public key)) as [pem|t|] eqn:Epem; [|done..]. specialize (Hpem pem eq_refl).
  cbn [mbind outcome_bind].
  set (m := mkProfileUpdate (ep_Address ep) (copy_array 32 username) chunk (copy_array 32 avatarKey) (copy_array 256 bio) pem (u64 nowMs)).
  assert (∀ s, blob s → ProfileUpdate_wf (m s)) as Hwf.
  { intros s Hs. split; [done|]. split; [by apply copy_array_ok|]. split; [done|]. split; [by apply copy_array_ok|].
    split; [by apply copy_array_ok|]. split; [done|]. split; [apply u64_in_range|done]. }
  rewrite (ProfileUpdate_EncodeForSigning_signed (m [])) by apply Hwf, blob_nil. cbn [mbind outcome_bind].
  destruct (SignData (ProfileUpdate_signed (m [])) key) as [s|t|] eqn:Es; [|done..]. cbn [mbind outcome_bind]. intros <-%Ok_inj.
  split; [|done]. apply Hwf. by apply array_blob_512, (sign_length key (sha256 (ProfileUpdate_signed (m [])))).
Qed.

(** A profile with an avatar: it is built, signed and sent in hybrid encryption;
    the relays carry it to the contact, whose application gets exactly the
    profile that was built.  This needs an avatar key which, read as the length
    of a group message, is longer than the profile. *)
Theorem profile_reaches_contact `{!RsaSignLaws} (epA epB : Endpoint) (clock : DirectMessage → Z * list Z)
    (keyA keyB : PrivateKey) (c : Client) (ib : Inbox) (username bio avatarKey : list Z) (chunk nowMs : Z)
    (p : ProfileUpdate) (path : list (list Z * PrivateKey)) (aesKey nonce : list Z) (r : send_random) :
  array 20 (ep_Address epA) → array 20 (ep_Address epB) → bytes username → bytes bio → bytes avatarKey →
  in_range 64 chunk → (∀ pem, ExportPublicKeyPEM (rsa_public keyA) = Ok pem → blob pem) →
  UpdateProfile epA keyA username bio chunk avatarKey nowMs = Ok p →
  path_ok path → random_ok r → array 32 aesKey → array 12 nonce →
  take 20 (copy_array 32 username) ≠ ep_Address epB →
  len (ProfileUpdate_layout p) < avatar_length (copy_array 32 avatarKey) →
  ∃ frame combined,
    BroadcastProfile epA p (ep_Address epB) (rsa_public keyB) (relays path) (Some aesKey) (Some nonce) r no_faults
      = (frame, Ok tt) ∧ carries path (ep_Address epB) frame combined ∧
    ∀ rnd range, handleDirectMessage epB clock keyB c ib combined rnd range
      = Some (c, ib, when (ep_OnProfileUpdate epB) [OnProfileUpdate p]).
Proof.
  intros Ha Hb Hu Hbio Hk Hc Hpem Hp Hpath Hr Haes Hnonce Hname Hlen.
  assert (ep_connected epA = true) as Hconn by (unfold UpdateProfile in Hp; by destruct (ep_connected epA)).
  destruct (UpdateProfile_wf epA keyA username bio chunk avatarKey nowMs p Ha Hu Hbio Hk Hc Hpem Hp) as (Hwf & En & Ek & _).
  rewrite <- En in Hname. rewrite <- Ek in Hlen. destruct (profile_layout_bytes p Hwf) as [Hbytes _].
  destruct (hybrid_opened (ProfileUpdate_layout p) keyB aesKey nonce (sr_oaep r) Haes Hnonce Hbytes) as (combined & He & Hcb & Hopen).
  { intros E. apply (f_equal length) in E. unfold ProfileUpdate_layout in E. rewrite !length_app, !length_be_put in E. cbn in E. lia. }
  destruct (forward_carries path (ep_Address epB) combined r Hpath Hr Hb Hcb) as (frame & Hf & Hcar).
  exists frame, combined. split_and!; [|done|].
  - unfold BroadcastProfile. rewrite Hconn. cbn [negb].
    change (ProfileUpdate_Encode p) with (@wire_encode _ ProfileUpdate_wire p).
    rewrite (@wire_encode_layout _ ProfileUpdate_wire p Hwf). cbn [mbind written_bind pure fst snd app wire_layout ProfileUpdate_wire].
    rewrite He. cbn [fst snd app]. by rewrite Hf.
  - intros rnd range. rewrite Hopen. by rewrite dispatch_profile.
Qed.

(** *** Requests *)

Lemma profile_request_wf self target nowMs :
  array 20 self → array 20 target → DirectMessage_wf (profile_request self target nowMs).
Proof.
  intros Hs Ht. do 2 (split; [done|]). split; [apply u64_in_range|]. split; [by_decision|]. split; [by_decision|].
  split; [by apply (bool_decide_unpack (array 16 (replicate 16 0)))|].
  split; [by apply (bool_decide_unpack (blob (string_bytes "PROFILE_REQUEST")))|apply blob_nil].
Qed.

(** the first message of a peer, with number 0; after it there is nothing to
    deliver from an empty buffer *)
Lemma first_message_handled ep clock ib m :
  ib_messageBuffer ib !! dm_From m = None → ib_receivedMessageIDs ib !! dm_From m = None →
  ib_receiveSequenceNumbers ib !! dm_From m = None → dm_SequenceNumber m = 0 →
  ∃ ib', handleOrderedMessage ep clock ib m = Some (ib', Inbox.deliverMessage ep clock m) ∧
    is_Some (ib_messageBuffer ib' !! dm_From m) ∧ ib_receivedMessageIDs ib' !! dm_From m = Some {[0]}.
Proof.
  intros Hb Hr Hn Hs. unfold handleOrderedMessage. rewrite Hs. rewrite (bool_decide_true _ Hb).
  change (ib_receivedMessageIDs (set_buffer ib (dm_From m) ∅)) with (ib_receivedMessageIDs ib). rewrite (bool_decide_true _ Hr).
  unfold received_of, expected_of.
  cbn [ib_receivedMessageIDs ib_receiveSequenceNumbers ib_messageBuffer set_buffer set_received]. rewrite lookup_insert_eq, Hn.
  cbn [default from_option id]. rewrite bool_decide_false by set_solver. change (0 =? 0) with true. cbv iota.
  unfold buffer_of. cbn [ib_messageBuffer set_buffer set_received set_expected]. rewrite lookup_insert_eq. cbn [default from_option id].
  rewrite map_size_empty. cbn [deliverBufferedMessages]. unfold buffer_of, expected_of.
  cbn [ib_messageBuffer ib_receiveSequenceNumbers set_buffer set_received set_expected].
  rewrite !lookup_insert_eq. cbn [default from_option id]. rewrite lookup_empty. cbn [mbind option_bind]. rewrite app_nil_r.
  eexists. split; [done|]. cbn [ib_messageBuffer ib_receivedMessageIDs set_buffer set_received set_expected].
  rewrite !lookup_insert_eq. split; [by eexists|]. by f_equal.
Qed.

(** a number seen before *)
Lemma duplicate_ignored ep clock ib m received :
  is_Some (ib_messageBuffer ib !! dm_From m) → ib_receivedMessageIDs ib !! dm_From m = Some received →
  dm_SequenceNumber m ∈ received → handleOrderedMessage ep clock ib m = Some (ib, []).
Proof.
  intros [b Hb] Hr Hin. unfold handleOrderedMessage. rewrite (bool_decide_false (ib_messageBuffer ib !! dm_From m = None)) by (by rewrite Hb).
  rewrite (bool_decide_false (ib_receivedMessageIDs ib !! dm_From m = None)) by (by rewrite Hr).
  unfold received_of. rewrite Hr. cbn [default from_option id]. by rewrite bool_decide_true.
Qed.

(** A request for a profile is a direct message with number 0, which is not taken
    from the sender's counter.  Sent before any message, it is delivered, and
    the sender's first message, which has number 0 as well, is then dropped as a
    duplicate: neither delivered nor acknowledged. *)
Theorem profile_request_swallows (epA epB : Endpoint) (clock : DirectMessage → Z * list Z) (keyB : PrivateKey)
    (c : Client) (ib : Inbox) (seqs : gmap (list Z) Z) (path : list (list Z * PrivateKey)) (r : send_random)
    (nowMs ct : Z) (content : list Z) :
  ep_connected epA = true → plain_address (ep_Address epA) → array 20 (ep_Address epB) → path_ok path → random_ok r →
  ib_messageBuffer ib !! ep_Address epA = None → ib_receivedMessageIDs ib !! ep_Address epA = None →
  ib_receiveSequenceNumbers ib !! ep_Address epA = None → seqs !! ep_Address epB = None →
  ∃ frame sealed ib',
    RequestProfile epA (ep_Address epB) (rsa_public keyB) (relays path) r no_faults = (frame, Ok tt) ∧
    carries path (ep_Address epB) frame sealed ∧
    (∀ rnd range, handleDirectMessage epB clock keyB c ib sealed rnd range
       = Some (c, ib', Inbox.deliverMessage epB clock (profile_request (ep_Address epA) (ep_Address epB) (sr_nowMs r)))) ∧
    handleOrderedMessage epB clock ib' (new_message (ep_Address epA) (ep_Address epB) seqs nowMs ct content).2 = Some (ib', []).
Proof.
  intros Hc Hplain Hb Hp Hr Hn1 Hn2 Hn3 Hseq. pose proof Hplain as (Ha & _).
  set (m := profile_request (ep_Address epA) (ep_Address epB) (sr_nowMs r)).
  assert (DirectMessage_wf m) as Hwf by (by apply profile_request_wf).
  pose proof (direct_layout_length m Hwf) as Hlen. change (len (dm_Content m)) with 15 in Hlen. change (len (dm_Signature m)) with 0 in Hlen.
  destruct (send_sealed_carries path (ep_Address epB) keyB (DirectMessage_layout m) r Hp Hr Hb (direct_layout_bytes m Hwf) ltac:(lia))
    as (frame & sealed & Hs & Hcar & Hd).
  destruct (first_message_handled epB clock ib m Hn1 Hn2 Hn3 eq_refl) as (ib' & Hh & Hbuf & Hrec).
  exists frame, sealed, ib'. split_and!; [|done| |].
  - unfold RequestProfile. rewrite Hc. cbn [negb]. fold m.
    change (DirectMessage_Encode m) with (@wire_encode _ DirectMessage_wire m).
    rewrite (@wire_encode_layout _ DirectMessage_wire m Hwf). cbn [mbind written_bind pure fst snd app wire_layout DirectMessage_wire].
    by rewrite Hs.
  - intros rnd range. rewrite (handle_plain _ _ _ _ _ _ _ _ _ Hd).
    + rewrite dispatch_direct by done. by rewrite Hh.
    + by apply direct_layout_bytes.
    + lia.
    + unfold DirectMessage_layout. change (dm_From m) with (ep_Address epA). by rewrite take_app_length' by (by destruct Ha).
  - apply (duplicate_ignored epB clock ib' _ {[0]}); [done|done|].
    unfold new_message, GetNextSequenceNumber. rewrite Hseq. cbn. set_solver.
Qed.

End groups_proofs.

(** ** Witnesses *)

Module GroupSample.
#[local] Existing Instance OnionSample.rsa.
#[local] Instance sign : RsaSign := {| SignPKCS1v15 _ _ := Ok (replicate 512 7) |}.
#[local] Instance sign_laws : RsaSignLaws.
Proof. constructor. intros k d s <-%Ok_inj. by apply (bool_decide_unpack (array 512 (replicate 512 7))). Qed.

Definition client : Client := mkClient (replicate 20 9) true None None ∅ 0 ∅ ∅.
Definition key9 : PrivateKey := 33.
Definition key77 : PrivateKey := 44.
Definition members : list (list Z * PrivateKey) := [(replicate 20 9, key9); (replicate 20 77, key77)].
Definition avatarKey : list Z := replicate 32 200.
End GroupSample.

Section witnesses.
#[local] Existing Instances Toy.ops sample_crypto sample_aes sample_aes_laws OnionSample.rsa
  OnionSample.rsa_laws OnionSample.blake OnionSample.blake_laws OnionSample.json OnionSample.json_laws RelaySample.x509
  GroupSample.sign GroupSample.sign_laws.

Lemma sample_path_ok : path_ok OnionSample.path.
Proof. split; [done|]. by apply (bool_decide_eq_true_1 (Forall _ _)); vm_compute. Qed.
Lemma sample_random_ok : random_ok MessagingSample.random.
Proof.
  split; [|by apply (bool_decide_eq_true_1 (array _ _)); vm_compute].
  intros i. by exists (replicate 32 4), (replicate 12 5); split_and!; try done;
    apply (bool_decide_eq_true_1 (array _ _)); vm_compute.
Qed.
Lemma sample_plain : plain_address (ep_Address MessagingSample.epA).
Proof. split_and!; [by apply (bool_decide_eq_true_1 (array _ _)); vm_compute|done|done]. Qed.
Lemma sample_address n : is_byte n → array 20 (replicate 20 n).
Proof. intros Hn. split; [done|]. by apply Forall_replicate. Qed.

Lemma group_message_reaches_members_witness :
  ∃ frame sealed, SendGroupMessage MessagingSample.epA
      (mkGroup (replicate 32 5) [71] (member_of <$> GroupSample.members)) [104; 105] (relays OnionSample.path) 1000
      (λ _, MessagingSample.random) (λ _, no_faults) = (frame, Ok tt) ∧
    carries OnionSample.path (replicate 20 9) frame sealed.
Proof.
  destruct (group_message_reaches_members MessagingSample.epA (replicate 32 5) [71] [104; 105] GroupSample.members
    OnionSample.path 1000 (λ _, MessagingSample.random)) as (frames & Hf & Hall).
  - reflexivity.
  - apply sample_plain.
  - by apply (bool_decide_eq_true_1 (array _ _)); vm_compute.
  - by apply (bool_decide_eq_true_1 (Forall _ _)); vm_compute.
  - apply sample_path_ok.
  - intros _. apply sample_random_ok.
  - by apply (bool_decide_eq_true_1 (bytes _)); vm_compute.
  - by apply (bool_decide_eq_true_1 (_ ≤ _)); vm_compute.
  - assert (others (ep_Address MessagingSample.epA) GroupSample.members = [(replicate 20 9, GroupSample.key9)]) as Eo by (vm_compute; reflexivity).
    rewrite Eo in Hall. apply Forall2_cons_inv_l in Hall as (frame & frames' & (sealed & Hc & _) & Hnil & ->).
    apply Forall2_nil_inv_l in Hnil as ->. exists frame, sealed. split; [|exact Hc].
    etrans; [exact Hf|]. cbn [concat]. by rewrite app_nil_r.
Defined.

Lemma group_requests_lost_witness :
  LeaveGroup MessagingSample.epA GroupSample.key9 (replicate 32 5) (member_of <$> GroupSample.members) (relays OnionSample.path)
    1000 (λ _, MessagingSample.random) (λ _, no_faults) = ([], Ok tt).
Proof.
  destruct (group_requests_lost MessagingSample.epA GroupSample.key9 (replicate 32 5) (member_of <$> GroupSample.members)
    (relays OnionSample.path) 1000 (λ _, MessagingSample.random) (λ _, no_faults)) as [Hl _].
  - reflexivity.
  - by apply sample_address.
  - by apply (bool_decide_eq_true_1 (array _ _)); vm_compute.
  - by apply (bool_decide_eq_true_1 (Forall (λ m : GroupMember, array 20 (mem_Address m)) _)); vm_compute.
  - by apply (bool_decide_eq_true_1 (_ < _)); vm_compute.
  - intros d. by eexists.
  - exact Hl.
Defined.

Lemma indicators_reach_recipient_witness :
  ∃ frame sealed,
    SendTypingIndicator MessagingSample.epA (replicate 20 9) (rsa_public GroupSample.key9) true (relays OnionSample.path)
      MessagingSample.random no_faults = (frame, Ok tt) ∧
    ∀ rnd range, handleDirectMessage InboxSample.ep InboxSample.clock GroupSample.key9 GroupSample.client empty_inbox sealed rnd range
      = Some (GroupSample.client, empty_inbox, [OnTypingIndicator (mkTyping (replicate 20 77) (replicate 20 9) 5 true)]).
Proof.
  destruct (indicators_reach_recipient MessagingSample.epA InboxSample.ep InboxSample.clock GroupSample.key9 GroupSample.client
    empty_inbox OnionSample.path MessagingSample.random) as [Ht _].
  - reflexivity.
  - by apply sample_address.
  - by apply sample_address.
  - apply sample_path_ok.
  - apply sample_random_ok.
  - destruct (Ht true) as (frame & sealed & Hs & _ & Hh). exists frame, sealed. split; [exact Hs|exact Hh].
Defined.

Lemma profile_reaches_contact_witness :
  let p := mkProfileUpdate (replicate 20 77) (copy_array 32 [97; 98]) 3 (copy_array 32 GroupSample.avatarKey)
             (copy_array 256 [104; 105]) [44] (u64 1000) (replicate 512 7) in
  ∃ frame combined,
    BroadcastProfile MessagingSample.epA p (replicate 20 9) (rsa_public GroupSample.key9) (relays OnionSample.path)
      (Some (replicate 32 4)) (Some (replicate 12 5)) MessagingSample.random no_faults = (frame, Ok tt) ∧
    ∀ rnd range, handleDirectMessage InboxSample.ep InboxSample.clock GroupSample.key9 GroupSample.client empty_inbox combined rnd range
      = Some (GroupSample.client, empty_inbox, [OnProfileUpdate p]).
Proof.
  intros p.
  destruct (profile_reaches_contact MessagingSample.epA InboxSample.ep InboxSample.clock GroupSample.key77 GroupSample.key9
    GroupSample.client empty_inbox [97; 98] [104; 105] GroupSample.avatarKey 3 1000 p OnionSample.path (replicate 32 4) (replicate 12 5)
    MessagingSample.random) as (frame & combined & Hf & _ & Hh).
  - by apply sample_address.
  - by apply sample_address.
  - by apply (bool_decide_eq_true_1 (bytes _)); vm_compute.
  - by apply (bool_decide_eq_true_1 (bytes _)); vm_compute.
  - by apply (bool_decide_eq_true_1 (bytes _)); vm_compute.
  - by_decision.
  - intros pem <-%Ok_inj. by apply (bool_decide_eq_true_1 (blob _)); vm_compute.
  - vm_compute. reflexivity.
  - apply sample_path_ok.
  - apply sample_random_ok.
  - by apply (bool_decide_eq_true_1 (array _ _)); vm_compute.
  - by apply (bool_decide_eq_true_1 (array _ _)); vm_compute.
  - vm_compute. discriminate.
  - vm_compute. reflexivity.
  - exists frame, combined. split; [exact Hf|exact Hh].
Defined.

Lemma profile_request_swallows_witness :
  ∃ ib', handleOrderedMessage InboxSample.ep InboxSample.clock ib' (new_message (replicate 20 77) (replicate 20 9) ∅ 5 0 [1]).2
    = Some (ib', []).
Proof.
  destruct (profile_request_swallows MessagingSample.epA InboxSample.ep InboxSample.clock GroupSample.key9 GroupSample.client
    empty_inbox ∅ OnionSample.path MessagingSample.random 5 0 [1]) as (frame & sealed & ib' & _ & _ & _ & Hd).
  - reflexivity.
  - apply sample_plain.
  - by apply sample_address.
  - apply sample_path_ok.
  - apply sample_random_ok.
  - reflexivity.
  - reflexivity.
  - reflexivity.
  - reflexivity.
  - exists ib'. exact Hd.
Defined.
End witnesses.
