(* ===== verification/ClientConn.v ===== *)
(** * The connection of a client: pkg/network/client.go, reconnect.go and the
    receiving loop of message_handler.go and typing_receipt.go

    What the relay sends is a stream of bytes.  Everything a turn of the loop
    reads from outside ([connected], clocks, random bytes, map orders) is given
    for each turn, because other goroutines may change it meanwhile. *)

From S2P Require Import Prelude GoBytes NodeID Wire WireGroups Ratchet Ed25519 X3DH Aes DhtStore Onion Session Inbox Messaging Relay Groups.

Section client_conn.
Context `{RatchetOps} `{Ed25519} `{AesGcm} `{Rsa} `{!X509} `{Blake2b} `{Json OnionLayer}.

(** ** client.go *)

(** [ln_relayConn]: the connection, which may be closed *)
Record Link := mkLink { ln_relayConn : option nat; ln_relayAddress : gostring; ln_connected : bool }.

(** The bytes written; the result is what is left of the relay's stream. *)
Definition performHandshake (address : list Z) (publicKey : PublicKey) (now : Z) (id : list Z) (w : faults)
  (stream : list Z) : written (list Z) :=
  pubKeyPEM ← pure (ExportPublicKeyPEM publicKey);
  payload ← pure (Handshake_Encode (mkHandshake ProtocolVersion address pubKeyPEM ClientTypeUser (u64 now) []));
  header ← pure (WriteHeader (mkHeader ProtocolMagic ProtocolVersion MsgTypeHandshake (u32 (len payload)) 0 id 0) []);
  _ ← conn_Write (w_header w) header;
  _ ← conn_Write (w_payload w) payload;
  '(ackHeader, stream) ← pure (ReadHeader stream);
  if negb (h_Type ackHeader =? MsgTypeHandshakeAck) then pure (Err "handshake failed")
  else if 0 <? h_Length ackHeader then '(_, stream) ← pure (ReadFull (h_Length ackHeader) stream); mret stream
  else mret stream.

(** [dial]: the new connection and the stream it will bring.  Afterwards the
    receiving and the keepalive loops run. *)
Definition Client_ConnectToRelay (ln : Link) (address : list Z) (publicKey : PublicKey) (relayAddress : gostring)
  (dial : outcome (nat * list Z)) (now : Z) (id : list Z) (w : faults) : Link * written (list Z) :=
  match dial with
  | Err t => (ln, pure (Err t))
  | Panic => (ln, pure Panic)
  | Ok (conn, stream) =>
      let h := performHandshake address publicKey now id w stream in
      (mkLink (Some conn) relayAddress (match h.2 with Ok _ => true | _ => ln_connected ln end), h)
  end.

(** [closing]: what closing the connection answers *)
Definition Client_Disconnect (ln : Link) (closing : outcome unit) : Link * outcome unit :=
  match ln_relayConn ln with
  | Some conn => (mkLink (Some conn) (ln_relayAddress ln) false, closing)
  | None => (ln, Ok tt)
  end.

Definition SendPing (ln : Link) (id : list Z) (fault : option nat) : written unit :=
  if negb (ln_connected ln) then pure (Err "not connected")
  else
    header ← pure (WriteHeader (mkHeader ProtocolMagic ProtocolVersion MsgTypePing 0 0 id 0) []);
    conn_Write fault header.

(** ** reconnect.go *)

(** like connecting, but to the same address, and [connected] stays as it is *)
Definition reconnect (ln : Link) (address : list Z) (publicKey : PublicKey) (dial : outcome (nat * list Z)) (now : Z)
  (id : list Z) (w : faults) : Link * written (list Z) :=
  match dial with
  | Err t => (ln, pure (Err t))
  | Panic => (ln, pure Panic)
  | Ok (conn, stream) =>
      (mkLink (Some conn) (ln_relayAddress ln) (ln_connected ln), performHandshake address publicKey now id w stream)
  end.

Definition maxBackoff : Z := 30 * Second.
Definition next_backoff (backoff : Z) (success : bool) : Z :=
  if success then Second
  else let backoff := s64 (backoff * 2) in if maxBackoff <? backoff then maxBackoff else backoff.

(** ** The receiving loop *)

Inductive ceffect :=
  | App (e : effect)
  | OnAckReceived (m : AckMessage)
  | OnNackReceived (m : NackMessage).

(** a client: the fields the handlers read, its key and the two callbacks [Endpoint] does not have *)
Record Receiver := mkReceiver {
  rc_ep : Endpoint; rc_PrivateKey : PrivateKey; rc_OnAckReceived : bool; rc_OnNackReceived : bool }.

(** the outside during one turn *)
Record cenv := mkCenv {
  ce_connected : bool; ce_clock : DirectMessage → Z * list Z; ce_rnd : list Z → option (list Z);
  ce_range : list (list Z) }.

Definition handleTypingIndicator (rc : Receiver) (payload : list Z) : outcome (list ceffect) :=
  match RSADecrypt payload (rc_PrivateKey rc) with
  | Panic => Panic
  | Err _ => Ok []
  | Ok decrypted =>
      match Typing_Decode (mk_slice decrypted) with
      | Panic => Panic
      | Err _ => Ok []
      | Ok indicator =>
          if bool_decide (ti_To indicator ≠ ep_Address (rc_ep rc)) then Ok []
          else Ok (when (ep_OnTypingIndicator (rc_ep rc)) [App (OnTypingIndicator indicator)])
      end
  end.

Definition handleReadReceipt (rc : Receiver) (payload : list Z) : outcome (list ceffect) :=
  match RSADecrypt payload (rc_PrivateKey rc) with
  | Panic => Panic
  | Err _ => Ok []
  | Ok decrypted =>
      match ReadReceipt_Decode (mk_slice decrypted) with
      | Panic => Panic
      | Err _ => Ok []
      | Ok receipt =>
          if bool_decide (rr_To receipt ≠ ep_Address (rc_ep rc)) then Ok []
          else Ok (App <$> handleReceipt (rc_ep rc) receipt)
      end
  end.

Definition handleAckMessage (rc : Receiver) (payload : list Z) : outcome (list ceffect) :=
  match AckMessage_Decode (mk_slice payload) with
  | Panic => Panic
  | Err _ => Ok []
  | Ok ack => Ok (when (rc_OnAckReceived rc) [OnAckReceived ack])
  end.

Definition handleNackMessage (rc : Receiver) (payload : list Z) : outcome (list ceffect) :=
  match NackMessage_Decode (mk_slice payload) with
  | Panic => Panic
  | Err _ => Ok []
  | Ok nack => Ok (when (rc_OnNackReceived rc) [OnNackReceived nack])
  end.

(** errors of the writes are only logged *)
Definition sendNack (ep : Endpoint) (to messageID : list Z) (seqNum errorCode : Z) (errorMsg : list Z)
  (nowMs : Z) (id : list Z) (w : faults) : written unit :=
  if negb (ep_connected ep) then mret tt
  else
    payload ← pure (NackMessage_Encode (mkNackMessage (ep_Address ep) to messageID seqNum (u64 nowMs) errorCode errorMsg));
    header ← pure (WriteHeader (mkHeader ProtocolMagic ProtocolVersion MsgTypeNack (u32 (len payload)) 0 id 0) []);
    _ ← conn_Write (w_header w) header;
    conn_Write (w_payload w) payload.

Record cstate := mkCstate { cs_client : Client; cs_inbox : Inbox }.

Inductive cturn :=
  | CStop
  | CNext (s : cstate) (effs : list ceffect) (rest : list Z).

(** a handler that only reads its payload *)
Definition with_payload (s : cstate) (header : Header) (stream : list Z) (handler : list Z → outcome (list ceffect))
  : outcome cturn :=
  match read_payload header stream with
  | (Some payload, rest) => effs ← handler payload; Ok (CNext s effs rest)
  | (None, rest) => Ok (CNext s [] rest)
  end.

(** One turn.  [None]: the delivery loop of the inbox is still running.  The
    payload of a message of another type is not read. *)
Definition receive_turn (rc : Receiver) (s : cstate) (stream : list Z) (e : cenv) : option (outcome cturn) :=
  if negb (ce_connected e) then Some (Ok CStop)
  else match ReadHeader stream with
  | Panic => Some Panic
  | Err _ => Some (Ok CStop)
  | Ok (header, stream) =>
      let type := h_Type header in
      if type =? MsgTypeDirectMessage then
        match read_payload header stream with
        | (Some payload, rest) =>
            '(c, ib, effs) ← handleDirectMessage (rc_ep rc) (ce_clock e) (rc_PrivateKey rc) (cs_client s) (cs_inbox s)
                               payload (ce_rnd e) (ce_range e);
            Some (Ok (CNext (mkCstate c ib) (App <$> effs) rest))
        | (None, rest) => Some (Ok (CNext s [] rest))
        end
      else if type =? MsgTypeTyping then Some (with_payload s header stream (handleTypingIndicator rc))
      else if type =? MsgTypeReadReceipt then Some (with_payload s header stream (handleReadReceipt rc))
      else if type =? MsgTypePong then Some (Ok (CNext s [] stream))
      else if type =? MsgTypeAck then Some (with_payload s header stream (handleAckMessage rc))
      else if type =? MsgTypeNack then Some (with_payload s header stream (handleNackMessage rc))
      else Some (Ok (CNext s [] stream))
  end.

(** [env i]: the [i]-th turn; [None]: out of fuel *)
Fixpoint receiveLoop (fuel : nat) (rc : Receiver) (s : cstate) (stream : list Z) (env : nat → cenv) (i : nat)
  : option (outcome (cstate * list ceffect)) :=
  match fuel with
  | O => None
  | S fuel' =>
      t ← receive_turn rc s stream (env i);
      match t with
      | Panic => Some Panic
      | Err t => Some (Err t)
      | Ok CStop => Some (Ok (s, []))
      | Ok (CNext s effs rest) =>
          r ← receiveLoop fuel' rc s rest env (S i);
          Some ('(s, effs') ← r; Ok (s, effs ++ effs'))
      end
  end.

(** What the wrapper does besides handling messages *)
Inductive wrapper_step :=
  | Slept (d : Z)
  | Wrote (bytes : list Z)
  | Handled (effs : list ceffect).

(** one attempt to reconnect, and the outside of the loop that follows it *)
Record attempt_env := mkAttempt {
  at_dial : outcome (nat * list Z); at_now : Z; at_id : list Z; at_faults : faults;
  at_connected : bool; at_turns : nat → cenv }.

(** The loop with reconnection, from the end of a receiving loop on: [connected]
    is read, then one attempt after the other is made, as long as there are any.
    A loop takes at most one turn per byte of its stream. *)
Fixpoint receiveLoopWithReconnect (ln : Link) (rc : Receiver) (s : cstate) (backoff : Z) (attempts : list attempt_env)
  : option (outcome (Link * cstate * list wrapper_step)) :=
  match attempts with
  | [] => Some (Ok (ln, s, []))
  | a :: attempts' =>
      if negb (at_connected a) then Some (Ok (mkLink (ln_relayConn ln) (ln_relayAddress ln) false, s, []))
      else
        let '(ln, w) := reconnect ln (ep_Address (rc_ep rc)) (rsa_public (rc_PrivateKey rc)) (at_dial a) (at_now a)
                          (at_id a) (at_faults a) in
        let backoff' := next_backoff backoff (if w.2 is Ok _ then true else false) in
        match w.2 with
        | Panic => Some Panic
        | Err _ =>
            r ← receiveLoopWithReconnect ln rc s backoff' attempts';
            Some ('(ln, s, steps) ← r; Ok (ln, s, [Slept backoff; Wrote w.1] ++ steps))
        | Ok stream =>
            h ← receiveLoop (S (length stream)) rc s stream (at_turns a) 0;
            match h with
            | Panic => Some Panic
            | Err t => Some (Err t)
            | Ok (s, effs) =>
                r ← receiveLoopWithReconnect ln rc s backoff' attempts';
                Some ('(ln, s, steps) ← r; Ok (ln, s, [Slept backoff; Wrote w.1; Handled effs] ++ steps))
            end
        end
  end.

End client_conn.
