(* ===== verification/ClientConnProofs.v ===== *)
(** * Theorems on the connection of a client *)

From S2P Require Import Prelude GoBytes NodeID Wire WireGroups Ratchet Ed25519 X3DH Aes DhtStore Onion Session Inbox Messaging DhtSample OnionProofs InboxProofs RatchetProofs MessagingProofs Relay RelayProofs Groups GroupsProofs ClientConn.

(** ** Handlers always come to an end *)

Lemma deliverBuffered_total ep clock fuel : ∀ ib from,
  (size (buffer_of ib from) < fuel)%nat → is_Some (deliverBufferedMessages ep clock fuel ib from).
Proof.
  induction fuel as [|fuel IH]; intros ib from Hf; [lia|]. cbn [deliverBufferedMessages].
  destruct (buffer_of ib from !! expected_of ib from) as [m|] eqn:E; [|by eexists].
  set (ib' := set_expected _ _ _). destruct (IH ib' from) as [[ib2 rest] ->]; [|by eexists].
  assert (buffer_of ib' from = delete (expected_of ib from) (buffer_of ib from)) as ->.
  { unfold ib', buffer_of. cbn [ib_messageBuffer set_expected set_buffer]. by rewrite lookup_insert_eq. }
  rewrite map_size_delete_Some by (by eexists). pose proof (map_size_ne_0_lookup_2 (buffer_of ib from) _ ltac:(by eexists)). lia.
Qed.

Lemma handleOrderedMessage_total ep clock ib m : is_Some (handleOrderedMessage ep clock ib m).
Proof.
  unfold handleOrderedMessage. cbv zeta. destruct (bool_decide (dm_SequenceNumber m ∈ _)); [by eexists|].
  destruct (_ =? _); [|destruct (_ <? _); by eexists].
  match goal with |- is_Some (deliverBufferedMessages _ _ _ ?ib' ?from ≫= _) =>
    destruct (deliverBuffered_total ep clock (S (size (buffer_of ib' from))) ib' from) as [[ib2 rest] ->]; [lia|] end.
  by eexists.
Qed.

Lemma dispatch_total ep clock ib s : is_Some (dispatch ep clock ib s).
Proof. unfold dispatch. repeat case_match; try by eexists. apply handleOrderedMessage_total. Qed.

Section conn_proofs.
Context `{RatchetOps} `{Ed25519} `{AesGcmLaws} `{RsaLaws} `{!X509} `{!RsaSign} `{Blake2bLaws} `{Json OnionLayer}.
Context {json_laws : JsonLaws OnionLayer OnionLayer_typed OnionLayer_typed}.

Lemma handleDirectMessage_total ep clock key c ib payload rnd range :
  is_Some (handleDirectMessage ep clock key c ib payload rnd range).
Proof.
  unfold handleDirectMessage. destruct (is_x3dh _); [by eexists|]. destruct (handle_ratchet _ _ _ _) as [c' r].
  destruct (plain ← r; _) as [pt|t|]; [|by eexists..].
  destruct (dispatch_total ep clock ib (from_option mk_slice (mk_slice (match RSADecrypt payload key with Ok d => d | _ => payload end)) pt)) as [[ib' effs] E].
  rewrite E. by eexists.
Qed.

Lemma read_payload_bytes h stream :
  bytes stream → let '(p, rest) := read_payload h stream in
  bytes rest ∧ match p with Some payload => bytes payload | None => True end.
Proof.
  intros Hb. unfold read_payload, ReadFull. case_bool_decide; [|case_bool_decide; split; done || constructor].
  split; [by apply bytes_drop|by apply bytes_take].
Qed.

Lemma ReadHeader_no_panic stream : ReadHeader stream ≠ Panic.
Proof.
  unfold ReadHeader, ReadFull. case_bool_decide; [|by case_bool_decide]. cbn [mbind outcome_bind].
  destruct (Header_Decode_32 (take (Z.to_nat HeaderSize) stream)) as (h & -> & _).
  { rewrite length_take. unfold len, HeaderSize in *. lia. }
  cbn [mbind outcome_bind]. unfold Header_Validate. by repeat case_match.
Qed.

Lemma slice_of_bytes l : bytes l → slice_bytes (mk_slice l).
Proof. intros Hl. unfold slice_bytes. cbn. by rewrite app_nil_r. Qed.

Lemma RSADecrypt_bytes payload key d : bytes payload → RSADecrypt payload key = Ok d → bytes d.
Proof.
  intros Hb. unfold RSADecrypt. destruct (DecryptOAEP key payload) as [d'|] eqn:E; [|done]. intros <-%Ok_inj.
  by eapply oaep_decrypt_bytes.
Qed.

(** the handlers of single payloads do not panic *)
Lemma handlers_ok rc payload :
  bytes payload → is_Some (attempt (handleTypingIndicator rc payload)) ∧ is_Some (attempt (handleReadReceipt rc payload)) ∧
  is_Some (attempt (handleAckMessage rc payload)) ∧ is_Some (attempt (handleNackMessage rc payload)).
Proof.
  intros Hb. pose proof (slice_of_bytes payload Hb) as Hs. unfold handleTypingIndicator, handleReadReceipt, handleAckMessage, handleNackMessage.
  pose proof (AckMessage_Decode_safe _ Hs) as Ha. pose proof (NackMessage_Decode_safe _ Hs) as Hn.
  assert (is_Some (attempt match AckMessage_Decode (mk_slice payload) with
            Ok ack => Ok (when (rc_OnAckReceived rc) [OnAckReceived ack]) | Err _ => Ok [] | Panic => Panic end) ∧
          is_Some (attempt match NackMessage_Decode (mk_slice payload) with
            Ok nack => Ok (when (rc_OnNackReceived rc) [OnNackReceived nack]) | Err _ => Ok [] | Panic => Panic end)) as Hacks.
  { split; [destruct (AckMessage_Decode _)|destruct (NackMessage_Decode _)]; [by eexists|by eexists|done|by eexists|by eexists|done]. }
  destruct (RSADecrypt payload (rc_PrivateKey rc)) as [d|t|] eqn:Ed; [|split; [by eexists|split; [by eexists|exact Hacks]]|unfold RSADecrypt in Ed; by destruct (DecryptOAEP _ _)].
  pose proof (slice_of_bytes d (RSADecrypt_bytes _ _ _ Hb Ed)) as Hd.
  pose proof (Typing_Decode_safe _ Hd) as Ht. pose proof (ReadReceipt_Decode_safe _ Hd) as Hr.
  split; [|split; [|done]].
  - destruct (Typing_Decode _); [case_bool_decide; by eexists|by eexists|done].
  - destruct (ReadReceipt_Decode _); [case_bool_decide; by eexists|by eexists|done].
Qed.

(** a turn ends the loop or uses up some of the stream *)
Definition turn_ok (stream : list Z) (t : option (outcome cturn)) : Prop :=
  match t with
  | Some (Ok CStop) => True
  | Some (Ok (CNext _ _ rest)) => bytes rest ∧ (length rest < length stream)%nat
  | _ => False
  end.

Lemma with_payload_ok s h stream handler full :
  bytes stream → (length stream < length full)%nat → (∀ p, bytes p → is_Some (attempt (handler p))) →
  turn_ok full (Some (with_payload s h stream handler)).
Proof.
  intros Hb Hn Hh. unfold with_payload. pose proof (read_payload_bytes h stream Hb) as Hr. pose proof (read_payload_rest h stream) as Hl.
  destruct (read_payload h stream) as [[p|] rest]; cbn in Hl; destruct Hr as [Hr Hp]; [|split; [done|lia]].
  destruct (handler p) as [effs|t|] eqn:E; [split; [done|lia]|..]; destruct (Hh p Hp) as [x Hx]; by rewrite E in Hx.
Qed.

Lemma ReadHeader_bytes stream h rest : bytes stream → ReadHeader stream = Ok (h, rest) → bytes rest.
Proof.
  intros Hb. unfold ReadHeader, ReadFull. case_bool_decide; [|by case_bool_decide]. cbn [mbind outcome_bind].
  destruct (Header_Decode _); [|done..]. cbn [mbind outcome_bind]. destruct (Header_Validate _); [|done..]. cbn.
  intros E. injection E as _ <-. by apply bytes_drop.
Qed.

Lemma receive_turn_ok rc s stream e : bytes stream → turn_ok stream (receive_turn rc s stream e).
Proof.
  intros Hb. unfold receive_turn. destruct (negb _); [done|]. pose proof (ReadHeader_no_panic stream) as Hp.
  destruct (ReadHeader stream) as [[h rest]|t|] eqn:E; [|done|done]. clear Hp.
  pose proof (ReadHeader_bytes _ _ _ Hb E) as Hr. pose proof (ReadHeader_consumes _ _ _ E) as Hl. cbv zeta.
  destruct (_ =? MsgTypeDirectMessage).
  { pose proof (read_payload_bytes h rest Hr) as Hpb. pose proof (read_payload_rest h rest) as Hpl.
    destruct (read_payload h rest) as [[p|] rest']; cbn in Hpl; destruct Hpb as [Hpb _]; [|split; [done|lia]].
    destruct (handleDirectMessage_total (rc_ep rc) (ce_clock e) (rc_PrivateKey rc) (cs_client s) (cs_inbox s) p (ce_rnd e) (ce_range e))
      as [[[c ib] effs] ->]. split; [done|lia]. }
  destruct (_ =? MsgTypeTyping); [apply with_payload_ok; [done..|]; intros p Hpb; apply (handlers_ok rc p Hpb)|].
  destruct (_ =? MsgTypeReadReceipt); [apply with_payload_ok; [done..|]; intros p Hpb; apply (handlers_ok rc p Hpb)|].
  destruct (_ =? MsgTypePong); [done|].
  destruct (_ =? MsgTypeAck); [apply with_payload_ok; [done..|]; intros p Hpb; apply (handlers_ok rc p Hpb)|].
  destruct (_ =? MsgTypeNack); [apply with_payload_ok; [done..|]; intros p Hpb; apply (handlers_ok rc p Hpb)|].
  done.
Qed.

(** one turn per byte is enough *)
Lemma receiveLoop_ends n : ∀ rc s stream env i,
  bytes stream → (length stream ≤ n)%nat →
  ∃ s' effs, ∀ fuel, (n < fuel)%nat → receiveLoop fuel rc s stream env i = Some (Ok (s', effs)).
Proof.
  induction n as [|n IH]; intros rc s stream env i Hb Hn;
    pose proof (receive_turn_ok rc s stream (env i) Hb) as Ht;
    destruct (receive_turn rc s stream (env i)) as [[[|s1 effs rest]| |]|] eqn:E; try done.
  - exists s, []. intros [|fuel] Hf; [lia|]. cbn [receiveLoop]. by rewrite E.
  - destruct Ht. lia.
  - exists s, []. intros [|fuel] Hf; [lia|]. cbn [receiveLoop]. by rewrite E.
  - destruct Ht as [Hr Hl]. destruct (IH rc s1 rest env (S i) Hr ltac:(lia)) as (s' & effs' & Hloop).
    exists s', (effs ++ effs'). intros [|fuel] Hf; [lia|]. cbn [receiveLoop]. rewrite E. cbn [mbind option_bind].
    by rewrite Hloop by lia.
Qed.

(** C35: Whatever bytes the relay sends, the receiving loop of a client ends, without
    a panic; a turn for every byte is enough. *)
Theorem receive_loop_ends (rc : Receiver) (s : cstate) (stream : list Z) (env : nat → cenv) :
  bytes stream →
  ∃ s' effs, ∀ fuel, (length stream < fuel)%nat → receiveLoop fuel rc s stream env 0 = Some (Ok (s', effs)).
Proof. intros Hb. by apply receiveLoop_ends. Qed.

(** ** Reconnecting *)

Definition slept (st : wrapper_step) : option Z := if st is Slept d then Some d else None.

Lemma next_backoff_failed (k : Z) : 0 ≤ k →
  next_backoff (Z.min (2 ^ k * Second) maxBackoff) false = Z.min (2 ^ (k + 1) * Second) maxBackoff.
Proof.
  intros Hk. unfold next_backoff, maxBackoff, Second. rewrite Z.pow_add_r by lia. change (2 ^ 1) with 2.
  assert (0 < 2 ^ k) by lia. rewrite s64_id by lia. destruct (Z.ltb_spec (30 * 1000000000) (Z.min (2 ^ k * 1000000000) (30 * 1000000000) * 2)); lia.
Qed.

(** While a relay cannot be reached, the waits double from one second up to thirty,
    and nothing else changes. *)
Theorem reconnect_backs_off (ln : Link) (rc : Receiver) (s : cstate) (attempts : list attempt_env) :
  (∀ a, a ∈ attempts → at_connected a = true ∧ ∃ t, at_dial a = Err t) →
  ∃ steps, receiveLoopWithReconnect ln rc s Second attempts = Some (Ok (ln, s, steps)) ∧
    omap slept steps = (λ k, Z.min (2 ^ Z.of_nat k * Second) maxBackoff) <$> seq 0 (length attempts).
Proof.
  intros Ha. assert (∀ k, ∃ steps, receiveLoopWithReconnect ln rc s (Z.min (2 ^ Z.of_nat k * Second) maxBackoff) attempts = Some (Ok (ln, s, steps)) ∧
    omap slept steps = (λ k, Z.min (2 ^ Z.of_nat k * Second) maxBackoff) <$> seq k (length attempts)) as Hall; [|exact (Hall 0%nat)].
  induction attempts as [|a attempts IH]; intros k; [by exists []|]. cbn [receiveLoopWithReconnect length seq].
  destruct (Ha a ltac:(left)) as [-> [t Ht]]. cbn [negb]. unfold reconnect. rewrite Ht. cbn [pure fst snd].
  destruct (IH ltac:(intros a' Ha'; apply Ha; by right) (S k)) as (steps & Hs & Ho).
  rewrite next_backoff_failed by lia. replace (Z.of_nat k + 1) with (Z.of_nat (S k)) by lia. rewrite Hs. cbn [mbind option_bind outcome_bind].
  eexists. split; [done|]. cbn [app omap list_omap slept]. rewrite fmap_cons. f_equal. exact Ho.
Qed.

(** ** Joining a relay *)

Definition user_handshake (address pem : list Z) (now : Z) : HandshakeMessage :=
  mkHandshake ProtocolVersion address pem ClientTypeUser (u64 now) [].

Lemma handshake_fits v address pem clientType t :
  in_range 16 v → array 20 address → bytes pem → len pem < 2 ^ 31 → is_byte clientType →
  let hs := mkHandshake v address pem clientType (u64 t) [] in
  Handshake_wf hs ∧ 0 < len (Handshake_layout hs) < 2 ^ 32.
Proof.
  intros Hv Ha Hb Hl Hc. pose proof (len_nonneg pem). split.
  - split; [done|]. split; [done|]. split; [split; [done|unfold in_range; cbn [hs_PublicKey]; lia]|]. split; [done|].
    split; [apply u64_in_range|apply blob_nil].
  - unfold Handshake_layout. cbn [hs_ProtocolVersion hs_Address hs_PublicKey hs_ClientType hs_Timestamp hs_Signature].
    destruct Ha as [Ha _]. unfold len in *. rewrite !length_app, !length_be_put, Ha. cbn [length]. lia.
Qed.

Lemma handshake_encoded hs : Handshake_wf hs → Handshake_Encode hs = Ok (Handshake_layout hs).
Proof. apply (@wire_encode_layout _ Handshake_wire hs). Qed.

(** what the relay answers *)
Lemma handshake_ack rs conn e pem :
  array 20 (rs_Address rs) → ExportPublicKeyPEM (rs_PublicKey rs) = Ok pem → bytes pem → len pem < 2 ^ 31 →
  e_up e conn = true → array 16 (e_id e) →
  ∃ payload ack, sendHandshakeAck rs conn e = [Sent conn ack] ∧ frame MsgTypeHandshakeAck 0 (e_id e) payload = Ok ack ∧
    0 < len payload < 2 ^ 32.
Proof.
  intros Ha Hp Hb Hl Hup Hid.
  destruct (handshake_fits ProtocolVersion (rs_Address rs) pem ClientTypeRelay (e_now e)) as [Hwf Hlen]; try done; [by_decision..|].
  set (hs := mkHandshake _ _ _ _ _ _) in *.
  pose proof (frame_layout MsgTypeHandshakeAck 0 (e_id e) (Handshake_layout hs) ltac:(by_decision) ltac:(by_decision) Hid) as Hf.
  eexists (Handshake_layout hs), _. split_and!; [|exact Hf|lia|lia].
  unfold sendHandshakeAck. rewrite Hp. cbn [mbind outcome_bind]. fold hs. rewrite handshake_encoded by done.
  cbn [mbind outcome_bind]. rewrite Hf. unfold write. by rewrite Hup.
Qed.

(** C31: A client and a relay shake hands over a connection: what the client writes is
    understood by the relay, which registers it for its address with its public
    key; what the relay answers is accepted by the client; and both go on with
    whatever follows on the connection. *)
Theorem client_joins_relay `{!X509Laws} (address : list Z) (key : PrivateKey) (rs : RelayServer) (conn : nat)
    (peer pem relayPem id : list Z) (now : Z) (e : renv) :
  array 20 address → array 20 (rs_Address rs) →
  ExportPublicKeyPEM (rsa_public key) = Ok pem → bytes pem → len pem < 2 ^ 31 →
  ExportPublicKeyPEM (rs_PublicKey rs) = Ok relayPem → bytes relayPem → len relayPem < 2 ^ 31 →
  e_up e conn = true → array 16 (e_id e) → array 16 id →
  ∃ hs ack,
    (∀ rest, performHandshake address (rsa_public key) now id no_faults (ack ++ rest) = (hs, Ok rest)) ∧
    (∀ rest, connection_turn rs conn peer (hs ++ rest) e
       = Ok (Next (with_peers rs (<[address := mkPeer conn address (Some (rsa_public key)) ClientTypeUser (e_now e)]> (rs_peers rs)))
               [Sent conn ack] address (bool_decide (is_Some (rs_messageQueue rs))) rest)).
Proof.
  intros Ha Hra Hp Hpb Hpl Hrp Hrb Hrl Hup Hid Hid'.
  destruct (handshake_fits ProtocolVersion address pem ClientTypeUser now) as [Hwf Hlen]; try done; [by_decision..|].
  set (hs := mkHandshake _ _ _ _ _ _) in *.
  pose proof (frame_layout MsgTypeHandshake 0 id (Handshake_layout hs) ltac:(by_decision) ltac:(by_decision) Hid') as Hf.
  set (rs' := with_peers rs (<[address := mkPeer conn address (Some (rsa_public key)) ClientTypeUser (e_now e)]> (rs_peers rs))).
  destruct (handshake_ack rs' conn e relayPem) as (payload & ack & Hack & Hfa & Hal); try done.
  eexists _, ack. split.
  - intros rest. unfold performHandshake. rewrite Hp. cbn [mbind written_bind pure fst snd app].
    fold (user_handshake address pem now). change (user_handshake address pem now) with hs. rewrite handshake_encoded by done. cbn [fst snd app].
    unfold WriteHeader. fold (frame_header MsgTypeHandshake 0 id (Handshake_layout hs)).
    rewrite Header_Encode_layout by (apply header_wf; [by_decision..|done|apply u32_range]). cbn [fst snd app conn_Write no_faults w_header w_payload mbind outcome_bind].
    destruct (read_frame MsgTypeHandshakeAck 0 (e_id e) payload ack rest) as (h & Hread & Hty & _ & Hpay); try done; [by_decision..|lia|].
    rewrite Hread. cbn [fst snd app]. rewrite Hty. change (negb (MsgTypeHandshakeAck =? MsgTypeHandshakeAck)) with false. cbv iota.
    unfold read_payload in Hpay. destruct (ReadFull (h_Length h) (payload ++ rest)) as [[p r]|t|] eqn:Er; [|done..]. injection Hpay as -> ->.
    destruct (Z.ltb_spec 0 (h_Length h)) as [_|Hz]; [by cbn; rewrite app_nil_r|]. exfalso.
    unfold ReadFull in Er. case_bool_decide; [|by case_bool_decide]. replace (Z.to_nat (h_Length h)) with 0%nat in Er by lia.
    cbn [take drop] in Er. injection Er as Ep _. rewrite <- Ep in Hal.
    assert (len (take 0 (payload ++ rest)) = 0) by done. lia.
  - intros rest. pose proof (handshake_turn rs conn peer hs (rsa_public key) id _ rest e Hwf ltac:(lia) Hid' (ImportExport key pem Hp) Hf) as Ht.
    cbv zeta in Ht. cbn [hs_Address hs_ClientType hs] in Ht. change (ClientTypeUser =? ClientTypeUser) with true in Ht.
    rewrite andb_true_r in Ht. fold rs' in Ht. rewrite Hack in Ht. exact Ht.
Qed.

(** ** From one application to the other *)

(** what [SendMessage] writes is a frame with the onion of the sealed message *)
Lemma send_writes_frame ep seqs to key content ct path r :
  ep_connected ep = true → array 20 (ep_Address ep) → array 20 to → bytes content →
  len content ≤ 365 → is_byte ct → in_range 64 (default 0 (seqs !! to)) → path_ok path → random_ok r →
  let '(seqs', msg) := new_message (ep_Address ep) to seqs (sr_nowMs r) ct content in
  ∃ b onion sealed effs,
    SendMessage ep seqs to (rsa_public key) content ct (relays path) r (Ok tt) = (seqs', Ok (b, effs)) ∧
    build_layers 0 (relays path) to sealed (sr_layers r) = Ok onion ∧
    frame MsgTypeRelayForward FlagEncrypted (sr_id r) onion = Ok b ∧
    RSAEncrypt (DirectMessage_layout msg) (rsa_public key) (sr_oaep r) = Ok sealed ∧
    array 512 sealed ∧ DirectMessage_wf msg ∧ RSADecrypt sealed key = Ok (DirectMessage_layout msg).
Proof.
  intros Hc Ha Hto Hb Hl Hct Hseq [Hpath Hp] [Hr Hid].
  pose proof (new_message_wf (ep_Address ep) to seqs (sr_nowMs r) ct content Ha Hto Hseq Hct Hb Hl) as Hwf.
  destruct (new_message (ep_Address ep) to seqs (sr_nowMs r) ct content) as [seqs' msg] eqn:En.
  assert (dm_Content msg = content ∧ dm_Signature msg = []) as [Hcontent Hsig]
    by (unfold new_message in En; by simplify_eq/=).
  cbn [snd] in Hwf. pose proof (direct_layout_length msg Hwf) as Hlen. rewrite Hcontent, Hsig in Hlen.
  destruct (oaep_total (rsa_public key) (DirectMessage_layout msg) (sr_oaep r) (direct_layout_bytes msg Hwf)) as (sealed & Hs & Hsealed).
  { rewrite Hlen, len_nil. lia. }
  pose proof Hsealed as [_ Hsb].
  destruct (build_layers_peel path to sealed (sr_layers r) 0 Hr Hp Hto Hsb) as (onion & Ho & _ & _).
  pose proof (frame_layout MsgTypeRelayForward FlagEncrypted (sr_id r) onion ltac:(by_decision) ltac:(by_decision) Hid) as Hf.
  eexists _, onion, sealed, _. split_and!; [|exact Ho|exact Hf|by unfold RSAEncrypt; rewrite Hs|exact Hsealed|done|by unfold RSADecrypt; rewrite (oaep_correct _ _ _ _ Hs)].
  unfold SendMessage. rewrite Hc. cbn [negb]. rewrite En.
  change (DirectMessage_Encode msg) with (@wire_encode _ DirectMessage_wire msg).
  rewrite (@wire_encode_layout _ DirectMessage_wire msg Hwf). cbn [mbind outcome_bind].
  unfold RSAEncrypt. cbn [wire_layout DirectMessage_wire]. rewrite Hs. cbn [mbind outcome_bind]. unfold send_onion.
  assert (BuildOnionLayers (relays path) to sealed (sr_layers r) = Ok onion) as -> by (by destruct path).
  cbn [mbind outcome_bind]. unfold WriteHeader. fold (frame_header MsgTypeRelayForward FlagEncrypted (sr_id r) onion).
  rewrite Header_Encode_layout by (apply header_wf; [by_decision..|done|apply u32_range]). done.
Qed.

(** one frame on the stream of a connected client *)
Lemma receive_one_frame rc s payload id b rest env i fuel c ib effs :
  ce_connected (env i) = true → array 16 id → len payload < 2 ^ 32 →
  frame MsgTypeDirectMessage FlagEncrypted id payload = Ok b →
  handleDirectMessage (rc_ep rc) (ce_clock (env i)) (rc_PrivateKey rc) (cs_client s) (cs_inbox s) payload
    (ce_rnd (env i)) (ce_range (env i)) = Some (c, ib, effs) →
  receiveLoop (S fuel) rc s (b ++ rest) env i
  = (r ← receiveLoop fuel rc (mkCstate c ib) rest env (S i); Some ('(s, effs') ← r; Ok (s, (App <$> effs) ++ effs'))).
Proof.
  intros Hc Hid Hl Hb Hh. cbn [receiveLoop]. unfold receive_turn. rewrite Hc. cbn [negb].
  destruct (read_frame MsgTypeDirectMessage FlagEncrypted id payload b rest) as (h & Hread & Hty & _ & Hpay); try done; [by_decision..|].
  rewrite Hread. cbv zeta. rewrite Hty. change (MsgTypeDirectMessage =? MsgTypeDirectMessage) with true. cbv iota.
  rewrite Hpay, Hh. done.
Qed.

(** C1: The bytes that [SendMessage] writes go through a chain of connected relay
    servers and come out as bytes on the recipient's connection; the receiving
    loop of the recipient, whatever its state, reads them and hands exactly the
    message that was built to the ordering of its inbox, whose effects are the
    only ones.  The message has at most 365 bytes and comes from a plain address
    (its first byte is at least 4 and it does not start with the X3DH magic), and
    the onions fit the 32-bit length of their frames. *)
Theorem message_over_the_wire (epA : Endpoint) (keyB : PrivateKey) (to : list Z) (seqs : gmap (list Z) Z)
    (path : list (list Z * PrivateKey)) (hops : list hop) (conns : list nat) (content : list Z) (ct : Z) (r : send_random) :
  ep_connected epA = true → plain_address (ep_Address epA) → array 20 to → bytes content → len content ≤ 365 → is_byte ct →
  in_range 64 (default 0 (seqs !! to)) → path_ok path → random_ok r → linked path hops conns to →
  let '(seqs', msg) := new_message (ep_Address epA) to seqs (sr_nowMs r) ct content in
  (∀ j sealed onion, RSAEncrypt (DirectMessage_layout msg) (rsa_public keyB) (sr_oaep r) = Ok sealed →
     build_layers j (relays (drop j path)) to sealed (sr_layers r) = Ok onion → len onion < 2 ^ 32) →
  ∃ b effs last,
    SendMessage epA seqs to (rsa_public keyB) content ct (relays path) r (Ok tt) = (seqs', Ok (b, effs)) ∧
    relay_chain hops b = Ok (conns, last) ∧
    ∀ rc s env i fuel, ep_Address (rc_ep rc) = to → rc_PrivateKey rc = keyB → ce_connected (env i) = true → (2 ≤ fuel)%nat →
      ∃ ib effs', handleOrderedMessage (rc_ep rc) (ce_clock (env i)) (cs_inbox s) msg = Some (ib, effs') ∧
        receiveLoop fuel rc s last env i = Some (Ok (mkCstate (cs_client s) ib, App <$> effs')).
Proof.
  intros Hc Hplain Hto Hb Hl Hct Hseq Hpath Hr Hlink. pose proof Hplain as (Ha & _).
  pose proof (send_writes_frame epA seqs to keyB content ct path r Hc Ha Hto Hb Hl Hct Hseq Hpath Hr) as Hs.
  destruct (new_message _ _ _ _ _ _) as [seqs' msg] eqn:En.
  assert (dm_From msg = ep_Address epA ∧ dm_To msg = to) as [Hf Ht] by (unfold new_message in En; by simplify_eq/=). intros Hfit.
  destruct Hs as (b & onion & sealed & effs & Hsend & Hbuild & Hframe & Henc & Hsealed & Hwf & Hd). pose proof Hsealed as [Hsl Hsb].
  destruct Hpath as [Hne Hp]. destruct Hr as [Hr Hid].
  destruct (chain_build path to sealed (sr_layers r) 0 hops conns onion FlagEncrypted (sr_id r) b Hne Hlink Hr Hp Hto Hsb)
    as (last & id' & Hchain & Hlast & Hid'); try done.
  { intros j o. by apply (Hfit j sealed). }
  exists b, effs, last. split_and!; [done..|]. intros rc s env i fuel Hrc Hkey Hconn Hfuel.
  destruct (handleOrderedMessage_total (rc_ep rc) (ce_clock (env i)) (cs_inbox s) msg) as [[ib effs'] Hord]. exists ib, effs'.
  split; [done|]. destruct fuel as [|[|fuel]]; [lia..|].
  rewrite <- (app_nil_r last), (receive_one_frame rc s sealed id' last [] env i (S fuel) (cs_client s) ib effs'); try done.
  - cbn [receiveLoop]. unfold receive_turn. assert (ReadHeader [] = Err "EOF") as -> by reflexivity.
    destruct (negb _); cbn [mbind option_bind outcome_bind]; by rewrite app_nil_r.
  - unfold len. lia.
  - rewrite Hkey, (handle_plain _ _ _ _ _ _ _ _ _ Hd).
    + rewrite dispatch_direct by (done || congruence). by rewrite Hord.
    + by apply direct_layout_bytes.
    + rewrite direct_layout_length by done. pose proof (len_nonneg (dm_Content msg)). pose proof (len_nonneg (dm_Signature msg)). lia.
    + unfold DirectMessage_layout. rewrite Hf, take_app_length' by (by destruct Ha). done.
Qed.

End conn_proofs.

(** ** Witnesses *)

Module ConnSample.
#[local] Existing Instances Toy.ops sample_crypto OnionSample.rsa.
Definition receiver : Receiver := mkReceiver InboxSample.ep OnionSample.secret true true.
Definition state : cstate := mkCstate GroupSample.client empty_inbox.
Definition turn : cenv := mkCenv true InboxSample.clock (λ _, None) [].
Definition refused : attempt_env := mkAttempt (Err "refused") 0 (replicate 16 3) no_faults true (λ _, turn).
End ConnSample.

Section witnesses.
#[local] Existing Instances Toy.ops sample_crypto sample_aes sample_aes_laws OnionSample.rsa
  OnionSample.rsa_laws OnionSample.blake OnionSample.blake_laws OnionSample.json OnionSample.json_laws RelaySample.x509
  RelaySample.x509_laws GroupSample.sign.

Lemma receive_loop_ends_witness :
  ∃ s effs, receiveLoop 4 ConnSample.receiver ConnSample.state [1; 2; 3] (λ _, ConnSample.turn) 0 = Some (Ok (s, effs)).
Proof.
  destruct (receive_loop_ends ConnSample.receiver ConnSample.state [1; 2; 3] (λ _, ConnSample.turn)) as (s & effs & Hl).
  - by_decision.
  - exists s, effs. apply Hl. cbn. lia.
Defined.

Lemma reconnect_backs_off_witness :
  ∃ steps, receiveLoopWithReconnect (mkLink None [] true) ConnSample.receiver ConnSample.state Second
      (replicate 7 ConnSample.refused) = Some (Ok (mkLink None [] true, ConnSample.state, steps)) ∧
    omap slept steps = (λ k, k * Second) <$> [1; 2; 4; 8; 16; 30; 30].
Proof.
  destruct (reconnect_backs_off (mkLink None [] true) ConnSample.receiver ConnSample.state (replicate 7 ConnSample.refused))
    as (steps & Hs & Ho).
  - intros a [-> _]%elem_of_replicate. split; [reflexivity|]. by exists "refused"%string.
  - exists steps. split; [exact Hs|]. rewrite Ho. vm_compute. reflexivity.
Defined.

Lemma client_joins_relay_witness :
  ∃ hs ack,
    performHandshake RelaySample.client (rsa_public OnionSample.secret) 5 (replicate 16 3) no_faults (ack ++ [1; 2]) = (hs, Ok [1; 2]) ∧
    ∃ rs, connection_turn RelaySample.queue_server 4 zero_address (hs ++ [8]) RelaySample.env
      = Ok (Next rs [Sent 4 ack] RelaySample.client true [8]).
Proof.
  destruct (client_joins_relay RelaySample.client OnionSample.secret RelaySample.queue_server 4 zero_address [33] [33] (replicate 16 3)
    5 RelaySample.env) as (hs & ack & Hc & Hr); try first [by_decision|reflexivity].
  exists hs, ack. split; [exact (Hc [1; 2])|]. eexists. exact (Hr [8]).
Defined.

Lemma message_over_the_wire_witness :
  let '(seqs', msg) := new_message (replicate 20 77) RelaySample.client ∅ 5 0 [1; 2; 3] in
  ∃ b effs last,
    SendMessage MessagingSample.epA ∅ RelaySample.client (rsa_public OnionSample.secret) [1; 2; 3] 0
      (relays (drop 2 OnionSample.path)) MessagingSample.random (Ok tt) = (seqs', Ok (b, effs)) ∧
    relay_chain (drop 2 RelaySample.hops) b = Ok ([7]%nat, last).
Proof.
  pose proof (message_over_the_wire MessagingSample.epA OnionSample.secret RelaySample.client ∅ (drop 2 OnionSample.path) (drop 2 RelaySample.hops)
    [7]%nat [1; 2; 3] 0 MessagingSample.random) as Hw.
  destruct (new_message (ep_Address MessagingSample.epA) RelaySample.client ∅ (sr_nowMs MessagingSample.random) 0 [1; 2; 3])
    as [seqs' msg] eqn:En.
  assert (new_message (replicate 20 77) RelaySample.client ∅ 5 0 [1; 2; 3] = (seqs', msg)) as -> by exact En.
  destruct Hw as (b & effs & last & Hs & Hc & _).
  - reflexivity.
  - apply sample_plain.
  - by_decision.
  - by_decision.
  - by_decision.
  - by_decision.
  - by_decision.
  - split; [done|]. by apply (bool_decide_eq_true_1 (Forall _ _)); vm_compute.
  - apply sample_random_ok.
  - repeat (split; [first [by_decision|reflexivity]|]). cbn -[lookup].
    split_and!; try by_decision; try reflexivity; eexists; (split; [apply lookup_insert_eq|by split]).
  - intros j sealed onion Hsealed E.
    assert (msg = (new_message (replicate 20 77) RelaySample.client ∅ 5 0 [1; 2; 3]).2) as Em
      by (change (msg = (new_message (ep_Address MessagingSample.epA) RelaySample.client ∅ (sr_nowMs MessagingSample.random) 0 [1; 2; 3]).2); by rewrite En).
    assert (match (s ← RSAEncrypt (DirectMessage_layout (new_message (replicate 20 77) RelaySample.client ∅ 5 0 [1; 2; 3]).2)
                     (rsa_public OnionSample.secret) (sr_oaep MessagingSample.random);
                   build_layers j (relays (drop j (drop 2 OnionSample.path))) RelaySample.client s (sr_layers MessagingSample.random)) with
            | Ok o => len o <? 2 ^ 32 | _ => true end = true) as Hb
      by (destruct j as [|[|j]]; vm_compute; reflexivity).
    rewrite <- Em, Hsealed in Hb. cbn [mbind outcome_bind] in Hb. rewrite E in Hb. by apply Z.ltb_lt in Hb.
  - exists b, effs, last. split; [exact Hs|exact Hc].
Defined.
End witnesses.
