(* ===== verification/ClientPool.v ===== *)
(** * Connections to several relays and key bundles in the DHT:
    pkg/network/pool.go and dht_integration.go

    A pooled client is its [Link].  The order of the map of clients, in which
    the one to evict is found, is an argument, and so is what a new client
    brings back from connecting. *)

From S2P Require Import Prelude GoBytes NodeID Wire WireGroups Ratchet Ed25519 X3DH Aes DhtStore Onion Session Relay Groups ClientConn OnionProofs RelayProofs RelayRegistry.

Section pool.
Context `{X509}.

(** ** pool.go *)

Record ConnectionPool := mkConnectionPool {
  cp_relays : gmap gostring RelayRegistry.RelayInfo; cp_clients : gmap gostring Link; cp_privateKey : PrivateKey;
  cp_maxConns : Z; cp_closed : bool }.

Definition NewConnectionPool (privateKey : PrivateKey) (maxConns : Z) : ConnectionPool :=
  mkConnectionPool ∅ ∅ privateKey maxConns false.

Definition with_relays (p : ConnectionPool) (m : gmap gostring RelayRegistry.RelayInfo) : ConnectionPool :=
  mkConnectionPool m (cp_clients p) (cp_privateKey p) (cp_maxConns p) (cp_closed p).
Definition with_clients (p : ConnectionPool) (m : gmap gostring Link) : ConnectionPool :=
  mkConnectionPool (cp_relays p) m (cp_privateKey p) (cp_maxConns p) (cp_closed p).

Definition Pool_AddRelay (p : ConnectionPool) (info : RelayRegistry.RelayInfo) : ConnectionPool :=
  with_relays p (<[ni_Endpoint info := info]> (cp_relays p)).

(** its connection is closed *)
Definition drop_client (p : ConnectionPool) (endpoint : gostring) : ConnectionPool :=
  with_clients p (delete endpoint (cp_clients p)).

Definition Pool_RemoveRelay (p : ConnectionPool) (endpoint : gostring) : ConnectionPool :=
  drop_client (with_relays p (delete endpoint (cp_relays p))) endpoint.

(** [first]: the first key of the map *)
Definition evictOldest (p : ConnectionPool) (first : gmap gostring Link → option gostring) : ConnectionPool :=
  match first (cp_clients p) with Some endpoint => drop_client p endpoint | None => p end.

(** a new client has no address of its own *)
Definition new_link : Link := mkLink None [] false.

(** a new connection, after making room for it *)
Definition connect_client (p : ConnectionPool) (endpoint : gostring) (first : gmap gostring Link → option gostring)
  (dial : outcome (nat * list Z)) (now : Z) (id : list Z) (w : faults) : ConnectionPool * written Link :=
  let p := if cp_maxConns p <=? Z.of_nat (size (cp_clients p)) then evictOldest p first else p in
  let '(ln, r) := Client_ConnectToRelay new_link zero_address (rsa_public (cp_privateKey p)) endpoint dial now id w in
  match r.2 with
  | Ok _ => (with_clients p (<[endpoint := ln]> (cp_clients p)), (r.1, Ok ln))
  | Err t => (p, (r.1, Err t))
  | Panic => (p, (r.1, Panic))
  end.

(** The link handed out, and the bytes written on the way. *)
Definition GetClient (p : ConnectionPool) (endpoint : gostring) (first : gmap gostring Link → option gostring)
  (dial : outcome (nat * list Z)) (now : Z) (id : list Z) (w : faults) : ConnectionPool * written Link :=
  if cp_closed p then (p, pure (Err "connection pool closed"))
  else
    match cp_clients p !! endpoint with
    | Some ln => if ln_connected ln then (p, mret ln) else connect_client p endpoint first dial now id w
    | None => connect_client p endpoint first dial now id w
    end.

Definition active_relays (order : list (gostring * RelayRegistry.RelayInfo) → list (gostring * RelayRegistry.RelayInfo)) (p : ConnectionPool)
  : list RelayRegistry.RelayInfo :=
  filter (λ i, ni_IsActive i = true) (snd <$> order (map_to_list (cp_relays p))).

Definition GetRandomRelay order (p : ConnectionPool) : outcome RelayRegistry.RelayInfo :=
  match active_relays order p with [] => Err "no relays available" | i :: _ => Ok i end.

Definition GetRandomPath order (p : ConnectionPool) (hops : Z) : outcome (list RelayRegistry.RelayInfo) :=
  let active := active_relays order p in
  if len active <? hops then Err "not enough active relays"
  else if hops <? 0 then Panic
  else Ok (take (Z.to_nat hops) active).

Definition Pool_UpdateRelayStatus (p : ConnectionPool) (endpoint : gostring) (isActive : bool) : ConnectionPool :=
  match cp_relays p !! endpoint with
  | None => p
  | Some i =>
      let p := with_relays p (<[endpoint := mkRelayInfo (ni_Address i) (ni_Endpoint i) (ni_PublicKey i) (ni_PublicKeyPEM i)
                                               isActive (ni_Region i) (ni_Reputation i)]> (cp_relays p)) in
      if isActive then p else drop_client p endpoint
  end.

Definition Pool_Close (p : ConnectionPool) : ConnectionPool * outcome unit :=
  if cp_closed p then (p, Err "connection pool closed")
  else (mkConnectionPool (cp_relays p) ∅ (cp_privateKey p) (cp_maxConns p) true, Ok tt).

(** the links that are pinged *)
Definition PingAll (p : ConnectionPool) (order : list (gostring * Link) → list (gostring * Link)) : list Link :=
  snd <$> order (map_to_list (cp_clients p)).

(** a tick of StartHealthCheck; [None]: its loop ends *)
Definition health_tick (p : ConnectionPool) (order : list (gostring * Link) → list (gostring * Link)) : option (list Link) :=
  if cp_closed p then None else Some (PingAll p order).

Record PoolStats := mkPoolStats { pst_total_relays : Z; pst_active_relays : Z; pst_active_connections : Z; pst_max_connections : Z }.
Definition Pool_GetStats order (p : ConnectionPool) : PoolStats :=
  mkPoolStats (Z.of_nat (size (cp_relays p))) (len (active_relays order p)) (Z.of_nat (size (cp_clients p))) (cp_maxConns p).

(** *** What the pool promises *)

(** a pool after any operations; a link in it may lose its connection meanwhile *)
Inductive pool_run : ConnectionPool → ConnectionPool → Prop :=
  | run_here p : pool_run p p
  | run_add p p' info : pool_run p p' → pool_run p (Pool_AddRelay p' info)
  | run_remove p p' endpoint : pool_run p p' → pool_run p (Pool_RemoveRelay p' endpoint)
  | run_status p p' endpoint b : pool_run p p' → pool_run p (Pool_UpdateRelayStatus p' endpoint b)
  | run_get p p' endpoint first dial now id w :
      pool_run p p' → (∀ m endpoint, first m = Some endpoint → is_Some (m !! endpoint)) →
      (∀ m, m ≠ ∅ → is_Some (first m)) → pool_run p (GetClient p' endpoint first dial now id w).1
  | run_lost p p' endpoint ln ln' :
      pool_run p p' → cp_clients p' !! endpoint = Some ln → pool_run p (with_clients p' (<[endpoint := ln']> (cp_clients p')))
  | run_close p p' : pool_run p p' → pool_run p (Pool_Close p').1.

Record pool_ok (p : ConnectionPool) : Prop := {
  po_bound : Z.of_nat (size (cp_clients p)) ≤ Z.max 1 (cp_maxConns p);
  po_closed : cp_closed p = true → cp_clients p = ∅ }.

Lemma drop_client_ok p endpoint : pool_ok p → pool_ok (drop_client p endpoint).
Proof.
  intros [Hb Hc]. split; cbn [cp_clients cp_maxConns cp_closed drop_client with_clients].
  - rewrite map_size_delete. destruct (cp_clients p !! endpoint); unfold id; lia.
  - intros Hcl. by rewrite (Hc Hcl), delete_empty.
Qed.
Lemma with_relays_ok p m : pool_ok p → pool_ok (with_relays p m).
Proof. by intros [Hb Hc]. Qed.

Lemma evictOldest_room p first :
  pool_ok p → cp_closed p = false → (∀ m endpoint, first m = Some endpoint → is_Some (m !! endpoint)) →
  (∀ m, m ≠ ∅ → is_Some (first m)) → cp_maxConns p ≤ Z.of_nat (size (cp_clients p)) →
  let p' := evictOldest p first in
  pool_ok p' ∧ cp_closed p' = false ∧ cp_maxConns p' = cp_maxConns p ∧
  Z.of_nat (size (cp_clients p')) + 1 ≤ Z.max 1 (cp_maxConns p).
Proof.
  intros Hok Hcl Hin Hex Hfull p'. subst p'. unfold evictOldest. destruct (first (cp_clients p)) as [endpoint|] eqn:E.
  - split; [by apply drop_client_ok|]. split; [done|]. split; [done|]. cbn [cp_clients drop_client with_clients].
    rewrite map_size_delete_Some by (by apply Hin). pose proof (map_size_ne_0_lookup_2 (cp_clients p) endpoint (Hin _ _ E)).
    pose proof (po_bound p Hok). lia.
  - split; [done|]. split; [done|]. split; [done|]. destruct (decide (cp_clients p = ∅)) as [He|He].
    + rewrite He, map_size_empty. lia.
    + destruct (Hex _ He) as [x Hx]. congruence.
Qed.

Lemma GetClient_ok p endpoint first dial now id w :
  pool_ok p → (∀ m endpoint, first m = Some endpoint → is_Some (m !! endpoint)) → (∀ m, m ≠ ∅ → is_Some (first m)) →
  pool_ok (GetClient p endpoint first dial now id w).1.
Proof.
  intros Hok Hin Hex. unfold GetClient. destruct (cp_closed p) eqn:Hcl; [done|].
  assert (pool_ok (connect_client p endpoint first dial now id w).1) as Hconn;
    [|destruct (cp_clients p !! endpoint) as [ln|]; [destruct (ln_connected ln)|]; done].
  unfold connect_client. set (p1 := if cp_maxConns p <=? _ then _ else _).
  assert (pool_ok p1 ∧ cp_closed p1 = false ∧ Z.of_nat (size (cp_clients p1)) + 1 ≤ Z.max 1 (cp_maxConns p1)) as (Hok1 & Hcl1 & Hroom).
  { subst p1. destruct (Z.leb_spec (cp_maxConns p) (Z.of_nat (size (cp_clients p)))) as [Hf|Hf]; [|split_and!; [done..|lia]].
    destruct (evictOldest_room p first Hok Hcl Hin Hex Hf) as (? & ? & -> & ?). done. }
  destruct (Client_ConnectToRelay _ _ _ _ _ _ _ _) as [ln r]. destruct r.2; [|done..].
  cbn [fst]. split; cbn [cp_clients cp_maxConns cp_closed with_clients].
  - rewrite map_size_insert. destruct (cp_clients p1 !! endpoint); unfold Datatypes.id; pose proof (po_bound p1 Hok1); lia.
  - congruence.
Qed.

Lemma GetClient_max p endpoint first dial now id w :
  cp_maxConns (GetClient p endpoint first dial now id w).1 = cp_maxConns p.
Proof.
  unfold GetClient, connect_client, evictOldest. destruct (cp_closed p); [done|]. destruct (Client_ConnectToRelay _ _ _ _ _ _ _ _) as [ln r].
  destruct (cp_clients p !! endpoint) as [l|]; [destruct (ln_connected l); [done|]|];
    destruct (_ <=? _); try destruct (first _); by destruct r.2.
Qed.

(** Whatever is done with a pool, it never holds more connections than it may, or
    one if that is less than one, and none once it is closed. *)
Theorem pool_bounded (privateKey : PrivateKey) (maxConns : Z) (p : ConnectionPool) :
  pool_run (NewConnectionPool privateKey maxConns) p →
  Z.of_nat (size (cp_clients p)) ≤ Z.max 1 maxConns ∧ (cp_closed p = true → cp_clients p = ∅).
Proof.
  intros Hrun. assert (pool_ok p ∧ cp_maxConns p = maxConns) as [[Hb Hc] <-]; [|done].
  remember (NewConnectionPool privateKey maxConns) as p0 eqn:E0.
  induction Hrun as [p|p p' info Hr IH|p p' endpoint Hr IH|p p' endpoint b Hr IH|p p' endpoint first dial now id w Hr IH Hin Hex
                    |p p' endpoint ln ln' Hr IH Hln|p p' Hr IH]; try destruct (IH E0) as [Hok Hmax].
  - subst p. split; [|done]. split; [cbn [cp_clients NewConnectionPool]; rewrite map_size_empty; lia|done].
  - split; [by apply with_relays_ok|done].
  - split; [by apply drop_client_ok, with_relays_ok|done].
  - unfold Pool_UpdateRelayStatus. destruct (cp_relays p' !! endpoint); [|done]. destruct b; [split; [by apply with_relays_ok|done]|].
    split; [by apply drop_client_ok, with_relays_ok|done].
  - split; [by apply GetClient_ok|]. by rewrite GetClient_max.
  - split; [|done]. destruct Hok as [Hb Hc]. split; cbn [cp_clients cp_maxConns cp_closed with_clients].
    + rewrite map_size_insert, Hln. unfold Datatypes.id. lia.
    + intros Hcl. rewrite (Hc Hcl) in Hln. by rewrite lookup_empty in Hln.
  - unfold Pool_Close. destruct (cp_closed p'); [done|]. split; [|done]. split; [cbn [cp_clients cp_maxConns fst]; rewrite map_size_empty; lia|done].
Qed.

(** ** dht_integration.go *)

(** the counts that a pool reports: at most as many active relays as relays *)
Lemma pool_stats order (p : ConnectionPool) :
  (∀ l, order l ≡ₚ l) → 0 ≤ pst_active_relays (Pool_GetStats order p) ≤ pst_total_relays (Pool_GetStats order p).
Proof.
  intros Ho. cbn. unfold active_relays, len. split; [lia|]. apply Nat2Z.inj_le. etrans; [apply length_filter|].
  rewrite length_fmap, Ho. by rewrite length_map_to_list.
Qed.
(** once a pool is closed its health check ends at the next tick *)
Lemma closed_pool_unchecked p order : health_tick (Pool_Close p).1 order = None.
Proof. unfold health_tick, Pool_Close. by destruct (cp_closed p) eqn:E; cbn; rewrite ?E. Qed.

Context `{RatchetOps} `{Ed25519} `{AesGcm} `{Json KeyBundle}.

(** [attached]: whether a DHT node is; [stored]: what its [Store] answers for a
    key and a value, with a lifetime of 24 hours; [sha1]: [dht.NewNodeID] *)
Definition PublishKeyBundle (attached : bool) (c : Client) (range : opk_map → list OneTimePreKeyPrivate)
  (sha1 : list Z → list Z) (stored : list Z → list Z → Z → outcome unit) : outcome unit :=
  if negb attached then Err "DHT not attached - call AttachDHT() first"
  else match cl_x3dhIdentity c with
  | None => Err "X3DH not initialized - call InitializeX3DH() first"
  | Some _ =>
      bundle ← wrap_err "failed to get key bundle: " (GetKeyBundle c range);
      bundleJSON ← wrap_err "failed to serialize key bundle: " (json_marshal bundle);
      wrap_err "failed to publish to DHT: " (stored (sha1 (cl_Address c)) bundleJSON (24 * 3600 * Second))
  end.

(** [found]: what [Lookup] finds under a key *)
Definition DiscoverKeyBundle (attached : bool) (c : Client) (peerAddress : list Z) (sha1 : list Z → list Z)
  (found : list Z → option (list Z)) : Client * outcome KeyBundle :=
  if negb attached then (c, Err "DHT not attached - call AttachDHT() first")
  else match found (sha1 peerAddress) with
  | None => (c, Err ("key bundle not found in DHT for " +:+ hex_string (take 8 peerAddress)))
  | Some bundleJSON =>
      match wrap_err "failed to deserialize key bundle: " (json_unmarshal bundleJSON) with
      | Ok bundle => (CacheKeyBundle c peerAddress bundle, Ok bundle)
      | Err t => (c, Err t)
      | Panic => (c, Panic)
      end
  end.

End pool.

(** ** Witness *)

Section witnesses.
#[local] Existing Instances OnionSample.rsa RelaySample.x509.

(** an answer of a relay to a handshake *)
Definition sample_ack : list Z := Header_layout (mkHeader ProtocolMagic ProtocolVersion MsgTypeHandshakeAck 0 0 (replicate 16 7) 0).
Definition sample_get (p : ConnectionPool) (endpoint : gostring) : ConnectionPool :=
  (GetClient p endpoint (λ m, fst <$> head (map_to_list m)) (Ok (1%nat, sample_ack)) 5 (replicate 16 3) no_faults).1.

(** two connections after one another in a pool for one *)
Lemma pool_bounded_witness :
  let p := sample_get (sample_get (NewConnectionPool OnionSample.secret 1) [1]) [2] in
  is_Some (cp_clients p !! [2]) ∧ Z.of_nat (size (cp_clients p)) ≤ 1.
Proof.
  set (p := sample_get (sample_get (NewConnectionPool OnionSample.secret 1) [1]) [2]).
  assert (pool_run (NewConnectionPool OnionSample.secret 1) p) as Hrun.
  { assert (∀ (m : gmap gostring Link) endpoint, fst <$> head (map_to_list m) = Some endpoint → is_Some (m !! endpoint)) as Hin.
    { intros m endpoint. destruct (map_to_list m) as [|[e ln] l] eqn:E; [discriminate|]. intros [= <-]. exists ln.
      apply elem_of_map_to_list. rewrite E. left. }
    assert (∀ m : gmap gostring Link, m ≠ ∅ → is_Some (fst <$> head (map_to_list m))) as Hex.
    { intros m Hm. destruct (map_to_list m) as [|[e ln] l] eqn:E; [|by eexists]. destruct Hm. by apply map_to_list_empty_iff. }
    apply run_get; [apply run_get; [apply run_here|exact Hin|exact Hex]|exact Hin|exact Hex]. }
  split.
  - assert (bool_decide (is_Some (cp_clients p !! [2])) = true) as E by (vm_compute; reflexivity). by apply bool_decide_eq_true_1 in E.
  - destruct (pool_bounded OnionSample.secret 1 p Hrun) as [Hb _]. exact Hb.
Defined.
End witnesses.
