(* ===== verification/ClientRun.v ===== *)
(** * The goroutines of a client: ConnectToRelay and Disconnect of
    pkg/network/client.go, receiveLoopWithReconnect and keepaliveLoop of reconnect.go

    Every successful ConnectToRelay starts two goroutines, which read the same
    fields as the caller without a lock.  A goroutine is the place where it stands;
    its steps are the accesses to these fields, and the steps of all goroutines, of
    the caller and of the relays interleave in any way.  A read blocks as long as its
    connection is [silent]: open on both sides with nothing to read.  What a frame
    does is in ClientConn. *)

From S2P Require Import Prelude GoBytes NodeID Wire WireGroups Ratchet Ed25519 X3DH Aes DhtStore Onion Session Inbox Messaging Relay Groups ClientConn.

(** where [receiveLoopWithReconnect] stands: at the test of its inner loop; blocked
    in [ReadHeader] on a connection; blocked in a handler that reads its payload;
    after the inner loop; asleep before an attempt; before it dials; blocked in the
    handshake on the connection it dialled *)
Inductive loop_pc := LoopTop | Reading (c : nat) | Payload (c : nat) | Returned | Sleeping | Dialing | Shaking (c : nat) | Ended.

#[export] Instance loop_pc_eq_dec : EqDecision loop_pc.
Proof. solve_decision. Defined.

(** [w_open]: the connections that this side has not closed; [w_answer]: those on
    which enough bytes have come for one more read to return; [w_broken]: those that
    the other side has closed or that failed; [w_pings]: for every keepalive loop
    whether it runs; [w_caller]: the connection of a ConnectToRelay that is in its
    handshake *)
Record world := mkWorld {
  w_link : Link; w_open : gset nat; w_used : gset nat; w_answer : gset nat; w_broken : gset nat;
  w_loops : list loop_pc; w_pings : list bool; w_caller : option nat }.

Definition connected (w : world) : bool := ln_connected (w_link w).
Definition relayConn (w : world) : option nat := ln_relayConn (w_link w).

Definition with_link (w : world) (link : Link) : world :=
  mkWorld link (w_open w) (w_used w) (w_answer w) (w_broken w) (w_loops w) (w_pings w) (w_caller w).
Definition with_loops (w : world) (loops : list loop_pc) : world :=
  mkWorld (w_link w) (w_open w) (w_used w) (w_answer w) (w_broken w) loops (w_pings w) (w_caller w).
Definition with_pings (w : world) (pings : list bool) : world :=
  mkWorld (w_link w) (w_open w) (w_used w) (w_answer w) (w_broken w) (w_loops w) pings (w_caller w).
Definition set_caller (w : world) (caller : option nat) : world :=
  mkWorld (w_link w) (w_open w) (w_used w) (w_answer w) (w_broken w) (w_loops w) (w_pings w) caller.
Definition at_loop (w : world) (i : nat) (pc : loop_pc) : world := with_loops w (<[i := pc]> (w_loops w)).
Definition close_conn (w : world) (c : nat) : world :=
  mkWorld (w_link w) (w_open w ∖ {[c]}) (w_used w) (w_answer w) (w_broken w) (w_loops w) (w_pings w) (w_caller w).
Definition open_conn (w : world) (c : nat) : world :=
  mkWorld (mkLink (Some c) (ln_relayAddress (w_link w)) (connected w)) ({[c]} ∪ w_open w) ({[c]} ∪ w_used w)
    (w_answer w) (w_broken w) (w_loops w) (w_pings w) (w_caller w).
(** a read took what had come on [c] *)
Definition took (w : world) (c : nat) : world :=
  mkWorld (w_link w) (w_open w) (w_used w) (w_answer w ∖ {[c]}) (w_broken w) (w_loops w) (w_pings w) (w_caller w).

(** a read on [c] blocks *)
Definition silent (w : world) (c : nat) : Prop := c ∈ w_open w ∧ (c ∉ w_answer w) ∧ (c ∉ w_broken w).
#[export] Instance silent_dec w c : Decision (silent w c).
Proof. unfold silent. apply _. Defined.

(** [receiveLoop] and the loop around it.  A header comes only over an open
    connection on which it has arrived; [loop_header] is also the handler of a frame
    without payload.  A read fails when its connection is closed, broken, or what
    came is no header of the protocol; so does a handshake, which goes on only once
    the relay has answered. *)
Inductive loop_step (w : world) (i : nat) : world → Prop :=
  | loop_stop : w_loops w !! i = Some LoopTop → connected w = false → loop_step w i (at_loop w i Returned)
  | loop_read c : w_loops w !! i = Some LoopTop → connected w = true → relayConn w = Some c → loop_step w i (at_loop w i (Reading c))
  | loop_header c : w_loops w !! i = Some (Reading c) → c ∈ w_open w → c ∈ w_answer w → loop_step w i (took (at_loop w i LoopTop) c)
  | loop_handle c c' : w_loops w !! i = Some (Reading c) → c ∈ w_open w → c ∈ w_answer w → relayConn w = Some c' →
      loop_step w i (took (at_loop w i (Payload c')) c)
  | loop_handled c : w_loops w !! i = Some (Payload c) → ¬ silent w c → loop_step w i (took (at_loop w i LoopTop) c)
  | loop_broken c : w_loops w !! i = Some (Reading c) → ¬ silent w c → loop_step w i (took (at_loop w i Returned) c)
  | loop_end : w_loops w !! i = Some Returned → connected w = false → loop_step w i (at_loop w i Ended)
  | loop_sleep : w_loops w !! i = Some Returned → connected w = true → loop_step w i (at_loop w i Sleeping)
  | loop_wake c : w_loops w !! i = Some Sleeping → relayConn w = Some c → loop_step w i (close_conn (at_loop w i Dialing) c)
  | loop_no_dial : w_loops w !! i = Some Dialing → loop_step w i (at_loop w i LoopTop)
  | loop_dial c : w_loops w !! i = Some Dialing → c ∉ w_used w → loop_step w i (open_conn (at_loop w i (Shaking c)) c)
  | loop_shaken c : w_loops w !! i = Some (Shaking c) → c ∈ w_open w → c ∈ w_answer w → loop_step w i (took (at_loop w i LoopTop) c)
  | loop_refused c : w_loops w !! i = Some (Shaking c) → ¬ silent w c → loop_step w i (close_conn (took (at_loop w i LoopTop) c) c).

(** a tick of [keepaliveLoop]; the result of the ping is only logged *)
Inductive ping_step (w : world) (j : nat) : world → Prop :=
  | ping_tick : w_pings w !! j = Some true → connected w = true → ping_step w j w
  | ping_end : w_pings w !! j = Some true → connected w = false → ping_step w j (with_pings w (<[j := false]> (w_pings w))).

Inductive goroutine_step (w w' : world) : Prop :=
  | step_loop i : loop_step w i w' → goroutine_step w w'
  | step_ping j : ping_step w j w' → goroutine_step w w'.

(** what the other sides do: bytes come, or a connection ends *)
Inductive relay_step (w : world) : world → Prop :=
  | relay_sends c : c ∈ w_used w →
      relay_step w (mkWorld (w_link w) (w_open w) (w_used w) ({[c]} ∪ w_answer w) (w_broken w) (w_loops w) (w_pings w) (w_caller w))
  | relay_breaks c : c ∈ w_used w →
      relay_step w (mkWorld (w_link w) (w_open w) (w_used w) (w_answer w) ({[c]} ∪ w_broken w) (w_loops w) (w_pings w) (w_caller w)).

(** ConnectToRelay in two steps, and Disconnect *)
Definition caller_connected (w : world) : world :=
  set_caller (with_pings (with_loops (with_link w (mkLink (relayConn w) (ln_relayAddress (w_link w)) true))
    (w_loops w ++ [LoopTop])) (w_pings w ++ [true])) None.
Definition disconnected (w : world) : world :=
  match relayConn w with
  | Some c => close_conn (with_link w (Client_Disconnect (w_link w) (Ok tt)).1) c
  | None => w
  end.
Inductive connect_step (w : world) : world → Prop :=
  | connect_dial c relayAddress : w_caller w = None → c ∉ w_used w →
      connect_step w (set_caller (open_conn (with_link w (mkLink (relayConn w) relayAddress (connected w))) c) (Some c))
  | connect_shaken c : w_caller w = Some c → c ∈ w_open w → c ∈ w_answer w → connect_step w (caller_connected (took w c))
  | connect_refused c : w_caller w = Some c → ¬ silent w c → connect_step w (close_conn (set_caller (took w c) None) c).

(** a run between calls of the application *)
Definition run_step (w w' : world) : Prop := goroutine_step w w' ∨ relay_step w w'.

Inductive client_step (w w' : world) : Prop :=
  | client_run : run_step w w' → client_step w w'
  | client_connect : connect_step w w' → client_step w w'
  | client_disconnect : w' = disconnected w → client_step w w'.

Definition new_client : world := mkWorld (mkLink None [] false) ∅ ∅ ∅ ∅ [] [] None.
Definition reachable : world → Prop := rtc client_step new_client.

(** an application that calls ConnectToRelay only when the loops of its last
    connection have ended *)
Inductive orderly_step (w w' : world) : Prop :=
  | orderly_run : run_step w w' → orderly_step w w'
  | orderly_connect : connect_step w w' → (w_caller w = None → ∀ pc, pc ∈ w_loops w → pc = Ended) → orderly_step w w'
  | orderly_disconnect : w' = disconnected w → orderly_step w w'.
Definition orderly : world → Prop := rtc orderly_step new_client.

(** ** Facts *)

(** the connection whose bytes a loop waits for *)
Definition waits_on (pc : loop_pc) : option nat :=
  match pc with Reading c | Payload c | Shaking c => Some c | _ => None end.

(** a client that has loops has a connection, and the caller's; connections were dialled *)
Record client_ok (w : world) : Prop := {
  ok_conn : w_loops w ≠ [] ∨ is_Some (w_caller w) → is_Some (relayConn w);
  ok_length : length (w_loops w) = length (w_pings w);
  ok_open : w_open w ⊆ w_used w;
  ok_relay : ∀ c, relayConn w = Some c → c ∈ w_used w;
  ok_waits : ∀ pc c, pc ∈ w_loops w → waits_on pc = Some c → c ∈ w_used w }.

Lemma insert_nil {A} (l : list A) i (x : A) : <[i := x]> l ≠ [] → l ≠ [].
Proof. by destruct l. Qed.
Lemma elem_of_insert {A} (l : list A) i (x y : A) : y ∈ <[i := x]> l → y = x ∨ y ∈ l.
Proof.
  intros [j Hj]%list_elem_of_lookup. apply list_lookup_insert_Some in Hj as [(-> & -> & _)|[_ Hj]]; [by left|].
  right. by eapply list_elem_of_lookup_2.
Qed.

Lemma disconnected_fields w : w_loops (disconnected w) = w_loops w ∧ w_pings (disconnected w) = w_pings w ∧
  w_used (disconnected w) = w_used w ∧ relayConn (disconnected w) = relayConn w ∧ w_caller (disconnected w) = w_caller w ∧
  w_open (disconnected w) ⊆ w_open w.
Proof.
  unfold disconnected. destruct (relayConn w) as [c|] eqn:Ec; [|done]. unfold relayConn, Client_Disconnect in *. cbn.
  rewrite Ec. split_and!; [done..|by apply subseteq_difference_l].
Qed.

(** a loop that moves to a place where it waits for nothing, or for a dialled connection *)
Lemma at_loop_ok w i pc pc0 : w_loops w !! i = Some pc0 → (∀ c, waits_on pc = Some c → c ∈ w_used w) → client_ok w → client_ok (at_loop w i pc).
Proof.
  intros Hi Hpc [Hc Hl Ho Hr Hw]. split; cbn; [|by rewrite length_insert|done..|].
  - intros [?%insert_nil|?]; apply Hc; auto.
  - intros pc' c [->|Hin]%elem_of_insert Hwait; [by apply Hpc|by eapply Hw].
Qed.
Lemma close_conn_ok w c : client_ok w → client_ok (close_conn w c).
Proof. intros [? ? ? ? ?]. split; cbn; try done. by apply subseteq_difference_l. Qed.
Lemma took_ok w c : client_ok w → client_ok (took w c).
Proof. intros [? ? ? ? ?]. by split. Qed.
Lemma open_conn_ok w c : client_ok w → client_ok (open_conn w c).
Proof.
  intros [Hc Hl Ho Hr Hw]. split; cbn.
  - intros _. by eexists.
  - done.
  - by apply union_mono_l.
  - intros ? [= <-]. set_solver.
  - intros pc c' Hin Hwait. apply elem_of_union_r. by eapply Hw.
Qed.
Lemma disconnected_ok w : client_ok w → client_ok (disconnected w).
Proof.
  destruct (disconnected_fields w) as (El & Ep & Eu & Er & Ec & Eo). intros [? ? ? ? ?].
  split; rewrite ?El, ?Ep, ?Eu, ?Er, ?Ec; try done. by etrans.
Qed.

Lemma loop_step_ok w i w' : loop_step w i w' → client_ok w → client_ok w'.
Proof.
  intros Hs Hok. pose proof (ok_relay w Hok) as Hrel.
  destruct Hs; repeat first [apply close_conn_ok|apply took_ok|(eapply at_loop_ok; [eassumption|naive_solver|])]; try done.
  assert (client_ok (open_conn w c)) as [? ? ? ? ?] by by apply open_conn_ok.
  apply (at_loop_ok (open_conn w c) i (Shaking c) Dialing); [done|intros ? [= <-]; cbn; set_solver|by apply open_conn_ok].
Qed.
Lemma connect_step_ok w w' : connect_step w w' → client_ok w → client_ok w'.
Proof.
  intros Hs Hok. destruct Hs as [c ra Hn Hc|c Hc _ _|c Hc _].
  - destruct (open_conn_ok w c Hok) as [? ? ? ? ?]. split; cbn in *; try done.
  - destruct Hok as [Hcn Hl Ho Hr Hw]. split; cbn; [|rewrite !length_app; cbn; lia|done|done|].
    + intros _. apply Hcn. right. by eexists.
    + intros pc c' [Hin| ->%list_elem_of_singleton]%elem_of_app Hwait; [by eapply Hw|done].
  - apply close_conn_ok. destruct Hok as [Hcn Hl Ho Hr Hw]. split; cbn; try done.
    intros [?|[? [=]]]. apply Hcn. by left.
Qed.
Lemma run_step_ok w w' : run_step w w' → client_ok w → client_ok w'.
Proof.
  intros [[i Hs|j Hs]|Hs]; [by apply (loop_step_ok w i)|..]; destruct Hs; intros [? ? ? ? ?]; split; cbn; rewrite ?length_insert; try done.
Qed.
Lemma client_step_ok w w' : client_step w w' → client_ok w → client_ok w'.
Proof. intros [?|?| ->]; [by apply run_step_ok|by apply connect_step_ok|apply disconnected_ok]. Qed.
Lemma reachable_ok w : reachable w → client_ok w.
Proof.
  intros Hr. apply (rtc_keeps client_step client_ok new_client w); [apply client_step_ok|done|].
  split; cbn; try done; [by intros [[]|[]]|by intros pc c ?%elem_of_nil].
Qed.

(** ** After Disconnect *)

(** how many steps a goroutine has left when the client is not connected *)
Definition loop_work (pc : loop_pc) : nat :=
  match pc with
  | Ended => 0 | Returned => 1 | LoopTop => 2 | Payload _ | Shaking _ => 3 | Reading _ | Dialing => 4 | Sleeping => 5
  end.
Definition work (w : world) : nat := sum_list (loop_work <$> w_loops w) + sum_list (Nat.b2n <$> w_pings w).

Lemma run_connected w w' : run_step w w' → connected w' = connected w.
Proof. by intros [[i []|j []]|[]]. Qed.

Lemma work_decreases w w' : goroutine_step w w' → connected w = false → (work w' < work w)%nat.
Proof.
  intros Hs Hw. unfold work.
  assert (∀ i pc pc', w_loops w !! i = Some pc → (loop_work pc' < loop_work pc)%nat →
    (sum_list (loop_work <$> <[i := pc']> (w_loops w)) + sum_list (Nat.b2n <$> w_pings w)
     < sum_list (loop_work <$> w_loops w) + sum_list (Nat.b2n <$> w_pings w))%nat) as Hdec.
  { intros i pc pc' Hi Hlt. pose proof (sum_insert_lt loop_work _ _ _ _ Hi Hlt). lia. }
  destruct Hs as [i Hl|j [|Hj]]; [destruct Hl| |]; cbn [at_loop close_conn open_conn took with_loops with_pings w_loops w_pings]; try congruence;
    try (by eapply Hdec; [eassumption|cbn; lia]).
  pose proof (sum_insert_lt Nat.b2n _ _ _ false Hj ltac:(cbn; lia)). lia.
Qed.

(** a step of a goroutine, after whatever the relays did *)
Definition turn (w w' : world) : Prop := ∃ w0, rtc relay_step w w0 ∧ goroutine_step w0 w'.

Lemma relay_run w w' : rtc relay_step w w' → connected w' = connected w ∧ work w' = work w.
Proof. induction 1 as [|w1 w2 w3 Hs _ [-> ->]]; [done|]. by destruct Hs. Qed.

(** every run of the goroutines ends, whatever the relays do in between *)
Lemma disconnected_terminates w : connected w = false → sn turn w.
Proof.
  apply (measure_sn _ (λ w, connected w = false) work). intros w1 w2 Hoff (w0 & [Hc Hw]%relay_run & Hs).
  rewrite (run_connected w0 w2) by by left. split; [congruence|]. rewrite <- Hw. apply work_decreases; [done|congruence].
Qed.

(** where no goroutine can move, what is left waits for another side *)
Definition ended_or_blocked (w : world) (pc : loop_pc) : Prop := pc = Ended ∨ ∃ c, waits_on pc = Some c ∧ silent w c.

Lemma stuck_goroutines w : client_ok w → connected w = false → nf goroutine_step w →
  (∀ pc, pc ∈ w_loops w → ended_or_blocked w pc) ∧ ∀ b, b ∈ w_pings w → b = false.
Proof.
  intros Hok Hw Hnf. split.
  - intros pc Hpc. apply list_elem_of_lookup in Hpc as [i Hi].
    assert (is_Some (relayConn w)) as [c Hc] by (apply (ok_conn _ Hok); left; by intros E; rewrite E in Hi).
    unfold ended_or_blocked. destruct (waits_on pc) as [c'|] eqn:Ew; [destruct (decide (silent w c')); [by right; exists c'|]|];
      (destruct pc; cbn in Ew; simplify_eq); try (by left); exfalso; apply Hnf; eexists; apply (step_loop _ _ i);
      [by apply loop_broken|by apply loop_handled|by apply loop_refused|by apply loop_stop|by apply loop_end|by eapply loop_wake|by apply loop_no_dial].
  - intros [] Hb; [|done]. apply list_elem_of_lookup in Hb as [j Hj]. exfalso. apply Hnf. eexists. apply (step_ping _ _ j).
    by apply ping_end.
Qed.

(** no loop is between closing its connection and having another *)
Definition quiet (pc : loop_pc) : Prop := match pc with Sleeping | Dialing => False | _ => True end.
(** the connections that loops wait for are closed *)
Definition waits_closed (w : world) : Prop := ∀ pc c, pc ∈ w_loops w → waits_on pc = Some c → c ∉ w_open w.

Lemma quiet_step w w' : run_step w w' → connected w = false → Forall quiet (w_loops w) →
  Forall quiet (w_loops w') ∧ w_open w' ⊆ w_open w ∧ w_link w' = w_link w ∧
  (∀ c, c ∈ w_open w → Shaking c ∉ w_loops w → c ∈ w_open w' ∧ Shaking c ∉ w_loops w') ∧
  (waits_closed w → waits_closed w').
Proof.
  intros [[i Hl|j []]|[]] Hw Hq; [|by split_and!..].
  assert (∀ pc, w_loops w !! i = Some pc → quiet pc) as Hi by (intros pc; by apply Forall_lookup_1).
  destruct Hl; try (by destruct (Hi _ ltac:(eassumption))); try congruence; cbn;
    (split_and!; [by apply Forall_insert|first [done|by apply subseteq_difference_l]|done| |]).
  all: try (intros k Hk Hno; split; [|by intros [?|?]%elem_of_insert]); try done.
  all: try (intros Hcl pc k [->|Hin]%elem_of_insert Hwait; [try done|try (by eapply Hcl)]).
  - match goal with H : w_loops w !! i = Some (Reading _), Hin : _ ∈ w_open w |- _ =>
      by destruct (Hcl _ _ (list_elem_of_lookup_2 _ _ _ H) eq_refl) end.
  - apply elem_of_difference. split; [done|]. intros ->%elem_of_singleton. apply Hno. by eapply list_elem_of_lookup_2.
  - intros [Hk _]%elem_of_difference. by apply (Hcl pc k Hin Hwait).
Qed.
Lemma quiet_run w w' : rtc run_step w w' → connected w = false → Forall quiet (w_loops w) →
  w_open w' ⊆ w_open w ∧ w_link w' = w_link w ∧ (∀ c, c ∈ w_open w → Shaking c ∉ w_loops w → c ∈ w_open w') ∧
  (waits_closed w → waits_closed w').
Proof.
  induction 1 as [|w1 w2 w3 Hs _ IH]; [done|]. intros Hw Hq. destruct (quiet_step w1 w2 Hs Hw Hq) as (Hq2 & Ho & Hl & Hkeep & Hcl).
  destruct IH as (Ho' & Hl' & Hkeep' & Hcl'); [by rewrite (run_connected _ _ Hs)|done|]. split_and!; [by etrans|congruence| |auto].
  intros c Hc Hno. destruct (Hkeep c Hc Hno). auto.
Qed.

Lemma disconnected_off w c : relayConn w = Some c → connected (disconnected w) = false ∧ c ∉ w_open (disconnected w).
Proof.
  intros Hc. unfold disconnected. rewrite Hc. unfold connected, Client_Disconnect, relayConn in *. cbn. rewrite Hc.
  split; [done|]. rewrite elem_of_difference, elem_of_singleton. by intros [_ []].
Qed.

(** *** An application that waits for its loops *)

(** at most one loop is left, it waits for nothing but the client's connection,
    and none is left while the caller is in its handshake *)
Record orderly_ok (w : world) : Prop := {
  oo_one : ∀ i j pc pc', w_loops w !! i = Some pc → w_loops w !! j = Some pc' → pc ≠ Ended → pc' ≠ Ended → i = j;
  oo_caller : is_Some (w_caller w) → ∀ pc, pc ∈ w_loops w → pc = Ended;
  oo_waits : ∀ pc c, pc ∈ w_loops w → waits_on pc = Some c → relayConn w = Some c }.

Lemma orderly_move w w' i pc0 pc : w_loops w !! i = Some pc0 → pc0 ≠ Ended → w_loops w' = <[i := pc]> (w_loops w) →
  w_caller w' = w_caller w → (∀ c, waits_on pc = Some c → relayConn w' = Some c) → orderly_ok w → orderly_ok w'.
Proof.
  intros Hi Hne El Ec Hpc [Hone Hcall Hw]. split; rewrite El.
  - assert (∀ j pc', <[i := pc]> (w_loops w) !! j = Some pc' → pc' ≠ Ended → j = i) as Hlive.
    { intros j pc' Hj Hne'. apply list_lookup_insert_Some in Hj as [(-> & _ & _)|[_ Hj]]; [done|]. by eapply (Hone j i). }
    intros j k pc1 pc2 Hj Hk Hn1 Hn2. by rewrite (Hlive j pc1 Hj Hn1), (Hlive k pc2 Hk Hn2).
  - rewrite Ec. intros Hs. destruct Hne. apply (Hcall Hs). by eapply list_elem_of_lookup_2.
  - intros pc' c [j Hj]%list_elem_of_lookup Hwait. apply list_lookup_insert_Some in Hj as [(_ & <- & _)|[Hij Hj]]; [by apply Hpc|].
    destruct Hij. symmetry. apply (Hone j i pc' pc0 Hj Hi); [by intros ->|done].
Qed.

Lemma orderly_same w w' : w_loops w' = w_loops w → w_caller w' = w_caller w → relayConn w' = relayConn w → orderly_ok w → orderly_ok w'.
Proof. intros El Ec Er [? ? ?]. split; rewrite ?El, ?Ec, ?Er; done. Qed.

Lemma loops_all_ended w : (∀ pc, pc ∈ w_loops w → pc = Ended) → ∀ i pc, w_loops w !! i = Some pc → pc = Ended.
Proof. intros Hall i pc Hi. apply Hall. by eapply list_elem_of_lookup_2. Qed.

Lemma orderly_step_ok w w' : orderly_step w w' → orderly_ok w → orderly_ok w'.
Proof.
  intros [[[i Hl|j Hp]|Hr]|Hc Hguard| ->] Hok.
  - pose proof (oo_waits w Hok) as Hw.
    destruct Hl; (eapply (orderly_move w); [eassumption|discriminate|reflexivity|done| |done]); cbn; try done; by intros ? [= <-].
  - destruct Hp; by apply (orderly_same w).
  - destruct Hr; by apply (orderly_same w).
  - destruct Hc as [c ra Hn Hc|c Hc _ _|c Hc _].
    + specialize (Hguard Hn). split; cbn; [|done|by intros pc c' ->%Hguard].
      intros i j pc pc' Hi _ Hne. by apply (loops_all_ended w Hguard) in Hi.
    + assert (∀ pc, pc ∈ w_loops w → pc = Ended) as Hend by (apply (oo_caller w Hok); by eexists). split; cbn; [|by intros [? [=]]|].
      * assert (∀ i pc, (w_loops w ++ [LoopTop]) !! i = Some pc → pc ≠ Ended → i = length (w_loops w)) as Hlast.
        { intros i pc [Hi|[Hi Hlk]]%lookup_app_Some Hne; [by apply (loops_all_ended w Hend) in Hi|].
          apply list_lookup_singleton_Some in Hlk as [? _]. lia. }
        intros i j pc pc' Hi Hj Hn1 Hn2. by rewrite (Hlast i pc Hi Hn1), (Hlast j pc' Hj Hn2).
      * by intros pc c' [->%Hend| ->%list_elem_of_singleton]%elem_of_app.
    + destruct Hok as [Hone _ Hw]. split; cbn; [done|by intros [? [=]]|done].
  - destruct (disconnected_fields w) as (? & _ & _ & ? & ? & _). by apply (orderly_same w).
Qed.
Lemma orderly_reachable w : orderly w → orderly_ok w ∧ reachable w.
Proof.
  intros Hr. split.
  - apply (rtc_keeps orderly_step orderly_ok new_client w); [apply orderly_step_ok|done|].
    split; cbn; [done|by intros [? [=]]|by intros pc c ?%elem_of_nil].
  - eapply rtc_subrel; [|exact Hr]. intros w1 w2 [?|? _| ->]; [by apply client_run|by apply client_connect|by apply client_disconnect].
Qed.

(** C34: Disconnecting ends the goroutines.  After Disconnect, whatever the client did
    before and until it connects again, every run of its goroutines ends, whatever its relays send or break in
    between.  Where none of them can move, no keepalive loop is left, and every
    receiving loop has ended or waits for bytes on a silent connection that nobody
    closed.  When no loop was reconnecting, the connection of the client is closed and
    stays closed, and no other is opened; and when the application calls
    ConnectToRelay only after the loops of its last connection have ended, no
    receiving loop is left either. *)
Theorem disconnect_ends (w : world) :
  reachable w → is_Some (relayConn w) →
  sn turn (disconnected w) ∧
  ∀ w', rtc run_step (disconnected w) w' →
    (nf goroutine_step w' → (∀ b, b ∈ w_pings w' → b = false) ∧ ∀ pc, pc ∈ w_loops w' → ended_or_blocked w' pc) ∧
    (Forall quiet (w_loops w) →
       relayConn w' = relayConn w ∧ w_open w' ⊆ w_open w ∧ (∀ c, relayConn w' = Some c → c ∉ w_open w') ∧
       (orderly w → nf goroutine_step w' → ∀ pc, pc ∈ w_loops w' → pc = Ended)).
Proof.
  intros Hr [c Hc]. pose proof (reachable_ok w Hr) as Hok. destruct (disconnected_off w c Hc) as [Hoff Hshut].
  destruct (disconnected_fields w) as (Hl & _ & _ & Hrel & _ & Hopen).
  split; [by apply disconnected_terminates|]. intros w' Hrun.
  assert (client_ok w' ∧ connected w' = false) as [Hok' Hoff'].
  { apply (rtc_keeps run_step (λ w, client_ok w ∧ connected w = false) _ _) in Hrun; [done| |split; [by apply disconnected_ok|done]].
    intros w1 w2 Hs [Hok1 Hoff1]. split; [by apply (run_step_ok w1)|by rewrite (run_connected _ _ Hs)]. }
  split; [intros Hnf; by destruct (stuck_goroutines w' Hok' Hoff' Hnf)|]. intros Hq.
  destruct (quiet_run _ _ Hrun Hoff) as (Ho & Hlink & _ & Hcl); [by rewrite Hl|].
  assert (relayConn w' = Some c) as Hc' by (unfold relayConn in *; congruence). split_and!; [congruence|by etrans| |].
  - rewrite Hc'. intros ? [= <-]. set_solver.
  - intros [Hord _]%orderly_reachable Hnf pc Hpc. destruct (stuck_goroutines w' Hok' Hoff' Hnf) as [Hends _].
    destruct (Hends pc Hpc) as [|(k & Hk & Hsilent & _)]; [done|]. exfalso. revert Hsilent. apply (Hcl) with pc; [|done..].
    intros pc' k' Hin Hwait. rewrite Hl in Hin. pose proof (oo_waits w Hord pc' k' Hin Hwait) as E. rewrite Hc in E. by injection E as <-.
Qed.

Lemma at_loop_lookup w i pc pc0 : w_loops w !! i = Some pc0 → w_loops (at_loop w i pc) !! i = Some pc.
Proof. intros Hi. apply list_lookup_insert_eq. by apply lookup_lt_Some in Hi. Qed.
Lemma at_loop_ne w i j pc : i ≠ j → w_loops (at_loop w i pc) !! j = w_loops w !! j.
Proof. apply list_lookup_insert_ne. Qed.

(** A Disconnect during a reconnection is undone.  When a loop sleeps before its next
    attempt, Disconnect does not keep it from dialling: the client can end up with a
    new, open connection, on which it is introduced to the relay, which none of its
    goroutines reads or closes any more, and it is not connected. *)
Theorem disconnect_undone (w : world) (i : nat) :
  reachable w → w_loops w !! i = Some Sleeping → (∀ j pc, w_loops w !! j = Some pc → j ≠ i → quiet pc) →
  ∃ w1 c, rtc run_step (disconnected w) w1 ∧ (c ∉ w_used w) ∧
    ∀ w', rtc run_step w1 w' → connected w' = false ∧ relayConn w' = Some c ∧ c ∈ w_open w'.
Proof.
  intros Hr Hi Hothers. pose proof (reachable_ok w Hr) as Hok. destruct (disconnected_fields w) as (Hl & _ & Hu & Hc & _).
  assert (w_loops w ≠ []) as Hne by (by intros E; rewrite E in Hi). destruct (ok_conn w Hok (or_introl Hne)) as [c0 Hc0].
  destruct (disconnected_off w c0 Hc0) as [Hoff _].
  set (c := fresh (w_used w)). assert (c ∉ w_used w) as Hfresh by apply is_fresh.
  set (w2 := close_conn (at_loop (disconnected w) i Dialing) c0). set (w3 := open_conn (at_loop w2 i (Shaking c)) c).
  rewrite <- Hl in Hi. assert (w_loops w2 !! i = Some Dialing) as Hi2 by by eapply at_loop_lookup.
  assert (w_loops w3 !! i = Some (Shaking c)) as Hi3 by by eapply at_loop_lookup.
  assert (∃ w4, relay_step w3 w4 ∧ w_loops w4 = w_loops w3 ∧ w_open w4 = w_open w3 ∧ w_link w4 = w_link w3 ∧ c ∈ w_answer w4)
    as (w4 & Hsend & Hl4 & Ho4 & Hk4 & Ha4).
  { eexists. split; [apply (relay_sends w3 c); cbn; apply elem_of_union_l, elem_of_singleton_2; done|].
    cbn. split_and!; [done..|]. apply elem_of_union_l, elem_of_singleton_2; done. }
  rewrite <- Hl4 in Hi3. exists (took (at_loop w4 i LoopTop) c), c. split_and!; [|done|].
  - eapply rtc_l; [left; apply (step_loop _ w2 i); apply loop_wake; [done|by rewrite Hc]|].
    eapply rtc_l; [left; apply (step_loop _ w3 i); apply loop_dial; [done|by cbn; rewrite Hu]|].
    eapply rtc_l; [right; exact Hsend|].
    apply rtc_once. left. apply (step_loop _ _ i). apply loop_shaken; [done| |done]. rewrite Ho4. cbn. set_solver.
  - intros w' Hrun. assert (∀ j pc, w_loops (at_loop w4 i LoopTop) !! j = Some pc → pc = LoopTop ∨ (pc ∈ w_loops w ∧ quiet pc)) as Hloops.
    { intros j pc Hj. destruct (decide (j = i)) as [->|Hji].
      - rewrite (at_loop_lookup w4 i LoopTop (Shaking c)) in Hj by done. injection Hj as <-. by left.
      - rewrite at_loop_ne, Hl4 in Hj by done. cbn in Hj. rewrite !list_lookup_insert_ne in Hj by done. rewrite Hl in Hj.
        right. split; [by eapply list_elem_of_lookup_2|by eapply Hothers]. }
    assert (connected w4 = false) as Hoff4 by (unfold connected; by rewrite Hk4).
    assert (connected w' = connected w4) as Hoff'.
    { apply (rtc_keeps run_step (λ v, connected v = connected w4) _ _) in Hrun; [done| |done].
      intros w5 w6 Hs. by rewrite (run_connected _ _ Hs). }
    destruct (quiet_run _ _ Hrun) as (_ & Hlink & Hkeep & _).
    + exact Hoff4.
    + apply Forall_lookup_2. intros j pc Hj. by destruct (Hloops j pc Hj) as [->|[_ ?]].
    + split_and!; [congruence|unfold relayConn; rewrite Hlink; cbn; by rewrite Hk4|]. apply Hkeep.
      * cbn. rewrite Ho4. cbn. set_solver.
      * intros [j Hj]%list_elem_of_lookup. apply Hloops in Hj as [|[Hin _]]; [done|]. by apply Hfresh, (ok_waits w Hok (Shaking c)).
Qed.

(** ** Connecting again *)

Definition no_disconnect (w w' : world) : Prop := run_step w w' ∨ connect_step w w'.

Lemma connected_stays w w' : no_disconnect w w' → connected w = true →
  connected w' = true ∧ (∀ i pc, w_loops w !! i = Some pc → pc ≠ Ended → ∃ pc', w_loops w' !! i = Some pc' ∧ pc' ≠ Ended) ∧
  (∀ j, w_pings w !! j = Some true → w_pings w' !! j = Some true).
Proof.
  intros [Hs|Hs] Hw; [split; [by rewrite (run_connected _ _ Hs)|]; destruct Hs as [[i Hl|j Hp]|Hr]|destruct Hs].
  - assert (∀ pc', pc' ≠ Ended → ∀ k pc, w_loops w !! k = Some pc → pc ≠ Ended →
      ∃ pc'', w_loops (at_loop w i pc') !! k = Some pc'' ∧ pc'' ≠ Ended) as Hat.
    { intros pc' Hne k pc Hk Hpc. destruct (decide (i = k)) as [->|]; [exists pc'; split; [by eapply at_loop_lookup|done]|].
      exists pc. split; [by rewrite at_loop_ne|done]. }
    destruct Hl; try congruence; (split; [apply Hat; discriminate|done]).
  - destruct Hp; [|congruence]. split; [intros i pc Hi Hpc; by exists pc|done].
  - destruct Hr; (split; [intros i pc Hi Hpc; by exists pc|done]).
  - split; [done|]. split; [intros i pc Hi Hpc; by exists pc|done].
  - split_and!; [done|intros i pc Hi Hpc; exists pc; split; [by apply lookup_app_l_Some|done]|intros j Hj; by apply lookup_app_l_Some].
  - split; [done|]. split; [intros i pc Hi Hpc; by exists pc|done].
Qed.

Lemma connected_stays_run w w' : rtc no_disconnect w w' → connected w = true →
  (∀ i pc, w_loops w !! i = Some pc → pc ≠ Ended → ∃ pc', w_loops w' !! i = Some pc' ∧ pc' ≠ Ended) ∧
  (∀ j, w_pings w !! j = Some true → w_pings w' !! j = Some true).
Proof.
  induction 1 as [w|w1 w2 w' Hs _ IH]; intros Hon; [split; [intros i pc ? ?; by exists pc|done]|].
  destruct (connected_stays _ _ Hs Hon) as (Hon2 & Hl & Hp). destruct (IH Hon2) as [Hl' Hp']. split; [|auto].
  intros i pc Hi Hpc. destruct (Hl i pc Hi Hpc) as (pc2 & Hi2 & Hpc2). by apply (Hl' i pc2).
Qed.

(** Connecting again too early leaves two receiving loops.  When the caller connects
    again after Disconnect before the old loop has noticed, both loops and both
    keepalive loops run on, whatever happens, as long as nobody disconnects; and the
    old loop can close the new connection while the new loop reads from it. *)
Theorem second_connect_two_loops (w : world) (i c' : nat) (c : nat) (relayAddress : gostring) :
  reachable w → w_loops w !! i = Some (Reading c) → relayConn w = Some c → w_pings w !! i = Some true → w_caller w = None →
  c' ∉ w_used w →
  let j := length (w_loops w) in
  ∃ w1 w2 w3, connect_step (disconnected w) w1 ∧ relay_step w1 w2 ∧ connect_step w2 w3 ∧
    (∀ w', rtc no_disconnect w3 w' →
       (∃ pc, w_loops w' !! i = Some pc ∧ pc ≠ Ended) ∧ (∃ pc, w_loops w' !! j = Some pc ∧ pc ≠ Ended) ∧
       w_pings w' !! i = Some true ∧ w_pings w' !! j = Some true) ∧
    ∃ w', rtc goroutine_step w3 w' ∧ w_loops w' !! j = Some (Reading c') ∧ relayConn w' = Some c' ∧ c' ∉ w_open w'.
Proof.
  intros Hr Hi Hrel Hp Hcaller Hfresh j. pose proof (reachable_ok w Hr) as Hok. pose proof (ok_length w Hok) as Hlen.
  destruct (disconnected_fields w) as (Hl & Hpd & Hu & Hc & Hcd & Hopen). destruct (disconnected_off w c Hrel) as [_ Hshut].
  assert (c ≠ c') as Hcc by (intros ->; by apply Hfresh, (ok_relay w Hok)).
  eexists _, _, _. split; [|split; [|split; [|split]]].
  - apply (connect_dial _ c' relayAddress); [by rewrite Hcd|by rewrite Hu].
  - apply (relay_sends _ c'). cbn. apply elem_of_union_l, elem_of_singleton_2; done.
  - apply (connect_shaken _ c'); [done|cbn; apply elem_of_union_l, elem_of_singleton_2; done..].
  - intros w' Hrun. destruct (connected_stays_run _ _ Hrun eq_refl) as [Hls Hps]. cbn in Hls, Hps. rewrite Hl in Hls. rewrite Hpd in Hps.
    split_and!; [apply (Hls i (Reading c)); [by apply lookup_app_l_Some|done]|apply (Hls j LoopTop); [|done]|by apply Hps, lookup_app_l_Some|apply Hps].
    + by rewrite lookup_app_r, Nat.sub_diag by done.
    + rewrite lookup_app_r by (unfold j; lia). unfold j. by rewrite Hlen, Nat.sub_diag.
  - set (w3 := caller_connected _).
    assert (w_loops w3 !! i = Some (Reading c)) as Hi3 by (cbn; rewrite Hl; by apply lookup_app_l_Some).
    assert (w_loops w3 !! j = Some LoopTop) as Hj3 by (cbn; rewrite Hl, lookup_app_r, Nat.sub_diag; done).
    assert (c ∉ w_open w3) as Ho3 by (cbn; set_solver).
    assert (relayConn w3 = Some c') as Hc3 by done. assert (connected w3 = true) as Hon by done. clearbody w3.
    assert (i ≠ j) as Hij by (intros ->; congruence).
    set (w4 := at_loop w3 j (Reading c')). set (w5 := took (at_loop w4 i Returned) c). set (w6 := at_loop w5 i Sleeping).
    assert (w_loops w4 !! i = Some (Reading c)) as Hi4 by (unfold w4; by rewrite at_loop_ne).
    assert (w_loops w5 !! i = Some Returned) as Hi5 by by eapply at_loop_lookup.
    assert (w_loops w6 !! i = Some Sleeping) as Hi6 by by eapply at_loop_lookup.
    exists (close_conn (at_loop w6 i Dialing) c'). split_and!.
    + eapply rtc_l; [apply (step_loop _ w4 j); by apply loop_read|].
      eapply rtc_l; [apply (step_loop _ w5 i); apply loop_broken; [done|by intros [? _]]|].
      eapply rtc_l; [apply (step_loop _ w6 i); by apply loop_sleep|]. apply rtc_once. apply (step_loop _ _ i). by apply loop_wake.
    + unfold close_conn, w6, w5, took. cbn [w_loops]. rewrite !at_loop_ne by done. cbn [w_loops]. by rewrite at_loop_ne; [eapply at_loop_lookup|].
    + done.
    + cbn. intros [_ Hn]%elem_of_difference. by apply Hn, elem_of_singleton_2.
Qed.

(** a blocked loop stays blocked as long as no loop closes its connection *)
Lemma blocked_step w w' i c : goroutine_step w w' → connected w = false → Forall quiet (w_loops w) →
  w_loops w !! i = Some (Reading c) → silent w c → w_loops w' !! i = Some (Reading c) ∧ silent w' c.
Proof.
  intros [j Hl|j []] Hoff Hq Hi Hs; [|done..]. pose proof Hs as (Ho & Ha & Hb).
  assert (∀ pc, w_loops w !! j = Some pc → pc ≠ Reading c → ∀ pc', <[j := pc']> (w_loops w) !! i = Some (Reading c)) as Hother.
  { intros pc Hj Hne pc'. rewrite list_lookup_insert_ne; [done|]. intros ->. congruence. }
  assert (∀ pc, w_loops w !! j = Some pc → quiet pc) as Hquiet by (intros pc; by apply Forall_lookup_1).
  destruct Hl as [Hj|k Hj ?|k Hj ? Hk|k k' Hj ? Hk|k Hj Hk|k Hj Hk|Hj|Hj|k Hj|Hj|k Hj|k Hj ? Hk|k Hj Hk];
    try congruence; try (by destruct (Hquiet _ Hj)); unfold silent; cbn;
    (split; [eapply Hother; [exact Hj|congruence]|]); set_solver.
Qed.

(** Connecting twice leaves the first loop blocked.  A loop that reads from a
    connection which is not the client's any more is not reached by Disconnect, which
    closes only the last: however the goroutines go on, it waits for that relay. *)
Theorem disconnect_misses_first (w : world) (i c : nat) :
  reachable w → w_loops w !! i = Some (Reading c) → relayConn w ≠ Some c → silent w c → Forall quiet (w_loops w) →
  ∀ w', rtc goroutine_step (disconnected w) w' → w_loops w' !! i = Some (Reading c) ∧ silent w' c.
Proof.
  intros Hr Hi Hc Hsilent Hq w' Hrun. pose proof (reachable_ok w Hr) as Hok.
  assert (∃ c1, relayConn w = Some c1) as [c1 Hc1] by (apply (ok_conn w Hok); left; by intros E; rewrite E in Hi).
  destruct (disconnected_off w c1 Hc1) as [Hoff _]. destruct (disconnected_fields w) as (Hl & _).
  assert (silent (disconnected w) c) as Hs.
  { unfold disconnected. rewrite Hc1. destruct Hsilent as (? & ? & ?). split_and!; cbn; [|done..].
    apply elem_of_difference. split; [done|]. rewrite elem_of_singleton. congruence. }
  rewrite <- Hl in Hi, Hq. clear -Hi Hq Hs Hoff Hrun.
  induction Hrun as [w1|w1 w2 w' Hstep _ IH]; [done|].
  destruct (quiet_step w1 w2 (or_introl Hstep) Hoff Hq) as (Hq2 & _).
  assert (w_loops w2 !! i = Some (Reading c) ∧ silent w2 c) as [Hi2 Hs2].
  { by apply (blocked_step w1). }
  apply IH; [done|done|by rewrite (run_connected w1 w2 (or_introl Hstep))|done].
Qed.

(** ** Witnesses *)

Module ClientRunDemo.
(** connected over connection 0; its loop reads; the connection breaks *)
Definition dialled (answer : gset nat) : world :=
  mkWorld (mkLink (Some 0%nat) [] false) {[0%nat]} {[0%nat]} answer ∅ [] [] (Some 0%nat).
Definition joined (broken : gset nat) (pc : loop_pc) : world :=
  mkWorld (mkLink (Some 0%nat) [] true) {[0%nat]} {[0%nat]} ∅ broken [pc] [true] None.
(** then connected again, over connection 1, without a Disconnect *)
Definition redialled (answer : gset nat) : world :=
  mkWorld (mkLink (Some 1%nat) [] true) {[1%nat; 0%nat]} {[1%nat; 0%nat]} answer ∅ [Reading 0%nat] [true] (Some 1%nat).
Definition rejoined : world :=
  mkWorld (mkLink (Some 1%nat) [] true) {[1%nat; 0%nat]} {[1%nat; 0%nat]} ∅ ∅ [Reading 0%nat; LoopTop] [true; true] None.

(** a step to a world that computes to another *)
Lemma step_to (P : world → Prop) w1 w2 : P w1 → w1 = w2 → P w2.
Proof. by intros ? <-. Qed.
Tactic Notation "compute_step" tactic3(t) :=
  match goal with |- ?P ?w => eapply (step_to P _ w); [t|vm_compute; reflexivity] end.
Ltac compute_in := by apply (bool_decide_unpack _).

Lemma dialled_orderly : orderly (dialled {[0%nat]}).
Proof.
  apply (rtc_l _ _ (dialled ∅)).
  - apply orderly_connect; [|by intros _ pc ?%elem_of_nil]. compute_step (apply (connect_dial new_client 0%nat []); [done|compute_in]).
  - apply rtc_once, orderly_run. right. compute_step (apply (relay_sends (dialled ∅) 0%nat); compute_in).
Qed.
Lemma joined_orderly : orderly (joined ∅ LoopTop).
Proof.
  eapply rtc_r; [apply dialled_orderly|]. apply orderly_connect; [|done]. compute_step (apply (connect_shaken (dialled {[0%nat]}) 0%nat); [done|compute_in..]).
Qed.
Lemma reading_orderly : orderly (joined ∅ (Reading 0%nat)).
Proof.
  eapply rtc_r; [apply joined_orderly|]. apply orderly_run. left.
  apply (step_loop _ _ 0%nat). compute_step (apply (loop_read (joined ∅ LoopTop) 0%nat 0%nat); done).
Qed.
Lemma reading_reachable : reachable (joined ∅ (Reading 0%nat)).
Proof. apply orderly_reachable, reading_orderly. Qed.
Lemma sleeping_reachable : reachable (joined {[0%nat]} Sleeping).
Proof.
  eapply (rtc_r _ (joined {[0%nat]} Returned)); [eapply (rtc_r _ (joined {[0%nat]} (Reading 0%nat))); [eapply rtc_r; [apply reading_reachable|]|]|].
  - apply client_run. right. compute_step (apply (relay_breaks (joined ∅ (Reading 0%nat)) 0%nat); compute_in).
  - apply client_run. left. apply (step_loop _ _ 0%nat). compute_step (apply (loop_broken (joined {[0%nat]} (Reading 0%nat)) 0%nat 0%nat); [done|compute_in]).
  - apply client_run. left. apply (step_loop _ _ 0%nat). compute_step (apply (loop_sleep (joined {[0%nat]} Returned) 0%nat); done).
Qed.
Lemma rejoined_reachable : reachable rejoined.
Proof.
  eapply (rtc_r _ (redialled {[1%nat]})); [eapply (rtc_r _ (redialled ∅)); [eapply rtc_r; [apply reading_reachable|]|]|].
  - apply client_connect. compute_step (apply (connect_dial (joined ∅ (Reading 0%nat)) 1%nat []); [done|compute_in]).
  - apply client_run. right. compute_step (apply (relay_sends (redialled ∅) 1%nat); compute_in).
  - apply client_connect. compute_step (apply (connect_shaken (redialled {[1%nat]}) 1%nat); [done|compute_in..]).
Qed.
End ClientRunDemo.
Import ClientRunDemo.

Lemma disconnect_ends_witness :
  sn turn (disconnected (joined ∅ (Reading 0%nat))) ∧
  ∀ w', rtc run_step (disconnected (joined ∅ (Reading 0%nat))) w' → relayConn w' = Some 0%nat ∧ (0%nat ∉ w_open w') ∧
    (nf goroutine_step w' → ∀ pc, pc ∈ w_loops w' → pc = Ended).
Proof.
  destruct (disconnect_ends (joined ∅ (Reading 0%nat))) as [Hsn Hrun]; [apply reading_reachable|by eexists|].
  split; [exact Hsn|]. intros w' Hw'. destruct (Hrun w' Hw') as [_ Hq]. destruct Hq as (Hc & _ & Ho & He); [by repeat constructor|].
  split; [exact Hc|split; [by apply Ho|exact (He reading_orderly)]].
Defined.

Lemma disconnect_undone_witness :
  ∃ w1 c, rtc run_step (disconnected (joined {[0%nat]} Sleeping)) w1 ∧ connected w1 = false ∧ relayConn w1 = Some c ∧ c ∈ w_open w1.
Proof.
  destruct (disconnect_undone (joined {[0%nat]} Sleeping) 0) as (w1 & c & Hrun & _ & Hstays).
  - apply sleeping_reachable.
  - reflexivity.
  - intros [|j] pc Hj Hne; [by destruct Hne|discriminate Hj].
  - exists w1, c. split; [exact Hrun|]. apply Hstays, rtc_refl.
Defined.

Lemma second_connect_two_loops_witness :
  ∃ w3, (∀ w', rtc no_disconnect w3 w' → ∃ pc pc', w_loops w' !! 0%nat = Some pc ∧ w_loops w' !! 1%nat = Some pc' ∧ pc ≠ Ended ∧ pc' ≠ Ended) ∧
    ∃ w', rtc goroutine_step w3 w' ∧ w_loops w' !! 1%nat = Some (Reading 1%nat) ∧ (1%nat ∉ w_open w').
Proof.
  destruct (second_connect_two_loops (joined ∅ (Reading 0%nat)) 0 1 0 []) as (w1 & w2 & w3 & _ & _ & _ & Hlive & w' & Hrun & Hreads & _ & Hclosed).
  - apply reading_reachable.
  - reflexivity.
  - reflexivity.
  - reflexivity.
  - reflexivity.
  - apply (bool_decide_unpack _). reflexivity.
  - exists w3. split; [|exists w'; split; [exact Hrun|split; [exact Hreads|exact Hclosed]]].
    intros w4 Hw4. destruct (Hlive w4 Hw4) as ((pc & H1 & H2) & (pc' & H3 & H4) & _). by exists pc, pc'.
Defined.

Lemma disconnect_misses_first_witness :
  ∀ w', rtc goroutine_step (disconnected rejoined) w' → w_loops w' !! 0%nat = Some (Reading 0%nat).
Proof.
  intros w' Hrun. apply (disconnect_misses_first rejoined 0 0); [apply rejoined_reachable|reflexivity|discriminate| | |exact Hrun].
  - apply (bool_decide_unpack _). reflexivity.
  - by repeat constructor.
Defined.
