(* ===== verification/DhtStoreProofs.v ===== *)
(** * Properties of the DHT's stored values and signed entries *)

From S2P Require Import Prelude GoBytes Ed25519 NodeID DhtStore DhtSample.

(** ** storage.go *)

(** a value stored with a TTL is what [Get] returns until [now + ttl]
    inclusive and nothing after it; other keys are unaffected; and the
    periodic sweep deletes exactly the expired values, so that no [Get] at or
    after the sweep can tell it ran. *)
Theorem storage_lifetime (s : Storage) (key value publisher : list Z) (ttl now t : Z) :
  now ≤ t →
  Storage_Get (Storage_Store s key value ttl publisher now) key t
    = (if decide (t ≤ now + ttl) then Some value else None) ∧
  (∀ k, k ≠ key → Storage_Get (Storage_Store s key value ttl publisher now) k t
     = Storage_Get s k t) ∧
  (∀ k, Storage_Get (ExpireOldValues s now) k t = Storage_Get s k t) ∧
  (∀ k v, ExpireOldValues s now !! k = Some v ↔ s !! k = Some v ∧ now ≤ sv_ExpiresAt v) ∧
  (∀ k, Storage_Get (Storage_Delete s key) k t = if decide (k = key) then None else Storage_Get s k t).
Proof.
  intros Ht. unfold Storage_Get, Storage_Store, Storage_Delete. split_and!.
  - rewrite lookup_insert_eq. cbn. case_decide; [rewrite (proj2 (Z.ltb_ge _ _)); [done|lia]|].
    rewrite (proj2 (Z.ltb_lt _ _)); [done|lia].
  - intros k Hk. by rewrite lookup_insert_ne.
  - intros k. rewrite ExpireOldValues_lookup. destruct (s !! k) as [v|]; [cbn|done].
    destruct (Z.ltb_spec (sv_ExpiresAt v) now); [|done].
    by rewrite (proj2 (Z.ltb_lt _ _)) by lia.
  - intros k v. rewrite ExpireOldValues_lookup. destruct (s !! k) as [v'|]; cbn; [|by split; [|intros [? _]]].
    destruct (Z.ltb_spec (sv_ExpiresAt v') now); split; try done.
    + intros [[= ->] ?]. lia.
    + by intros [= ->].
    + by intros [[= ->] _].
  - intros k. case_decide; [subst; by rewrite lookup_delete_eq|by rewrite lookup_delete_ne].
Qed.

Lemma storage_lifetime_witness :
  Storage_Get (Storage_Store ∅ (id_of 1) [7] 10 (id_of 2) 100) (id_of 1) 110 = Some [7] ∧
  Storage_Get (Storage_Store ∅ (id_of 1) [7] 10 (id_of 2) 100) (id_of 1) 111 = None.
Proof.
  split; [|by vm_compute].
  destruct (storage_lifetime ∅ (id_of 1) [7] (id_of 2) 10 100 110 ltac:(lia)) as [H _]. exact H.
Defined.

(** ** signed_entry.go *)

Section signed_proofs.
Context `{Ed25519Laws} `{!Json SignedEntry} `{!JsonLaws SignedEntry SignedEntry_typed SignedEntry_typed}.

Lemma is_s64_s64 z : is_s64 (s64 z).
Proof. unfold is_s64, s64. pose proof (Z.mod_pos_bound (z + 2 ^ 63) (2 ^ 64)). lia. Qed.

Lemma SignEntry_ok (seed key value nonce : list Z) (ttl now : Z) :
  array 32 seed → is_id key → bytes value → bytes nonce → is_s64 (int64_of (Seconds ttl)) →
  ∃ e data, SignEntry key value (ed25519_key seed) ttl (Some nonce) now = Ok e ∧
    SignedEntry_Encode e = Ok data ∧ json_unmarshal data = Ok e ∧ bytes data ∧ authentic e ∧
    se_Key e = key ∧ se_Value e = value ∧ se_Timestamp e = Unix now ∧
    se_TTL e = int64_of (Seconds ttl).
Proof.
  intros Hseed Hk Hv Hn Httl.
  pose proof (ed25519_key_array seed Hseed) as Hpk. pose proof (array_len _ _ Hpk) as Hlen.
  set (k := ed25519_key seed) in *. set (secs := int64_of (Seconds ttl)) in *.
  set (m := signatureMessage (mkSignedEntry key value (drop 32 k) [] (Unix now) secs nonce)).
  set (e := mkSignedEntry key value (drop 32 k) (ed25519_Sign k m) (Unix now) secs nonce).
  exists e. pose proof (ed25519_sig_array k m) as Hsig.
  assert (SignedEntry_typed e) as Ht.
  { unfold SignedEntry_typed. cbn. split_and!; try done.
    - by apply bytes_drop, (array_bytes 64).
    - by eapply array_bytes.
    - apply is_s64_s64. }
  destruct (json_total e Ht) as (d & Hd & Hb). exists d. split_and!; try done.
  - unfold SignEntry, Sign. rewrite Hlen. done.
  - exact (json_round e d Ht Hd).
  - unfold authentic. cbn [e se_PublicKey se_Signature]. split_and!.
    + unfold len in *. rewrite length_drop. lia.
    + by rewrite (array_len _ _ Hsig).
    + by apply ed25519_correct.
Qed.

(** an entry that [SignEntry] makes with a generated key is accepted by
    every node up to its expiry second, and gives back the signed value;
    afterwards it is rejected as expired. *)
Theorem sign_then_verify (seed key value nonce : list Z) (ttl now later : Z) :
  array 32 seed → is_id key → bytes value → bytes nonce → is_s64 (int64_of (Seconds ttl)) →
  ∃ entry data,
    SignEntry key value (ed25519_key seed) ttl (Some nonce) now = Ok entry ∧
    SignedEntry_Encode entry = Ok data ∧
    VerifyAndExtract data later
    = if decide (Unix later ≤ Unix now +s64 int64_of (Seconds ttl)) then Ok value
      else Err "signature verification failed: entry expired".
Proof.
  intros Hseed Hk Hv Hn Httl.
  destruct (SignEntry_ok seed key value nonce ttl now Hseed Hk Hv Hn Httl)
    as (e & d & Hsign & Henc & Hun & _ & Ha & _ & Hval & Hts & Hl).
  exists e, d. split_and!; [done..|].
  assert (IsExpired e later = (Unix now +s64 int64_of (Seconds ttl) <? Unix later)) as Hx.
  { unfold IsExpired. by rewrite Hts, Hl. }
  case_decide as Hle.
  - apply VerifyAndExtract_ok. exists e. split_and!; [done..| |done].
    rewrite Hx. apply Z.ltb_ge. lia.
  - apply (VerifyAndExtract_expired d later e); [done..|]. rewrite Hx. apply Z.ltb_lt. lia.
Qed.

(** with nonces of one length and 32-byte public keys, the signed bytes
    determine every field: an accepted signature is for exactly this key,
    value, publisher, timestamp, TTL and nonce. *)
Theorem signature_binds_fields (e e' : SignedEntry) :
  SignedEntry_typed e → SignedEntry_typed e' → authentic e → authentic e' →
  length (se_Nonce e) = length (se_Nonce e') → signatureMessage e = signatureMessage e' →
  se_Key e = se_Key e' ∧ se_Value e = se_Value e' ∧ se_PublicKey e = se_PublicKey e' ∧
  se_Timestamp e = se_Timestamp e' ∧ se_TTL e = se_TTL e' ∧ se_Nonce e = se_Nonce e'.
Proof.
  intros Ht Ht' (Hp & _) (Hp' & _) Hn E. unfold signatureMessage in E.
  destruct Ht as ([Lk _] & _ & _ & _ & Hts & Httl & _),
    Ht' as ([Lk' _] & _ & _ & _ & Hts' & Httl' & _).
  change int64_bytes with (be_put 8) in E. unfold len in *.
  apply app_inj_1 in E as [Ek E]; [|congruence].
  pose proof (f_equal length E) as Lall. rewrite !length_app, !length_be_put in Lall.
  apply app_inj_1 in E as [Ev E]; [|lia]. apply app_inj_1 in E as [Ep E]; [|lia].
  apply app_inj_1 in E as [Et E]; [|by rewrite !length_be_put].
  apply app_inj_1 in E as [El En]; [|by rewrite !length_be_put].
  split_and!; try done.
  - rewrite <- (field_int_field (se_Timestamp e)), <- (field_int_field (se_Timestamp e')) by done.
    unfold field_int, int_field. by rewrite Et.
  - rewrite <- (field_int_field (se_TTL e)), <- (field_int_field (se_TTL e')) by done.
    unfold field_int, int_field. by rewrite El.
Qed.

(** Without that length the concatenation is ambiguous.  From any entry
    whose value contains its own public key, anyone can make a different
    entry, with a shorter value and the expiry fields that follow the
    embedded key, that the same signature authenticates. *)
Theorem signature_ambiguous (e : SignedEntry) (front pk back : list Z) (ts ttl : Z) :
  authentic e → pk = se_PublicKey e → is_s64 ts → is_s64 ttl →
  se_Value e = front ++ pk ++ int64_bytes ts ++ int64_bytes ttl ++ back →
  let forged := mkSignedEntry (se_Key e) front pk (se_Signature e) ts ttl
    (back ++ pk ++ int64_bytes (se_Timestamp e) ++ int64_bytes (se_TTL e) ++ se_Nonce e) in
  authentic forged ∧ se_Value forged ≠ se_Value e.
Proof.
  intros (Hp & Hs & Hv) -> Hts Httl E forged. split.
  - unfold authentic. cbn [forged se_PublicKey se_Signature]. split_and!; [done..|].
    rewrite <- Hv. f_equal. unfold signatureMessage. cbn. rewrite E. by rewrite <- !app_assoc.
  - cbn. rewrite E. intros E'. apply (f_equal length) in E'. rewrite !length_app in E'.
    unfold len in Hp. lia.
Qed.

End signed_proofs.

(** the expiry test at 64-bit width.  When [Timestamp + TTL] overflows, an
    entry meant to live longer counts as expired from the epoch on. *)
Theorem expiry_at_width (e : SignedEntry) (now : Z) :
  is_s64 (se_Timestamp e) → is_s64 (se_TTL e) → 0 ≤ now < 2 ^ 63 * Second →
  0 ≤ se_Timestamp e →
  IsExpired e now = true ↔
  se_Timestamp e + se_TTL e < now / Second ∨ 2 ^ 63 ≤ se_Timestamp e + se_TTL e.
Proof.
  unfold is_s64, IsExpired, Unix. intros Hts Httl Hnow Hpos.
  assert (0 ≤ now / Second < 2 ^ 63) as Hs.
  { split; [apply Z.div_pos; unfold Second; lia|]. apply Z.div_lt_upper_bound; unfold Second in *; lia. }
  rewrite (s64_id (now / Second)) by lia. rewrite Z.ltb_lt.
  destruct (decide (se_Timestamp e + se_TTL e < 2 ^ 63)).
  - rewrite s64_id by lia. lia.
  - unfold s64. rewrite <- (Z.mod_add _ (-1)) by lia. rewrite Z.mod_small by lia. lia.
Qed.

(** ** Witnesses *)

#[local] Existing Instances sample_crypto sample_crypto_laws sample_entry_json sample_entry_laws.

Definition ex_seed : list Z := replicate 32 5.
Definition ex_key : list Z := ed25519_key ex_seed.

Lemma sign_then_verify_witness :
  ∃ entry data, SignEntry (id_of 3) [1; 2] ex_key (3600 * Second) (Some [9]) (100 * Second) = Ok entry
    ∧ SignedEntry_Encode entry = Ok data
    ∧ VerifyAndExtract data (200 * Second) = Ok [1; 2].
Proof.
  destruct (sign_then_verify ex_seed (id_of 3) [1; 2] [9] (3600 * Second) (100 * Second) (200 * Second)
    ltac:(by_decision) ltac:(by_decision) ltac:(by_decision) ltac:(by_decision) ltac:(by_decision))
    as (entry & data & H1 & H2 & H3).
  exists entry, data. split_and!; [exact H1|exact H2|]. rewrite decide_True in H3 by (by vm_compute).
  exact H3.
Defined.

(** an entry whose value embeds the signer's public key *)
Definition ex_embedding : SignedEntry :=
  let e := mkSignedEntry (id_of 3) ([1] ++ ex_seed ++ int64_bytes 50 ++ int64_bytes 60 ++ [2])
             ex_seed [] 100 3600 [9] in
  match Sign e ex_key with Ok e' => e' | _ => e end.

Lemma ex_embedding_authentic : authentic ex_embedding ∧ SignedEntry_typed ex_embedding.
Proof. unfold authentic. split; [split_and!|]; by_decision. Qed.

Lemma signature_binds_fields_witness :
  se_Value ex_embedding = se_Value ex_embedding ∧ length (se_Nonce ex_embedding) = 1%nat.
Proof.
  destruct ex_embedding_authentic as [Ha Ht]. split; [|done].
  apply (signature_binds_fields ex_embedding ex_embedding Ht Ht Ha Ha eq_refl eq_refl).
Defined.

Lemma signature_ambiguous_witness :
  ∃ forged, authentic forged ∧ se_Signature forged = se_Signature ex_embedding ∧ se_Value forged = [1].
Proof.
  destruct (signature_ambiguous ex_embedding [1] ex_seed [2] 50 60 (proj1 ex_embedding_authentic)
    ltac:(by vm_compute) ltac:(by_decision) ltac:(by_decision) ltac:(by vm_compute)) as [H _].
  eexists. split_and!; [exact H|done|done].
Defined.

Lemma expiry_at_width_witness :
  IsExpired (mkSignedEntry [] [] [] [] 1700000000 (2 ^ 63 - 1) []) 0 = true.
Proof.
  apply (expiry_at_width (mkSignedEntry [] [] [] [] 1700000000 (2 ^ 63 - 1) []) 0);
    [by_decision..|unfold Second; lia|cbn; lia|cbn; lia].
Defined.
