(* ===== verification/DhtNode.v ===== *)
(** * The DHT node's request side: pkg/dht/rpc.go and pkg/dht/node.go

    A node is its identifier, routing table, stored values and keys; handlers
    are functions from the node and a request to the new node and the
    response.  [clk i] is the [i]-th clock reading of one request; [nil]
    pointers that JSON can produce are [None], and dereferencing one panics.
    The TCP listener, and the JSON stream on a connection, are the bytes
    received and sent. *)

From S2P Require Import Prelude GoBytes Ed25519 NodeID RoutingTable DhtStore.

(** ** rpc.go *)

Definition RPCPing : Z := 0x01.
Definition RPCPong : Z := 0x02.
Definition RPCStore : Z := 0x03.
Definition RPCStoreAck : Z := 0x04.
Definition RPCFindNode : Z := 0x05.
Definition RPCFindValue : Z := 0x06.
Definition RPCResponse : Z := 0x07.

Record RPCMessage := mkRPCMessage {
  rm_Type : Z; rm_RequestID : list Z; rm_Sender : option Contact; rm_Payload : list Z;
  rm_Timestamp : Z }.

Inductive PingRequest := mkPingRequest.
Inductive PongResponse := mkPongResponse.
Record StoreRequest := mkStoreRequest { sr_Key : list Z; sr_Value : list Z; sr_TTL : Z }.
Record StoreAckResponse := mkStoreAckResponse { sa_Success : bool; sa_Message : list Z }.
Record FindNodeRequest := mkFindNodeRequest { fn_Target : list Z }.
Record FindNodeResponse := mkFindNodeResponse { fn_Contacts : list (option Contact) }.
Record FindValueRequest := mkFindValueRequest { fv_Key : list Z }.
Record FindValueResponse := mkFindValueResponse {
  fv_Found : bool; fv_Value : list Z; fv_Contacts : list (option Contact) }.

(** What the values of these Go types satisfy.  [json_time] are the instants
    [time.Time.MarshalJSON] accepts. *)
Class JsonTime := json_time : Z → Prop.

Section typed.
Context `{JsonTime}.

Definition Contact_typed (c : Contact) : Prop :=
  is_id (c_ID c) ∧ bytes (c_Address c) ∧ json_time (c_LastSeen c) ∧ is_s64 (c_FailedPings c).
Definition pointer_typed (o : option Contact) : Prop :=
  match o with Some c => Contact_typed c | None => True end.
Definition RPCMessage_typed (m : RPCMessage) : Prop :=
  is_byte (rm_Type m) ∧ bytes (rm_RequestID m) ∧ pointer_typed (rm_Sender m) ∧
  bytes (rm_Payload m) ∧ is_s64 (rm_Timestamp m).
Definition StoreRequest_typed (r : StoreRequest) : Prop :=
  is_id (sr_Key r) ∧ bytes (sr_Value r) ∧ is_s64 (sr_TTL r).
Definition StoreAckResponse_typed (r : StoreAckResponse) : Prop := bytes (sa_Message r).
Definition FindNodeRequest_typed (r : FindNodeRequest) : Prop := is_id (fn_Target r).
Definition FindNodeResponse_typed (r : FindNodeResponse) : Prop :=
  Forall pointer_typed (fn_Contacts r).
Definition FindValueRequest_typed (r : FindValueRequest) : Prop := is_id (fv_Key r).
Definition FindValueResponse_typed (r : FindValueResponse) : Prop :=
  bytes (fv_Value r) ∧ Forall pointer_typed (fv_Contacts r).
End typed.

(** Strings survive a JSON round trip when they are valid UTF-8; ASCII is. *)
Definition ascii (l : list Z) : Prop := Forall (λ b, 0 ≤ b < 128) l.
Definition pointer_ascii (o : option Contact) : Prop :=
  match o with Some c => ascii (c_Address c) | None => True end.

(** the codecs of every type that crosses the wire *)
Class DhtJson := {
  json_time_ok :: JsonTime;
  json_entry :: Json SignedEntry;
  json_rpc :: Json RPCMessage;
  json_ping :: Json PingRequest;
  json_pong :: Json PongResponse;
  json_store :: Json StoreRequest;
  json_store_ack :: Json StoreAckResponse;
  json_find_node :: Json FindNodeRequest;
  json_find_node_resp :: Json FindNodeResponse;
  json_find_value :: Json FindValueRequest;
  json_find_value_resp :: Json FindValueResponse }.

Class DhtJsonLaws `{DhtJson} := {
  law_entry :: JsonLaws SignedEntry SignedEntry_typed SignedEntry_typed;
  law_rpc :: JsonLaws RPCMessage RPCMessage_typed
    (λ m, RPCMessage_typed m ∧ ascii (rm_RequestID m) ∧ pointer_ascii (rm_Sender m));
  law_ping :: JsonLaws PingRequest (λ _, True) (λ _, True);
  law_pong :: JsonLaws PongResponse (λ _, True) (λ _, True);
  law_store :: JsonLaws StoreRequest StoreRequest_typed StoreRequest_typed;
  law_store_ack :: JsonLaws StoreAckResponse StoreAckResponse_typed (λ r, ascii (sa_Message r));
  law_find_node :: JsonLaws FindNodeRequest FindNodeRequest_typed FindNodeRequest_typed;
  law_find_node_resp :: JsonLaws FindNodeResponse FindNodeResponse_typed
    (λ r, FindNodeResponse_typed r ∧ Forall pointer_ascii (fn_Contacts r));
  law_find_value :: JsonLaws FindValueRequest FindValueRequest_typed FindValueRequest_typed;
  law_find_value_resp :: JsonLaws FindValueResponse FindValueResponse_typed
    (λ r, FindValueResponse_typed r ∧ Forall pointer_ascii (fv_Contacts r)) }.

Definition randInt (now : Z) : Z := Z.rem (s64 now) 1000000.
Definition generateRequestID (now now' : Z) : list Z :=
  string_bytes (pretty (s64 now) +:+ "-" +:+ pretty (randInt now')).

Definition NewRPCMessage `{Json A} (msgType : Z) (sender : Contact) (payload : A) (clk : nat → Z)
  : outcome RPCMessage :=
  payloadBytes ← json_marshal payload;
  Ok (mkRPCMessage msgType (generateRequestID (clk 0%nat) (clk 1%nat)) (Some sender) payloadBytes
        (Unix (clk 2%nat))).

Definition ParsePayload `{Json A} (msg : RPCMessage) : outcome A := json_unmarshal (rm_Payload msg).

(** [rpcMsg, _ := NewRPCMessage(...); rpcMsg.RequestID = id]: an error leaves a
    nil pointer, whose assignment panics. *)
Definition reply_to (id : list Z) (o : outcome RPCMessage) : outcome RPCMessage :=
  match o with
  | Ok m => Ok (mkRPCMessage (rm_Type m) id (rm_Sender m) (rm_Payload m) (rm_Timestamp m))
  | _ => Panic
  end.

(** ** node.go *)

Record Node := mkNode {
  n_ID : list Z; n_Address : list Z; n_routingTable : RoutingTable; n_storage : Storage;
  n_running : bool; n_PrivateKey : list Z; n_PublicKey : list Z }.

Definition with_routing (n : Node) (rt : RoutingTable) : Node :=
  mkNode (n_ID n) (n_Address n) rt (n_storage n) (n_running n) (n_PrivateKey n) (n_PublicKey n).
Definition with_storage (n : Node) (s : Storage) : Node :=
  mkNode (n_ID n) (n_Address n) (n_routingTable n) s (n_running n) (n_PrivateKey n) (n_PublicKey n).

(** [rt.AddContact(c)] on the node's table; the result is dropped *)
Definition node_add (n : Node) (c : Contact) (now : Z) : outcome Node :=
  r ← AddContact (n_routingTable n) c now; Ok (with_routing n r.1).

Section handlers.
Context `{Ed25519} `{DhtJson}.

(** [rnd] are the 32 bytes key generation draws ([None]: it failed). *)
Definition NewNode (id address : list Z) (rnd : option (list Z)) : Node :=
  let privateKey := match rnd with Some seed => ed25519_key seed | None => [] end in
  mkNode id address (NewRoutingTable id) NewStorage false privateKey
    (match rnd with Some _ => drop 32 privateKey | None => [] end).

(** address: what [listener.Addr().String()] reports *)
Definition Start (n : Node) (listening : option (list Z)) : outcome Node :=
  match listening with
  | None => Err "failed to start DHT node: "
  | Some addr => Ok (mkNode (n_ID n) addr (n_routingTable n) (n_storage n) true
                       (n_PrivateKey n) (n_PublicKey n))
  end.
Definition Stop (n : Node) : Node :=
  if negb (n_running n) then n
  else mkNode (n_ID n) (n_Address n) (n_routingTable n) (n_storage n) false
         (n_PrivateKey n) (n_PublicKey n).

Definition handlePing (n : Node) (msg : RPCMessage) (sender : Contact) (clk : nat → Z)
  : outcome (Node * option RPCMessage) :=
  rpcMsg ← reply_to (rm_RequestID msg) (NewRPCMessage RPCPong sender mkPongResponse clk);
  Ok (n, Some rpcMsg).

Definition store_ack (msg : RPCMessage) (sender : Contact) (clk : nat → Z) (r : StoreAckResponse)
  : outcome RPCMessage :=
  reply_to (rm_RequestID msg) (NewRPCMessage RPCStoreAck sender r clk).

Definition handleStore (n : Node) (msg : RPCMessage) (sender : Contact) (clk : nat → Z)
  : outcome (Node * option RPCMessage) :=
  match ParsePayload (A := StoreRequest) msg with
  | Panic => Panic
  | Err _ => Ok (n, None)
  | Ok req =>
      match VerifyAndExtract (sr_Value req) (clk 3%nat) with
      | Panic => Panic
      | Err _ =>
          rpcMsg ← store_ack msg sender clk
            (mkStoreAckResponse false (string_bytes "signature verification failed"));
          Ok (n, Some rpcMsg)
      | Ok _ =>
          let ttl := duration_of_seconds (sr_TTL req) in
          match rm_Sender msg with
          | None => Panic
          | Some publisher =>
              let n' := with_storage n
                (Storage_Store (n_storage n) (sr_Key req) (sr_Value req) ttl (c_ID publisher)
                   (clk 4%nat)) in
              rpcMsg ← store_ack msg sender clk (mkStoreAckResponse true []);
              Ok (n', Some rpcMsg)
          end
      end
  end.

Definition handleFindNode (n : Node) (msg : RPCMessage) (sender : Contact) (clk : nat → Z)
  : outcome (Node * option RPCMessage) :=
  match ParsePayload (A := FindNodeRequest) msg with
  | Panic => Panic
  | Err _ => Ok (n, None)
  | Ok req =>
      contacts ← FindClosest (n_routingTable n) (fn_Target req) (Z.of_nat K);
      rpcMsg ← reply_to (rm_RequestID msg)
        (NewRPCMessage RPCResponse sender (mkFindNodeResponse (Some <$> contacts)) clk);
      Ok (n, Some rpcMsg)
  end.

Definition handleFindValue (n : Node) (msg : RPCMessage) (sender : Contact) (clk : nat → Z)
  : outcome (Node * option RPCMessage) :=
  match ParsePayload (A := FindValueRequest) msg with
  | Panic => Panic
  | Err _ => Ok (n, None)
  | Ok req =>
      response ← match Storage_Get (n_storage n) (fv_Key req) (clk 3%nat) with
        | Some value => Ok (mkFindValueResponse true value [])
        | None =>
            contacts ← FindClosest (n_routingTable n) (fv_Key req) (Z.of_nat K);
            Ok (mkFindValueResponse false [] (Some <$> contacts))
        end;
      rpcMsg ← reply_to (rm_RequestID msg) (NewRPCMessage RPCResponse sender response clk);
      Ok (n, Some rpcMsg)
  end.

Definition handleRPC (n : Node) (msg : RPCMessage) (clk : nat → Z)
  : outcome (Node * option RPCMessage) :=
  let sender := NewContact (n_ID n) (n_Address n) (clk 5%nat) in
  if rm_Type msg =? RPCPing then handlePing n msg sender clk
  else if rm_Type msg =? RPCStore then handleStore n msg sender clk
  else if rm_Type msg =? RPCFindNode then handleFindNode n msg sender clk
  else if rm_Type msg =? RPCFindValue then handleFindValue n msg sender clk
  else Ok (n, None).

(** The bytes read from the connection, and the bytes written to it ([None]:
    closed without an answer). *)
Definition handleConnection (n : Node) (data : list Z) (clk : nat → Z)
  : outcome (Node * option (list Z)) :=
  match json_unmarshal (A := RPCMessage) data with
  | Panic => Panic
  | Err _ => Ok (n, None)
  | Ok msg =>
      n1 ← match rm_Sender msg with
           | Some c => node_add n c (clk 6%nat)
           | None => Ok n
           end;
      '(n2, response) ← handleRPC n1 msg clk;
      match response with
      | None => Ok (n2, None)
      | Some r => match json_marshal r with
                  | Ok out => Ok (n2, Some out)
                  | Err _ => Ok (n2, None)
                  | Panic => Panic
                  end
      end
  end.

(** one tick of [expireRoutine] *)
Definition expire_tick (n : Node) (now : Z) : Node :=
  with_storage n (ExpireOldValues (n_storage n) now).

End handlers.
