(* ===== verification/DhtLookup.v ===== *)
(** * The DHT node's client side: pkg/dht/protocol.go

    The network is a parameter: [net q address data] is what comes back for
    the [q]-th request of an operation ([inl]: the error when dialling, sending
    or receiving fails).  [clk q i] are the clock readings around that request.
    [sort.Slice] is a parameter too, with its contract in [SortSliceLaws].

    A lookup round starts up to [Alpha] goroutines.  In [iterativeFindNode] a
    goroutine has two critical sections under one mutex, marking its contact
    as queried and merging the contacts it received; a round is run for an
    arbitrary interleaving of these sections, [sched round n] for [n]
    goroutines.  In
    [iterativeFindValue] the results of a round are handled after all its
    goroutines ended, in the order of their arrival, [order round n].  Loops that can
    go on for as long as peers answer with new contacts take fuel. *)

From S2P Require Import Prelude GoBytes Ed25519 NodeID RoutingTable DhtStore DhtNode.

(** [sort.Slice(l, less)]: which of several orders of equal elements it
    produces is unspecified. *)
Class SortSlice := sort_slice : (Contact → Contact → bool) → list Contact → list Contact.
Class SortSliceLaws `{SortSlice} := {
  sort_slice_perm : ∀ less l, sort_slice less l ≡ₚ l;
  (** for a strict weak order [less] *)
  sort_slice_sorted : ∀ less l,
    (∀ a b, a ∈ l → b ∈ l → less a b = true → less b a = false) →
    (∀ a b c, a ∈ l → b ∈ l → c ∈ l → less a b = false → less b c = false → less a c = false) →
    StronglySorted (λ a b, less b a = false) (sort_slice less l) }.

Abbreviation network := (nat → list Z → list Z → string + list Z).
Abbreviation clocks := (nat → nat → Z).

(** the two critical sections of goroutine [i] *)
Inductive qevent := Mark (i : nat) | Merge (i : nat).

Definition valid_sched (n : nat) (evs : list qevent) : Prop :=
  evs ≡ₚ (Mark <$> seq 0 n) ++ (Merge <$> seq 0 n) ∧
  ∀ i pre post, evs = pre ++ Merge i :: post → Mark i ∈ pre.

Section lookup.
Context `{Ed25519} `{DhtJson} `{SortSlice}.
Context (net : network) (clk : clocks).

(** [sendRPC] of node.go *)
Definition sendRPC (q : nat) (target : Contact) (msg : RPCMessage) : outcome RPCMessage :=
  data ← wrap_err "failed to send message: " (json_marshal msg);
  match net q (c_Address target) data with
  | inl err => Err err
  | inr resp => wrap_err "failed to receive response: " (json_unmarshal resp)
  end.

Definition self_contact (n : Node) (now : Z) : Contact := NewContact (n_ID n) (n_Address n) now.

Definition Ping (n : Node) (target : Contact) : outcome Node :=
  let sender := self_contact n (clk 0%nat 4%nat) in
  msg ← NewRPCMessage RPCPing sender mkPingRequest (clk 0%nat);
  response ← sendRPC 0 target msg;
  if negb (rm_Type response =? RPCPong) then
    Err ("unexpected response type: " +:+ pretty (rm_Type response))
  else node_add n target (clk 0%nat 3%nat).

(** ** iterativeFindNode *)

Definition pick_queries (queried : gset (list Z)) (shortlist : list Contact) : list Contact :=
  foldl (λ toQuery contact,
    if negb (bool_decide (c_ID contact ∈ queried)) && (length toQuery <? Alpha)%nat
    then toQuery ++ [contact] else toQuery) [] shortlist.

(** request [q]: what a goroutine gets between its critical sections *)
Definition query_find_node (target : list Z) (sender : Contact) (q : nat) (c : Contact)
  : outcome (list (option Contact)) :=
  msg ← NewRPCMessage RPCFindNode sender (mkFindNodeRequest target) (clk q);
  response ← sendRPC q c msg;
  resp ← ParsePayload (A := FindNodeResponse) response;
  Ok (fn_Contacts resp).

(** [for _, contact := range resp.Contacts]: keep the contacts not yet queried *)
Fixpoint merge_contacts (n : Node) (queried : gset (list Z)) (now : Z)
  (contacts : list (option Contact)) (newContacts : list Contact)
  : outcome (Node * list Contact) :=
  match contacts with
  | [] => Ok (n, newContacts)
  | None :: _ => Panic
  | Some contact :: rest =>
      if negb (bool_decide (c_ID contact ∈ queried)) && negb (Equals (c_ID contact) (n_ID n)) then
        n' ← node_add n contact now;
        merge_contacts n' queried now rest (newContacts ++ [contact])
      else merge_contacts n queried now rest newContacts
  end.

Record round_state := mkRound {
  r_node : Node; r_queried : gset (list Z); r_new : list Contact }.

Definition run_event (target : list Z) (sender : Contact) (q0 : nat) (toQuery : list Contact)
  (r : round_state) (ev : qevent) : outcome round_state :=
  match ev with
  | Mark i =>
      match toQuery !! i with
      | Some c => Ok (mkRound (r_node r) ({[c_ID c]} ∪ r_queried r) (r_new r))
      | None => Ok r
      end
  | Merge i =>
      match toQuery !! i with
      | Some c =>
          match query_find_node target sender (q0 + i) c with
          | Panic => Panic
          | Err _ => Ok r
          | Ok contacts =>
              '(n', new) ← merge_contacts (r_node r) (r_queried r) (clk (q0 + i)%nat 3%nat)
                             contacts (r_new r);
              Ok (mkRound n' (r_queried r) new)
          end
      | None => Ok r
      end
  end.

Fixpoint run_events target sender q0 toQuery (r : round_state) (evs : list qevent)
  : outcome round_state :=
  match evs with
  | [] => Ok r
  | ev :: evs' => r' ← run_event target sender q0 toQuery r ev;
                  run_events target sender q0 toQuery r' evs'
  end.

Record lookup_state := mkLookup {
  l_node : Node; l_queried : gset (list Z); l_shortlist : list Contact;
  l_closest : option Contact }.

(** the loop goes on with a new state, or ends *)
Inductive verdict := Again (l : lookup_state) | Done (n : Node) (shortlist : list Contact).

Definition by_distance (target : list Z) : Contact → Contact → bool :=
  λ a b, CloserTo (c_ID a) target (c_ID b).

Definition keep_closest (target : list Z) (k : Z) (l : list Contact) : list Contact :=
  let sorted := sort_slice (by_distance target) l in
  if k <? len sorted then take (Z.to_nat k) sorted else sorted.

Definition find_round (target : list Z) (k : Z) (sender : Contact) (round : nat)
  (evs : nat → list qevent) (l : lookup_state) : outcome verdict :=
  let toQuery := pick_queries (l_queried l) (l_shortlist l) in
  match toQuery with
  | [] => Ok (Done (l_node l) (l_shortlist l))
  | _ :: _ =>
      r ← run_events target sender (round * Alpha) toQuery
            (mkRound (l_node l) (l_queried l) []) (evs (length toQuery));
      let shortlist := keep_closest target k (l_shortlist l ++ r_new r) in
      match shortlist with
      | [] => Ok (Again (mkLookup (r_node r) (r_queried r) shortlist (l_closest l)))
      | first :: _ =>
          if match l_closest l with
             | None => true
             | Some closestSeen => CloserTo (c_ID first) target (c_ID closestSeen)
             end
          then Ok (Again (mkLookup (r_node r) (r_queried r) shortlist (Some first)))
          else Ok (Done (r_node r) shortlist)
      end
  end.

(** [None]: out of fuel *)
Fixpoint find_loop (fuel : nat) (sched : nat → nat → list qevent) (target : list Z) (k : Z)
  (sender : Contact) (round : nat) (l : lookup_state) : option (outcome (Node * list Contact)) :=
  match fuel with
  | O => None
  | S fuel' =>
      match find_round target k sender round (sched round) l with
      | Panic => Some Panic
      | Err e => Some (Err e)
      | Ok (Done n shortlist) => Some (Ok (n, shortlist))
      | Ok (Again l') => find_loop fuel' sched target k sender (S round) l'
      end
  end.

Definition iterativeFindNode (fuel : nat) (sched : nat → nat → list qevent) (n : Node) (target : list Z)
  (k : Z) : option (outcome (Node * list Contact)) :=
  match FindClosest (n_routingTable n) target k with
  | Panic => Some Panic
  | Err e => Some (Err e)
  | Ok [] => Some (Ok (n, []))
  | Ok ((first :: _) as shortlist) =>
      let sender := self_contact n (clk 0%nat 4%nat) in
      find_loop fuel sched target k sender 0
        (mkLookup n {[n_ID n]} shortlist (Some first))
  end.

(** ** iterativeFindValue *)

Definition query_find_value (key : list Z) (sender : Contact) (q : nat) (c : Contact)
  : outcome FindValueResponse :=
  msg ← NewRPCMessage RPCFindValue sender (mkFindValueRequest key) (clk q);
  response ← sendRPC q c msg;
  ParsePayload response.

(** [for res := range resultChan]; [inl]: a value was found *)
Fixpoint handle_results (n : Node) (queried : gset (list Z)) (now : Z)
  (results : list FindValueResponse) (newContacts : list Contact)
  : outcome (Node * (list Z + list Contact)) :=
  match results with
  | [] => Ok (n, inr newContacts)
  | res :: rest =>
      if fv_Found res then Ok (n, inl (fv_Value res))
      else
        '(n', new) ← merge_contacts n queried now (fv_Contacts res) newContacts;
        handle_results n' queried now rest new
  end.

(** the results sent on the channel, in order of arrival; a panic in a
    goroutine ends the program *)
Fixpoint collect_results (key : list Z) (sender : Contact) (q0 : nat) (toQuery : list Contact)
  (order : list nat) : outcome (list FindValueResponse) :=
  match order with
  | [] => Ok []
  | i :: order' =>
      rest ← collect_results key sender q0 toQuery order';
      match toQuery !! i with
      | None => Ok rest
      | Some c => match query_find_value key sender (q0 + i) c with
                  | Panic => Panic
                  | Err _ => Ok rest
                  | Ok res => Ok (res :: rest)
                  end
      end
  end.

Definition mark_all (toQuery : list Contact) (queried : gset (list Z)) : gset (list Z) :=
  foldl (λ s c, {[c_ID c]} ∪ s) queried toQuery.

Fixpoint value_loop (fuel : nat) (order : nat → nat → list nat) (key : list Z) (sender : Contact)
  (round : nat) (n : Node) (queried : gset (list Z)) (shortlist : list Contact)
  : option (outcome (Node * option (list Z))) :=
  match fuel with
  | O => None
  | S fuel' =>
      let toQuery := pick_queries queried shortlist in
      match toQuery with
      | [] => Some (Ok (n, None))
      | _ :: _ =>
          let queried' := mark_all toQuery queried in
          let handled :=
            results ← collect_results key sender (round * Alpha) toQuery
                         (order round (length toQuery));
            handle_results n queried' (clk (round * Alpha)%nat 3%nat) results [] in
          match handled with
          | Panic => Some Panic
          | Err e => Some (Err e)
          | Ok (n', inl value) => Some (Ok (n', Some value))
          | Ok (n', inr []) => Some (Ok (n', None))
          | Ok (n', inr newContacts) =>
              value_loop fuel' order key sender (S round) n' queried'
                (keep_closest key (Z.of_nat K) (shortlist ++ newContacts))
          end
      end
  end.

Definition iterativeFindValue (fuel : nat) (order : nat → nat → list nat) (n : Node) (key : list Z)
  : option (outcome (Node * option (list Z))) :=
  match FindClosest (n_routingTable n) key (Z.of_nat K) with
  | Panic => Some Panic
  | Err e => Some (Err e)
  | Ok [] => Some (Ok (n, None))
  | Ok shortlist =>
      let sender := self_contact n (clk 0%nat 4%nat) in
      value_loop fuel order key sender 0 n {[n_ID n]} shortlist
  end.

(** ** Store, Lookup, Bootstrap, AddPeer *)

(** the loop of [Store] over the closest nodes; [q] numbers the requests *)
Fixpoint store_on (req : StoreRequest) (sender : Contact) (q : nat) (nodes : list Contact)
  (successCount : Z) : outcome Z :=
  match nodes with
  | [] => Ok successCount
  | contact :: rest =>
      match (msg ← NewRPCMessage RPCStore sender req (clk q); sendRPC q contact msg) with
      | Panic => Panic
      | Err _ => store_on req sender (S q) rest successCount
      | Ok response =>
          store_on req sender (S q) rest
            (if rm_Type response =? RPCStoreAck then successCount + 1 else successCount)
      end
  end.

(** The lookup has updated the node's table when the call fails, so the node
    is returned next to the error.  [q0]: the first request number after the
    lookup's. *)
Definition Store (fuel : nat) (sched : nat → nat → list qevent) (q0 : nat) (n : Node)
  (key value : list Z) (ttl : Z) (rnd : option (list Z)) (now : Z)
  : option (outcome (Node * outcome unit)) :=
  found ← iterativeFindNode fuel sched n key (Z.of_nat K);
  Some (
    '(n', closestNodes) ← found;
    match closestNodes with
    | [] => Ok (n', Err "no nodes available to store key")
    | _ :: _ =>
        match wrap_err "failed to sign entry: " (SignEntry key value (n_PrivateKey n') ttl rnd now) with
        | Panic => Panic
        | Err e => Ok (n', Err e)
        | Ok signedEntry =>
            match wrap_err "failed to encode signed entry: " (SignedEntry_Encode signedEntry) with
            | Panic => Panic
            | Err e => Ok (n', Err e)
            | Ok signedData =>
                let sender := self_contact n' (clk q0 4%nat) in
                let req := mkStoreRequest key signedData (int64_of (Seconds ttl)) in
                successCount ← store_on req sender q0 closestNodes 0;
                if successCount =? 0 then Ok (n', Err "failed to store on any node")
                else Ok (n', Ok tt)
            end
        end
    end).

(** [now] when the local value is read, [now'] when the signature is checked *)
Definition Lookup (fuel : nat) (order : nat → nat → list nat) (n : Node) (key : list Z) (now now' : Z)
  : option (outcome (Node * option (list Z))) :=
  match Storage_Get (n_storage n) key now with
  | Some signedData =>
      Some match VerifyAndExtract signedData now' with
           | Panic => Panic
           | Err _ => Ok (with_storage n (Storage_Delete (n_storage n) key), None)
           | Ok value => Ok (n, Some value)
           end
  | None =>
      found ← iterativeFindValue fuel order n key;
      Some (
        '(n', signedData) ← found;
        match signedData with
        | None => Ok (n', None)
        | Some data =>
            match VerifyAndExtract data now' with
            | Panic => Panic
            | Err _ => Ok (n', None)
            | Ok value => Ok (n', Some value)
            end
        end)
  end.

Definition Bootstrap (fuel : nat) (sched : nat → nat → list qevent) (n : Node) (bootstrapNode : Contact)
  (now : Z) : option (outcome Node) :=
  match node_add n bootstrapNode now with
  | Panic => Some Panic
  | Err e => Some (Err e)
  | Ok n' =>
      found ← iterativeFindNode fuel sched n' (n_ID n') (Z.of_nat K);
      Some ('(n'', _) ← found; Ok n'')
  end.

Definition AddPeer (n : Node) (contact : Contact) (now : Z) : outcome Node := node_add n contact now.

End lookup.
