(* ===== verification/DhtNodeSample.v ===== *)
(** * Concrete codecs for the DHT's messages

    The byte format of [DhtSample] at every type that crosses the wire, and
    insertion sort for [sort.Slice]: an instance of each interface. *)

From S2P Require Import Prelude GoBytes Ed25519 NodeID RoutingTable DhtStore DhtSample DhtNode DhtLookup.

#[local] Instance sample_time : JsonTime := is_s64.

#[export] Instance Contact_typed_dec c : Decision (Contact_typed c).
Proof. unfold Contact_typed, json_time, sample_time. apply _. Defined.
#[export] Instance pointer_typed_dec o : Decision (pointer_typed o).
Proof. destruct o; cbn; apply _. Defined.

Definition pointer_field (o : option Contact) : list Z :=
  match o with
  | None => []
  | Some c => write_fields
      [c_ID c; c_Address c; int_field (c_LastSeen c); int_field (c_FailedPings c)]
  end.
Definition field_pointer (l : list Z) : option (option Contact) :=
  match l with
  | [] => Some None
  | _ => match read_fields [] l with
         | Some [i; a; t; f] => Some (Some (mkContact i a (field_int t) (field_int f)))
         | _ => None
         end
  end.

Lemma field_pointer_field o : pointer_typed o → field_pointer (pointer_field o) = Some o.
Proof.
  destruct o as [[i a t f]|]; [|done]. intros (_ & _ & Ht & Hf).
  cbn [c_LastSeen c_FailedPings] in *. unfold field_pointer, pointer_field.
  cbn [c_ID c_Address c_LastSeen c_FailedPings].
  pose proof (read_write_fields [i; a; int_field t; int_field f]) as R.
  destruct (write_fields _) as [|z l]; [discriminate R|]. rewrite R.
  by rewrite !field_int_field.
Qed.

Lemma pointer_field_bytes o : pointer_typed o → bytes (pointer_field o).
Proof.
  destruct o as [c|]; [|constructor]. intros (Hi & Ha & _ & _). unfold pointer_field.
  apply write_fields_bytes. rewrite !Forall_cons.
  split_and!; [by eapply array_bytes|done|apply bytes_be_put..|done].
Qed.

Lemma field_pointers_fields l :
  Forall pointer_typed l → mapM field_pointer (pointer_field <$> l) = Some l.
Proof.
  induction 1 as [|o l Ho Hl IH]; [done|]. cbn. by rewrite field_pointer_field, IH.
Qed.

Definition bool_field (b : bool) : list Z := if b then [1] else [].
Definition field_bool (l : list Z) : bool := match l with [] => false | _ => true end.
Lemma field_bool_field b : field_bool (bool_field b) = b.
Proof. by destruct b. Qed.
Lemma bool_field_bytes b : bytes (bool_field b).
Proof. destruct b; repeat constructor; lia. Qed.

(** ** One codec per type *)

#[export] Instance RPCMessage_typed_dec m : Decision (RPCMessage_typed m).
Proof. unfold RPCMessage_typed. apply _. Defined.
#[export] Instance StoreRequest_typed_dec m : Decision (StoreRequest_typed m).
Proof. unfold StoreRequest_typed. apply _. Defined.
#[export] Instance StoreAckResponse_typed_dec m : Decision (StoreAckResponse_typed m).
Proof. unfold StoreAckResponse_typed. apply _. Defined.
#[export] Instance FindNodeRequest_typed_dec m : Decision (FindNodeRequest_typed m).
Proof. unfold FindNodeRequest_typed. apply _. Defined.
#[export] Instance FindNodeResponse_typed_dec m : Decision (FindNodeResponse_typed m).
Proof. unfold FindNodeResponse_typed. apply _. Defined.
#[export] Instance FindValueRequest_typed_dec m : Decision (FindValueRequest_typed m).
Proof. unfold FindValueRequest_typed. apply _. Defined.
#[export] Instance FindValueResponse_typed_dec m : Decision (FindValueResponse_typed m).
Proof. unfold FindValueResponse_typed. apply _. Defined.

#[local] Instance sample_rpc_json : Json RPCMessage := sample_json
  (λ m, [[rm_Type m]; rm_RequestID m; pointer_field (rm_Sender m); rm_Payload m;
         int_field (rm_Timestamp m)])
  (λ fs, match fs with
         | [[ty]; id; s; p; t] => o ← field_pointer s; Some (mkRPCMessage ty id o p (field_int t))
         | _ => None end) RPCMessage_typed.
#[local] Instance sample_ping_json : Json PingRequest :=
  sample_json (λ _, []) (λ _, Some mkPingRequest) (λ _, True).
#[local] Instance sample_pong_json : Json PongResponse :=
  sample_json (λ _, []) (λ _, Some mkPongResponse) (λ _, True).
#[local] Instance sample_store_json : Json StoreRequest := sample_json
  (λ r, [sr_Key r; sr_Value r; int_field (sr_TTL r)])
  (λ fs, match fs with [k; v; t] => Some (mkStoreRequest k v (field_int t)) | _ => None end)
  StoreRequest_typed.
#[local] Instance sample_ack_json : Json StoreAckResponse := sample_json
  (λ r, [bool_field (sa_Success r); sa_Message r])
  (λ fs, match fs with [s; m] => Some (mkStoreAckResponse (field_bool s) m) | _ => None end)
  StoreAckResponse_typed.
#[local] Instance sample_find_node_json : Json FindNodeRequest := sample_json
  (λ r, [fn_Target r]) (λ fs, match fs with [t] => Some (mkFindNodeRequest t) | _ => None end)
  FindNodeRequest_typed.
#[local] Instance sample_nodes_json : Json FindNodeResponse := sample_json
  (λ r, pointer_field <$> fn_Contacts r)
  (λ fs, l ← mapM field_pointer fs; Some (mkFindNodeResponse l)) FindNodeResponse_typed.
#[local] Instance sample_find_value_json : Json FindValueRequest := sample_json
  (λ r, [fv_Key r]) (λ fs, match fs with [t] => Some (mkFindValueRequest t) | _ => None end)
  FindValueRequest_typed.
#[local] Instance sample_value_json : Json FindValueResponse := sample_json
  (λ r, bool_field (fv_Found r) :: fv_Value r :: (pointer_field <$> fv_Contacts r))
  (λ fs, match fs with
         | f :: v :: ps => l ← mapM field_pointer ps; Some (mkFindValueResponse (field_bool f) v l)
         | _ => None end) FindValueResponse_typed.

Definition sample_dht_json : DhtJson := Build_DhtJson sample_time sample_entry_json
  sample_rpc_json sample_ping_json sample_pong_json sample_store_json sample_ack_json
  sample_find_node_json sample_nodes_json sample_find_value_json sample_value_json.

Lemma pointers_bytes l : Forall pointer_typed l → Forall bytes (pointer_field <$> l).
Proof.
  intros Hl. apply Forall_fmap. eapply Forall_impl; [exact Hl|]. apply pointer_field_bytes.
Qed.

Lemma sample_dht_json_laws : @DhtJsonLaws sample_dht_json.
Proof.
  constructor; [apply sample_entry_laws|apply sample_json_laws..].
  - intros [] (Hb & ? & Hs & ? & Ht). cbn in *. by rewrite field_pointer_field, field_int_field.
  - intros [] (Hb & ? & Hs & ? & Ht). cbn in *. rewrite !Forall_cons. unfold bytes at 1.
    rewrite Forall_singleton.
    split_and!; [apply Hb..|done|by apply pointer_field_bytes|done|apply bytes_be_put|done].
  - by intros []. - done. - by intros []. - done.
  - intros [] (? & ? & ?). cbn in *. by rewrite field_int_field.
  - intros [] (? & ? & ?). cbn in *. rewrite !Forall_cons.
    split_and!; [by eapply array_bytes|done|apply bytes_be_put|done].
  - intros [] ?. by rewrite field_bool_field.
  - intros [] ?. rewrite !Forall_cons. split_and!; [apply bool_field_bytes|done|done].
  - by intros [].
  - intros [] ?. rewrite !Forall_cons. split_and!; [by eapply array_bytes|done].
  - intros [] ?. by rewrite field_pointers_fields.
  - intros [] ?. by apply pointers_bytes.
  - by intros [].
  - intros [] ?. rewrite !Forall_cons. split_and!; [by eapply array_bytes|done].
  - intros [] [? ?]. cbn in *. by rewrite field_pointers_fields, field_bool_field.
  - intros [] [? ?]. cbn in *. rewrite !Forall_cons.
    split_and!; [apply bool_field_bytes|done|by apply pointers_bytes].
Qed.

(** ** sort.Slice *)

Fixpoint insert_by (less : Contact → Contact → bool) (x : Contact) (l : list Contact) : list Contact :=
  match l with
  | [] => [x]
  | y :: l' => if less x y then x :: y :: l' else y :: insert_by less x l'
  end.
Definition sample_sort : SortSlice := λ less l, foldr (insert_by less) [] l.

Lemma insert_by_perm less x l : insert_by less x l ≡ₚ x :: l.
Proof.
  induction l as [|y l IH]; cbn; [done|]. destruct (less x y); [done|].
  rewrite IH. by apply Permutation_swap.
Qed.

Lemma insert_by_sorted less x l :
  (∀ a b, a ∈ x :: l → b ∈ x :: l → less a b = true → less b a = false) →
  (∀ a b c, a ∈ x :: l → b ∈ x :: l → c ∈ x :: l →
     less a b = false → less b c = false → less a c = false) →
  StronglySorted (λ a b, less b a = false) l →
  StronglySorted (λ a b, less b a = false) (insert_by less x l).
Proof.
  intros Ha Ht. induction 1 as [|y l Hs IH Hf]; cbn; [repeat constructor|].
  assert (x ∈ x :: y :: l) as Hx by apply list_elem_of_here.
  assert (y ∈ x :: y :: l) as Hy by apply list_elem_of_further, list_elem_of_here.
  assert (∀ z, z ∈ l → z ∈ x :: y :: l) as Hz by (intros; by do 2 apply list_elem_of_further).
  assert (∀ z, z ∈ x :: l → z ∈ x :: y :: l) as Hxl.
  { intros z [->|Hin]%elem_of_cons; auto. }
  destruct (less x y) eqn:E.
  - pose proof (Ha x y Hx Hy E). rewrite Forall_forall in Hf.
    constructor; [constructor; [done|by apply Forall_forall]|]. constructor; [done|].
    apply Forall_forall. intros z Hin. apply (Ht z y x); auto.
  - constructor; [apply IH; eauto|]. rewrite insert_by_perm. by constructor.
Qed.

Lemma sample_sort_laws : @SortSliceLaws sample_sort.
Proof.
  assert (∀ less l, sample_sort less l ≡ₚ l) as Hp.
  { intros less l. induction l as [|x l IH]; cbn; [done|]. by rewrite insert_by_perm, IH. }
  constructor; [done|]. intros less l. unfold sort_slice.
  induction l as [|x l IH]; intros Ha Ht; [constructor|].
  assert (∀ z, z ∈ x :: sample_sort less l → z ∈ x :: l) as Hin by (intros z; by rewrite Hp).
  apply insert_by_sorted.
  - intros a b Ha' Hb'. apply Ha; auto.
  - intros a b c Ha' Hb' Hc'. apply Ht; auto.
  - apply IH; [intros a b ? ?; apply Ha|intros a b c ? ? ?; apply (Ht a b c)];
      by apply list_elem_of_further.
Qed.
