(* ===== verification/DhtNodeProofs.v ===== *)
(** * Properties of the DHT node's request handling *)

From S2P Require Import Prelude GoBytes Ed25519 NodeID RoutingTable DhtStore DhtSample DhtNode DhtLookup DhtNodeSample.

Section node_proofs.
Context `{Ed25519Laws} `{DhtJsonLaws}.

(** ** Messages *)

Lemma string_bytes_bytes s : bytes (string_bytes s).
Proof.
  unfold string_bytes. apply Forall_fmap, Forall_forall. intros a _. cbn.
  pose proof (Ascii.nat_ascii_bounded a). unfold is_byte. lia.
Qed.

Lemma Unix_s64 t : is_s64 (Unix t).
Proof. unfold is_s64, Unix, s64. pose proof (Z.mod_pos_bound (t / Second + 2 ^ 63) (2 ^ 64)). lia. Qed.

(** a node's answer to [msg] *)
Definition answer (n : Node) (msg : RPCMessage) (clk : nat → Z) (ty : Z) (d : list Z) : RPCMessage :=
  mkRPCMessage ty (rm_RequestID msg) (Some (NewContact (n_ID n) (n_Address n) (clk 5%nat))) d
    (Unix (clk 2%nat)).

Lemma reply_ok `{JsonLaws A typed plain} n msg clk ty (p : A) :
  typed p → ∃ d, json_marshal p = Ok d ∧ bytes d ∧
    reply_to (rm_RequestID msg)
      (NewRPCMessage ty (NewContact (n_ID n) (n_Address n) (clk 5%nat)) p clk)
    = Ok (answer n msg clk ty d).
Proof.
  intros Hp. destruct (json_total p Hp) as (d & Hd & Hb). exists d. split_and!; [done..|].
  unfold NewRPCMessage. by rewrite Hd.
Qed.

(** ** The invariant *)

Definition stored_ok (s : Storage) : Prop :=
  ∀ k sv, s !! k = Some sv →
    sv_Key sv = k ∧ bytes (sv_Value sv) ∧
    ∃ e, json_unmarshal (sv_Value sv) = Ok e ∧ authentic e.

Record node_ok (n : Node) : Prop := {
  ok_id : is_id (n_ID n);
  ok_addr : bytes (n_Address n);
  ok_rt : rt_wf (n_routingTable n);
  ok_self : rt_self (n_routingTable n) = n_ID n;
  ok_contacts : Forall Contact_typed (GetAllContacts (n_routingTable n));
  ok_stored : stored_ok (n_storage n) }.

Definition times_ok (clk : nat → Z) : Prop := ∀ i, json_time (clk i).

Lemma NewNode_ok id address rnd : is_id id → bytes address → node_ok (NewNode id address rnd).
Proof.
  intros Hi Ha. constructor; [done|done|by apply NewRoutingTable_wf|done| |].
  - apply Forall_forall. intros c (i & b & Hb & Hc)%elem_of_all.
    cbn [NewNode n_routingTable NewRoutingTable rt_buckets] in Hb.
    apply lookup_replicate_1 in Hb as [-> _]. by apply not_elem_of_nil in Hc.
  - intros k sv Hk. cbn in Hk. unfold NewStorage in Hk. by rewrite lookup_empty in Hk.
Qed.

Lemma Contact_typed_touch c now : json_time now → Contact_typed c → Contact_typed (touch c now).
Proof. intros Ht (? & ? & ? & ?). by split_and!. Qed.

Lemma node_add_ok n c now :
  node_ok n → Contact_typed c → json_time now →
  ∃ n', node_add n c now = Ok n' ∧ node_ok n' ∧ n_storage n' = n_storage n ∧
    n_ID n' = n_ID n ∧ n_Address n' = n_Address n ∧ n_PrivateKey n' = n_PrivateKey n.
Proof.
  intros [Hi Ha Hw Hs Hc Hst] Ht Hn. unfold node_add. pose proof Ht as (Hid & _).
  destruct (AddContact_wf (n_routingTable n) c now Hw Hid) as (rt' & added & E & Hw' & Hs').
  rewrite E. cbn. eexists. split_and!; [done| |done..].
  constructor; cbn; [done..|congruence| |done].
  refine (AddContact_Forall Contact_typed _ _ _ _ _ Hw Hid E Ht _ Hc).
  intros. by apply Contact_typed_touch.
Qed.

Lemma with_storage_ok n s : node_ok n → stored_ok s → node_ok (with_storage n s).
Proof. intros [] Hs. by constructor. Qed.

Lemma stored_ok_sub s s' : s' ⊆ s → stored_ok s → stored_ok s'.
Proof. intros Hsub Hs k sv Hk. by eapply Hs, lookup_weaken. Qed.

Lemma expire_sub s now : ExpireOldValues s now ⊆ s.
Proof.
  apply map_subseteq_spec. intros k v. rewrite ExpireOldValues_lookup.
  destruct (s !! k) as [v'|]; cbn; [|done]. by destruct (_ <? _).
Qed.

Lemma stored_ok_store s key value ttl pub now now' v :
  stored_ok s → bytes value → VerifyAndExtract value now' = Ok v →
  stored_ok (Storage_Store s key value ttl pub now).
Proof.
  intros Hs Hb (e & He & Ha & _ & _)%VerifyAndExtract_ok k sv Hk.
  unfold Storage_Store in Hk. apply lookup_insert_Some in Hk as [[<- <-]|[_ Hk]]; [|by apply Hs].
  cbn. eauto.
Qed.

Lemma FindClosest_peers n target k :
  node_ok n → is_id target → 0 ≤ k →
  ∃ l rest, FindClosest (n_routingTable n) target k = Ok l ∧
    l ++ rest ≡ₚ GetAllContacts (n_routingTable n) ∧
    len l = Z.min k (Z.of_nat (Size (n_routingTable n))) ∧
    StronglySorted (nearer target) l ∧
    (∀ c d, c ∈ l → d ∈ rest → Distance (c_ID c) target < Distance (c_ID d) target) ∧
    Forall (λ c, Contact_typed c ∧ c_ID c ≠ n_ID n) l.
Proof.
  intros Hn Ht Hk.
  destruct (FindClosest_spec _ target k (ok_rt _ Hn) Ht Hk) as (l & rest & E & Hp & Hlen & _ & Hs & Hsep).
  exists l, rest. split_and!; [done..|]. apply Forall_forall. intros c Hc.
  assert (c ∈ GetAllContacts (n_routingTable n)) as Hin.
  { rewrite <- Hp. apply elem_of_app. by left. }
  pose proof (ok_contacts _ Hn) as Hall. rewrite Forall_forall in Hall. split; [auto|].
  apply elem_of_all in Hin as (i & b & Hb & Hcb).
  destruct (bucket_of_member _ _ _ _ (ok_rt _ Hn) Hb Hcb) as (_ & Hne & _).
  by rewrite (ok_self _ Hn) in Hne.
Qed.

Lemma FindClosest_ok n target :
  node_ok n → is_id target →
  ∃ l, FindClosest (n_routingTable n) target (Z.of_nat K) = Ok l ∧ Forall Contact_typed l.
Proof.
  intros Hn Ht.
  destruct (FindClosest_peers n target (Z.of_nat K) Hn Ht ltac:(lia)) as (l & _ & E & _ & _ & _ & _ & Hl).
  exists l. split; [done|]. eapply Forall_impl; [exact Hl|]. by intros c [? _].
Qed.

Lemma Forall_pointers l : Forall Contact_typed l → Forall pointer_typed (Some <$> l).
Proof. intros. by apply Forall_fmap. Qed.


(** ** Handlers keep the invariant *)

(** what a handler may do: answer with a well-typed message, or nothing *)
Definition handled (n : Node) (o : outcome (Node * option RPCMessage)) : Prop :=
  ∃ n' resp, o = Ok (n', resp) ∧ node_ok n' ∧
    match resp with Some r => RPCMessage_typed r | None => True end.

Lemma answer_typed n msg clk ty d :
  node_ok n → RPCMessage_typed msg → times_ok clk → is_byte ty → bytes d →
  RPCMessage_typed (answer n msg clk ty d).
Proof.
  intros Hn (_ & Hr & _) Ht Hty Hd. unfold answer, NewContact.
  split_and!; cbn; [done..| |done|apply Unix_s64]. split_and!; cbn; [apply Hn|apply Hn|done|by_decision].
Qed.

Lemma handled_reply `{JsonLaws A typed plain} n n' msg clk ty (p : A) :
  node_ok n → node_ok n' → RPCMessage_typed msg → times_ok clk → is_byte ty → typed p →
  handled n (rpcMsg ← reply_to (rm_RequestID msg)
    (NewRPCMessage ty (NewContact (n_ID n) (n_Address n) (clk 5%nat)) p clk); Ok (n', Some rpcMsg)).
Proof.
  intros Hn Hn' Hm Ht Hty Hp. destruct (reply_ok n msg clk ty p Hp) as (d & _ & Hb & ->). cbn.
  eexists _, _. split_and!; [done..|]. by apply answer_typed.
Qed.

Lemma handleStore_ok n msg clk :
  node_ok n → RPCMessage_typed msg → times_ok clk → is_Some (rm_Sender msg) →
  handled n (handleStore n msg (NewContact (n_ID n) (n_Address n) (clk 5%nat)) clk).
Proof.
  intros Hn Hm Ht [pub Hpub]. unfold handleStore, ParsePayload, store_ack.
  pose proof (json_no_panic (A := StoreRequest) (rm_Payload msg)).
  destruct (json_unmarshal (rm_Payload msg)) as [req| |] eqn:E; [| |done].
  2: { by eexists _, _. }
  destruct (json_decoded _ _ E) as (Hk & Hv & _).
  pose proof (VerifyAndExtract_no_panic (sr_Value req) (clk 3%nat) (json_no_panic _)).
  destruct (VerifyAndExtract _ _) as [v| |] eqn:V; [| |done].
  - rewrite Hpub. cbv zeta.
    apply (handled_reply n _ msg clk RPCStoreAck (mkStoreAckResponse true []));
      try done; [|apply Forall_nil_2].
    apply with_storage_ok; [done|]. eapply stored_ok_store; [apply (ok_stored _ Hn)|done..].
  - apply (handled_reply n n msg clk RPCStoreAck (mkStoreAckResponse false _));
      try done. apply string_bytes_bytes.
Qed.

Lemma handleRPC_ok n msg clk :
  node_ok n → RPCMessage_typed msg → times_ok clk →
  rm_Type msg ≠ RPCStore ∨ is_Some (rm_Sender msg) → handled n (handleRPC n msg clk).
Proof.
  intros Hn Hm Ht Hs. unfold handleRPC.
  destruct (_ =? RPCPing); [|destruct (Z.eqb_spec (rm_Type msg) RPCStore);
    [|destruct (_ =? RPCFindNode); [|destruct (_ =? RPCFindValue)]]].
  - unfold handlePing. apply (handled_reply n n msg clk RPCPong mkPongResponse); [done..|by_decision|done].
  - apply handleStore_ok; [done..|]. by destruct Hs.
  - unfold handleFindNode, ParsePayload.
    pose proof (json_no_panic (A := FindNodeRequest) (rm_Payload msg)).
    destruct (json_unmarshal (rm_Payload msg)) as [req| |] eqn:E; [| |done]; [|by eexists _, _].
    destruct (FindClosest_ok n (fn_Target req) Hn (json_decoded _ _ E)) as (l & -> & Hl). cbn.
    apply (handled_reply n n msg clk RPCResponse (mkFindNodeResponse _)); [done..|by_decision|].
    by apply Forall_pointers.
  - unfold handleFindValue, ParsePayload.
    pose proof (json_no_panic (A := FindValueRequest) (rm_Payload msg)).
    destruct (json_unmarshal (rm_Payload msg)) as [req| |] eqn:E; [| |done]; [|by eexists _, _].
    destruct (Storage_Get _ _ _) as [v|] eqn:G; cbn.
    + apply (handled_reply n n msg clk RPCResponse (mkFindValueResponse true _ _));
        [done..|by_decision|]. split; [|by constructor]. cbn.
      unfold Storage_Get in G. destruct (n_storage n !! fv_Key req) eqn:L; [|done].
      destruct (_ <? _); simplify_eq. apply (ok_stored _ Hn _ _ L).
    + destruct (FindClosest_ok n (fv_Key req) Hn (json_decoded _ _ E)) as (l & -> & Hl). cbn.
      apply (handled_reply n n msg clk RPCResponse (mkFindValueResponse false _ _));
        [done..|by_decision|]. split; [by constructor|]. by apply Forall_pointers.
  - by eexists _, _.
Qed.

Lemma handleConnection_ok n data clk :
  node_ok n → times_ok clk →
  (∃ n' resp, handleConnection n data clk = Ok (n', resp) ∧ node_ok n') ∨
  (handleConnection n data clk = Panic ∧
   ∃ msg, json_unmarshal data = Ok msg ∧ rm_Type msg = RPCStore ∧ rm_Sender msg = None).
Proof.
  intros Hn Ht. unfold handleConnection.
  pose proof (json_no_panic (A := RPCMessage) data).
  destruct (json_unmarshal data) as [msg| |] eqn:E; [| |done]; [|by left; eexists _, _].
  pose proof (json_decoded _ _ E) as Hm.
  assert (∃ n1, (match rm_Sender msg with Some c => node_add n c (clk 6%nat) | None => Ok n end)
    = Ok n1 ∧ node_ok n1) as (n1 & -> & Hn1).
  { destruct Hm as (_ & _ & Hc & _). destruct (rm_Sender msg) as [c|]; [|by exists n].
    destruct (node_add_ok n c (clk 6%nat) Hn Hc (Ht _)) as (n1 & -> & Hn1 & _). by exists n1. }
  cbn.
  destruct (decide (rm_Type msg ≠ RPCStore ∨ is_Some (rm_Sender msg))) as [Hs|Hs].
  - left. destruct (handleRPC_ok n1 msg clk Hn1 Hm Ht Hs) as (n2 & resp & -> & Hn2 & Hr). cbn.
    destruct resp as [r|]; [|by eexists _, _].
    destruct (json_total r Hr) as (out & -> & _). by eexists _, _.
  - assert (rm_Type msg = RPCStore) as Hty by (destruct (decide (rm_Type msg = RPCStore)); tauto).
    assert (rm_Sender msg = None) as Hno by (destruct (rm_Sender msg); [destruct Hs; eauto|done]).
    unfold handleRPC. rewrite Hty. cbn [Z.eqb RPCStore RPCPing Pos.eqb].
    unfold handleStore, ParsePayload, store_ack.
    pose proof (json_no_panic (A := StoreRequest) (rm_Payload msg)).
    destruct (json_unmarshal (rm_Payload msg)) as [req| |] eqn:Ep; [| |done];
      [|left; by eexists _, _].
    pose proof (VerifyAndExtract_no_panic (sr_Value req) (clk 3%nat) (json_no_panic _)).
    destruct (VerifyAndExtract _ _) as [v| |]; [| |done].
    + right. rewrite Hno. eauto.
    + left. edestruct (handled_reply n1 n1 msg clk RPCStoreAck
        (mkStoreAckResponse false (string_bytes "signature verification failed")))
        as (n2 & resp & -> & Hn2 & Hr); [done..|apply string_bytes_bytes|]. cbn.
      destruct resp as [r|]; [|by eexists _, _].
      destruct (json_total r Hr) as (out & -> & _). by eexists _, _.
Qed.

(** ** Reachable nodes *)

Inductive node_step : Node → Node → Prop :=
| node_step_connection n data clk n' resp :
    times_ok clk → handleConnection n data clk = Ok (n', resp) → node_step n n'
| node_step_expire n now : node_step n (expire_tick n now)
| node_step_delete n key : node_step n (with_storage n (Storage_Delete (n_storage n) key))
| node_step_peer n c now n' :
    Contact_typed c → json_time now → AddPeer n c now = Ok n' → node_step n n'
| node_step_start n addr n' : bytes addr → Start n (Some addr) = Ok n' → node_step n n'
| node_step_stop n : node_step n (Stop n).

Lemma node_step_ok n n' : node_step n n' → node_ok n → node_ok n'.
Proof.
  intros [n0 data clk n1 resp Ht E|n0 now|n0 key|n0 c now n1 Hc Ht E|n0 addr n1 Ha E|n0] Hn.
  - destruct (handleConnection_ok n0 data clk Hn Ht) as [(? & ? & E' & Hok)|[E' _]];
      rewrite E in E'; by simplify_eq.
  - apply with_storage_ok; [done|]. eapply stored_ok_sub; [apply expire_sub|apply (ok_stored _ Hn)].
  - apply with_storage_ok; [done|].
    eapply stored_ok_sub; [apply delete_subseteq|apply (ok_stored _ Hn)].
  - destruct (node_add_ok n0 c now Hn Hc Ht) as (? & E' & Hok & _).
    unfold AddPeer in E. rewrite E in E'. by simplify_eq.
  - injection E as <-. destruct Hn. by constructor.
  - unfold Stop. destruct (negb _); [done|]. destruct Hn. by constructor.
Qed.

Lemma node_reachable_ok n0 n : node_ok n0 → rtc node_step n0 n → node_ok n.
Proof. intros H0' Hr. induction Hr as [|x y z Hs _ IH]; [done|]. by apply IH, (node_step_ok x y). Qed.

(** ** Properties *)

(** C13: whatever bytes arrive on its connections, every value a node stores is
    an entry whose signature verifies, and the record names the key it is
    filed under (the key of the request: that the entry was signed for it is
    not checked, see [entry_key_unchecked]); its routing table stays
    well-formed; and answering never panics, except for a STORE request
    without a sender. *)
Theorem dht_node_invariant (id address : list Z) (rnd : option (list Z)) (n : Node) :
  is_id id → bytes address → rtc node_step (NewNode id address rnd) n →
  (∀ k sv, n_storage n !! k = Some sv →
     sv_Key sv = k ∧ ∃ e, json_unmarshal (sv_Value sv) = Ok e ∧ authentic e) ∧
  rt_wf (n_routingTable n) ∧
  (∀ data clk, times_ok clk →
     is_ok (handleConnection n data clk) = true ∨
     ∃ msg, json_unmarshal data = Ok msg ∧ rm_Type msg = RPCStore ∧ rm_Sender msg = None).
Proof.
  intros Hi Ha Hr. pose proof (node_reachable_ok _ _ (NewNode_ok id address rnd Hi Ha) Hr) as Hn.
  split_and!.
  - intros k sv Hk. by destruct (ok_stored _ Hn k sv Hk) as (? & _ & ?).
  - apply Hn.
  - intros data clk Ht.
    destruct (handleConnection_ok n data clk Hn Ht) as [(? & ? & -> & _)|[_ Hm]]; [by left|by right].
Qed.

(** a STORE request is accepted exactly when the value it carries is a
    signed entry that verifies and has not expired; it is then filed under the
    requested key for [TTL] seconds.  Otherwise the stored values do not
    change and the answer says so.  A verified request without a sender
    panics. *)
Theorem store_request_spec (n : Node) (msg : RPCMessage) (req : StoreRequest) (clk : nat → Z) :
  node_ok n → RPCMessage_typed msg → times_ok clk → rm_Type msg = RPCStore →
  json_unmarshal (rm_Payload msg) = Ok req →
  let ack d := answer n msg clk RPCStoreAck d in
  match VerifyAndExtract (sr_Value req) (clk 3%nat), rm_Sender msg with
  | Ok _, Some p =>
      ∃ d, handleRPC n msg clk
        = Ok (with_storage n (Storage_Store (n_storage n) (sr_Key req) (sr_Value req)
                (duration_of_seconds (sr_TTL req)) (c_ID p) (clk 4%nat)), Some (ack d))
        ∧ json_unmarshal d = Ok (mkStoreAckResponse true [])
  | Ok _, None => handleRPC n msg clk = Panic
  | _, _ =>
      ∃ d, handleRPC n msg clk = Ok (n, Some (ack d)) ∧ json_unmarshal d
        = Ok (mkStoreAckResponse false (string_bytes "signature verification failed"))
  end.
Proof.
  intros Hn Hm Ht Hty Hreq ack. unfold handleRPC. rewrite Hty.
  cbn [Z.eqb RPCStore RPCPing Pos.eqb]. unfold handleStore, ParsePayload, store_ack. rewrite Hreq.
  pose proof (VerifyAndExtract_no_panic (sr_Value req) (clk 3%nat) (json_no_panic _)).
  destruct (VerifyAndExtract _ _) as [v| |]; [| |done].
  - destruct (rm_Sender msg) as [p|]; [|done].
    destruct (reply_ok n msg clk RPCStoreAck (mkStoreAckResponse true []) (Forall_nil_2 _))
      as (d & Hd & _ & ->).
    exists d. split; [done|]. apply (json_round _ d); [|done]. apply Forall_nil_2.
  - destruct (reply_ok n msg clk RPCStoreAck
      (mkStoreAckResponse false (string_bytes "signature verification failed"))
      (string_bytes_bytes _)) as (d & Hd & _ & ->).
    exists d. split; [done|]. apply (json_round _ d); [|done]. by_decision.
Qed.

Lemma handle_find_value n msg req clk :
  node_ok n → rm_Type msg = RPCFindValue → json_unmarshal (rm_Payload msg) = Ok req →
  ∃ r d, handleRPC n msg clk = Ok (n, Some (answer n msg clk RPCResponse d)) ∧
    json_marshal r = Ok d ∧ FindValueResponse_typed r ∧
    match Storage_Get (n_storage n) (fv_Key req) (clk 3%nat) with
    | Some v => r = mkFindValueResponse true v []
    | None => ∃ l, FindClosest (n_routingTable n) (fv_Key req) (Z.of_nat K) = Ok l ∧
                r = mkFindValueResponse false [] (Some <$> l)
    end.
Proof.
  intros Hn Hty Hreq. unfold handleRPC. rewrite Hty.
  cbn [Z.eqb RPCStore RPCPing RPCFindValue RPCFindNode Pos.eqb].
  unfold handleFindValue, ParsePayload. rewrite Hreq.
  destruct (Storage_Get _ _ _) as [v|] eqn:G; cbn.
  - assert (FindValueResponse_typed (mkFindValueResponse true v [])) as Hr.
    { split; [|by constructor]. unfold Storage_Get in G.
      destruct (n_storage n !! fv_Key req) eqn:L; [|done].
      destruct (_ <? _); simplify_eq. apply (ok_stored _ Hn _ _ L). }
    destruct (reply_ok n msg clk RPCResponse _ Hr) as (d & Hd & _ & ->). by eexists _, d.
  - destruct (FindClosest_ok n (fv_Key req) Hn (json_decoded _ _ Hreq)) as (l & E & Hl).
    rewrite E. cbn.
    assert (FindValueResponse_typed (mkFindValueResponse false [] (Some <$> l))) as Hr.
    { split; [by constructor|by apply Forall_pointers]. }
    destruct (reply_ok n msg clk RPCResponse _ Hr) as (d & Hd & _ & ->).
    eexists _, d. split_and!; [done..|]. eauto.
Qed.

(** a value a node acknowledged is what it answers FIND_VALUE with until
    its TTL has passed, and from then on it answers with the closest contacts
    it knows. *)
Theorem stored_value_served (n : Node) (msg msg2 : RPCMessage) (req : StoreRequest)
    (p : Contact) (v : list Z) (clk clk2 : nat → Z) :
  node_ok n → RPCMessage_typed msg → times_ok clk → rm_Type msg = RPCStore →
  json_unmarshal (rm_Payload msg) = Ok req → rm_Sender msg = Some p →
  VerifyAndExtract (sr_Value req) (clk 3%nat) = Ok v →
  0 ≤ sr_TTL req * Second < 2 ^ 63 →
  rm_Type msg2 = RPCFindValue →
  json_unmarshal (rm_Payload msg2) = Ok (mkFindValueRequest (sr_Key req)) →
  ∃ n' r d, handleRPC n msg clk = Ok (n', Some r) ∧
    handleRPC n' msg2 clk2 = Ok (n', Some (answer n' msg2 clk2 RPCResponse d)) ∧
    if decide (clk2 3%nat ≤ clk 4%nat + sr_TTL req * Second)
    then json_unmarshal d = Ok (mkFindValueResponse true (sr_Value req) [])
    else ∃ l, FindClosest (n_routingTable n') (sr_Key req) (Z.of_nat K) = Ok l ∧
           json_marshal (mkFindValueResponse false [] (Some <$> l)) = Ok d.
Proof.
  intros Hn Hm Ht Hty Hreq Hp Hv Httl Hty2 Hreq2.
  destruct (handleStore_ok n msg clk Hn Hm Ht ltac:(by rewrite Hp)) as (n' & resp & E & Hn' & _).
  assert (handleRPC n msg clk = Ok (n', resp)) as Hh by (unfold handleRPC; by rewrite Hty).
  assert (n' = with_storage n (Storage_Store (n_storage n) (sr_Key req) (sr_Value req)
    (sr_TTL req * Second) (c_ID p) (clk 4%nat)) ∧ is_Some resp) as [Hst [r ->]].
  { unfold handleStore, ParsePayload, duration_of_seconds in E. rewrite Hreq, Hv, Hp in E.
    rewrite s64_id in E by lia. outcome_inv. eauto. }
  exists n', r. destruct (handle_find_value n' msg2 _ clk2 Hn' Hty2 Hreq2)
    as (fr & d & Hans & Hd & Hfr & Hcase).
  exists d. split_and!; [done..|].
  assert (Storage_Get (n_storage n') (sr_Key req) (clk2 3%nat)
    = if decide (clk2 3%nat ≤ clk 4%nat + sr_TTL req * Second) then Some (sr_Value req) else None)
    as G.
  { rewrite Hst. unfold Storage_Get, Storage_Store. cbn. rewrite lookup_insert_eq. cbn.
    case_decide; [by rewrite (proj2 (Z.ltb_ge _ _)) by lia|by rewrite (proj2 (Z.ltb_lt _ _)) by lia]. }
  cbn [fv_Key] in Hcase. rewrite G in Hcase. case_decide.
  - subst fr. apply (json_round _ d); [|done]. split; [done|by constructor].
  - destruct Hcase as (l & ? & ->). eauto.
Qed.

(** a TTL of 9223372037 to 18446744073 seconds (292 to 584 years)
    overflows the 64-bit nanosecond count: the request is acknowledged as
    stored but the value is never served. *)
Theorem long_ttl_is_lost (n : Node) (msg : RPCMessage) (req : StoreRequest)
    (p : Contact) (v : list Z) (clk : nat → Z) :
  node_ok n → RPCMessage_typed msg → times_ok clk → rm_Type msg = RPCStore →
  json_unmarshal (rm_Payload msg) = Ok req → rm_Sender msg = Some p →
  VerifyAndExtract (sr_Value req) (clk 3%nat) = Ok v →
  9223372037 ≤ sr_TTL req ≤ 18446744073 →
  ∃ n' r, handleRPC n msg clk = Ok (n', Some r) ∧ rm_Type r = RPCStoreAck ∧
    json_unmarshal (rm_Payload r) = Ok (mkStoreAckResponse true []) ∧
    ∀ t, clk 4%nat ≤ t → Storage_Get (n_storage n') (sr_Key req) t = None.
Proof.
  intros Hn Hm Ht Hty Hreq Hp Hv Httl. unfold handleRPC. rewrite Hty.
  cbn [Z.eqb RPCStore RPCPing Pos.eqb]. unfold handleStore, ParsePayload, store_ack.
  rewrite Hreq, Hv, Hp. cbv zeta.
  destruct (reply_ok n msg clk RPCStoreAck (mkStoreAckResponse true []) (Forall_nil_2 _))
    as (d & Hd & _ & ->). cbn.
  eexists _, _. split_and!; [done|done| |].
  - apply (json_round _ d); [|done]. apply Forall_nil_2.
  - intros t Hle. unfold Storage_Get, Storage_Store. cbn. rewrite lookup_insert_eq. cbn.
    rewrite (proj2 (Z.ltb_lt _ _)); [done|]. unfold duration_of_seconds, s64, Second.
    rewrite <- (Z.mod_add _ (-1)) by lia. rewrite Z.mod_small by lia. lia.
Qed.

(** the key inside a signed entry is not compared with the key it is
    stored under: any valid entry of any publisher is accepted under any key
    of the sender's choice, and [Lookup] of that key returns its value. *)
Theorem entry_key_unchecked (n : Node) (msg : RPCMessage) (req : StoreRequest) (e : SignedEntry)
    (p : Contact) (clk : nat → Z) (fuel : nat) (net : network) (clks : clocks)
    (order : nat → nat → list nat) (sortf : SortSlice) (now : Z) :
  node_ok n → RPCMessage_typed msg → times_ok clk → rm_Type msg = RPCStore →
  json_unmarshal (rm_Payload msg) = Ok req → rm_Sender msg = Some p →
  json_unmarshal (sr_Value req) = Ok e → authentic e →
  IsExpired e (clk 3%nat) = false → IsExpired e now = false →
  0 ≤ sr_TTL req * Second < 2 ^ 63 → now ≤ clk 4%nat + sr_TTL req * Second →
  se_Key e ≠ sr_Key req →
  ∃ n' r, handleRPC n msg clk = Ok (n', Some r) ∧
    Lookup net clks fuel order n' (sr_Key req) now now = Some (Ok (n', Some (se_Value e))).
Proof.
  intros Hn Hm Ht Hty Hreq Hp He Ha Hx Hx' Httl Hnow _.
  assert (VerifyAndExtract (sr_Value req) (clk 3%nat) = Ok (se_Value e)) as Hv.
  { apply VerifyAndExtract_ok. eauto. }
  assert (VerifyAndExtract (sr_Value req) now = Ok (se_Value e)) as Hv'.
  { apply VerifyAndExtract_ok. eauto. }
  unfold handleRPC. rewrite Hty. cbn [Z.eqb RPCStore RPCPing Pos.eqb].
  unfold handleStore, ParsePayload, store_ack. rewrite Hreq, Hv, Hp. cbv zeta.
  destruct (reply_ok n msg clk RPCStoreAck (mkStoreAckResponse true []) (Forall_nil_2 _))
    as (d & _ & _ & ->). cbn.
  eexists _, _. split; [done|]. unfold Lookup, Storage_Get, Storage_Store, duration_of_seconds. cbn.
  rewrite lookup_insert_eq, s64_id by lia. cbn. rewrite (proj2 (Z.ltb_ge _ _)) by lia.
  by rewrite Hv'.
Qed.

End node_proofs.

(** ** Witnesses *)

#[local] Existing Instances sample_crypto sample_crypto_laws sample_dht_json sample_dht_json_laws.

Definition ex_seed : list Z := replicate 32 5.
Definition ex_node : Node := NewNode (id_of 1) [49] (Some ex_seed).
Definition ex_clk : nat → Z := λ _, 100 * Second.
Definition unwrap {A} (d : A) (o : outcome A) : A := match o with Ok a => a | _ => d end.
Definition no_entry : SignedEntry := mkSignedEntry [] [] [] [] 0 0 [].
Definition ex_entry : SignedEntry :=
  unwrap no_entry (SignEntry (id_of 3) [1; 2] (ed25519_key ex_seed) (3600 * Second) (Some [9]) 0).
Definition ex_data : list Z := unwrap [] (SignedEntry_Encode ex_entry).
Definition ex_store (key : list Z) (ttl : Z) (sender : option Contact) : RPCMessage :=
  mkRPCMessage RPCStore [] sender (unwrap [] (json_marshal (mkStoreRequest key ex_data ttl))) 0.
Definition ex_find (key : list Z) : RPCMessage :=
  mkRPCMessage RPCFindValue [] (Some (ex_contact 2))
    (unwrap [] (json_marshal (mkFindValueRequest key))) 0.

Lemma ex_node_ok : node_ok ex_node.
Proof. apply NewNode_ok; by_decision. Qed.
Lemma ex_times : times_ok ex_clk.
Proof. intros i. unfold ex_clk, json_time. cbn. unfold sample_time, is_s64, Second. lia. Qed.
Lemma ex_store_typed :
  RPCMessage_typed (ex_store (id_of 3) 60 (Some (ex_contact 2))) ∧
  RPCMessage_typed (ex_store (id_of 4) 60 (Some (ex_contact 2))) ∧
  RPCMessage_typed (ex_store (id_of 3) 10000000000 (Some (ex_contact 2))).
Proof.
  unfold json_time_ok. cbn [sample_dht_json]. split_and!; by_decision.
Qed.

(** a STORE request without a sender crashes the node *)
Lemma dht_node_invariant_witness :
  rt_wf (n_routingTable ex_node) ∧
  ∃ data, handleConnection ex_node data ex_clk = Panic.
Proof.
  split.
  - apply (dht_node_invariant (id_of 1) [49] (Some ex_seed) ex_node);
      [by_decision|by_decision|apply rtc_refl].
  - exists (unwrap [] (json_marshal (ex_store (id_of 3) 60 None))). by vm_compute.
Defined.

Lemma store_request_spec_witness :
  ∃ d n', handleRPC ex_node (ex_store (id_of 3) 60 (Some (ex_contact 2))) ex_clk
    = Ok (n', Some (answer ex_node (ex_store (id_of 3) 60 (Some (ex_contact 2))) ex_clk RPCStoreAck d)).
Proof.
  pose proof (store_request_spec ex_node (ex_store (id_of 3) 60 (Some (ex_contact 2)))
    (mkStoreRequest (id_of 3) ex_data 60) ex_clk ex_node_ok (proj1 ex_store_typed) ex_times eq_refl
    ltac:(by vm_compute)) as Hs. cbv zeta in Hs.
  assert (VerifyAndExtract ex_data (100 * Second) = Ok [1; 2]) as V by by vm_compute.
  change (sr_Value _) with ex_data in Hs. change (ex_clk 3%nat) with (100 * Second) in Hs.
  rewrite V in Hs. destruct Hs as (d & E & _). exists d. eexists. exact E.
Defined.

Lemma stored_value_served_witness :
  ∃ n' r d, handleRPC ex_node (ex_store (id_of 3) 60 (Some (ex_contact 2))) ex_clk = Ok (n', Some r)
    ∧ handleRPC n' (ex_find (id_of 3)) ex_clk
      = Ok (n', Some (answer n' (ex_find (id_of 3)) ex_clk RPCResponse d))
    ∧ json_unmarshal d = Ok (mkFindValueResponse true ex_data []).
Proof.
  destruct (stored_value_served ex_node (ex_store (id_of 3) 60 (Some (ex_contact 2)))
    (ex_find (id_of 3)) (mkStoreRequest (id_of 3) ex_data 60) (ex_contact 2) [1; 2] ex_clk ex_clk
    ex_node_ok (proj1 ex_store_typed) ex_times eq_refl ltac:(by vm_compute) eq_refl
    ltac:(by vm_compute) ltac:(by vm_compute) eq_refl ltac:(by vm_compute))
    as (n' & r & d & E1 & E2 & E3).
  exists n', r, d. split_and!; [exact E1|exact E2|].
  rewrite decide_True in E3 by (vm_compute; discriminate). exact E3.
Defined.

Lemma long_ttl_is_lost_witness :
  ∃ n' r, handleRPC ex_node (ex_store (id_of 3) 10000000000 (Some (ex_contact 2))) ex_clk
    = Ok (n', Some r) ∧ rm_Type r = RPCStoreAck ∧
    Storage_Get (n_storage n') (id_of 3) (100 * Second) = None.
Proof.
  destruct (long_ttl_is_lost ex_node (ex_store (id_of 3) 10000000000 (Some (ex_contact 2)))
    (mkStoreRequest (id_of 3) ex_data 10000000000) (ex_contact 2) [1; 2] ex_clk
    ex_node_ok (proj2 (proj2 ex_store_typed)) ex_times eq_refl ltac:(by vm_compute) eq_refl
    ltac:(by vm_compute) ltac:(cbn; lia)) as (n' & r & E & Ety & _ & Hl).
  exists n', r. split_and!; [exact E|exact Ety|]. apply (Hl (100 * Second)). cbn. unfold ex_clk. lia.
Defined.

Lemma entry_key_unchecked_witness :
  se_Key ex_entry = id_of 3 ∧
  ∃ n' r, handleRPC ex_node (ex_store (id_of 4) 60 (Some (ex_contact 2))) ex_clk = Ok (n', Some r) ∧
    Lookup (H1 := sample_sort) (λ _ _ _, inl "refused") (λ _, ex_clk) 0 (λ _ _, []) n' (id_of 4)
      (100 * Second) (100 * Second) = Some (Ok (n', Some [1; 2])).
Proof.
  split; [by vm_compute|].
  destruct (entry_key_unchecked ex_node (ex_store (id_of 4) 60 (Some (ex_contact 2)))
    (mkStoreRequest (id_of 4) ex_data 60) ex_entry (ex_contact 2) ex_clk 0 (λ _ _ _, inl "refused")
    (λ _, ex_clk) (λ _ _, []) sample_sort (100 * Second)
    ex_node_ok (proj1 (proj2 ex_store_typed)) ex_times eq_refl ltac:(by vm_compute) eq_refl
    ltac:(by vm_compute) ltac:(unfold authentic; split_and!; by_decision) ltac:(by vm_compute)
    ltac:(by vm_compute) ltac:(by vm_compute) ltac:(by vm_compute) ltac:(by_decision))
    as (n' & r & E1 & E2).
  exists n', r. split; [exact E1|exact E2].
Defined.
