(* ===== verification/DhtLookupProofs.v ===== *)
(** * Properties of DHT lookups: pkg/dht/protocol.go

    Both iterative lookups end, whatever the peers answer and however the
    goroutines interleave; what they return, and what they leave in the
    routing table. *)

From S2P Require Import Prelude GoBytes Ed25519 NodeID RoutingTable DhtStore DhtSample DhtStoreProofs DhtNode DhtLookup DhtNodeSample DhtNodeProofs.

Section lookup_proofs.
Context `{Ed25519Laws} `{DhtJsonLaws} `{SortSliceLaws}.
Context (net : network) (clk : clocks).
Hypothesis clk_ok : ∀ q, times_ok (clk q).

(** ** Requests *)

Lemma new_message_ok `{JsonLaws A typed plain} ty sender (p : A) c :
  typed p → ∃ d, NewRPCMessage ty sender p c
    = Ok (mkRPCMessage ty (generateRequestID (c 0%nat) (c 1%nat)) (Some sender) d (Unix (c 2%nat)))
    ∧ bytes d.
Proof.
  intros Hp. destruct (json_total p Hp) as (d & Hd & Hb). exists d. unfold NewRPCMessage.
  by rewrite Hd.
Qed.

(** sending a message never panics, and what comes back is well typed *)
Lemma sendRPC_no_panic `{JsonLaws A typed plain} ty sender (p : A) q c :
  typed p → Contact_typed sender → is_byte ty →
  (msg ← NewRPCMessage ty sender p (clk q); sendRPC net q c msg) ≠ Panic.
Proof.
  intros Hp Hs Hty. destruct (new_message_ok ty sender p (clk q) Hp) as (d & -> & Hd). cbn.
  unfold sendRPC. set (m := mkRPCMessage _ _ _ _ _).
  assert (RPCMessage_typed m) as Hm.
  { split_and!; cbn; [done..|apply string_bytes_bytes|done|done|apply Unix_s64]. }
  destruct (json_total m Hm) as (out & -> & _). cbn.
  destruct (net _ _ _) as [|resp]; [done|]. pose proof (json_no_panic (A := RPCMessage) resp).
  by destruct (json_unmarshal resp).
Qed.

Lemma self_contact_typed n q : node_ok n → Contact_typed (self_contact n (clk q 4%nat)).
Proof. intros Hn. split_and!; cbn; [apply Hn|apply Hn|apply clk_ok|by_decision]. Qed.

Lemma query_find_node_ok target sender q c :
  is_id target → Contact_typed sender →
  query_find_node net clk target sender q c ≠ Panic ∧
  ∀ l, query_find_node net clk target sender q c = Ok l → Forall pointer_typed l.
Proof.
  intros Ht Hs. unfold query_find_node.
  pose proof (sendRPC_no_panic RPCFindNode sender (mkFindNodeRequest target) q c Ht Hs
    ltac:(by_decision)) as Hno.
  destruct (NewRPCMessage _ _ _ _) as [msg| |]; cbn in *; [|done..].
  destruct (sendRPC _ _ _ _) as [r| |]; cbn; [|done..].
  pose proof (json_no_panic (A := FindNodeResponse) (rm_Payload r)) as Hp. unfold ParsePayload.
  destruct (json_unmarshal (rm_Payload r)) as [resp| |] eqn:E; cbn; [|done..].
  split; [done|]. intros l [= <-]. exact (json_decoded _ _ E).
Qed.

Lemma query_find_value_ok key sender q c :
  is_id key → Contact_typed sender →
  query_find_value net clk key sender q c ≠ Panic ∧
  ∀ r, query_find_value net clk key sender q c = Ok r → FindValueResponse_typed r.
Proof.
  intros Ht Hs. unfold query_find_value.
  pose proof (sendRPC_no_panic RPCFindValue sender (mkFindValueRequest key) q c Ht Hs
    ltac:(by_decision)) as Hno.
  destruct (NewRPCMessage _ _ _ _) as [msg| |]; cbn in *; [|done..].
  destruct (sendRPC _ _ _ _) as [r| |]; cbn; [|done..]. unfold ParsePayload.
  split; [apply json_no_panic|]. intros resp E. exact (json_decoded _ _ E).
Qed.

(** ** Merging *)

(** what lookups keep in a shortlist: typed contacts other than the node *)
Definition peer (id : list Z) (c : Contact) : Prop := Contact_typed c ∧ c_ID c ≠ id.

(** the node after some contacts were added to its table *)
Definition same_node (n n' : Node) : Prop :=
  node_ok n' ∧ n_ID n' = n_ID n ∧ n_Address n' = n_Address n ∧
  n_storage n' = n_storage n ∧ n_PrivateKey n' = n_PrivateKey n.

Lemma same_node_trans n1 n2 n3 : same_node n1 n2 → same_node n2 n3 → same_node n1 n3.
Proof. unfold same_node. intros (? & ? & ? & ? & ?) (? & ? & ? & ? & ?). split_and!; congruence. Qed.
Lemma same_node_refl n : node_ok n → same_node n n.
Proof. by intros. Qed.

Lemma merge_contacts_cases n queried now contacts new :
  node_ok n → json_time now → Forall pointer_typed contacts → Forall (peer (n_ID n)) new →
  (∃ n' added, merge_contacts n queried now contacts new = Ok (n', new ++ added) ∧
    same_node n n' ∧ Forall (peer (n_ID n)) (new ++ added) ∧
    Forall (λ c, Some c ∈ contacts ∧ c_ID c ∉ queried) added) ∨
  merge_contacts n queried now contacts new = Panic ∧ None ∈ contacts.
Proof.
  intros Hn Ht Hty. revert n new Hn.
  induction Hty as [|o contacts Hc Hty IH]; intros n new Hn Hnew; cbn.
  { left. exists n, []. rewrite app_nil_r. split_and!; [done|by apply same_node_refl|done|constructor]. }
  destruct o as [c|]; [|right; split; [done|by left]].
  destruct (negb _ && negb _) eqn:B; cbn.
  2: { destruct (IH n new Hn Hnew) as [(n' & added & E & Hs & Hp & Ha)|[E Hnull]]; [left|right; split; [done|by right]].
    exists n', added. split_and!; [done..|]. eapply Forall_impl; [exact Ha|].
    intros d [? ?]. split; [by right|done]. }
  apply andb_true_iff in B as [Q%negb_true_iff%bool_decide_eq_false Hne%negb_true_iff].
  assert (c_ID c ≠ n_ID n) by (intros Heq%Equals_spec; congruence).
  destruct (node_add_ok n c now Hn Hc Ht) as (n1 & -> & Hn1 & Hs1 & Hi1 & Ha1 & Hk1). cbn.
  destruct (IH n1 (new ++ [c]) Hn1) as [(n' & added & E & Hs & Hp & Ha)|[E Hnull]]; [| |right; split; [done|by right]].
  { rewrite Hi1. apply Forall_app. split; [done|]. by apply Forall_singleton. }
  left. rewrite <- app_assoc in E, Hp. cbn in E, Hp. exists n', (c :: added). rewrite Hi1 in Hp.
  split_and!; [done| |done|].
  - eapply same_node_trans; [|done]. by split_and!.
  - constructor; [split; [by left|done]|]. eapply Forall_impl; [exact Ha|].
    intros d [? ?]. split; [by right|done].
Qed.

Lemma merge_contacts_ok n queried now contacts new :
  node_ok n → json_time now → Forall pointer_typed contacts → Forall is_Some contacts →
  Forall (peer (n_ID n)) new →
  ∃ n' added, merge_contacts n queried now contacts new = Ok (n', new ++ added) ∧
    same_node n n' ∧ Forall (peer (n_ID n)) (new ++ added) ∧
    Forall (λ c, Some c ∈ contacts ∧ c_ID c ∉ queried) added.
Proof.
  intros Hn Ht Hty Hsome Hnew. destruct (merge_contacts_cases n queried now contacts new Hn Ht Hty Hnew) as [?|[_ Hnull]]; [done|].
  rewrite Forall_forall in Hsome. by destruct (Hsome None Hnull).
Qed.

(** ** Picking the contacts to query *)

Lemma pick_queries_sub queried l c :
  c ∈ pick_queries queried l → c ∈ l ∧ c_ID c ∉ queried.
Proof.
  unfold pick_queries. set (f := λ _ _, _).
  assert (∀ acc, c ∈ foldl f acc l → c ∈ acc ∨ (c ∈ l ∧ c_ID c ∉ queried)) as Hf.
  { induction l as [|d l IH]; intros acc Hin; cbn in *; [by left|].
    apply IH in Hin as [Hin|[Hin Hq]]; [|right; split; [by right|done]].
    unfold f in Hin. destruct (bool_decide_reflect (c_ID d ∈ queried)); cbn in Hin; [by left|].
    destruct (length acc <=? 2)%nat; [|by left].
    apply elem_of_app in Hin as [?| ->%list_elem_of_singleton]; [by left|].
    right. split; [by left|done]. }
  intros Hin. apply Hf in Hin as [Hin|?]; [by apply not_elem_of_nil in Hin|done].
Qed.

(** nothing is picked only when every contact has been queried *)
Lemma pick_queries_nil queried l :
  pick_queries queried l = [] → ∀ c, c ∈ l → c_ID c ∈ queried.
Proof.
  unfold pick_queries. set (f := λ _ _, _).
  assert (∀ l acc, acc ≠ [] → foldl f acc l ≠ []) as Hne.
  { clear l. intros l. induction l as [|d l IH]; intros acc Ha; cbn; [done|]. apply IH. unfold f.
    destruct (negb _ && _); [by destruct acc|done]. }
  induction l as [|d l IH]; intros E c Hin; [by apply not_elem_of_nil in Hin|]. cbn in E.
  unfold f at 2 in E. destruct (bool_decide_reflect (c_ID d ∈ queried)) as [Hd|Hd]; cbn in E.
  - apply elem_of_cons in Hin as [->|Hin]; [done|]. by apply IH.
  - exfalso. by apply (Hne l [d]).
Qed.

Lemma pick_queries_length queried l : (length (pick_queries queried l) ≤ 3)%nat.
Proof.
  unfold pick_queries. set (f := λ _ _, _).
  assert (∀ acc, (length acc ≤ 3)%nat → (length (foldl f acc l) ≤ 3)%nat) as Hf.
  { induction l as [|d l IH]; intros acc Ha; cbn; [done|]. apply IH. unfold f.
    destruct (negb _); cbn [andb]; [|done].
    destruct (Nat.ltb_spec (length acc) Alpha); [|done].
    unfold Alpha in *. rewrite length_app. cbn. lia. }
  apply Hf. cbn. lia.
Qed.

(** ** Keeping the closest *)

Lemma by_distance_spec target a b :
  is_id target → Contact_typed a → Contact_typed b →
  by_distance target b a = false ↔ nearer target a b.
Proof.
  intros Ht [Ha _] [Hb _]. unfold by_distance, nearer. rewrite CloserTo_distance by done.
  apply Z.ltb_ge.
Qed.

Lemma keep_closest_ok target k l :
  is_id target → 0 < k → Forall Contact_typed l →
  let kept := keep_closest target k l in
  (∀ c, c ∈ kept → c ∈ l) ∧ StronglySorted (nearer target) kept ∧
  len kept = Z.min k (len l) ∧
  (∀ first rest c, kept = first :: rest → c ∈ l → nearer target first c) ∧
  ∃ dropped, kept ++ dropped ≡ₚ l ∧ (∀ r d, r ∈ kept → d ∈ dropped → nearer target r d).
Proof.
  intros Ht Hk Hl kept. unfold kept, keep_closest. set (sorted := sort_slice _ _).
  assert (sorted ≡ₚ l) as Hp by apply sort_slice_perm.
  assert (∀ c, c ∈ sorted → Contact_typed c) as Hty.
  { intros c. rewrite Hp. rewrite Forall_forall in Hl. apply Hl. }
  assert (StronglySorted (nearer target) sorted) as Hs.
  { rewrite Forall_forall in Hl. eapply StronglySorted_impl_in; [|apply sort_slice_sorted].
    - intros a b Ha Hb. apply by_distance_spec; auto.
    - intros a b Ha Hb. unfold by_distance. rewrite !CloserTo_distance by (by apply Hl || done).
      rewrite Z.ltb_lt, Z.ltb_ge. lia.
    - intros a b c Ha Hb Hc. unfold by_distance.
      rewrite !CloserTo_distance by (by apply Hl || done). rewrite !Z.ltb_ge. lia. }
  pose proof (Permutation_length Hp) as Hlen.
  replace (if k <? len sorted then take (Z.to_nat k) sorted else sorted)
    with (take (Z.to_nat k) sorted).
  2: { unfold len. destruct (Z.ltb_spec k (Z.of_nat (length sorted))); [done|].
       rewrite take_ge; [done|lia]. }
  split_and!.
  - intros c Hc. rewrite <- Hp. by eapply elem_of_sublist, sublist_take.
  - rewrite <- (take_drop (Z.to_nat k) sorted) in Hs. by eapply StronglySorted_app_1_l.
  - unfold len. rewrite length_take, Hlen. lia.
  - intros first rest c E Hc. rewrite <- Hp in Hc.
    destruct (Z.to_nat k) as [|k'] eqn:Ek; [lia|]. destruct sorted as [|s sorted']; [done|].
    cbn in E. injection E as -> _. apply StronglySorted_inv in Hs as [_ Hf].
    apply elem_of_cons in Hc as [->|Hc]; [unfold nearer; lia|]. rewrite Forall_forall in Hf. auto.
  - exists (drop (Z.to_nat k) sorted). rewrite take_drop. split; [done|].
    rewrite <- (take_drop (Z.to_nat k) sorted) in Hs. intros r d Hr Hd.
    by eapply StronglySorted_app_1_elem_of.
Qed.

(** nothing the node knew is nearer than what is kept, unless it is kept *)
Definition none_nearer (target : list Z) (k : Z) (known l : list Contact) : Prop :=
  ∀ c, c ∈ known → c ∈ l ∨ len l = k ∧ ∀ r, r ∈ l → nearer target r c.

Lemma none_nearer_head target k known first rest :
  StronglySorted (nearer target) (first :: rest) → none_nearer target k known (first :: rest) →
  ∀ c, c ∈ known → nearer target first c.
Proof.
  intros [_ Hs]%StronglySorted_inv Hn c Hc. rewrite Forall_forall in Hs.
  destruct (Hn c Hc) as [[->|?]%elem_of_cons|[_ Hr]]; [unfold nearer; lia|auto|apply Hr; by left].
Qed.

Lemma keep_closest_none_nearer target k known l new :
  is_id target → 0 < k → Forall Contact_typed (l ++ new) → none_nearer target k known l →
  none_nearer target k known (keep_closest target k (l ++ new)).
Proof.
  intros Ht Hk Hty Hl c Hc. pose proof (keep_closest_ok target k _ Ht Hk Hty) as Hok.
  cbn zeta in Hok. set (kept := keep_closest _ _ _) in *.
  destruct Hok as (_ & _ & Hlen & _ & dropped & Hp & Hsep).
  pose proof (Permutation_length Hp) as Hpl. unfold len in Hlen |- *.
  rewrite !length_app in Hpl. rewrite !length_app in Hlen.
  destruct (Hl c Hc) as [Hin|[Hfull Hnear]].
  - assert (c ∈ kept ++ dropped) as [?|Hd]%elem_of_app by (rewrite Hp; apply elem_of_app; by left); [by left|].
    right. split; [|auto]. destruct dropped; [by apply not_elem_of_nil in Hd|]. cbn in Hpl. lia.
  - right. unfold len in Hfull. split; [lia|]. intros r Hr.
    destruct (decide (Distance (c_ID r) target ≤ Distance (c_ID c) target)) as [|Hfar]; [done|exfalso].
    (* everything as near as c is kept, and the shortlist alone is that *)
    set (P := λ d, Distance (c_ID d) target ≤ Distance (c_ID c) target).
    assert (filter P dropped = []) as Hdrop.
    { destruct (filter P dropped) as [|d ds] eqn:F; [done|exfalso].
      assert (d ∈ filter P dropped) as [HP Hd]%list_elem_of_filter by (rewrite F; by left).
      specialize (Hsep r d Hr Hd). unfold P, nearer in *. lia. }
    assert (filter P l = l) as Hall.
    { clear -Hnear. unfold nearer in Hnear. induction l as [|d l IH]; [done|].
      rewrite filter_cons_True by (apply Hnear; by left). f_equal. apply IH. intros ? ?. apply Hnear. by right. }
    pose proof (filter_Permutation P _ _ Hp) as Hf. rewrite !filter_app, Hdrop, Hall, app_nil_r in Hf.
    apply Permutation_length in Hf. rewrite length_app in Hf.
    pose proof (length_filter_lt P kept r Hr Hfar). lia.
Qed.

(** ** A round of iterativeFindNode *)

(** some peer answers with a JSON null among its contacts *)
Definition null_contact_sent (target : list Z) : Prop :=
  ∃ sender q c l, query_find_node net clk target sender q c = Ok l ∧ None ∈ l.
(** no peer does *)
Definition no_null_contacts (target : list Z) : Prop :=
  ∀ sender q c l, query_find_node net clk target sender q c = Ok l → Forall is_Some l.
Lemma no_null_not_sent target : no_null_contacts target → ¬ null_contact_sent target.
Proof.
  intros Hno (sender & q & c & l & Hq & Hl). specialize (Hno _ _ _ _ Hq). rewrite Forall_forall in Hno.
  by destruct (Hno None Hl).
Qed.

Lemma run_events_cases target sender q0 toQuery evs r :
  is_id target → Contact_typed sender →
  node_ok (r_node r) → Forall (peer (n_ID (r_node r))) (r_new r) →
  (∃ r', run_events net clk target sender q0 toQuery r evs = Ok r' ∧
    same_node (r_node r) (r_node r') ∧ Forall (peer (n_ID (r_node r))) (r_new r') ∧
    r_queried r ⊆ r_queried r' ∧
    (∀ id, id ∈ r_queried r' → id ∈ r_queried r ∨ ∃ c, c ∈ toQuery ∧ c_ID c = id) ∧
    (∀ i c, Mark i ∈ evs → toQuery !! i = Some c → c_ID c ∈ r_queried r')) ∨
  run_events net clk target sender q0 toQuery r evs = Panic ∧ null_contact_sent target.
Proof.
  intros Ht Hs. revert r.
  induction evs as [|ev evs IH]; intros r Hn Hnew; cbn.
  { left. exists r. split_and!; [done|by apply same_node_refl|done|done|by left|].
    intros i c Hin. by apply not_elem_of_nil in Hin. }
  assert ((∃ r1, run_event net clk target sender q0 toQuery r ev = Ok r1 ∧
    same_node (r_node r) (r_node r1) ∧ Forall (peer (n_ID (r_node r))) (r_new r1) ∧
    r_queried r ⊆ r_queried r1 ∧
    (∀ id, id ∈ r_queried r1 → id ∈ r_queried r ∨ ∃ c, c ∈ toQuery ∧ c_ID c = id) ∧
    ∀ i c, ev = Mark i → toQuery !! i = Some c → c_ID c ∈ r_queried r1) ∨
    run_event net clk target sender q0 toQuery r ev = Panic ∧ null_contact_sent target)
    as [(r1 & -> & Hs1 & Hnew1 & Hsub & Hsrc & Hmark)|[-> Hsent]]; [|cbn|by right].
  { pose proof (same_node_refl _ Hn) as Hrefl. unfold run_event.
    destruct ev as [i|i]; (destruct (toQuery !! i) as [c|] eqn:L; [|by left; exists r; split_and!; [done..|by left|congruence]]).
    - left. eexists. split_and!; [done..| | |]; cbn; [set_solver| |].
      + intros id [->%elem_of_singleton|?]%elem_of_union; [|by left].
        right. exists c. split; [by eapply list_elem_of_lookup_2|done].
      + intros j d [= <-]. rewrite L. intros [= <-]. set_solver.
    - destruct (query_find_node_ok target sender (q0 + i) c Ht Hs) as [Hno Hty].
      destruct (query_find_node _ _ _ _ _ _) as [l| |] eqn:Q; [| |done].
      2: { by left; exists r; split_and!; [done..|by left|congruence]. }
      destruct (merge_contacts_cases (r_node r) (r_queried r) (clk (q0 + i)%nat 3%nat) l (r_new r) Hn
        (clk_ok _ _) (Hty l eq_refl) Hnew) as [(n' & added & -> & Hs1 & Hp & _)|[-> Hnull]].
      + left. cbn. eexists. split_and!; [done..|by left|done].
      + right. split; [done|]. by exists sender, (q0 + i)%nat, c, l. }
  destruct (IH r1) as [(r' & E & Hs2 & Hnew2 & Hsub2 & Hsrc2 & Hmark2)|?]; [apply Hs1|by rewrite (proj1 (proj2 Hs1))|left|by right].
  rewrite (proj1 (proj2 Hs1)) in Hnew2. exists r'. split_and!.
  - done.
  - by eapply same_node_trans.
  - done.
  - set_solver.
  - intros id [Hin|?]%Hsrc2; [by apply Hsrc|by right].
  - intros i c [Eq|Hin]%elem_of_cons L; [apply Hsub2; by apply (Hmark i c)|by eapply Hmark2].
Qed.

Lemma run_events_ok target sender q0 toQuery evs r :
  is_id target → Contact_typed sender → no_null_contacts target →
  node_ok (r_node r) → Forall (peer (n_ID (r_node r))) (r_new r) →
  ∃ r', run_events net clk target sender q0 toQuery r evs = Ok r' ∧
    same_node (r_node r) (r_node r') ∧ Forall (peer (n_ID (r_node r))) (r_new r') ∧
    r_queried r ⊆ r_queried r' ∧
    (∀ id, id ∈ r_queried r' → id ∈ r_queried r ∨ ∃ c, c ∈ toQuery ∧ c_ID c = id) ∧
    (∀ i c, Mark i ∈ evs → toQuery !! i = Some c → c_ID c ∈ r_queried r').
Proof.
  intros Ht Hs Hnull Hn Hnew. destruct (run_events_cases target sender q0 toQuery evs r Ht Hs Hn Hnew) as [?|[_ Hsent]]; [done|].
  by apply no_null_not_sent in Hsent.
Qed.

(** the state of the lookup between rounds; [known] are the contacts the node
    started from *)
Record lookup_ok (n0 : Node) (target : list Z) (k : Z) (known : list Contact) (l : lookup_state)
  : Prop := {
  lo_node : same_node n0 (l_node l);
  lo_peers : Forall (peer (n_ID n0)) (l_shortlist l);
  lo_sorted : StronglySorted (nearer target) (l_shortlist l);
  lo_len : len (l_shortlist l) ≤ k;
  lo_head : ∃ first rest, l_shortlist l = first :: rest ∧ l_closest l = Some first;
  lo_best : none_nearer target k known (l_shortlist l) }.

(** a finished lookup *)
Definition found_ok (n0 : Node) (target : list Z) (k : Z) (known : list Contact)
  (n' : Node) (result : list Contact) : Prop :=
  same_node n0 n' ∧ Forall (peer (n_ID n0)) result ∧ StronglySorted (nearer target) result ∧
  len result ≤ k ∧ result ≠ [] ∧ none_nearer target k known result.

Lemma peers_typed id l : Forall (peer id) l → Forall Contact_typed l.
Proof. intros Hl. eapply Forall_impl; [exact Hl|]. by intros c [? _]. Qed.

Definition head_distance (target : list Z) (l : lookup_state) : Z :=
  match l_closest l with Some c => Distance (c_ID c) target | None => 0 end.

Lemma find_round_cases n0 target k known sender round evs l :
  is_id target → 0 < k → Contact_typed sender → lookup_ok n0 target k known l →
  (∃ n' result, find_round net clk target k sender round evs l = Ok (Done n' result) ∧
     found_ok n0 target k known n' result) ∨
  (∃ l', find_round net clk target k sender round evs l = Ok (Again l') ∧
     lookup_ok n0 target k known l' ∧
     0 ≤ head_distance target l' < head_distance target l) ∨
  find_round net clk target k sender round evs l = Panic ∧ null_contact_sent target.
Proof.
  intros Ht Hk Hs [Hnode Hpeers Hsort Hlen (first & rest & Hshort & Hclosest) Hbest].
  unfold find_round. destruct (pick_queries _ _) as [|q qs] eqn:Q.
  { left. exists (l_node l), (l_shortlist l). split; [done|]. split_and!; try done. by rewrite Hshort. }
  rewrite <- Q.
  destruct (run_events_cases target sender (round * Alpha) (pick_queries (l_queried l) (l_shortlist l))
    (evs (length (pick_queries (l_queried l) (l_shortlist l))))
    (mkRound (l_node l) (l_queried l) []) Ht Hs (proj1 Hnode) (Forall_nil_2 _))
    as [(r & -> & Hsame & Hnew & _)|[-> Hsent]]; [|by right; right]. cbn in *.
  assert (same_node n0 (r_node r)) as Hn' by (by eapply same_node_trans).
  rewrite (proj1 (proj2 Hnode)) in Hnew.
  assert (Forall (peer (n_ID n0)) (l_shortlist l ++ r_new r)) as Hall by (by apply Forall_app).
  destruct (keep_closest_ok target k _ Ht Hk (peers_typed _ _ Hall)) as (Hsub & Hso & Hle & Hmin & _).
  pose proof (keep_closest_none_nearer target k known _ _ Ht Hk (peers_typed _ _ Hall) Hbest) as Hbest'.
  set (kept := keep_closest _ _ _) in *.
  assert (Forall (peer (n_ID n0)) kept) as Hkp.
  { rewrite Forall_forall in *. intros c Hc. apply Hall, Hsub, Hc. }
  assert (first ∈ l_shortlist l ++ r_new r) as Hfirst by (rewrite Hshort; by left).
  destruct kept as [|f' rest'] eqn:Ek.
  { exfalso. unfold len in Hle. rewrite length_app, Hshort in Hle. cbn in Hle. lia. }
  pose proof (Hmin f' rest' first eq_refl Hfirst) as Hf'.
  rewrite Hclosest. apply Forall_cons in Hkp as [[Hf'ty Hf'ne] Hkp].
  apply Forall_forall with (x := first) in Hall as [Hfty _]; [|done].
  rewrite CloserTo_distance; [|apply Hf'ty|done|apply Hfty].
  destruct (Z.ltb_spec (Distance (c_ID f') target) (Distance (c_ID first) target)).
  - right. left. eexists. split_and!; [done| | |].
    + constructor; cbn; [done|by constructor|done|lia|by exists f', rest'|done].
    + cbn. apply Distance_range; [apply Hf'ty|done].
    + unfold head_distance. cbn. by rewrite Hclosest.
  - left. eexists _, _. split; [done|]. split_and!; [done|by constructor|done|lia|done|done].
Qed.

(** ** iterativeFindNode ends *)

Lemma find_loop_cases n0 target k known sender sched round l :
  is_id target → 0 < k → Contact_typed sender → lookup_ok n0 target k known l →
  ∃ N, (∃ n' result, found_ok n0 target k known n' result ∧
      ∀ fuel, (N ≤ fuel)%nat → find_loop net clk fuel sched target k sender round l = Some (Ok (n', result))) ∨
    null_contact_sent target ∧
      ∀ fuel, (N ≤ fuel)%nat → find_loop net clk fuel sched target k sender round l = Some Panic.
Proof.
  intros Ht Hk Hs. remember (Z.to_nat (head_distance target l)) as d eqn:Hd.
  revert round l Hd. induction (lt_wf d) as [d _ IH]. intros round l Hd Hl.
  destruct (find_round_cases n0 target k known sender round (sched round) l Ht Hk Hs Hl)
    as [(n' & result & E & Hf)|[(l' & E & Hl' & Hlt)|[E Hsent]]].
  - exists 1%nat. left. exists n', result. split; [done|]. intros [|fuel] Hfuel; [lia|]. cbn. by rewrite E.
  - destruct (IH (Z.to_nat (head_distance target l')) ltac:(lia) (S round) l' eq_refl Hl')
      as (N & [(n' & result & Hf & Hrun)|[Hsent Hrun]]); exists (S N); [left; exists n', result|right];
      (split; [done|]; intros [|fuel] Hfuel; [lia|]; cbn; rewrite E; apply Hrun; lia).
  - exists 1%nat. right. split; [done|]. intros [|fuel] Hfuel; [lia|]. cbn. by rewrite E.
Qed.

(** what a finished lookup promises *)
Definition nodes_found (n : Node) (target : list Z) (k : Z) (n' : Node) (result : list Contact) : Prop :=
  same_node n n' ∧ Forall (peer (n_ID n)) result ∧ StronglySorted (nearer target) result ∧
  len result ≤ k ∧ none_nearer target k (GetAllContacts (n_routingTable n)) result.

Lemma iterativeFindNode_cases n target k sched :
  node_ok n → is_id target → 0 < k →
  ∃ N, (∃ n' result, (∀ fuel, (N ≤ fuel)%nat →
      iterativeFindNode net clk fuel sched n target k = Some (Ok (n', result))) ∧ nodes_found n target k n' result) ∨
    null_contact_sent target ∧ ∀ fuel, (N ≤ fuel)%nat → iterativeFindNode net clk fuel sched n target k = Some Panic.
Proof.
  intros Hn Ht Hk. unfold iterativeFindNode.
  destruct (FindClosest_peers n target k Hn Ht ltac:(lia)) as (l & rest & E & Hp & Hlen & Hs & Hsep & Hpeers).
  rewrite E. destruct l as [|first l].
  { exists 0%nat. left. exists n, []. split; [done|]. split_and!; [by apply same_node_refl|done|apply SSorted_nil|unfold len; cbn; lia|].
    intros c Hc. exfalso. rewrite <- Hp in Hc. cbn in Hc. rewrite Size_concat, <- Hp in Hlen.
    destruct rest; [by apply not_elem_of_nil in Hc|]. unfold len in Hlen. cbn [length app] in Hlen. lia. }
  destruct (find_loop_cases n target k (GetAllContacts (n_routingTable n))
    (self_contact n (clk 0%nat 4%nat)) sched 0 (mkLookup n {[n_ID n]} (first :: l) (Some first))
    Ht Hk (self_contact_typed n 0 Hn)) as (N & [(n' & result & Hf & Hrun)|Hsent]).
  { constructor; cbn; [by apply same_node_refl|done|done|lia|by exists first, l|].
    intros c Hc. rewrite <- Hp in Hc. apply elem_of_app in Hc as [Hc|Hc]; [by left|right].
    rewrite Size_concat, <- Hp in Hlen. unfold len in *. rewrite length_app in Hlen.
    destruct rest; [by apply not_elem_of_nil in Hc|]. cbn [length] in *. split; [lia|]. intros r Hr.
    specialize (Hsep r c Hr Hc). unfold nearer. lia. }
  - destruct Hf as (? & ? & ? & ? & _ & ?). exists N. left. by exists n', result.
  - exists N. by right.
Qed.

Lemma iterativeFindNode_ends n target k sched :
  node_ok n → is_id target → 0 < k → no_null_contacts target →
  ∃ N n' result, (∀ fuel, (N ≤ fuel)%nat →
      iterativeFindNode net clk fuel sched n target k = Some (Ok (n', result))) ∧ nodes_found n target k n' result.
Proof.
  intros Hn Ht Hk Hnull. destruct (iterativeFindNode_cases n target k sched Hn Ht Hk) as (N & [(n' & result & ?)|[Hsent _]]); [eauto|].
  by apply no_null_not_sent in Hsent.
Qed.

(** ** iterativeFindValue ends *)

Lemma ids_bounded (X : gset (list Z)) :
  (∀ id, id ∈ X → is_id id) → Z.of_nat (size X) ≤ 2 ^ 160.
Proof.
  intros Hid. unfold size, set_size. cbn.
  rewrite <- (length_fmap be_get).
  assert (be_get <$> elements X ⊆+ seqZ 0 (2 ^ 160)) as Hsub.
  { apply NoDup_submseteq.
    - apply NoDup_fmap_2_strong; [|apply NoDup_elements]. intros a b Ha Hb E.
      rewrite elem_of_elements in Ha, Hb. destruct (Hid a Ha) as [La Ba], (Hid b Hb) as [Lb Bb].
      apply be_get_inj; [done..|congruence|done].
    - intros z (id & -> & Hin)%list_elem_of_fmap. rewrite elem_of_elements in Hin.
      destruct (Hid id Hin) as [L B]. apply elem_of_seqZ.
      pose proof (be_get_bound id B) as Hb. unfold len in Hb. rewrite L in Hb. exact Hb. }
  apply submseteq_length in Hsub. rewrite length_seqZ in Hsub. lia.
Qed.

Lemma mark_all_spec toQuery X id :
  id ∈ mark_all toQuery X ↔ id ∈ X ∨ ∃ c, c ∈ toQuery ∧ c_ID c = id.
Proof.
  unfold mark_all. revert X. induction toQuery as [|c l IH]; intros X; cbn.
  - split; [by left|]. intros [?|(c & Hc & _)]; [done|by apply not_elem_of_nil in Hc].
  - rewrite IH, elem_of_union, elem_of_singleton. split.
    + intros [[->|?]|(d & ? & ?)]; [right; exists c; split; [by left|done]|by left|].
      right. exists d. split; [by right|done].
    + intros [?|(d & [->|Hd]%elem_of_cons & <-)]; [by left; right|by left; left|].
      right. eauto.
Qed.

(** an answer some peer gave in this lookup *)
Definition answered (key : list Z) (r : FindValueResponse) : Prop :=
  ∃ sender q c, query_find_value net clk key sender q c = Ok r.

(** some peer answers with a JSON null among its contacts *)
Definition null_value_sent (key : list Z) : Prop := ∃ r, answered key r ∧ None ∈ fv_Contacts r.
(** no peer does *)
Definition no_null_values (key : list Z) : Prop :=
  ∀ sender q c r, query_find_value net clk key sender q c = Ok r → Forall is_Some (fv_Contacts r).

Lemma collect_results_ok key sender q0 toQuery order :
  is_id key → Contact_typed sender →
  ∃ rs, collect_results net clk key sender q0 toQuery order = Ok rs ∧
    Forall (λ r, FindValueResponse_typed r ∧ answered key r) rs.
Proof.
  intros Hk Hs. induction order as [|i order IH]; cbn; [by exists []|].
  destruct IH as (rs & -> & Hrs). cbn.
  destruct (toQuery !! i) as [c|]; [|by exists rs].
  destruct (query_find_value_ok key sender (q0 + i) c Hk Hs) as [Hno Hty].
  destruct (query_find_value _ _ _ _ _ _) as [r| |] eqn:Q; [|by exists rs|done].
  exists (r :: rs). split; [done|]. constructor; [|done]. split; [by apply Hty|].
  by exists sender, (q0 + i)%nat, c.
Qed.

Lemma handle_results_cases key n queried now rs new :
  node_ok n → json_time now →
  Forall (λ r, FindValueResponse_typed r ∧ answered key r) rs →
  Forall (peer (n_ID n)) new →
  (∃ n' o, handle_results n queried now rs new = Ok (n', o) ∧ same_node n n' ∧
    match o with
    | inl v => ∃ r, answered key r ∧ fv_Found r = true ∧ fv_Value r = v
    | inr new' => Forall (peer (n_ID n)) new'
    end) ∨
  handle_results n queried now rs new = Panic ∧ null_value_sent key.
Proof.
  intros Hn Ht Hrs. revert n new Hn.
  induction Hrs as [|r rs (Hty & Hans) Hrs IH]; intros n new Hn Hnew; cbn.
  { left. exists n, (inr new). split_and!; [done|by apply same_node_refl|done]. }
  destruct (fv_Found r) eqn:F.
  { left. exists n, (inl (fv_Value r)). split_and!; [done|by apply same_node_refl|by exists r]. }
  destruct (merge_contacts_cases n queried now (fv_Contacts r) new Hn Ht (proj2 Hty) Hnew)
    as [(n1 & added & -> & Hs1 & Hp & _)|[-> Hnull]]; cbn; [|by right; split; [|exists r]].
  destruct (IH n1 (new ++ added) (proj1 Hs1)) as [(n' & o & E & Hs2 & Ho)|?]; [|left|by right].
  { by rewrite (proj1 (proj2 Hs1)). }
  exists n', o. split_and!; [done|by eapply same_node_trans|].
  by rewrite (proj1 (proj2 Hs1)) in Ho.
Qed.

(** what a value lookup ends with *)
Definition value_ok (key : list Z) (n0 n' : Node) (res : option (list Z)) : Prop :=
  same_node n0 n' ∧
  ∀ v, res = Some v → ∃ r, answered key r ∧ fv_Found r = true ∧ fv_Value r = v.

Lemma value_loop_cases n0 key sender order round n queried shortlist :
  is_id key → Contact_typed sender → same_node n0 n →
  Forall (peer (n_ID n0)) shortlist → (∀ id, id ∈ queried → is_id id) →
  ∃ N, (∃ n' res, value_ok key n0 n' res ∧ ∀ fuel, (N ≤ fuel)%nat →
      value_loop net clk fuel order key sender round n queried shortlist = Some (Ok (n', res))) ∨
    null_value_sent key ∧ ∀ fuel, (N ≤ fuel)%nat →
      value_loop net clk fuel order key sender round n queried shortlist = Some Panic.
Proof.
  intros Hk Hs. remember (Z.to_nat (2 ^ 160 - Z.of_nat (size queried))) as d eqn:Hd.
  revert round n queried shortlist Hd. induction (lt_wf d) as [d _ IH].
  intros round n queried shortlist Hd Hn Hpeers Hids.
  set (toQuery := pick_queries queried shortlist).
  destruct (decide (toQuery = [])) as [E|E].
  { exists 1%nat. left. exists n, None. split; [by split|]. intros [|fuel] Hf; [lia|]. cbn.
    fold toQuery. by rewrite E. }
  set (queried' := mark_all toQuery queried).
  assert (∀ id, id ∈ queried' → is_id id) as Hids'.
  { intros id [?|(c & Hc & <-)]%mark_all_spec; [auto|]. apply pick_queries_sub in Hc as [Hc _].
    rewrite Forall_forall in Hpeers. apply Hpeers in Hc as [[? _] _]. done. }
  assert (queried ⊂ queried') as Hgrow.
  { assert (∃ c, c ∈ toQuery) as [c Hc] by (destruct toQuery as [|c l]; [done|exists c; by left]).
    pose proof (proj2 (pick_queries_sub _ _ _ Hc)) as Hnew. split.
    - intros id Hin. apply mark_all_spec. by left.
    - intros Hsub. apply Hnew, Hsub, mark_all_spec. eauto. }
  apply subset_size in Hgrow. pose proof (ids_bounded _ Hids').
  destruct (collect_results_ok key sender (round * Alpha) toQuery (order round (length toQuery)) Hk Hs)
    as (rs & Ec & Hrs).
  assert (∀ fuel, value_loop net clk (S fuel) order key sender round n queried shortlist
    = match handle_results n queried' (clk (round * Alpha)%nat 3%nat) rs [] with
      | Panic => Some Panic
      | Err e => Some (Err e)
      | Ok (n1, inl v) => Some (Ok (n1, Some v))
      | Ok (n1, inr []) => Some (Ok (n1, None))
      | Ok (n1, inr new) => value_loop net clk fuel order key sender (S round) n1 queried'
                     (keep_closest key (Z.of_nat K) (shortlist ++ new))
      end) as Hstep.
  { intros fuel. cbn [value_loop]. fold toQuery. destruct toQuery as [|c l]; [done|].
    fold queried'. by rewrite Ec. }
  destruct (handle_results_cases key n queried' (clk (round * Alpha)%nat 3%nat) rs [] (proj1 Hn)
    (clk_ok _ _) Hrs (Forall_nil_2 _)) as [(n1 & o & Eh & Hn1 & Ho)|[Eh Hsent]]; rewrite Eh in Hstep.
  2: { exists 1%nat. right. split; [done|]. intros [|fuel] ?; [lia|apply Hstep]. }
  assert (same_node n0 n1) as Hn01 by (by eapply same_node_trans).
  destruct o as [v|new].
  { exists 1%nat. left. exists n1, (Some v). split; [|intros [|fuel] ?; [lia|apply Hstep]].
    split; [done|]. by intros ? [= <-]. }
  destruct (decide (new = [])) as [->|Hne].
  { exists 1%nat. left. exists n1, None. split; [by split|]. intros [|fuel] ?; [lia|apply Hstep]. }
  rewrite (proj1 (proj2 Hn)) in Ho.
  assert (Forall (peer (n_ID n0)) (shortlist ++ new)) as Hall by (by apply Forall_app).
  destruct (keep_closest_ok key (Z.of_nat K) _ Hk ltac:(unfold K; lia) (peers_typed _ _ Hall)) as (Hsub & _).
  destruct (IH (Z.to_nat (2 ^ 160 - Z.of_nat (size queried'))) ltac:(lia) (S round) n1 queried'
    (keep_closest key (Z.of_nat K) (shortlist ++ new)) eq_refl Hn01) as (N & Hcases).
  { rewrite Forall_forall in *. auto. } { done. }
  assert (∀ out, (∀ fuel, (N ≤ fuel)%nat → value_loop net clk fuel order key sender (S round) n1 queried'
      (keep_closest key (Z.of_nat K) (shortlist ++ new)) = out) →
    ∀ fuel, (S N ≤ fuel)%nat → value_loop net clk fuel order key sender round n queried shortlist = out)
    as Hnext.
  { intros out Hout [|fuel] Hf; [lia|]. rewrite Hstep. destruct new; [done|]. apply Hout. lia. }
  exists (S N). destruct Hcases as [(n' & res & Hok & Hrun)|[Hsent Hrun]]; [left; exists n', res|right]; auto.
Qed.

Lemma iterativeFindValue_cases n key order :
  node_ok n → is_id key →
  ∃ N, (∃ n' res, value_ok key n n' res ∧ ∀ fuel, (N ≤ fuel)%nat →
      iterativeFindValue net clk fuel order n key = Some (Ok (n', res))) ∨
    null_value_sent key ∧ ∀ fuel, (N ≤ fuel)%nat →
      iterativeFindValue net clk fuel order n key = Some Panic.
Proof.
  intros Hn Hk. unfold iterativeFindValue.
  destruct (FindClosest_peers n key (Z.of_nat K) Hn Hk ltac:(lia))
    as (l & rest & E & _ & _ & _ & _ & Hpeers).
  rewrite E. destruct l as [|first l].
  { exists 0%nat. left. exists n, None. split; [|done]. split; [by apply same_node_refl|done]. }
  apply value_loop_cases; try done; [by apply self_contact_typed|].
  intros id ->%elem_of_singleton. apply Hn.
Qed.

(** ** Store *)

Definition acked (req : StoreRequest) (sender : Contact) (q : nat) (contact : Contact) : bool :=
  match (msg ← NewRPCMessage RPCStore sender req (clk q); sendRPC net q contact msg) with
  | Ok response => rm_Type response =? RPCStoreAck
  | _ => false
  end.

Fixpoint count_acked (req : StoreRequest) (sender : Contact) (q : nat) (nodes : list Contact) : Z :=
  match nodes with
  | [] => 0
  | c :: rest => (if acked req sender q c then 1 else 0) + count_acked req sender (S q) rest
  end.

Lemma store_on_counts req sender q nodes count :
  StoreRequest_typed req → Contact_typed sender →
  store_on net clk req sender q nodes count = Ok (count + count_acked req sender q nodes).
Proof.
  intros Hr Hs. revert q count. induction nodes as [|c nodes IH]; intros q count; cbn.
  { f_equal. lia. }
  pose proof (sendRPC_no_panic RPCStore sender req q c Hr Hs ltac:(by_decision)) as Hno.
  unfold acked. destruct (_ ≫= _) as [r| |]; [| |done].
  - rewrite IH. destruct (rm_Type r =? RPCStoreAck); f_equal; lia.
  - rewrite IH. done.
Qed.

Lemma count_acked_nonneg req sender q nodes : 0 ≤ count_acked req sender q nodes.
Proof.
  revert q. induction nodes as [|c nodes IH]; intros q; cbn; [lia|].
  specialize (IH (S q)). destruct (acked _ _ _ _); lia.
Qed.

Lemma count_acked_pos req sender q nodes :
  count_acked req sender q nodes = 0 ↔
  ∀ i c, nodes !! i = Some c → acked req sender (q + i) c = false.
Proof.
  revert q. induction nodes as [|c nodes IH]; intros q; cbn; [by split|].
  pose proof (count_acked_nonneg req sender (S q) nodes). split.
  - intros E [|i] d; cbn.
    + intros [= <-]. rewrite Nat.add_0_r. destruct (acked _ _ _ _); [lia|done].
    + intros L. rewrite <- Nat.add_succ_comm. apply (proj1 (IH (S q))); [|done].
      destruct (acked _ _ _ _); lia.
  - intros Hall. pose proof (Hall 0%nat c eq_refl) as H0'. rewrite Nat.add_0_r in H0'. rewrite H0'.
    rewrite (proj2 (IH (S q))); [done|]. intros i d L. rewrite Nat.add_succ_comm. by apply Hall.
Qed.

Lemma dec_exists_acked req sender q (nodes : list Contact) :
  ¬ (∀ i c, nodes !! i = Some c → acked req sender (q + i) c = false) →
  ∃ i c, nodes !! i = Some c ∧ acked req sender (q + i) c = true.
Proof.
  revert q. induction nodes as [|c nodes IH]; intros q Hn; [by destruct Hn|].
  destruct (acked req sender q c) eqn:A.
  { exists 0%nat, c. by rewrite Nat.add_0_r. }
  destruct (IH (S q)) as (i & d & L & Hd).
  { intros Hall. apply Hn. intros [|i] d; cbn.
    - intros [= <-]. by rewrite Nat.add_0_r.
    - intros L. rewrite <- Nat.add_succ_comm. by apply Hall. }
  exists (S i), d. split; [done|]. by rewrite <- Nat.add_succ_comm.
Qed.

(** ** Properties *)

(** C7: whatever the peers answer and however the goroutines interleave,
    [iterativeFindNode] ends.  Either a peer answers with a contact list that has
    a JSON null in it, which the code dereferences, and the lookup panics; or it
    returns at most [k] contacts, never the node itself, in order of distance
    from the target, and no contact the node knew is missing from the result
    unless the result is full and nothing in it is farther than that contact.
    The node's values and keys are untouched and its routing table stays
    well-formed. *)
Theorem find_node_ends (n : Node) (target : list Z) (k : Z) (sched : nat → nat → list qevent) :
  node_ok n → is_id target → 0 < k →
  ∃ N,
    (∃ n' result, (∀ fuel, (N ≤ fuel)%nat →
        iterativeFindNode net clk fuel sched n target k = Some (Ok (n', result))) ∧
      node_ok n' ∧ n_storage n' = n_storage n ∧
      Forall (λ c, c_ID c ≠ n_ID n) result ∧ StronglySorted (nearer target) result ∧ len result ≤ k ∧
      (∀ c, c ∈ GetAllContacts (n_routingTable n) →
         c ∈ result ∨ len result = k ∧ ∀ r, r ∈ result → nearer target r c)) ∨
    (null_contact_sent target ∧ ∀ fuel, (N ≤ fuel)%nat →
        iterativeFindNode net clk fuel sched n target k = Some Panic).
Proof.
  intros Hn Ht Hk. destruct (iterativeFindNode_cases n target k sched Hn Ht Hk)
    as (N & [(n' & result & Hrun & (Hn' & _ & _ & Hst & _) & Hp & Hs & Hlen & Hbest)|Hsent]); [|eauto].
  exists N. left. exists n', result. split_and!; try done.
  eapply Forall_impl; [exact Hp|]. by intros c [_ ?].
Qed.

(** a round of [iterativeFindNode] that goes on has queried contacts not
    queried before, at most three, and marks exactly those, for every
    interleaving of its goroutines: no identifier is asked in two rounds. *)
Theorem round_queries_new (n0 : Node) (target : list Z) (k : Z) (known : list Contact)
    (sender : Contact) (round : nat) (evs : nat → list qevent) (l l' : lookup_state) :
  is_id target → Contact_typed sender → no_null_contacts target → lookup_ok n0 target k known l →
  (∀ m, valid_sched m (evs m)) →
  find_round net clk target k sender round evs l = Ok (Again l') →
  let asked := pick_queries (l_queried l) (l_shortlist l) in
  asked ≠ [] ∧ (length asked ≤ 3)%nat ∧
  (∀ c, c ∈ asked → c ∈ l_shortlist l ∧ c_ID c ∉ l_queried l) ∧
  (∀ id, id ∈ l_queried l' ↔ id ∈ l_queried l ∨ ∃ c, c ∈ asked ∧ c_ID c = id).
Proof.
  intros Ht Hs Hnull Hl Hev E asked. split_and!.
  - intros Ha. unfold find_round in E. fold asked in E. by rewrite Ha in E.
  - apply pick_queries_length.
  - intros c. apply pick_queries_sub.
  - assert (∃ r, run_events net clk target sender (round * Alpha) asked
      (mkRound (l_node l) (l_queried l) []) (evs (length asked)) = Ok r ∧ l_queried l' = r_queried r)
      as (r & Er & ->).
    { unfold find_round in E. fold asked in E. destruct asked as [|q qs]; [done|].
      destruct (run_events _ _ _ _ _ _ _ _) as [r| |]; [|done..]. exists r. split; [done|].
      cbn in E. repeat case_match; by simplify_eq. }
    destruct (run_events_ok target sender (round * Alpha) asked (evs (length asked))
      (mkRound (l_node l) (l_queried l) []) Ht Hs Hnull (proj1 (lo_node _ _ _ _ _ Hl)) (Forall_nil_2 _))
      as (r' & Er' & _ & _ & Hsub & Hsrc & Hmark).
    rewrite Er in Er'. injection Er' as <-. cbn in *. intros id. split; [by apply Hsrc|].
    intros [Hin|(c & Hc & <-)]; [by apply Hsub|].
    apply list_elem_of_lookup in Hc as [i Hi]. eapply Hmark; [|exact Hi].
    rewrite (proj1 (Hev (length asked))). apply elem_of_app. left. apply list_elem_of_fmap_2.
    apply elem_of_seq. apply lookup_lt_Some in Hi. lia.
Qed.

(** C20: whatever the peers answer and in whatever order, [Lookup] ends.  A
    value it returns is one that was signed: it comes from a locally stored or
    received entry whose signature verifies and which has not expired.  A
    local entry that no longer verifies is deleted.  The one other end is a
    panic, and only when the node stores no live entry and some peer answers
    with a contact list that has a JSON null in it, which the code dereferences. *)
Theorem lookup_authentic (n : Node) (key : list Z) (order : nat → nat → list nat) (now now' : Z) :
  node_ok n → is_id key →
  ∃ N,
    (∃ n' res, (∀ fuel, (N ≤ fuel)%nat →
        Lookup net clk fuel order n key now now' = Some (Ok (n', res))) ∧ node_ok n' ∧
      (∀ v, res = Some v → ∃ data e,
         (Storage_Get (n_storage n) key now = Some data ∨
          ∃ r, answered key r ∧ fv_Found r = true ∧ fv_Value r = data) ∧
         json_unmarshal data = Ok e ∧ authentic e ∧ IsExpired e now' = false ∧ v = se_Value e) ∧
      (∀ data, Storage_Get (n_storage n) key now = Some data → res = None →
         n_storage n' = delete key (n_storage n))) ∨
    (Storage_Get (n_storage n) key now = None ∧ null_value_sent key ∧ ∀ fuel, (N ≤ fuel)%nat →
        Lookup net clk fuel order n key now now' = Some Panic).
Proof.
  intros Hn Hk. unfold Lookup. destruct (Storage_Get _ _ _) as [data|] eqn:G.
  - pose proof (VerifyAndExtract_no_panic data now' (json_no_panic _)) as Hno.
    exists 0%nat. left. destruct (VerifyAndExtract data now') as [v| |] eqn:V; [| |done].
    + exists n, (Some v). split_and!; [done..| |done]. intros ? [= <-].
      apply VerifyAndExtract_ok in V as (e & He & Ha & Hx & Hv). exists data, e. eauto 10.
    + exists (with_storage n (Storage_Delete (n_storage n) key)), None.
      split_and!; try done. apply with_storage_ok; [done|].
      eapply stored_ok_sub; [apply delete_subseteq|apply (ok_stored _ Hn)].
  - destruct (iterativeFindValue_cases n key order Hn Hk) as (N & [(n' & res & [Hs Hv] & Hrun)|[Hsent Hrun]]);
      exists N; [left|right; split_and!; [done..|]; intros fuel Hf; cbn; by rewrite (Hrun fuel Hf)].
    destruct res as [data|].
    2: { exists n', None. split_and!; try done; [|apply Hs]. intros fuel Hf.
         cbn. by rewrite (Hrun fuel Hf). }
    pose proof (VerifyAndExtract_no_panic data now' (json_no_panic _)) as Hno.
    exists n', (match VerifyAndExtract data now' with Ok v => Some v | _ => None end).
    split_and!; [|apply Hs| |done].
    + intros fuel Hf. cbn. rewrite (Hrun fuel Hf). cbn. by destruct (VerifyAndExtract data now').
    + intros v E. destruct (VerifyAndExtract data now') as [w| |] eqn:V; simplify_eq.
      apply VerifyAndExtract_ok in V as (e & He & Ha & Hx & Hw). exists data, e. eauto 10.
Qed.

(** [Store] ends, and reports success exactly when at least one of the
    closest nodes sent back a STORE acknowledgement; whether that
    acknowledgement says the value was stored or rejected is not looked at. *)
Theorem store_reports (n : Node) (seed key value nonce : list Z) (ttl now : Z) (q0 : nat)
    (sched : nat → nat → list qevent) :
  node_ok n → is_id key → bytes value → bytes nonce → array 32 seed →
  n_PrivateKey n = ed25519_key seed → is_s64 (int64_of (Seconds ttl)) → no_null_contacts key →
  ∃ N n' nodes req report, (∀ fuel, (N ≤ fuel)%nat →
      Store net clk fuel sched q0 n key value ttl (Some nonce) now = Some (Ok (n', report))) ∧
    node_ok n' ∧ sr_Key req = key ∧ (∃ e, json_unmarshal (sr_Value req) = Ok e ∧
       authentic e ∧ se_Key e = key ∧ se_Value e = value) ∧
    (report = Ok tt ↔ ∃ i c, nodes !! i = Some c ∧
       acked req (self_contact n' (clk q0 4%nat)) (q0 + i) c = true) ∧
    (GetAllContacts (n_routingTable n) ≠ [] → nodes ≠ []).
Proof.
  intros Hn Hk Hv Hnonce Hseed Hpk Httl Hnull.
  destruct (iterativeFindNode_ends n key (Z.of_nat K) sched Hn Hk ltac:(unfold K; lia) Hnull)
    as (N & n' & nodes & Hrun & (Hn' & Hid & _ & _ & Hpk') & _ & _ & _ & Hbest).
  destruct (SignEntry_ok seed key value nonce ttl now Hseed Hk Hv Hnonce Httl)
    as (e & data & Hsign & Henc & Hdec & Hb & Ha & Hek & Hev & _).
  exists N, n', nodes, (mkStoreRequest key data (int64_of (Seconds ttl))).
  assert (GetAllContacts (n_routingTable n) ≠ [] → nodes ≠ []) as Hne.
  { intros Hc. destruct (GetAllContacts (n_routingTable n)) as [|c cs]; [done|].
    intros ->. by destruct (Hbest c ltac:(by left)) as [?%not_elem_of_nil|[? _]]. }
  set (req := mkStoreRequest _ _ _). set (sender := self_contact n' (clk q0 4%nat)).
  assert (StoreRequest_typed req) as Hreq by done.
  pose proof (store_on_counts req sender q0 nodes 0 Hreq (self_contact_typed n' q0 Hn')) as Hcount.
  exists (match nodes with [] => Err "no nodes available to store key"
     | _ => if count_acked req sender q0 nodes =? 0 then Err "failed to store on any node" else Ok tt end).
  split_and!; [|done|done|by exists e| |done].
  - intros fuel Hf. unfold Store. rewrite (Hrun fuel Hf). cbn [mbind option_bind outcome_bind].
    destruct nodes as [|c nodes]; [done|]. rewrite Hpk', Hpk, Hsign. cbn [wrap_err].
    rewrite Henc. cbn [wrap_err]. fold req sender. rewrite Hcount. cbn [mbind outcome_bind].
    rewrite Z.add_0_l. by destruct (_ =? 0).
  - pose proof (count_acked_pos req sender q0 nodes) as Hpos. destruct nodes as [|c nodes].
    { split; [done|]. by intros (i & ? & ? & _). }
    destruct (Z.eqb_spec (count_acked req sender q0 (c :: nodes)) 0) as [E|E].
    + split; [done|]. intros (i & d & L & Hack). rewrite (proj1 Hpos E i d L) in Hack. done.
    + split; [intros _|done]. apply dec_exists_acked. intros Hall. by apply E, Hpos.
Qed.

(** [Bootstrap] ends and leaves a well-formed node. *)
Theorem bootstrap_ends (n : Node) (peer0 : Contact) (now : Z) (sched : nat → nat → list qevent) :
  node_ok n → Contact_typed peer0 → json_time now → no_null_contacts (n_ID n) →
  ∃ N n', node_ok n' ∧ n_ID n' = n_ID n ∧ n_storage n' = n_storage n ∧
    ∀ fuel, (N ≤ fuel)%nat → Bootstrap net clk fuel sched n peer0 now = Some (Ok n').
Proof.
  intros Hn Hc Ht Hnull. unfold Bootstrap.
  destruct (node_add_ok n peer0 now Hn Hc Ht) as (n1 & -> & Hn1 & Hs1 & Hi1 & _).
  rewrite <- Hi1 in Hnull.
  destruct (iterativeFindNode_ends n1 (n_ID n1) (Z.of_nat K) sched Hn1 (ok_id _ Hn1)
    ltac:(unfold K; lia) Hnull) as (N & n' & l & Hrun & (Hn' & Hid & _ & Hst & _) & _).
  exists N, n'. split_and!; [done|congruence..|]. intros fuel Hf. rewrite Hi1 in *.
  by rewrite (Hrun fuel Hf).
Qed.

End lookup_proofs.

(** ** Witnesses

    A network in which every peer sends the same bytes back. *)

#[local] Existing Instances sample_crypto sample_crypto_laws sample_dht_json sample_dht_json_laws
  sample_sort sample_sort_laws.

Definition const_net (reply : list Z) : network := λ _ _ _, inr reply.
Definition ex_clocks : clocks := λ _, ex_clk.
Definition ex_reply (ty : Z) (payload : list Z) : list Z :=
  unwrap [] (json_marshal (mkRPCMessage ty [] None payload 0)).
Definition nodes_reply (contacts : list (option Contact)) : list Z :=
  ex_reply RPCResponse (unwrap [] (json_marshal (mkFindNodeResponse contacts))).
Definition value_reply (v : list Z) : list Z :=
  ex_reply RPCResponse (unwrap [] (json_marshal (mkFindValueResponse true v []))).
Definition reject_reply : list Z :=
  ex_reply RPCStoreAck (unwrap [] (json_marshal (mkStoreAckResponse false [1]))).

(** the node [ex_node] after it met contact 2 *)
Definition ex_node2 : Node := unwrap ex_node (node_add ex_node (ex_contact 2) 0).
Definition one_by_one : nat → nat → list qevent := λ _ m, i ← seq 0 m; [Mark i; Merge i].

Lemma ex_clocks_ok q : times_ok (ex_clocks q).
Proof. apply ex_times. Qed.
Lemma ex_contact_typed b : is_id (id_of b) → Contact_typed (ex_contact b).
Proof. intros Hb. split_and!; [done|by_decision|by_decision|by_decision]. Qed.
Lemma ex_node2_ok : node_ok ex_node2.
Proof.
  destruct (node_add_ok ex_node (ex_contact 2) 0 ex_node_ok) as (n' & E & Hn' & _);
    [apply ex_contact_typed; by_decision|by_decision|].
  unfold ex_node2. by rewrite E.
Qed.

Lemma const_net_contacts reply target sender q c l :
  query_find_node (const_net reply) ex_clocks target sender q c = Ok l →
  ∃ m r, json_unmarshal reply = Ok m ∧ json_unmarshal (rm_Payload m) = Ok r ∧ l = fn_Contacts r.
Proof.
  unfold query_find_node, sendRPC, const_net, ParsePayload. intros E. outcome_inv.
  destruct (json_unmarshal reply); simplify_eq/=. eauto 10.
Qed.

Lemma ex_no_nulls : no_null_contacts (const_net (nodes_reply [Some (ex_contact 7)])) ex_clocks (id_of 9).
Proof.
  intros sender q c l (m & r & E1 & E2 & ->)%const_net_contacts. vm_compute in E1.
  injection E1 as <-. vm_compute in E2. injection E2 as <-. by repeat constructor.
Qed.

Lemma reject_no_nulls key : no_null_contacts (const_net reject_reply) ex_clocks key.
Proof.
  intros sender q c l (m & r & E1 & E2 & ->)%const_net_contacts. vm_compute in E1.
  injection E1 as <-. vm_compute in E2. discriminate E2.
Qed.

Lemma const_net_value reply key sender q c r :
  query_find_value (const_net reply) ex_clocks key sender q c = Ok r →
  ∃ m, json_unmarshal reply = Ok m ∧ json_unmarshal (rm_Payload m) = Ok r.
Proof.
  unfold query_find_value, sendRPC, const_net, ParsePayload. intros E. outcome_inv.
  destruct (json_unmarshal reply); simplify_eq/=. eauto 10.
Qed.

Lemma ex_value_no_nulls key : no_null_values (const_net (value_reply ex_data)) ex_clocks key.
Proof.
  intros sender q c r (m & E1 & E2)%const_net_value. vm_compute in E1.
  injection E1 as <-. vm_compute in E2. injection E2 as <-. constructor.
Qed.

Definition found_ids (o : option (outcome (Node * list Contact))) : list (list Z) :=
  match o with Some (Ok (_, l)) => c_ID <$> l | _ => [] end.

Lemma find_node_ends_witness :
  (∃ N n' result, ∀ fuel, (N ≤ fuel)%nat →
    iterativeFindNode (const_net (nodes_reply [Some (ex_contact 7)])) ex_clocks fuel one_by_one
      ex_node2 (id_of 9) 20 = Some (Ok (n', result))) ∧
  found_ids (iterativeFindNode (const_net (nodes_reply [Some (ex_contact 7)])) ex_clocks 5 one_by_one
      ex_node2 (id_of 9) 20) = [id_of 2; id_of 7].
Proof.
  split; [|by vm_compute].
  destruct (find_node_ends (const_net (nodes_reply [Some (ex_contact 7)])) ex_clocks ex_clocks_ok
    ex_node2 (id_of 9) 20 one_by_one ex_node2_ok ltac:(by_decision) ltac:(lia))
    as (N & [(n' & result & Hrun & _)|[Hsent _]]); [by exists N, n', result|].
  exfalso. by eapply no_null_not_sent, Hsent; apply ex_no_nulls.
Defined.

(** a JSON null among the contacts a peer sends makes the lookup panic *)
Lemma null_contact_panics :
  iterativeFindNode (const_net (nodes_reply [None])) ex_clocks 1 one_by_one ex_node2 (id_of 9) 20
  = Some Panic.
Proof. by vm_compute. Qed.

(** the same contact, answered by two peers of one round, is kept twice *)
Definition ex_node3 : Node := unwrap ex_node2 (node_add ex_node2 (ex_contact 3) 0).
Lemma shortlist_duplicates :
  found_ids (iterativeFindNode (const_net (nodes_reply [Some (ex_contact 7)])) ex_clocks 5 one_by_one
    ex_node3 (id_of 9) 20) = [id_of 3; id_of 2; id_of 7; id_of 7].
Proof. by vm_compute. Qed.

Lemma one_by_one_valid m r : valid_sched m (one_by_one r m).
Proof.
  unfold one_by_one. split.
  - generalize 0%nat. induction m as [|m IH]; intros s; [done|]. cbn. rewrite IH.
    by rewrite <- Permutation_middle.
  - intros i. generalize 0%nat. induction m as [|m IH]; intros s pre post E; cbn in E.
    { by destruct pre. }
    destruct pre as [|e1 [|e2 pre]]; cbn in E; [done|injection E as <- <- _; by left|].
    injection E as <- <- E. do 2 right. by eapply IH.
Qed.

(** a peer closer to the target than contact 2 keeps the lookup going *)
Definition ex_lookup : lookup_state := mkLookup ex_node2 {[id_of 1]} [ex_contact 2] (Some (ex_contact 2)).
Lemma ex_lookup_ok : lookup_ok ex_node2 (id_of 7) 20 [] ex_lookup.
Proof.
  constructor; cbn.
  - apply same_node_refl, ex_node2_ok.
  - apply Forall_singleton. split; [apply ex_contact_typed|]; by_decision.
  - repeat constructor.
  - by vm_compute.
  - by exists (ex_contact 2), [].
  - intros c Hc. by apply not_elem_of_nil in Hc.
Qed.
Lemma ex_no_nulls7 : no_null_contacts (const_net (nodes_reply [Some (ex_contact 7)])) ex_clocks (id_of 7).
Proof.
  intros sender q c l (m & r & E1 & E2 & ->)%const_net_contacts. vm_compute in E1.
  injection E1 as <-. vm_compute in E2. injection E2 as <-. by repeat constructor.
Qed.

Lemma round_queries_new_witness :
  ∃ l', find_round (const_net (nodes_reply [Some (ex_contact 7)])) ex_clocks (id_of 7) 20
      (ex_contact 1) 0 (one_by_one 0) ex_lookup = Ok (Again l') ∧
    (∀ id, id ∈ l_queried l' ↔ id ∈ l_queried ex_lookup ∨
       ∃ c, c ∈ pick_queries (l_queried ex_lookup) (l_shortlist ex_lookup) ∧ c_ID c = id).
Proof.
  eexists. split; [vm_compute; reflexivity|].
  apply (round_queries_new (const_net (nodes_reply [Some (ex_contact 7)])) ex_clocks ex_clocks_ok
    ex_node2 (id_of 7) 20 [] (ex_contact 1) 0 (one_by_one 0) ex_lookup);
    [by_decision|apply ex_contact_typed; by_decision|apply ex_no_nulls7|apply ex_lookup_ok
    |intros m; apply one_by_one_valid|vm_compute; reflexivity].
Defined.

Lemma lookup_authentic_witness :
  (∃ N n' res, ∀ fuel, (N ≤ fuel)%nat →
    Lookup (const_net (value_reply ex_data)) ex_clocks fuel (λ _, seq 0) ex_node2 (id_of 3) 0 0
    = Some (Ok (n', res))) ∧
  Lookup (const_net (value_reply ex_data)) ex_clocks 5 (λ _, seq 0) ex_node2 (id_of 3) 0 0
  = Some (Ok (ex_node2, Some [1; 2])).
Proof.
  split; [|by vm_compute].
  destruct (lookup_authentic (const_net (value_reply ex_data)) ex_clocks ex_clocks_ok ex_node2 (id_of 3)
    (λ _, seq 0) 0 0 ex_node2_ok ltac:(by_decision))
    as (N & [(n' & res & Hrun & _)|(_ & (r & (sender & q & c & Hq) & Hnull) & _)]); [by exists N, n', res|].
  exfalso. apply ex_value_no_nulls in Hq. rewrite Forall_forall in Hq. by destruct (Hq None Hnull).
Defined.

(** every peer rejects the value, and [Store] reports success *)
Lemma store_reports_witness :
  (∃ N n' report, ∀ fuel, (N ≤ fuel)%nat →
    Store (const_net reject_reply) ex_clocks fuel one_by_one 100 ex_node2 (id_of 3) [1; 2]
      (3600 * Second) (Some [9]) 0 = Some (Ok (n', report))) ∧
  Store (const_net reject_reply) ex_clocks 5 one_by_one 100 ex_node2 (id_of 3) [1; 2]
    (3600 * Second) (Some [9]) 0 = Some (Ok (ex_node2, Ok tt)).
Proof.
  split; [|by vm_compute].
  destruct (store_reports (const_net reject_reply) ex_clocks ex_clocks_ok ex_node2 ex_seed (id_of 3)
    [1; 2] [9] (3600 * Second) 0 100 one_by_one ex_node2_ok ltac:(by_decision) ltac:(by_decision)
    ltac:(by_decision) ltac:(by_decision) ltac:(by vm_compute) ltac:(by_decision) (reject_no_nulls _))
    as (N & n' & nodes & req & report & Hrun & _).
  exists N, n', report. exact Hrun.
Defined.

Lemma bootstrap_ends_witness :
  ∃ N n', ∀ fuel, (N ≤ fuel)%nat →
    Bootstrap (const_net reject_reply) ex_clocks fuel one_by_one ex_node (ex_contact 2) 0 = Some (Ok n').
Proof.
  destruct (bootstrap_ends (const_net reject_reply) ex_clocks ex_clocks_ok ex_node (ex_contact 2) 0
    one_by_one ex_node_ok (ex_contact_typed 2 ltac:(by_decision)) ltac:(by_decision) (reject_no_nulls _))
    as (N & n' & _ & _ & _ & Hrun).
  exists N, n'. exact Hrun.
Defined.
