(* ===== verification/GoText.v ===== *)
(** * Facts about text

    Go strings are byte strings; [pretty] is [%d].  These lemmas let keys that
    are built with [fmt.Sprintf] be taken apart again. *)

From S2P Require Import Prelude GoBytes DhtNode.

Lemma string_bytes_app a b : string_bytes (a +:+ b) = string_bytes a ++ string_bytes b.
Proof.
  unfold string_bytes. rewrite <- fmap_app. f_equal. induction a as [|c a IH]; [done|].
  change (c :: String.list_ascii_of_string (a +:+ b) = c :: (String.list_ascii_of_string a ++ String.list_ascii_of_string b)).
  by rewrite IH.
Qed.

Lemma bytes_string_bytes s : bytes (string_bytes s).
Proof.
  unfold string_bytes, bytes. apply Forall_fmap, Forall_true. intros a.
  pose proof (Ascii.nat_ascii_bounded a). unfold is_byte. cbn. lia.
Qed.

#[export] Instance string_bytes_inj : Inj (=) (=) string_bytes.
Proof.
  intros a. induction a as [|c a IH]; intros [|d b]; try done. unfold string_bytes. cbn.
  intros E. injection E as Ec E. apply Nat2Z.inj in Ec. apply (f_equal Ascii.ascii_of_nat) in Ec.
  rewrite !Ascii.ascii_nat_embedding in Ec. f_equal; [done|]. by apply IH.
Qed.

(** ** Decimal numbers *)

Definition decimal (l : list Z) : Prop := Forall (λ b, b = 45 ∨ 48 ≤ b ≤ 57) l.
#[export] Instance decimal_dec l : Decision (decimal l).
Proof. unfold decimal. apply _. Defined.

Lemma pretty_N_go_decimal x s : decimal (string_bytes s) → decimal (string_bytes (pretty_N_go x s)).
Proof.
  revert s. induction (N.lt_wf_0 x) as [x _ IH]; intros s Hs.
  destruct (decide (x = 0)%N) as [->|Hx]; [by rewrite pretty_N_go_0|].
  rewrite pretty_N_go_step by lia. apply IH; [apply N.div_lt; lia|].
  change (string_bytes (String (pretty_N_char (x `mod` 10)) s))
    with (Z.of_nat (Ascii.nat_of_ascii (pretty_N_char (x `mod` 10))) :: string_bytes s).
  constructor; [|done]. pose proof (N.mod_lt x 10 ltac:(lia)) as Hm. unfold pretty_N_char.
  right. clear. repeat case_match; vm_compute; split; discriminate.
Qed.

Lemma pretty_N_decimal (x : N) : decimal (string_bytes (pretty x)).
Proof.
  unfold pretty, pretty_N. case_decide; [by_decision|]. apply pretty_N_go_decimal. constructor.
Qed.

Lemma pretty_decimal (z : Z) : decimal (string_bytes (pretty z)).
Proof.
  unfold pretty, pretty_Z. destruct z; [by_decision|apply pretty_N_decimal|].
  rewrite string_bytes_app. apply Forall_app. split; [by_decision|apply pretty_N_decimal].
Qed.

Lemma decimal_ascii l : decimal l → ascii l.
Proof. intros Hl. eapply Forall_impl; [exact Hl|]. cbn. lia. Qed.
Lemma decimal_not_elem l b : decimal l → b < 45 ∨ b = 46 ∨ b = 47 ∨ 57 < b → b ∉ l.
Proof. unfold decimal. rewrite Forall_forall. intros Hl Hb Hi. apply Hl in Hi. lia. Qed.

Lemma ascii_app a b : ascii (a ++ b) ↔ ascii a ∧ ascii b.
Proof. apply Forall_app. Qed.
Lemma ascii_bytes l : ascii l → bytes l.
Proof. intros Hl. eapply Forall_impl; [exact Hl|]. unfold is_byte. cbn. lia. Qed.
#[export] Instance ascii_dec l : Decision (ascii l).
Proof. unfold ascii. apply _. Defined.

(** ** Separators *)

(** what follows the last separator is determined *)
Lemma app_sep_inj {A} (x : A) a d a' d' :
  x ∉ d → x ∉ d' → a ++ x :: d = a' ++ x :: d' → a = a' ∧ d = d'.
Proof.
  revert a'. induction a as [|y a IH]; intros [|y' a'] Hd Hd' E; cbn in E; simplify_eq.
  - done.
  - exfalso. apply Hd. apply elem_of_app. right. left.
  - exfalso. apply Hd'. apply elem_of_app. right. left.
  - match goal with Ea : a ++ _ = _ |- _ => destruct (IH a' Hd Hd' Ea) as [-> ->] end. done.
Qed.
