(* ===== verification/MeshErasure.v ===== *)
(** * Erasure coding of chunks: pkg/meshstorage/erasure.go

    A shard is a byte slice or [nil]; [ReedSolomon] is the encoder of
    github.com/klauspost/reedsolomon for 10 data and 5 parity shards, with the
    documented behaviour the code relies on in [ReedSolomonLaws]. *)

From S2P Require Import Prelude GoBytes DhtStore DhtSample.
From Stdlib Require Import SpecFloat.

(** an element of [[][]byte]; [None] is [nil] *)
Abbreviation shard := (option (list Z)).

Definition DataShards : Z := 10.
Definition ParityShards : Z := 5.
Definition TotalShards : Z := DataShards + ParityShards.
Definition MinShardsForRecovery : Z := DataShards.
Definition HealthExcellent : Z := 15.
Definition HealthGood : Z := 13.
Definition HealthDegraded : Z := 11.
Definition HealthCritical : Z := 10.

(** how many shards there are *)
Definition present (shards : list shard) : Z := len (filter is_Some shards).

Class ReedSolomon := {
  rs_Split : list Z → outcome (list shard);
  rs_Encode : list shard → outcome (list shard);
  rs_Reconstruct : list shard → outcome (list shard);
  rs_Verify : list shard → outcome bool }.

Class ReedSolomonLaws `{ReedSolomon} := {
  (** 15 shards of one size, the first ten of them the data, filled up *)
  rs_split_ok : ∀ data, data ≠ [] → bytes data →
    ∃ shards pad n, rs_Split data = Ok (Some <$> shards) ∧ length shards = 15%nat ∧ (0 < n)%nat ∧
      Forall (λ s, length s = n ∧ bytes s) shards ∧ mjoin (take 10 shards) = data ++ pad;
  (** encoding replaces the parity shards *)
  rs_encode_ok : ∀ shards n, length shards = 15%nat → (0 < n)%nat →
    Forall (λ s, length s = n ∧ bytes s) shards →
    ∃ parity, rs_Encode (Some <$> shards) = Ok (Some <$> take 10 shards ++ parity) ∧
      length parity = 5%nat ∧ Forall (λ s, s ≠ [] ∧ bytes s) parity;
  (** any ten shards of an encoding give all of them *)
  rs_reconstruct_ok : ∀ shards code got, rs_Encode shards = Ok code →
    length got = length code → MinShardsForRecovery ≤ present got →
    (∀ i s, got !! i = Some (Some s) → code !! i = Some (Some s)) → rs_Reconstruct got = Ok code;
  (** what is reconstructed has every shard, whatever the others hold *)
  rs_reconstruct_filled : ∀ got code, length got = 15%nat →
    (∀ i s, got !! i = Some (Some s) → s ≠ [] ∧ bytes s) → rs_Reconstruct got = Ok code →
    length code = 15%nat ∧ ∀ i s, code !! i = Some s → ∃ b, s = Some b ∧ b ≠ [] ∧ bytes b;
  rs_verify_ok : ∀ shards code, rs_Encode shards = Ok code → rs_Verify code = Ok true }.

Record EncodedData := mkEncodedData {
  ed_Shards : list shard; ed_ShardSize : Z; ed_OriginalSize : Z }.

(** the bytes of a shard, none for [nil] *)
Definition shard_bytes (s : shard) : list Z := default [] s.

Section erasure.
Context `{ReedSolomon}.

Definition Encode (data : list Z) : outcome EncodedData :=
  if len data =? 0 then Err "cannot encode empty data"
  else
    let originalSize := len data in
    shards ← wrap_err "failed to split data: " (rs_Split data);
    shards ← wrap_err "failed to encode parity: " (rs_Encode shards);
    match shards with
    | shard0 :: _ => Ok (mkEncodedData shards (len (shard_bytes shard0)) originalSize)
    | [] => Panic
    end.

(** [shardsCopy[i]] for [i < DataShards], appended; a short slice panics *)
Fixpoint join_data (n : nat) (shards : list shard) : outcome (list Z) :=
  match n with
  | O => Ok []
  | S n' =>
      match shards with
      | [] => Panic
      | s :: shards' => rest ← join_data n' shards'; Ok (shard_bytes s ++ rest)
      end
  end.

(** A negative [OriginalSize] panics: it is the capacity of [buf]. *)
Definition Decode (encodedData : option EncodedData) : outcome (list Z) :=
  match encodedData with
  | None => Err "encoded data is nil"
  | Some encodedData =>
      let shards := ed_Shards encodedData in
      if negb (len shards =? TotalShards) then
        Err ("invalid number of shards: expected " +:+ pretty TotalShards +:+ ", got " +:+ pretty (len shards))
      else
        let availableCount := present shards in
        if availableCount <? MinShardsForRecovery then
          Err ("insufficient shards for recovery: have " +:+ pretty availableCount +:+ ", need "
               +:+ pretty MinShardsForRecovery)
        else
          shardsCopy ← wrap_err "failed to reconstruct shards: " (rs_Reconstruct shards);
          ok ← wrap_err "failed to verify shards: " (rs_Verify shardsCopy);
          if negb ok then Err "shard verification failed"
          else if ed_OriginalSize encodedData <? 0 then Panic
          else
            buf ← join_data (Z.to_nat DataShards) shardsCopy;
            Ok (if ed_OriginalSize encodedData <? len buf then take (Z.to_nat (ed_OriginalSize encodedData)) buf
                else buf)
  end.

Definition VerifyShards (shards : list shard) : outcome bool :=
  if negb (len shards =? TotalShards) then
    Err ("invalid number of shards: expected " +:+ pretty TotalShards +:+ ", got " +:+ pretty (len shards))
  else rs_Verify shards.

End erasure.

Record ErasureShardInfo := mkErasureShardInfo {
  es_ShardIndex : Z; es_IsDataShard : bool; es_ShardSize : Z; es_OriginalSize : Z;
  es_TotalShards : Z; es_MinForRecovery : Z }.

Definition GetShardInfo (shardIndex shardSize originalSize : Z) : outcome ErasureShardInfo :=
  if (shardIndex <? 0) || (TotalShards <=? shardIndex) then
    Err ("invalid shard index: " +:+ pretty shardIndex +:+ " (must be 0-" +:+ pretty (TotalShards - 1) +:+ ")")
  else Ok (mkErasureShardInfo shardIndex (shardIndex <? DataShards) shardSize originalSize TotalShards
             MinShardsForRecovery).

Definition CalculateRedundancy : spec_float := SFdiv 53 1024 (f64_of TotalShards) (f64_of DataShards).
Definition CalculateFaultTolerance : Z := TotalShards - MinShardsForRecovery.

(** ** Lemmas *)

Lemma present_app a b : present (a ++ b) = present a + present b.
Proof. unfold present. by rewrite filter_app, len_app. Qed.
Lemma present_bound a : 0 ≤ present a ≤ len a.
Proof. unfold present, len. pose proof (length_filter is_Some a). lia. Qed.
Lemma present_some (l : list (list Z)) : present (Some <$> l) = len l.
Proof.
  induction l as [|x l IH]; [done|]. unfold present, len in *. cbn [fmap list_fmap].
  rewrite filter_cons_True by done. cbn [length]. lia.
Qed.

(** distinct positions that are there *)
Lemma length_filter_fmap {A B} (f : A → B) (P : B → Prop) `{∀ x, Decision (P x)} `{∀ x, Decision (P (f x))}
    (l : list A) :
  length (filter P (f <$> l)) = length (filter (λ x, P (f x)) l).
Proof.
  induction l as [|x l IH]; [done|]. rewrite fmap_cons, !filter_cons. repeat case_decide; try done; cbn; by rewrite IH.
Qed.
Lemma present_positions (shards : list shard) (alive : list nat) :
  NoDup alive → (∀ i, i ∈ alive → ∃ s, shards !! i = Some (Some s)) → len alive ≤ present shards.
Proof.
  intros Hn Ha. set (pos := (fst <$> filter (λ p : nat * shard, is_Some p.2) (imap pair shards)) : list nat).
  assert (alive ⊆+ pos) as Hs%submseteq_length.
  { apply NoDup_submseteq; [done|]. intros i Hi. destruct (Ha i Hi) as [s Hs]. subst pos.
    apply list_elem_of_fmap. exists (i, Some s). split; [done|]. apply list_elem_of_filter. split; [done|].
    apply list_elem_of_lookup_2 with i. by rewrite list_lookup_imap, Hs. }
  assert (length pos = length (filter is_Some shards)) as Hl.
  { subst pos. rewrite length_fmap, <- (length_filter_fmap snd is_Some). f_equal. f_equal.
    rewrite fmap_imap. apply list_eq. intros i. rewrite list_lookup_imap. by destruct (shards !! i). }
  unfold present, len. lia.
Qed.
Lemma present_insert shards i s : present (<[i := s]> shards) ≤ present shards + 1.
Proof.
  revert i. induction shards as [|x shards IH]; intros i; [by rewrite list_insert_ge by (cbn; lia)|].
  destruct i as [|i]; cbn [insert list_insert].
  - change (present ([s] ++ shards) ≤ present ([x] ++ shards) + 1). rewrite (present_app [s] shards), (present_app [x] shards). pose proof (present_bound [s]). pose proof (present_bound [x]).
    unfold len in *. cbn [length] in *. lia.
  - change (present ([x] ++ <[i := s]> shards) ≤ present ([x] ++ shards) + 1).
    rewrite (present_app [x] (<[i := s]> shards)), (present_app [x] shards). specialize (IH i). lia.
Qed.

Lemma present_insert_new shards i s :
  shards !! i = Some None → present (<[i := Some s]> shards) = present shards + 1.
Proof.
  revert i. induction shards as [|x shards IH]; intros i Hi; [done|].
  destruct i as [|i]; cbn in Hi; cbn [insert list_insert].
  - injection Hi as ->. change (present ([Some s] ++ shards) = present ([None] ++ shards) + 1).
    rewrite (present_app [Some s] shards), (present_app [None] shards). change (present [Some s]) with 1.
    change (present [None]) with 0. lia.
  - change (present ([x] ++ <[i := Some s]> shards) = present ([x] ++ shards) + 1).
    rewrite (present_app [x] (<[i := Some s]> shards)), (present_app [x] shards), IH by done. lia.
Qed.

Section erasure_lemmas.
Context `{ReedSolomonLaws}.

(** what the rest of the system uses of an encoding *)
Record codeword (data : list Z) (code : list shard) : Prop := {
  cw_encoded : ∃ shards, rs_Encode shards = Ok code;
  cw_length : length code = 15%nat;
  cw_shard : ∀ i s, code !! i = Some s → ∃ b, s = Some b ∧ b ≠ [] ∧ bytes b;
  cw_data : ∃ pad, join_data 10 code = Ok (data ++ pad) }.

Lemma join_data_some n (shards rest : list (list Z)) :
  length shards = n → join_data n ((Some <$> shards) ++ (Some <$> rest)) = Ok (mjoin shards).
Proof.
  intros <-. induction shards as [|s shards IH]; [done|]. rewrite fmap_cons. cbn [length app join_data].
  rewrite IH. done.
Qed.

Lemma code_shard (data parity : list (list Z)) n i s :
  (0 < n)%nat → Forall (λ s, length s = n ∧ bytes s) data → Forall (λ s, s ≠ [] ∧ bytes s) parity →
  ((Some <$> data) ++ (Some <$> parity)) !! i = Some s → ∃ b, s = Some b ∧ b ≠ [] ∧ bytes b.
Proof.
  intros Hn Hd Hp. rewrite <- fmap_app. intros (b & -> & Hi)%list_lookup_fmap_Some.
  exists b. split; [done|]. apply list_elem_of_lookup_2, elem_of_app in Hi as [Hi|Hi].
  - rewrite Forall_forall in Hd. destruct (Hd b Hi) as [Hl ?]. split; [|done]. intros ->. cbn in Hl. lia.
  - rewrite Forall_forall in Hp. by apply Hp.
Qed.

Lemma Encode_codeword data :
  data ≠ [] → bytes data →
  ∃ code n, Encode data = Ok (mkEncodedData code n (len data)) ∧ codeword data code.
Proof.
  intros Hne Hb. destruct (rs_split_ok data Hne Hb) as (shards & pad & n & Hs & Hl & Hn & Hall & Hj).
  destruct (rs_encode_ok shards n Hl Hn Hall) as (parity & He & Hp & Hpar).
  assert (length (take 10 shards) = 10%nat) as H10 by (rewrite length_take; lia).
  rewrite fmap_app in He. exists ((Some <$> take 10 shards) ++ (Some <$> parity)).
  assert (codeword data ((Some <$> take 10 shards) ++ (Some <$> parity))) as Hcode.
  { split.
    - by exists (Some <$> shards).
    - rewrite length_app, !length_fmap. lia.
    - intros i s. by apply (code_shard _ _ n); [|apply Forall_take|].
    - exists pad. by rewrite join_data_some, Hj. }
  unfold Encode. destruct (Z.eqb_spec (len data) 0) as [E0|_]; [by destruct data|].
  rewrite Hs. cbn [wrap_err mbind outcome_bind]. rewrite He. cbn [wrap_err mbind outcome_bind].
  destruct (take 10 shards) as [|s0 ss]; [done|]. eexists. split; [done|exact Hcode].
Qed.

(** ten right shards decode *)
Lemma Decode_codeword data code got n :
  codeword data code → length got = 15%nat → MinShardsForRecovery ≤ present got →
  (∀ i s, got !! i = Some (Some s) → code !! i = Some (Some s)) →
  Decode (Some (mkEncodedData got n (len data))) = Ok data.
Proof.
  intros [[shards He] Hl _ [pad Hj]] Hg Hp Hr. unfold Decode. cbn [ed_Shards ed_OriginalSize].
  assert (len got =? TotalShards = true) as -> by (unfold len; by rewrite Hg). cbn [negb].
  destruct (Z.ltb_spec (present got) MinShardsForRecovery) as [?|_]; [lia|].
  rewrite (rs_reconstruct_ok shards code got) by (done || lia). cbn [wrap_err mbind outcome_bind].
  rewrite (rs_verify_ok shards code He). cbn [wrap_err mbind outcome_bind negb].
  pose proof (len_nonneg data). destruct (Z.ltb_spec (len data) 0) as [?|_]; [lia|].
  change (Z.to_nat DataShards) with 10%nat. rewrite Hj. cbn [mbind outcome_bind]. f_equal.
  rewrite len_app. destruct (Z.ltb_spec (len data) (len data + len pad)) as [_|Hle].
  - unfold len. by rewrite Nat2Z.id, take_app_length.
  - destruct pad; [by rewrite app_nil_r|]. rewrite len_cons in Hle. pose proof (len_nonneg pad). lia.
Qed.

(** fewer than ten shards do not *)
Lemma Decode_insufficient got n size :
  length got = 15%nat → present got < MinShardsForRecovery →
  Decode (Some (mkEncodedData got n size))
  = Err ("insufficient shards for recovery: have " +:+ pretty (present got) +:+ ", need 10").
Proof.
  intros Hg Hp. unfold Decode. cbn [ed_Shards].
  assert (len got =? TotalShards = true) as -> by (unfold len; by rewrite Hg). cbn [negb].
  destruct (Z.ltb_spec (present got) MinShardsForRecovery) as [_|?]; [done|lia].
Qed.

End erasure_lemmas.
