(* ===== verification/MeshCrypto.v ===== *)
(** * Client-side encryption of chunks: pkg/meshstorage/encryption.go

    The key derivation and the hash are parameters.  Keys are arrays of 32
    bytes; the random nonce is an argument ([None]: the random source failed). *)

From S2P Require Import Prelude GoBytes NodeID Aes DhtSample.

Definition EncryptionKeySize : Z := 32.
Definition PBKDF2Iterations : Z := 100000.
Definition DerivationSalt : list Z := string_bytes "ZenTalk-Mesh-Storage-v1".

Class MeshHash := {
  (** [sha256.Sum256] *)
  mesh_sha256 : list Z → list Z;
  (** [pbkdf2.Key(password, salt, iterations, length, sha256.New)] *)
  pbkdf2_Key : list Z → list Z → Z → Z → list Z }.
Class MeshHashLaws `{MeshHash} := {
  mesh_sha256_array : ∀ d, array 32 (mesh_sha256 d);
  pbkdf2_length : ∀ p s i n, 0 ≤ n → len (pbkdf2_Key p s i n) = n;
  pbkdf2_bytes : ∀ p s i n, bytes (pbkdf2_Key p s i n) }.

Record EncryptedData := mkEncryptedData { enc_Nonce : list Z; enc_Ciphertext : list Z }.

(** [var key EncryptionKey; copy(key[:], l)] *)
Definition to_key (l : list Z) : list Z := take 32 l ++ replicate (32 - length l) 0.

Section encryption.
Context `{AesGcm} `{MeshHash}.

Definition derive (password : list Z) : list Z :=
  to_key (pbkdf2_Key password DerivationSalt PBKDF2Iterations EncryptionKeySize).

Definition DeriveKeyFromSignature (signature : list Z) : outcome (list Z) :=
  if len signature <? 10 then Err "invalid signature: too short" else Ok (derive signature).

Definition DeriveKeyFromWalletAddress (walletAddress : list Z) : outcome (list Z) :=
  if negb (len walletAddress =? 42) || negb (bool_decide (take 2 walletAddress = string_bytes "0x")) then
    Err "invalid wallet address format"
  else
    let normalizedAddr := drop 2 walletAddress in
    Ok (derive normalizedAddr).

Definition Encrypt (plaintext key : list Z) (nonce : option (list Z)) : outcome EncryptedData :=
  _ ← wrap_err "failed to create cipher: " (NewCipher key);
  match nonce with
  | None => Err "failed to generate nonce: rand: read failed"
  | Some nonce => Ok (mkEncryptedData nonce (gcm_seal key nonce plaintext))
  end.

Definition Decrypt (encrypted : EncryptedData) (key : list Z) : outcome (list Z) :=
  if negb (len (enc_Nonce encrypted) =? NonceSize) then
    Err ("invalid nonce size: expected " +:+ pretty NonceSize +:+ ", got " +:+ pretty (len (enc_Nonce encrypted)))
  else
    _ ← wrap_err "failed to create cipher: " (NewCipher key);
    match gcm_open key (enc_Nonce encrypted) (enc_Ciphertext encrypted) with
    | None => Err "decryption failed (wrong key or corrupted data): cipher: message authentication failed"
    | Some plaintext => Ok plaintext
    end.

Definition HashData (data : list Z) : list Z := hex_encode (mesh_sha256 data).
Definition VerifyDataHash (data expectedHash : list Z) : bool := bool_decide (HashData data = expectedHash).

Definition EncryptWithPassword (plaintext password : list Z) (nonce : option (list Z)) : outcome EncryptedData :=
  Encrypt plaintext (derive password) nonce.
Definition DecryptWithPassword (encrypted : EncryptedData) (password : list Z) : outcome (list Z) :=
  Decrypt encrypted (derive password).

Context `{!AesGcmLaws} `{!MeshHashLaws}.

Lemma derive_length password : length (derive password) = 32%nat.
Proof.
  unfold derive, to_key. pose proof (pbkdf2_length password DerivationSalt PBKDF2Iterations EncryptionKeySize) as Hl.
  rewrite length_app, length_take, length_replicate. unfold len, EncryptionKeySize in *. lia.
Qed.

Lemma derive_bytes password : bytes (derive password).
Proof.
  unfold derive, to_key. apply Forall_app. split; [apply Forall_take, pbkdf2_bytes|]. apply Forall_replicate. unfold is_byte. lia.
Qed.

Lemma Encrypt_decrypts plaintext key nonce :
  length key = 32%nat → length nonce = 12%nat →
  ∃ e, Encrypt plaintext key (Some nonce) = Ok e ∧ enc_Nonce e = nonce ∧ Decrypt e key = Ok plaintext.
Proof.
  intros Hk Hn. unfold Encrypt, Decrypt, NewCipher, aes_key_ok, len. rewrite Hk. cbn.
  eexists. split; [done|]. cbn. rewrite Hn, gcm_correct. done.
Qed.

(** A chunk encrypted under any of the three kinds of key (a wallet signature,
    a wallet address, a password) is decrypted to itself under the same one. *)
Theorem mesh_encryption_roundtrip (plaintext password signature address nonce : list Z) :
  length nonce = 12%nat → 10 ≤ len signature → len address = 42 → take 2 address = string_bytes "0x" →
  ∃ key1 key2 e1 e2 e3,
    DeriveKeyFromSignature signature = Ok key1 ∧ DeriveKeyFromWalletAddress address = Ok key2 ∧
    Encrypt plaintext key1 (Some nonce) = Ok e1 ∧ Decrypt e1 key1 = Ok plaintext ∧
    Encrypt plaintext key2 (Some nonce) = Ok e2 ∧ Decrypt e2 key2 = Ok plaintext ∧
    EncryptWithPassword plaintext password (Some nonce) = Ok e3 ∧ DecryptWithPassword e3 password = Ok plaintext.
Proof.
  intros Hn Hs Ha Hp.
  destruct (Encrypt_decrypts plaintext (derive signature) nonce (derive_length _) Hn) as (e1 & ? & _ & ?).
  destruct (Encrypt_decrypts plaintext (derive (drop 2 address)) nonce (derive_length _) Hn) as (e2 & ? & _ & ?).
  destruct (Encrypt_decrypts plaintext (derive password) nonce (derive_length _) Hn) as (e3 & ? & _ & ?).
  exists (derive signature), (derive (drop 2 address)), e1, e2, e3.
  split_and!; [|unfold DeriveKeyFromWalletAddress; by rewrite Ha, bool_decide_true|done..].
  unfold DeriveKeyFromSignature. destruct (Z.ltb_spec (len signature) 10); [lia|done].
Qed.


(** The address is not brought to lower case: two spellings of one wallet derive
    their keys from different passwords. *)
Example wallet_case_matters :
  DeriveKeyFromWalletAddress (string_bytes "0xAbCdEf0123456789AbCdEf0123456789AbCdEf01")
  = Ok (derive (string_bytes "AbCdEf0123456789AbCdEf0123456789AbCdEf01")) ∧
  DeriveKeyFromWalletAddress (string_bytes "0xabcdef0123456789abcdef0123456789abcdef01")
  = Ok (derive (string_bytes "abcdef0123456789abcdef0123456789abcdef01")).
Proof. split; reflexivity. Qed.

End encryption.

Section witnesses.
#[local] Existing Instances sample_aes sample_aes_laws.
#[local] Instance sample_mesh_hash : MeshHash := {|
  mesh_sha256 d := be_put 32 (be_get d);
  pbkdf2_Key p s _ n := be_put (Z.to_nat n) (be_get (p ++ s)) |}.
#[local] Instance sample_mesh_hash_laws : MeshHashLaws.
Proof.
  constructor; cbn.
  - intros d. split; [apply length_be_put|apply bytes_be_put].
  - intros p s _ n Hn. rewrite len_be_put. lia.
  - intros p s _ n. apply bytes_be_put.
Qed.

Lemma mesh_encryption_roundtrip_witness :
  ∃ e, EncryptWithPassword [1; 2; 3] [7; 7] (Some (replicate 12 5)) = Ok e ∧
    DecryptWithPassword e [7; 7] = Ok [1; 2; 3].
Proof.
  destruct (mesh_encryption_roundtrip [1; 2; 3] [7; 7] (replicate 10 1) (string_bytes "0x" ++ replicate 40 97)
    (replicate 12 5)) as (k1 & k2 & e1 & e2 & e3 & _ & _ & _ & _ & _ & _ & He & Hd); try done.
  by exists e3.
Defined.
End witnesses.
