(* ===== verification/MeshVersion.v ===== *)
(** * Protocol versions of the mesh storage: pkg/meshstorage/version.go

    Strings are lists of bytes.  [Sscanf_d] is [fmt.Sscanf(s, "%d", &n)]: white
    space, a sign, digits, and whatever follows is left unread. *)

From S2P Require Import Prelude GoBytes DhtStore.

Definition CurrentVersion : gostring := string_bytes "1.0.0".
Definition MinSupportedVersion : gostring := string_bytes "1.0.0".
Definition MaxSupportedVersion : gostring := string_bytes "1.0.0".

Record VersionInfo := mkVersionInfo {
  vi_Version : gostring; vi_SupportedVersions : list gostring; vi_Features : list gostring }.

Definition getSupportedVersions : list gostring := [string_bytes "1.0.0"].
Definition getSupportedFeatures : list gostring :=
  string_bytes <$> ["erasure_coding"; "signature_auth"; "automatic_repair"; "health_monitoring"].
Definition GetVersionInfo : VersionInfo :=
  mkVersionInfo CurrentVersion getSupportedVersions getSupportedFeatures.

Fixpoint contains (slice : list gostring) (item : gostring) : bool :=
  match slice with
  | [] => false
  | s :: slice' => if bool_decide (s = item) then true else contains slice' item
  end.

Definition IsVersionSupported (version : gostring) : bool :=
  let version := if bool_decide (version = []) then string_bytes "1.0.0" else version in
  contains getSupportedVersions version.

(** ** Text *)

(** [%v] of a [[]string] *)
Definition show_strings (l : list gostring) : string :=
  match l with
  | [] => "[]"
  | s :: l' => "[" +:+ bytes_string s +:+ foldr (λ s t, " " +:+ bytes_string s +:+ t) "]" l'
  end.

(** [strings.Split(s, ".")] *)
Fixpoint split_dots (cur s : gostring) : list gostring :=
  match s with
  | [] => [cur]
  | b :: s' => if b =? 46 then cur :: split_dots [] s' else split_dots (cur ++ [b]) s'
  end.

(** the encodings of the white-space characters other than the newline *)
Definition spaces : list gostring :=
  [[9]; [11]; [12]; [13]; [32]; [0xC2; 0x85]; [0xC2; 0xA0]; [0xE1; 0x9A; 0x80];
   [0xE2; 0x80; 0xA8]; [0xE2; 0x80; 0xA9]; [0xE2; 0x80; 0xAF]; [0xE2; 0x81; 0x9F]; [0xE3; 0x80; 0x80]]
  ++ ((λ k, [0xE2; 0x80; 0x80 + Z.of_nat k]) <$> seq 0 11).

Definition strip_space (s : gostring) : option gostring :=
  match filter (λ p, take (length p) s = p) spaces with
  | p :: _ => Some (drop (length p) s)
  | [] => None
  end.

(** A newline is an error; the fuel is the length of the string. *)
Fixpoint skip_space (fuel : nat) (s : gostring) : outcome gostring :=
  match s with
  | 10 :: _ => Err "unexpected newline"
  | _ =>
      match fuel, strip_space s with
      | S fuel', Some s' => skip_space fuel' s'
      | _, _ => Ok s
      end
  end.

Definition is_digit (b : Z) : bool := (48 <=? b) && (b <=? 57).
Fixpoint digits (s : gostring) : gostring :=
  match s with b :: s' => if is_digit b then b :: digits s' else [] | [] => [] end.
Definition number (ds : gostring) : Z := foldl (λ n d, 10 * n + (d - 48)) 0 ds.

Definition Sscanf_d (s : gostring) : outcome Z :=
  s ← skip_space (length s) s;
  let '(neg, s) := match s with 43 :: s' => (false, s') | 45 :: s' => (true, s') | _ => (false, s) end in
  match s with
  | [] => Err "unexpected EOF"
  | _ =>
      match digits s with
      | [] => Err "expected integer"
      | ds =>
          let n := if neg : bool then - number ds else number ds in
          if bool_decide (is_s64 n) then Ok n
          else Err ("strconv.ParseInt: parsing " +:+ bytes_string ds +:+ ": value out of range")
      end
  end.

(** ** Comparison and negotiation *)

(** [n] stays 0 when scanning fails or there is no such part *)
Definition version_part (parts : list gostring) (i : nat) : Z :=
  match parts !! i with
  | Some p => match Sscanf_d p with Ok n => n | _ => 0 end
  | None => 0
  end.

Fixpoint compare_parts (n i : nat) (v1parts v2parts : list gostring) : Z :=
  match n with
  | O => 0
  | S n' =>
      let n1 := version_part v1parts i in
      let n2 := version_part v2parts i in
      if n1 <? n2 then -1 else if n2 <? n1 then 1 else compare_parts n' (S i) v1parts v2parts
  end.
Definition CompareVersions (v1 v2 : gostring) : Z :=
  compare_parts 3 0 (split_dots [] v1) (split_dots [] v2).

Definition versionPriority : list gostring := string_bytes <$> ["2.0.0"; "1.1.0"; "1.0.0"].

Fixpoint first_common (priority myVersions theirVersions : list gostring) : option gostring :=
  match priority with
  | [] => None
  | v :: priority' =>
      if contains myVersions v && contains theirVersions v then Some v
      else first_common priority' myVersions theirVersions
  end.

Definition NegotiateVersion (myVersions theirVersions : list gostring) : outcome gostring :=
  if (len myVersions =? 0) || (len theirVersions =? 0) then Err "version list cannot be empty"
  else match first_common versionPriority myVersions theirVersions with
       | Some v => Ok v
       | None => Err ("no compatible version found: my versions=" +:+ show_strings myVersions
                      +:+ ", their versions=" +:+ show_strings theirVersions)
       end.

Definition IsBackwardCompatible (v1 v2 : gostring) : bool :=
  if bool_decide (v1 = v2) then true else 0 <=? CompareVersions v2 MinSupportedVersion.

Fixpoint validate_parts (i : Z) (parts : list gostring) : outcome unit :=
  match parts with
  | [] => Ok tt
  | part :: parts' =>
      match Sscanf_d part with
      | Ok num =>
          if num <? 0 then
            Err ("invalid version part " +:+ pretty i +:+ ": " +:+ pretty num +:+ " cannot be negative")
          else validate_parts (i + 1) parts'
      | _ => Err ("invalid version part " +:+ pretty i +:+ ": " +:+ bytes_string part +:+ " is not numeric")
      end
  end.
Definition ValidateVersion (version : gostring) : outcome unit :=
  if bool_decide (version = []) then Err "version cannot be empty"
  else
    let parts := split_dots [] version in
    if negb (len parts =? 3) then
      Err ("invalid version format: expected major.minor.patch, got " +:+ bytes_string version)
    else validate_parts 0 parts.

Record VersionCompatibilityError := mkVersionCompatibilityError {
  ve_MyVersion : gostring; ve_TheirVersion : gostring; ve_Message : gostring }.
Definition VersionCompatibilityError_Error (e : VersionCompatibilityError) : string :=
  "version incompatibility: my version=" +:+ bytes_string (ve_MyVersion e) +:+ ", their version="
  +:+ bytes_string (ve_TheirVersion e) +:+ ": " +:+ bytes_string (ve_Message e).

(** ** Lemmas *)

(** the three numbers that a version stands for *)
Definition version_key (v : gostring) : Z * Z * Z :=
  let parts := split_dots [] v in (version_part parts 0, version_part parts 1, version_part parts 2).
Definition key_lt (a b : Z * Z * Z) : Prop :=
  a.1.1 < b.1.1 ∨ a.1.1 = b.1.1 ∧ (a.1.2 < b.1.2 ∨ a.1.2 = b.1.2 ∧ a.2 < b.2).

Lemma CompareVersions_cases v1 v2 :
  CompareVersions v1 v2 = -1 ∧ key_lt (version_key v1) (version_key v2) ∨
  CompareVersions v1 v2 = 1 ∧ key_lt (version_key v2) (version_key v1) ∨
  CompareVersions v1 v2 = 0 ∧ version_key v1 = version_key v2.
Proof.
  unfold CompareVersions, version_key, key_lt. cbn [compare_parts fst snd].
  generalize (split_dots [] v1), (split_dots [] v2). intros p1 p2. rewrite !pair_equal_spec.
  repeat match goal with |- context [?x <? ?y] => destruct (Z.ltb_spec x y) end; lia.
Qed.

Lemma contains_elem l x : contains l x = bool_decide (x ∈ l).
Proof.
  induction l as [|y l IH]; [done|]. cbn [contains].
  destruct (bool_decide_reflect (y = x)) as [<-|E].
  - symmetry. apply bool_decide_true. left.
  - rewrite IH. apply bool_decide_ext. rewrite elem_of_cons. naive_solver.
Qed.

Lemma first_common_comm p a b : first_common p a b = first_common p b a.
Proof. induction p as [|v p IH]; [done|]. cbn. by rewrite IH, andb_comm. Qed.

Lemma first_common_spec p mine theirs :
  StronglySorted (λ v u, CompareVersions u v ≤ 0) p →
  match first_common p mine theirs with
  | Some v => v ∈ mine ∧ v ∈ theirs ∧ ∀ u, u ∈ p → u ∈ mine → u ∈ theirs → CompareVersions u v ≤ 0
  | None => ∀ u, u ∈ p → u ∈ mine → u ∉ theirs
  end.
Proof.
  induction 1 as [|v p Hp IH Hv]; cbn [first_common]; [by intros u Hu%not_elem_of_nil|].
  rewrite !contains_elem, <- bool_decide_and. case_bool_decide as Hc.
  - destruct Hc as [Hm Ht]. split_and!; [done..|]. intros u [->|Hu]%elem_of_cons _ _.
    + pose proof (CompareVersions_cases v v) as Hvv. unfold key_lt in Hvv. lia.
    + rewrite Forall_forall in Hv. by apply Hv.
  - destruct (first_common p mine theirs) as [w|].
    + destruct IH as (Hm & Ht & Hall). split_and!; [done..|]. intros u [->|Hu]%elem_of_cons ? ?; [tauto|by apply Hall].
    + intros u [->|Hu]%elem_of_cons ? ?; [tauto|by eapply IH].
Qed.

Lemma priority_sorted : StronglySorted (λ v u, CompareVersions u v ≤ 0) versionPriority.
Proof. repeat constructor; by vm_compute. Qed.

(** [CompareVersions] is the order of the three numbers: it is 0 exactly when
    they agree, changes its sign when the arguments are exchanged, and is
    transitive. *)
Theorem compare_versions_order (a b c : gostring) :
  (CompareVersions a b < 0 ↔ key_lt (version_key a) (version_key b)) ∧
  (CompareVersions a b = 0 ↔ version_key a = version_key b) ∧
  CompareVersions b a = - CompareVersions a b ∧
  (CompareVersions a b ≤ 0 → CompareVersions b c ≤ 0 → CompareVersions a c ≤ 0).
Proof.
  pose proof (CompareVersions_cases a b) as Hab. pose proof (CompareVersions_cases b a) as Hba.
  pose proof (CompareVersions_cases b c) as Hbc. pose proof (CompareVersions_cases a c) as Hac.
  unfold key_lt in *. destruct (version_key a) as [[a1 a2] a3], (version_key b) as [[b1 b2] b3],
    (version_key c) as [[c1 c2] c3]. cbn [fst snd] in *. rewrite !pair_equal_spec in *. lia.
Qed.

(** Negotiation gives the same version to both sides: one that both know, and
    the highest of the versions of the priority list that both know. *)
Theorem negotiate_version_spec (mine theirs : list gostring) :
  mine ≠ [] → theirs ≠ [] →
  match NegotiateVersion mine theirs with
  | Ok v => NegotiateVersion theirs mine = Ok v ∧ v ∈ mine ∧ v ∈ theirs ∧
            ∀ u, u ∈ versionPriority → u ∈ mine → u ∈ theirs → CompareVersions u v ≤ 0
  | Err _ => ∀ u, u ∈ versionPriority → u ∈ mine → u ∉ theirs
  | Panic => False
  end.
Proof.
  intros Hm Ht. unfold NegotiateVersion.
  assert ((len mine =? 0) = false) as -> by (by destruct mine).
  assert ((len theirs =? 0) = false) as -> by (by destruct theirs). cbn [orb].
  pose proof (first_common_spec versionPriority mine theirs priority_sorted) as Hf.
  rewrite (first_common_comm versionPriority theirs mine).
  destruct (first_common versionPriority mine theirs) as [v|]; [|exact Hf]. split; [done|exact Hf].
Qed.

(** A part only has to begin with a number. *)
Example version_with_suffix_is_valid : ValidateVersion (string_bytes "1.0.0-beta") = Ok tt.
Proof. reflexivity. Qed.

(** A common version that the priority list does not have is not found. *)
Example common_version_not_negotiated :
  is_ok (NegotiateVersion [string_bytes "1.2.0"] [string_bytes "1.2.0"]) = false.
Proof. reflexivity. Qed.

Lemma negotiate_version_spec_witness :
  let v10 := string_bytes "1.0.0" in let v11 := string_bytes "1.1.0" in
  NegotiateVersion [v11; v10] [v10; v11] = Ok v11.
Proof.
  intros v10 v11. assert (∀ a b : gostring, [a; b] ≠ []) as Hne by (intros; discriminate).
  pose proof (negotiate_version_spec [v10; v11] [v11; v10] (Hne _ _) (Hne _ _)) as Hn.
  assert (NegotiateVersion [v10; v11] [v11; v10] = Ok v11) as E by (vm_compute; reflexivity).
  rewrite E in Hn. exact (proj1 Hn).
Defined.

Lemma compare_versions_order_witness : CompareVersions (string_bytes "1.0.9") (string_bytes "1.1.0") ≤ 0.
Proof.
  apply (compare_versions_order (string_bytes "1.0.9") (string_bytes "1.0.10") (string_bytes "1.1.0"));
    vm_compute; discriminate.
Defined.
