(* ===== verification/MeshStore.v ===== *)
(** * Chunks on the local disk: pkg/meshstorage/storage.go

    The table [chunks] is a finite map from its primary key to the other
    columns.  [dberr] is the error of a failing statement; [now] is
    [time.Now().Unix()]. *)

From S2P Require Import Prelude GoBytes DhtStore MeshVersion.

Record Row := mkRow { row_Data : list Z; row_StoredAt : Z; row_Size : Z }.

#[export] Instance Row_eq_dec : EqDecision Row.
Proof. solve_decision. Defined.

(** (user_addr, chunk_id) *)
Abbreviation chunk_key := (gostring * Z)%type.
Abbreviation LocalStorage := (gmap chunk_key Row).

Record Chunk := mkChunk {
  ck_UserAddr : gostring; ck_ChunkID : Z; ck_Data : list Z; ck_StoredAt : Z; ck_Size : Z }.

Definition not_found (userAddr : gostring) (chunkID : Z) : string :=
  "chunk not found: user=" +:+ bytes_string userAddr +:+ " chunk=" +:+ pretty chunkID.

Definition StoreChunk (s : LocalStorage) (userAddr : gostring) (chunkID : Z) (data : list Z) (now : Z)
  (dberr : option string) : LocalStorage * outcome unit :=
  if len data =? 0 then (s, Err "cannot store empty chunk")
  else match dberr with
       | Some e => (s, Err ("failed to store chunk: " +:+ e))
       | None => (<[(userAddr, chunkID) := mkRow data now (len data)]> s, Ok tt)
       end.

Definition GetChunk (s : LocalStorage) (userAddr : gostring) (chunkID : Z) (dberr : option string)
  : outcome (list Z) :=
  match dberr with
  | Some e => Err ("failed to retrieve chunk: " +:+ e)
  | None =>
      match s !! (userAddr, chunkID) with
      | Some row => Ok (row_Data row)
      | None => Err (not_found userAddr chunkID)
      end
  end.

(** the rows of one user *)
Definition user_rows (s : LocalStorage) (userAddr : gostring) : list (chunk_key * Row) :=
  filter (λ kr, kr.1.1 = userAddr) (map_to_list s).

Definition ListChunks (s : LocalStorage) (userAddr : gostring) (dberr : option string) : outcome (list Z) :=
  match dberr with
  | Some e => Err ("failed to query chunks: " +:+ e)
  | None => Ok (merge_sort Z.le ((λ kr, kr.1.2) <$> user_rows s userAddr))
  end.

Definition GetAllChunks (s : LocalStorage) (userAddr : gostring) (dberr : option string)
  : outcome (gmap Z (list Z)) :=
  match dberr with
  | Some e => Err ("failed to query chunks: " +:+ e)
  | None => Ok (list_to_map ((λ kr, (kr.1.2, row_Data kr.2)) <$> user_rows s userAddr))
  end.

Definition DeleteChunk (s : LocalStorage) (userAddr : gostring) (chunkID : Z) (dberr : option string)
  : LocalStorage * outcome unit :=
  match dberr with
  | Some e => (s, Err ("failed to delete chunk: " +:+ e))
  | None =>
      match s !! (userAddr, chunkID) with
      | Some _ => (delete (userAddr, chunkID) s, Ok tt)
      | None => (s, Err (not_found userAddr chunkID))
      end
  end.

Definition DeleteAllChunks (s : LocalStorage) (userAddr : gostring) (dberr : option string)
  : LocalStorage * outcome unit :=
  match dberr with
  | Some e => (s, Err ("failed to delete chunks: " +:+ e))
  | None => (filter (λ kr, kr.1.1 ≠ userAddr) s, Ok tt)
  end.

(** [SUM(size)], which SQLite keeps within 64 bits or fails *)
Definition total_size (rows : list (chunk_key * Row)) : Z := foldr (λ kr n, row_Size kr.2 + n) 0 rows.

Definition GetStorageSize (s : LocalStorage) (dberr : option string) : outcome Z :=
  match dberr with
  | Some e => Err ("failed to get storage size: " +:+ e)
  | None => Ok (total_size (map_to_list s))
  end.
Definition GetStorageSizeForUser (s : LocalStorage) (userAddr : gostring) (dberr : option string) : outcome Z :=
  match dberr with
  | Some e => Err ("failed to get user storage size: " +:+ e)
  | None => Ok (total_size (user_rows s userAddr))
  end.
Definition GetChunkCount (s : LocalStorage) (dberr : option string) : outcome Z :=
  match dberr with
  | Some e => Err ("failed to get chunk count: " +:+ e)
  | None => Ok (Z.of_nat (size s))
  end.
Definition GetUserCount (s : LocalStorage) (dberr : option string) : outcome Z :=
  match dberr with
  | Some e => Err ("failed to get user count: " +:+ e)
  | None => Ok (len (remove_dups ((λ kr, kr.1.1) <$> map_to_list s)))
  end.

Record StorageStats := mkStorageStats { st_TotalChunks : Z; st_TotalUsers : Z; st_TotalSize : Z }.
Definition GetStats (s : LocalStorage) (dberr : option string) : outcome StorageStats :=
  chunks ← GetChunkCount s dberr;
  users ← GetUserCount s dberr;
  size ← GetStorageSize s dberr;
  Ok (mkStorageStats chunks users size).

Definition Cleanup (s : LocalStorage) (maxAge now : Z) (dberr : option string) : LocalStorage * outcome Z :=
  let cutoff := s64 (now - maxAge) in
  match dberr with
  | Some e => (s, Err ("failed to cleanup old chunks: " +:+ e))
  | None =>
      (filter (λ kr, ¬ row_StoredAt kr.2 < cutoff) s,
       Ok (Z.of_nat (size (filter (λ kr, row_StoredAt kr.2 < cutoff) s))))
  end.

(** [order]: what the database makes of [ORDER BY stored_at DESC] *)
Definition ListAllChunks (order : list Chunk → list Chunk) (s : LocalStorage) (dberr : option string)
  : outcome (list Chunk) :=
  match dberr with
  | Some e => Err ("failed to query all chunks: " +:+ e)
  | None => Ok (order ((λ kr, mkChunk kr.1.1 kr.1.2 (row_Data kr.2) (row_StoredAt kr.2) (row_Size kr.2))
                         <$> map_to_list s))
  end.

(** ** Lemmas *)

(** every row is a chunk that was stored: not empty, and its size is recorded *)
Definition storage_ok (s : LocalStorage) : Prop :=
  map_Forall (λ _ row, row_Data row ≠ [] ∧ row_Size row = len (row_Data row)) s.

Lemma StoreChunk_ok s userAddr chunkID data now :
  data ≠ [] →
  StoreChunk s userAddr chunkID data now None
  = (<[(userAddr, chunkID) := mkRow data now (len data)]> s, Ok tt).
Proof. intros Hd. unfold StoreChunk. destruct (Z.eqb_spec (len data) 0); [by destruct data|done]. Qed.

Lemma StoreChunk_keeps s userAddr chunkID data now dberr : 
  storage_ok s → storage_ok (StoreChunk s userAddr chunkID data now dberr).1.
Proof.
  intros Hs. unfold StoreChunk. destruct (Z.eqb_spec (len data) 0) as [|Hd]; [done|]. destruct dberr; [done|].
  apply map_Forall_insert_2; [|done]. split; [|done]. cbn. by destruct data.
Qed.

Lemma total_size_perm a b : a ≡ₚ b → total_size a = total_size b.
Proof. unfold total_size. induction 1; cbn in *; lia. Qed.

Lemma total_size_cons kr l : total_size (kr :: l) = row_Size kr.2 + total_size l.
Proof. done. Qed.

Lemma map_total_size_insert s k row :
  total_size (map_to_list (<[k := row]> s))
  = total_size (map_to_list s) - from_option row_Size 0 (s !! k) + row_Size row.
Proof.
  destruct (s !! k) as [old|] eqn:E.
  - rewrite <- insert_delete_eq. rewrite (total_size_perm _ _ (map_to_list_insert _ _ _ (lookup_delete_eq s k))).
    rewrite (total_size_perm _ _ (Permutation_sym (map_to_list_delete s k old E))), !total_size_cons. cbn. lia.
  - rewrite (total_size_perm _ _ (map_to_list_insert _ _ _ E)), total_size_cons. cbn. lia.
Qed.
