(* ===== verification/MeshNode.v ===== *)
(** * Nodes of the mesh: pkg/meshstorage/node.go

    libp2p is outside: [connected] is [host.Network().Peers()] with the
    addresses of the peerstore, and resolving an address and connecting are
    given by their results.  A peer identifier is a byte string. *)

From S2P Require Import Prelude GoBytes DhtStore MeshCrypto MeshVersion.

Abbreviation peerID := gostring.

Record AddrInfo := mkAddrInfo { ai_ID : peerID; ai_Addrs : list gostring }.

(** ** XOR distance *)

Record peerDistance := mkPeerDistance { pd_info : AddrInfo; pd_distance : list Z }.

(** the bytes beyond the end of the shorter one count as 0 *)
Definition xorDistanceBytes (bytes1 bytes2 : list Z) : list Z :=
  let maxLen := Nat.max (length bytes1) (length bytes2) in
  (λ i, Z.lxor (nth i bytes1 0) (nth i bytes2 0)) <$> seq 0 maxLen.

Fixpoint compareDistances (dist1 dist2 : list Z) : Z :=
  match dist1, dist2 with
  | [], [] => 0
  | [], _ :: _ => -1
  | _ :: _, [] => 1
  | a :: dist1', b :: dist2' =>
      if a <? b then -1 else if b <? a then 1 else compareDistances dist1' dist2'
  end.

(** [k] comparisons of neighbours from the left, swapping those out of order *)
Fixpoint bubble_pass (k : nat) (peers : list peerDistance) : list peerDistance :=
  match k, peers with
  | S k', p :: q :: peers' =>
      if 0 <? compareDistances (pd_distance p) (pd_distance q) then q :: bubble_pass k' (p :: peers')
      else p :: bubble_pass k' (q :: peers')
  | _, _ => peers
  end.
(** passes of [m], [m - 1], ..., 1 comparisons *)
Fixpoint bubble_passes (m : nat) (peers : list peerDistance) : list peerDistance :=
  match m with O => peers | S m' => bubble_passes m' (bubble_pass m peers) end.
Definition sortPeersByDistance (peers : list peerDistance) : list peerDistance :=
  bubble_passes (length peers - 1) peers.

Section node.
Context `{MeshHash}.

Definition hashKey (key : gostring) : list Z := mesh_sha256 key.

(** peers without an address are left out *)
Definition peer_distances (keyHash : list Z) (connected : list AddrInfo) : list peerDistance :=
  (λ p, mkPeerDistance p (xorDistanceBytes keyHash (ai_ID p))) <$> filter (λ p, ai_Addrs p ≠ []) connected.

Definition FindClosestNodes (connected : list AddrInfo) (key : gostring) (count : Z) : list AddrInfo :=
  let keyHash := hashKey key in
  pd_info <$> take (Z.to_nat count) (sortPeersByDistance (peer_distances keyHash connected)).
End node.

(** ** The table of peers *)

Record PeerInfo := mkPeerInfo { pi_Addresses : list gostring; pi_LastSeen : Z; pi_Active : bool }.
Record DHTNode := mkDHTNode { dn_peers : gmap peerID PeerInfo; dn_bootstrapped : bool }.

Definition add_peer (n : DHTNode) (info : AddrInfo) (now : Z) : DHTNode :=
  mkDHTNode (<[ai_ID info := mkPeerInfo (ai_Addrs info) now true]> (dn_peers n)) (dn_bootstrapped n).

(** [resolve]: parsing an address and connecting to it, in that order *)
Fixpoint connect_all (n : DHTNode) (resolve : gostring → outcome AddrInfo) (peers : list gostring) (now : Z)
  : DHTNode * Z :=
  match peers with
  | [] => (n, 0)
  | p :: peers' =>
      match resolve p with
      | Ok info => let '(n, c) := connect_all (add_peer n info now) resolve peers' now in (n, c + 1)
      | _ => connect_all n resolve peers' now
      end
  end.

(** [dht]: the result of [n.dht.Bootstrap] *)
Definition Bootstrap (n : DHTNode) (resolve : gostring → outcome AddrInfo) (bootstrapPeers : list gostring)
  (now : Z) (dht : outcome unit) : DHTNode * outcome unit :=
  if dn_bootstrapped n then (n, Err "already bootstrapped")
  else
    let '(n, connectedCount) := connect_all n resolve bootstrapPeers now in
    if connectedCount =? 0 then (n, Err "failed to connect to any bootstrap peers")
    else match dht with
         | Ok _ => (mkDHTNode (dn_peers n) true, Ok tt)
         | r => (n, wrap_err "failed to bootstrap DHT: " r)
         end.

Definition Connect (n : DHTNode) (resolve : gostring → outcome AddrInfo) (peerAddr : gostring) (now : Z)
  : DHTNode * outcome unit :=
  match resolve peerAddr with
  | Ok info => (add_peer n info now, Ok tt)
  | Err e => (n, Err e)
  | Panic => (n, Panic)
  end.

Definition set_active (active : bool) (p : PeerInfo) : PeerInfo :=
  mkPeerInfo (pi_Addresses p) (pi_LastSeen p) active.

(** [closed]: the result of [ClosePeer] *)
Definition Disconnect (n : DHTNode) (peer : peerID) (closed : outcome unit) : DHTNode * outcome unit :=
  match closed with
  | Ok _ => (mkDHTNode (alter (set_active false) peer (dn_peers n)) (dn_bootstrapped n), Ok tt)
  | r => (n, wrap_err "failed to disconnect from peer: " r)
  end.

Definition PeerCount (n : DHTNode) : Z := Z.of_nat (size (dn_peers n)).
Definition GetPeers (n : DHTNode) : gmap peerID PeerInfo := dn_peers n.
Definition IsBootstrapped (n : DHTNode) : bool := dn_bootstrapped n.

(** the first loop of [checkPeerHealth]: connected peers are seen now *)
Definition see_peer (now : Z) (peers : gmap peerID PeerInfo) (p : AddrInfo) : gmap peerID PeerInfo :=
  match peers !! ai_ID p with
  | Some info => <[ai_ID p := mkPeerInfo (pi_Addresses info) now true]> peers
  | None => <[ai_ID p := mkPeerInfo (ai_Addrs p) now true]> peers
  end.
Definition checkPeerHealth (n : DHTNode) (connected : list AddrInfo) (now : Z) : DHTNode :=
  let peers := foldl (see_peer now) (dn_peers n) connected in
  mkDHTNode (map_imap (λ id info, Some (if bool_decide (id ∈ ai_ID <$> connected) then info
                                         else set_active false info)) peers)
    (dn_bootstrapped n).

(** ** The order of distances *)

Lemma compareDistances_flip a b : compareDistances b a = - compareDistances a b.
Proof.
  revert b. induction a as [|x a IH]; intros [|y b]; try done. cbn.
  destruct (Z.ltb_spec x y), (Z.ltb_spec y x); try lia. by rewrite IH.
Qed.

Lemma compareDistances_trans a b c :
  compareDistances a b ≤ 0 → compareDistances b c ≤ 0 → compareDistances a c ≤ 0.
Proof.
  revert b c. induction a as [|x a IH]; intros [|y b] [|z c]; cbn; try lia.
  destruct (Z.ltb_spec x y), (Z.ltb_spec y z), (Z.ltb_spec x z), (Z.ltb_spec y x), (Z.ltb_spec z y),
    (Z.ltb_spec z x); try lia. by apply IH.
Qed.

(** not farther *)
Definition nearer (p q : peerDistance) : Prop := compareDistances (pd_distance p) (pd_distance q) ≤ 0.

#[export] Instance nearer_trans : Transitive nearer.
Proof. intros p q r. apply compareDistances_trans. Qed.
Lemma nearer_refl p : nearer p p.
Proof. unfold nearer. pose proof (compareDistances_flip (pd_distance p) (pd_distance p)). lia. Qed.

(** ** Bubble sort *)

(** a pass carries the farthest of its elements to the end *)
Lemma bubble_pass_spec k : ∀ l, (k < length l)%nat →
  ∃ p x, bubble_pass k l = p ++ x :: drop (S k) l ∧ p ++ [x] ≡ₚ take (S k) l ∧ length p = k ∧
    Forall (λ y, nearer y x) p.
Proof.
  induction k as [|k IH]; intros [|a l] Hl; cbn in Hl; try lia.
  - exists [], a. by repeat split; try constructor.
  - destruct l as [|b l]; [cbn in Hl; lia|]. cbn [bubble_pass].
    destruct (Z.ltb_spec 0 (compareDistances (pd_distance a) (pd_distance b))) as [Hab|Hab].
    + destruct (IH (a :: l)) as (p & x & Hp & Hperm & Hlen & Hall); [cbn in *; lia|].
      exists (b :: p), x. rewrite Hp. split_and!; [done| |by cbn; rewrite Hlen|].
      * cbn [app take] in *. rewrite Hperm. apply perm_swap.
      * constructor; [|done]. assert (a ∈ p ++ [x]) as Ha by (rewrite Hperm; left).
        trans a. { unfold nearer. pose proof (compareDistances_flip (pd_distance a) (pd_distance b)). lia. }
        apply elem_of_app in Ha as [Ha| ->%list_elem_of_singleton]; [|apply nearer_refl].
        by eapply Forall_forall in Hall.
    + destruct (IH (b :: l)) as (p & x & Hp & Hperm & Hlen & Hall); [cbn in *; lia|].
      exists (a :: p), x. rewrite Hp. split_and!; [done| |by cbn; rewrite Hlen|].
      * cbn [app take] in *. by rewrite Hperm.
      * constructor; [|done]. assert (b ∈ p ++ [x]) as Hb by (rewrite Hperm; left).
        trans b; [done|]. apply elem_of_app in Hb as [Hb| ->%list_elem_of_singleton]; [|apply nearer_refl].
        by eapply Forall_forall in Hall.
Qed.

Lemma bubble_passes_spec m : ∀ l, (m < length l)%nat ∨ l = [] →
  StronglySorted nearer (drop (S m) l) →
  (∀ x y, x ∈ take (S m) l → y ∈ drop (S m) l → nearer x y) →
  bubble_passes m l ≡ₚ l ∧ StronglySorted nearer (bubble_passes m l).
Proof.
  induction m as [|m IH]; intros l Hl Hs Hd.
  - split; [done|]. destruct l as [|a l]; [constructor|]. cbn in *. rewrite drop_0 in *. constructor; [done|].
    apply Forall_forall. intros y Hy. apply Hd; [left|done].
  - destruct Hl as [Hl| ->]; [|cbn; apply IH; auto].

    destruct (bubble_pass_spec (S m) l Hl) as (p & x & Hp & Hperm & Hlen & Hall).
    cbn [bubble_passes]. rewrite Hp. set (rest := drop (S (S m)) l) in *.
    assert (∀ y, y ∈ p ++ [x] → ∀ z, z ∈ rest → nearer y z) as Hrest.
    { intros y Hy z Hz. rewrite Hperm in Hy. by apply Hd. }
    destruct (IH (p ++ x :: rest)) as [Hpp Hss].
    + left. rewrite length_app. cbn. lia.
    + rewrite drop_app_length' by lia. constructor; [done|]. apply Forall_forall. intros z Hz.
      apply Hrest; [set_solver|done].
    + rewrite take_app_length', drop_app_length' by lia. intros y z Hy [->|Hz]%elem_of_cons.
      * by eapply Forall_forall in Hall.
      * apply Hrest; [set_solver|done].
    + split; [|done]. rewrite Hpp. rewrite <- (take_drop (S (S m)) l), <- Hperm. by rewrite <- app_assoc.
Qed.

Lemma sortPeersByDistance_spec l :
  sortPeersByDistance l ≡ₚ l ∧ StronglySorted nearer (sortPeersByDistance l).
Proof.
  apply bubble_passes_spec; [destruct l; cbn; [by right|left; lia]|..]; destruct l as [|a l]; cbn;
    [constructor|rewrite Nat.sub_0_r, drop_all; constructor|set_solver|rewrite Nat.sub_0_r, drop_all; set_solver].
Qed.

Lemma FindClosestNodes_elem `{MeshHash} (connected : list AddrInfo) (key : gostring) (count : Z) (p : AddrInfo) :
  p ∈ FindClosestNodes connected key count → p ∈ connected.
Proof.
  unfold FindClosestNodes. intros (pd & -> & Hpd)%list_elem_of_fmap. apply (subseteq_take _ _) in Hpd.
  rewrite (proj1 (sortPeersByDistance_spec _)) in Hpd. unfold peer_distances in Hpd.
  by apply list_elem_of_fmap in Hpd as (a & -> & [_ ?]%list_elem_of_filter).
Qed.

Lemma peers_seen now connected : ∀ peers id,
  foldl (see_peer now) peers connected !! id
  = if bool_decide (id ∈ ai_ID <$> connected) then
      Some (mkPeerInfo (match peers !! id with
                        | Some info => pi_Addresses info
                        | None => default [] (ai_Addrs <$> head (filter (λ p, ai_ID p = id) connected))
                        end) now true)
    else peers !! id.
Proof.
  induction connected as [|p connected IH]; intros peers id; [done|]. cbn [foldl fmap list_fmap]. rewrite IH.
  destruct (decide (ai_ID p = id)) as [<-|Hne].
  - rewrite filter_cons_True by done. rewrite (bool_decide_true (_ ∈ _ :: _)) by left. unfold see_peer.
    destruct (peers !! ai_ID p) as [info|]; rewrite lookup_insert_eq; cbn; by case_bool_decide.
  - rewrite filter_cons_False by done. rewrite (bool_decide_ext (id ∈ ai_ID p :: _) (id ∈ ai_ID <$> connected))
      by (rewrite elem_of_cons; naive_solver).
    unfold see_peer. destruct (peers !! ai_ID p); by rewrite lookup_insert_ne by done.
Qed.

(** The distance [FindClosestNodes] sorts by. *)
Definition distance_to `{MeshHash} (key : gostring) (p : AddrInfo) : list Z :=
  xorDistanceBytes (hashKey key) (ai_ID p).

(** [FindClosestNodes] returns the [count] connected peers (with an address)
    that are closest to the key, in the order of their distance: everything it
    leaves out is at least as far as everything it returns. *)
Theorem find_closest_nodes_spec `{MeshHash} (connected : list AddrInfo) (key : gostring) (count : Z) :
  0 ≤ count →
  ∃ rest, FindClosestNodes connected key count ++ rest ≡ₚ filter (λ p, ai_Addrs p ≠ []) connected ∧
    len (FindClosestNodes connected key count) = Z.min count (len (filter (λ p, ai_Addrs p ≠ []) connected)) ∧
    StronglySorted (λ p q, compareDistances (distance_to key p) (distance_to key q) ≤ 0)
      (FindClosestNodes connected key count ++ rest).
Proof.
  intros Hc. unfold FindClosestNodes. set (pds := peer_distances (hashKey key) connected).
  destruct (sortPeersByDistance_spec pds) as [Hp Hs]. set (sorted := sortPeersByDistance pds) in *.
  assert (∀ pd, pd ∈ sorted → pd_distance pd = distance_to key (pd_info pd)) as Hd.
  { intros pd. rewrite Hp. subst pds. unfold peer_distances. by intros (p & -> & _)%list_elem_of_fmap. }
  assert (pd_info <$> pds = filter (λ p, ai_Addrs p ≠ []) connected) as Hinfo.
  { subst pds. unfold peer_distances. rewrite <- list_fmap_compose. apply list_fmap_id. }
  exists (pd_info <$> drop (Z.to_nat count) sorted). rewrite <- fmap_app, take_drop, <- Hinfo. split_and!.
  - by rewrite Hp.
  - unfold len. rewrite !length_fmap, length_take, (Permutation_length Hp). lia.
  - eapply (StronglySorted_fmap _ (λ a b, compareDistances (distance_to key (pd_info a)) (distance_to key (pd_info b)) ≤ 0));
      [done|]. eapply StronglySorted_impl_in; [|exact Hs]. unfold nearer. intros a b Ha Hb. by rewrite !Hd.
Qed.

(** After a health check exactly the connected peers are active, and they were
    seen now; no peer is forgotten. *)
Theorem check_peer_health_spec (n : DHTNode) (connected : list AddrInfo) (now : Z) (id : peerID) :
  match dn_peers (checkPeerHealth n connected now) !! id with
  | Some info => pi_Active info = bool_decide (id ∈ ai_ID <$> connected) ∧
                 (id ∈ ai_ID <$> connected ∧ pi_LastSeen info = now ∨
                  id ∉ ai_ID <$> connected ∧ dn_peers n !! id ≠ None)
  | None => dn_peers n !! id = None ∧ id ∉ ai_ID <$> connected
  end.
Proof.
  unfold checkPeerHealth. cbn [dn_peers]. rewrite map_lookup_imap, peers_seen.
  case_bool_decide as Hc; cbn; [auto|]. destruct (dn_peers n !! id); cbn; auto.
Qed.
