(* ===== verification/Base64.v ===== *)
(** * Standard base64: encoding/base64's [StdEncoding]

    Encoding, and the decoder with its tolerance for line breaks, its demand for
    padding and the position in its error. *)

From S2P Require Import Prelude GoBytes DhtStore.

(** A-Z, a-z, 0-9, + and / *)
Definition base64_char (v : Z) : Z :=
  if v <? 26 then 65 + v else if v <? 52 then 71 + v else if v <? 62 then v - 4 else if v =? 62 then 43 else 47.
Definition base64_value (c : Z) : option Z :=
  if (65 <=? c) && (c <=? 90) then Some (c - 65)
  else if (97 <=? c) && (c <=? 122) then Some (c - 71)
  else if (48 <=? c) && (c <=? 57) then Some (c + 4)
  else if c =? 43 then Some 62
  else if c =? 47 then Some 63
  else None.
Definition pad_char : Z := 61.

Definition sextets (val : Z) : list Z :=
  base64_char <$> [Z.land (Z.shiftr val 18) 63; Z.land (Z.shiftr val 12) 63; Z.land (Z.shiftr val 6) 63; Z.land val 63].

(** [EncodeToString] *)
Fixpoint base64_encode (src : list Z) : gostring :=
  match src with
  | a :: b :: c :: src' => sextets (Z.lor (Z.shiftl a 16) (Z.lor (Z.shiftl b 8) c)) ++ base64_encode src'
  | [a; b] => take 3 (sextets (Z.lor (Z.shiftl a 16) (Z.shiftl b 8))) ++ [pad_char]
  | [a] => take 2 (sextets (Z.shiftl a 16)) ++ [pad_char; pad_char]
  | [] => []
  end.

(** [CorruptInputError.Error] *)
Definition CorruptInputError {A} (off : Z) : outcome A := Err ("illegal base64 data at input byte " +:+ pretty off).

Definition line_break (c : Z) : bool := (c =? 10) || (c =? 13).
Fixpoint skip_breaks (src : list Z) (si : Z) : list Z * Z :=
  match src with
  | c :: src' => if line_break c then skip_breaks src' (si + 1) else (src, si)
  | [] => (src, si)
  end.

(** the bytes of a quantum of two, three or four values *)
Definition quantum (dbuf : list Z) : list Z :=
  let v i := nth i dbuf 0 in
  let val := Z.lor (Z.shiftl (v 0%nat) 18) (Z.lor (Z.shiftl (v 1%nat) 12) (Z.lor (Z.shiftl (v 2%nat) 6) (v 3%nat))) in
  take (length dbuf - 1) [Z.land (Z.shiftr val 16) 255; Z.land (Z.shiftr val 8) 255; Z.land val 255].

(** after the padding nothing may follow *)
Definition after_padding (dbuf src : list Z) (si : Z) : outcome (list Z) :=
  let '(src, si) := skip_breaks src si in
  match src with [] => Ok (quantum dbuf) | _ => CorruptInputError si end.

(** [dbuf]: the values of the current quantum; [si]: the position in the input *)
Fixpoint base64_quanta (src : list Z) (si : Z) (dbuf : list Z) : outcome (list Z) :=
  match src with
  | [] => match dbuf with [] => Ok [] | _ => CorruptInputError (si - len dbuf) end
  | c :: src' =>
      match base64_value c with
      | Some v =>
          match dbuf with
          | [_; _; _] => rest ← base64_quanta src' (si + 1) []; Ok (quantum (dbuf ++ [v]) ++ rest)
          | _ => base64_quanta src' (si + 1) (dbuf ++ [v])
          end
      | None =>
          if line_break c then base64_quanta src' (si + 1) dbuf
          else if negb (c =? pad_char) then CorruptInputError si
          else match dbuf with
               | [_; _] =>
                   let '(src'', si'') := skip_breaks src' (si + 1) in
                   match src'' with
                   | [] => CorruptInputError si''
                   | c :: src'' => if c =? pad_char then after_padding dbuf src'' (si'' + 1)
                                   else CorruptInputError (si'' - 1)
                   end
               | [_; _; _] => after_padding dbuf src' (si + 1)
               | _ => CorruptInputError si
               end
      end
  end.

(** [DecodeString] *)
Definition base64_decode (src : gostring) : outcome (list Z) := base64_quanta src 0 [].

(** ** Decoding undoes encoding *)

Lemma base64_value_char v : 0 ≤ v < 64 → base64_value (base64_char v) = Some v.
Proof.
  intros Hv. unfold base64_char, base64_value.
  repeat match goal with
    | |- context [?a <? ?b] => destruct (Z.ltb_spec a b)
    | |- context [?a =? ?b] => destruct (Z.eqb_spec a b)
    | |- context [?a <=? ?b] => destruct (Z.leb_spec a b)
    end; cbn [andb]; try lia; f_equal; lia.
Qed.

Lemma sextet_range v i : 0 ≤ Z.land (Z.shiftr v i) 63 < 64.
Proof. change 63 with (Z.ones 6). rewrite Z.land_ones by lia. apply Z.mod_pos_bound. lia. Qed.

(** the four values of a quantum *)
Definition split_val (val : Z) : list Z :=
  [Z.land (Z.shiftr val 18) 63; Z.land (Z.shiftr val 12) 63; Z.land (Z.shiftr val 6) 63; Z.land val 63].

Lemma split_val_range val : Forall (λ v, 0 ≤ v < 64) (split_val val).
Proof. unfold split_val. repeat constructor; try apply sextet_range; rewrite <- (Z.shiftr_0_r val) at 1; apply sextet_range. Qed.

(** values are read one after the other *)
Lemma base64_quanta_values vs : ∀ src si dbuf, Forall (λ v, 0 ≤ v < 64) vs → (length dbuf + length vs ≤ 3)%nat →
  base64_quanta ((base64_char <$> vs) ++ src) si dbuf = base64_quanta src (si + len vs) (dbuf ++ vs).
Proof.
  induction vs as [|v vs IH]; intros src si dbuf Hvs Hl; cbn [fmap list_fmap app].
  - by rewrite app_nil_r, Z.add_0_r.
  - apply Forall_cons in Hvs as [Hv Hvs]. cbn [base64_quanta]. rewrite base64_value_char by done.
    replace (match dbuf with [_; _; _] => _ | _ => _ end) with (base64_quanta ((base64_char <$> vs) ++ src) (si + 1) (dbuf ++ [v])).
    + rewrite IH; [|done|rewrite length_app; cbn in *; lia]. rewrite <- app_assoc. f_equal. unfold len. cbn. lia.
    + destruct dbuf as [|? [|? [|? [|? dbuf]]]]; try done; cbn in Hl; lia.
Qed.

(** bits of a number built from two or three bytes *)
Lemma quantum_split a b c : is_byte a → is_byte b → is_byte c →
  let val := Z.lor (Z.shiftl a 16) (Z.lor (Z.shiftl b 8) c) in quantum (split_val val) = [a; b; c].
Proof.
  intros Ha Hb Hc val. unfold quantum, split_val. cbn [nth length Nat.sub take].
  unfold is_byte in *. assert (∀ x n, 0 ≤ x < 256 → 8 ≤ n → Z.testbit x n = false) as Hhigh.
  { intros x n Hx Hn. apply Z.bits_above_log2; [lia|]. destruct (decide (x = 0)) as [->|Hx0]; [cbn; lia|].
    apply Z.log2_lt_pow2; [lia|]. apply Z.lt_le_trans with (2 ^ 8); [lia|]. apply Z.pow_le_mono_r; lia. }
  assert (∀ n, 0 ≤ n → Z.testbit 63 n = (n <? 6)) as H63.
  { intros n Hn. change 63 with (Z.ones 6). rewrite Z.testbit_ones_nonneg by lia. reflexivity. }
  assert (∀ n, 0 ≤ n → Z.testbit 255 n = (n <? 8)) as H255.
  { intros n Hn. change 255 with (Z.ones 8). rewrite Z.testbit_ones_nonneg by lia. reflexivity. }
  assert (∀ k n, 0 ≤ n < 6 → Z.testbit (Z.land (Z.shiftr val k) 63) n = Z.testbit (Z.shiftr val k) n) as Hlow.
  { intros k n Hn. rewrite Z.land_spec, H63 by lia. destruct (Z.ltb_spec n 6); [apply andb_true_r|lia]. }
  assert (∀ k n, 6 ≤ n → Z.testbit (Z.land (Z.shiftr val k) 63) n = false) as Hcut.
  { intros k n Hn. rewrite Z.land_spec, H63 by lia. destruct (Z.ltb_spec n 6); [lia|apply andb_false_r]. }
  set (joined := Z.lor (Z.shiftl (Z.land (Z.shiftr val 18) 63) 18) _).
  assert (∀ n, 0 ≤ n < 24 → Z.testbit joined n = Z.testbit val n) as Hj.
  { intros n Hn. subst joined. rewrite <- (Z.shiftr_0_r val) at 4. rewrite !Z.lor_spec, !Z.shiftl_spec by lia.
    assert (n < 6 ∨ 6 ≤ n < 12 ∨ 12 ≤ n < 18 ∨ 18 ≤ n) as [?|[?|[?|?]]] by lia.
    - rewrite !(Z.testbit_neg_r _ (n - _)) by lia. rewrite Hlow, Z.shiftr_spec by lia. cbn [orb]. f_equal. lia.
    - rewrite !(Z.testbit_neg_r _ (n - 18)), (Z.testbit_neg_r _ (n - 12)), (Hcut 0 n) by lia. rewrite Hlow, Z.shiftr_spec by lia.
      cbn [orb]. rewrite orb_false_r. f_equal. lia.
    - rewrite (Z.testbit_neg_r _ (n - 18)), (Hcut 0 n), (Hcut 6 (n - 6)) by lia. rewrite Hlow, Z.shiftr_spec by lia.
      cbn [orb]. rewrite orb_false_r. f_equal. lia.
    - rewrite (Hcut 0 n), (Hcut 6 (n - 6)), (Hcut 12 (n - 12)) by lia. rewrite Hlow, Z.shiftr_spec by lia.
      rewrite !orb_false_r. f_equal. lia. }
  assert (∀ x k, 0 ≤ k → k + 8 ≤ 24 → 0 ≤ x < 256 → (∀ n, 0 ≤ n < 8 → Z.testbit val (n + k) = Z.testbit x n) →
          Z.land (Z.shiftr joined k) 255 = x) as Hbyte.
  { intros x k Hk Hk' Hx Hbits. apply Z.bits_inj'. intros n Hn. rewrite Z.land_spec, Z.shiftr_spec, H255 by lia.
    destruct (Z.ltb_spec n 8); [rewrite andb_true_r, Hj by lia; by apply Hbits|]. rewrite andb_false_r. symmetry. by apply Hhigh. }
  f_equal; [|f_equal; [|f_equal]].
  - apply (Hbyte a 16); try lia. intros n Hn. subst val. rewrite !Z.lor_spec, !Z.shiftl_spec by lia.
    rewrite (Hhigh b), (Hhigh c) by lia. rewrite !orb_false_r. f_equal. lia.
  - apply (Hbyte b 8); try lia. intros n Hn. subst val. rewrite !Z.lor_spec, !Z.shiftl_spec by lia.
    rewrite (Z.testbit_neg_r a), (Hhigh c) by lia. rewrite orb_false_r. cbn [orb]. f_equal. lia.
  - rewrite <- (Z.shiftr_0_r joined). apply (Hbyte c 0); try lia. intros n Hn. subst val.
    rewrite !Z.lor_spec, !Z.shiftl_spec by lia. rewrite !Z.testbit_neg_r by lia. cbn [orb]. f_equal. lia.
Qed.

(** a quantum that ends early is one of zeros *)
Lemma quantum_take val (n : nat) : (2 ≤ n ≤ 3)%nat → drop n (split_val val) = replicate (4 - n) 0 →
  quantum (take n (split_val val)) = take (n - 1) (quantum (split_val val)).
Proof.
  intros Hn. unfold quantum, split_val. assert (n = 2 ∨ n = 3)%nat as [->| ->] by lia; cbn [take drop replicate Nat.sub length nth].
  - intros [= -> ->]. done.
  - intros [= ->]. done.
Qed.

Lemma low_bits_zero x k n : 0 ≤ n → n + 6 ≤ k → Z.land (Z.shiftr (Z.shiftl x k) n) 63 = 0.
Proof.
  intros Hn Hk. apply Z.bits_inj'. intros i Hi. rewrite Z.land_spec, Z.bits_0, Z.shiftr_spec, Z.shiftl_spec by lia.
  change 63 with (Z.ones 6). rewrite Z.testbit_ones_nonneg by lia. destruct (Z.ltb_spec i 6); [|apply andb_false_r].
  by rewrite Z.testbit_neg_r by lia.
Qed.

Lemma base64_short val n src si :
  (2 ≤ n ≤ 3)%nat → drop n (split_val val) = replicate (4 - n) 0 → src = replicate (4 - n) pad_char →
  base64_quanta (take n (sextets val) ++ src) si [] = Ok (take (n - 1) (quantum (split_val val))).
Proof.
  intros Hn Hz ->. unfold sextets. change [_; _; _; _] with (split_val val). rewrite firstn_map.
  rewrite base64_quanta_values; [|apply Forall_take, split_val_range|cbn; rewrite length_take; cbn; lia].
  cbn [app]. rewrite <- (quantum_take val n Hn Hz). by assert (n = 2 ∨ n = 3)%nat as [->| ->] by lia.
Qed.

(** What is encoded is decoded again. *)
Lemma base64_roundtrip data : bytes data → base64_decode (base64_encode data) = Ok data.
Proof.
  unfold base64_decode. generalize 0. revert data.
  enough (∀ k data si, (length data ≤ k)%nat → bytes data → base64_quanta (base64_encode data) si [] = Ok data) as Hk
    by (intros data si; by apply (Hk (length data))).
  induction k as [|k IH]; intros data si Hl Hb; [by destruct data; cbn in Hl; [|lia]|].
  destruct data as [|a [|b [|c data]]]; cbn [base64_encode]; [done|..].
  - apply Forall_cons in Hb as [Ha _]. rewrite base64_short; [|lia| |done].
    + pose proof (quantum_split a 0 0 Ha) as Hq. rewrite Z.shiftl_0_l, !Z.lor_0_r in Hq.
      unfold is_byte in Hq. by rewrite Hq by lia.
    + cbn [drop split_val replicate Nat.sub]. rewrite low_bits_zero by lia.
      rewrite <- (Z.shiftr_0_r (Z.shiftl a 16)) at 1. by rewrite low_bits_zero by lia.
  - apply Forall_cons in Hb as [Ha [Hb _]%Forall_cons]. rewrite base64_short; [|lia| |done].
    + pose proof (quantum_split a b 0 Ha Hb) as Hq. rewrite Z.lor_0_r in Hq. unfold is_byte in Hq. by rewrite Hq by lia.
    + cbn [drop split_val replicate Nat.sub]. replace (Z.shiftl a 16) with (Z.shiftl (Z.shiftl a 8) 8) by (by rewrite Z.shiftl_shiftl by lia).
      rewrite <- Z.shiftl_lor. f_equal. rewrite <- (Z.shiftr_0_r (Z.shiftl _ 8)). by apply low_bits_zero.
  - apply Forall_cons in Hb as [Ha [Hb [Hc Hd]%Forall_cons]%Forall_cons]. set (val := Z.lor _ _).
    unfold sextets. change [_; _; _; _] with (split_val val).
    change (base64_char <$> split_val val) with ((base64_char <$> take 3 (split_val val)) ++ [base64_char (Z.land val 63)]).
    rewrite <- app_assoc, base64_quanta_values; [|apply Forall_take, split_val_range|cbn; lia].
    cbn [app base64_quanta take split_val]. rewrite base64_value_char by (rewrite <- (Z.shiftr_0_r val); apply sextet_range).
    rewrite IH by (done || cbn in Hl; lia). cbn [mbind outcome_bind]. change [_; _; _; _] with (split_val val). subst val.
    by rewrite quantum_split.
Qed.

Lemma quantum_bytes dbuf : bytes (quantum dbuf).
Proof.
  unfold quantum. apply Forall_take. assert (∀ x, is_byte (Z.land x 255)) as Hx.
  { intros x. unfold is_byte. change 255 with (Z.ones 8). rewrite Z.land_ones by lia. apply Z.mod_pos_bound. lia. }
  repeat first [apply Forall_nil_2|apply Forall_cons_2; [apply Hx|]].
Qed.

(** What is decoded is bytes, whatever the input. *)
Lemma base64_decode_bytes src data : base64_decode src = Ok data → bytes data.
Proof.
  unfold base64_decode. generalize 0, (@nil Z). revert data. induction src as [|c src IH]; intros data si dbuf; cbn [base64_quanta].
  { destruct dbuf; [|done]. intros [= <-]. constructor. }
  assert (∀ src si, after_padding dbuf src si = Ok data → bytes data) as Hpad.
  { intros src' si'. unfold after_padding. destruct (skip_breaks src' si') as [[|? ?] ?]; [|done]. intros [= <-]. apply quantum_bytes. }
  assert (∀ v, (rest ← base64_quanta src (si + 1) []; Ok (quantum (dbuf ++ [v]) ++ rest)) = Ok data → bytes data) as Hq.
  { intros v. destruct (base64_quanta src (si + 1) []) as [rest|?|] eqn:E; [|done..]. intros [= <-]. apply Forall_app.
    split; [apply quantum_bytes|by eapply IH]. }
  destruct (base64_value c) as [v|].
  - destruct dbuf as [|a [|b [|d [|? ?]]]]; eauto.
  - destruct (line_break c); [eauto|]. destruct (negb (c =? pad_char)); [done|].
    destruct dbuf as [|a [|b [|d [|? ?]]]]; try done; [|by apply Hpad].
    destruct (skip_breaks src (si + 1)) as [[|c' src''] si'']; [done|]. destruct (c' =? pad_char); [|done]. apply Hpad.
Qed.

(** RFC 4648's examples; a break inside is skipped, padding is required *)
Example base64_foobar : base64_encode (string_bytes "foobar") = string_bytes "Zm9vYmFy" ∧
  base64_encode (string_bytes "foob") = string_bytes "Zm9vYg==".
Proof. done. Qed.
Example base64_lenient : base64_decode (string_bytes "Zm9v" ++ [10] ++ string_bytes "Yg==") = Ok (string_bytes "foob") ∧
  base64_decode (string_bytes "Zm9vYg") = Err "illegal base64 data at input byte 4".
Proof. done. Qed.
