(* ===== verification/MeshRpc.v ===== *)
(** * Requests between mesh nodes: pkg/meshstorage/rpc.go

    A node is its local storage; the mesh is a finite map from peers to their
    storages.  A request is encoded, sent on a stream of its own, handled by the
    peer, and answered on the same stream.  [link] is what the network does to
    a stream; [Lost] loses the answer, after the peer has acted. *)

From S2P Require Import Prelude GoBytes NodeID DhtStore DhtNode Onion Relay MeshCrypto MeshVersion Base64 MeshStore MeshNode.

Definition MsgTypeStoreChunk : gostring := string_bytes "store_chunk".
Definition MsgTypeGetChunk : gostring := string_bytes "get_chunk".
Definition MsgTypeStoreShard : gostring := string_bytes "store_shard".
Definition MsgTypeGetShard : gostring := string_bytes "get_shard".
Definition MsgTypeShardStatus : gostring := string_bytes "shard_status".
Definition MsgTypeDeleteShard : gostring := string_bytes "delete_shard".
Definition MsgTypePing : gostring := string_bytes "ping".
Definition MsgTypeResponse : gostring := string_bytes "response".
Definition MsgTypeError : gostring := string_bytes "error".

Record RPCMessage := mkRPCMessage {
  rpc_Version : gostring; rpc_Type : gostring; rpc_ID : gostring; rpc_Payload : list Z }.
Record StoreChunkRequest := mkStoreChunkRequest { sc_UserAddr : gostring; sc_ChunkID : Z; sc_Data : list Z }.
Record GetChunkRequest := mkGetChunkRequest { gc_UserAddr : gostring; gc_ChunkID : Z }.
Record StoreShardRequest := mkStoreShardRequest {
  ss_ShardKey : gostring; ss_ShardIndex : Z; ss_Data : list Z; ss_UserAddr : gostring; ss_ChunkID : Z }.
Record GetShardRequest := mkGetShardRequest { gs_ShardKey : gostring }.
Record ShardStatusRequest := mkShardStatusRequest { sq_UserAddr : gostring; sq_ChunkID : Z }.
Record DeleteShardRequest := mkDeleteShardRequest {
  ds_UserAddr : gostring; ds_ChunkID : Z; ds_ShardIndex : Z; ds_Timestamp : gostring;
  ds_Signature : gostring; ds_PublicKey : gostring }.
Record ShardInfo := mkShardInfo {
  si_ShardKey : gostring; si_ShardIndex : Z; si_Size : Z; si_UserAddr : gostring; si_ChunkID : Z }.
(** [resp_Data]: [None] is [nil] *)
Record RPCResponse := mkRPCResponse {
  resp_Version : gostring; resp_Success : bool; resp_Data : option (list Z); resp_Error : gostring;
  resp_ShardInfo : option ShardInfo; resp_ShardInfos : list ShardInfo }.

Definition success : RPCResponse := mkRPCResponse [] true None [] None [].
Definition failure (text : string) : RPCResponse := mkRPCResponse [] false None (string_bytes text) None [].
Definition with_version (r : RPCResponse) (v : gostring) : RPCResponse :=
  mkRPCResponse v (resp_Success r) (resp_Data r) (resp_Error r) (resp_ShardInfo r) (resp_ShardInfos r).

(** ** What lies outside: JSON, base64, dates, RSA signatures *)

Class MeshJson := {
  json_msg :: Json RPCMessage;
  json_response :: Json RPCResponse;
  json_store_chunk :: Json StoreChunkRequest;
  json_get_chunk :: Json GetChunkRequest;
  json_store_shard :: Json StoreShardRequest;
  json_get_shard :: Json GetShardRequest;
  json_shard_status :: Json ShardStatusRequest;
  json_delete_shard :: Json DeleteShardRequest }.

Definition RPCMessage_typed (m : RPCMessage) : Prop :=
  bytes (rpc_Version m) ∧ bytes (rpc_Type m) ∧ bytes (rpc_ID m) ∧ bytes (rpc_Payload m).
Definition StoreChunkRequest_typed (r : StoreChunkRequest) : Prop :=
  bytes (sc_UserAddr r) ∧ is_s64 (sc_ChunkID r) ∧ bytes (sc_Data r).
Definition GetChunkRequest_typed (r : GetChunkRequest) : Prop := bytes (gc_UserAddr r) ∧ is_s64 (gc_ChunkID r).
Definition StoreShardRequest_typed (r : StoreShardRequest) : Prop :=
  bytes (ss_ShardKey r) ∧ is_s64 (ss_ShardIndex r) ∧ bytes (ss_Data r) ∧ bytes (ss_UserAddr r) ∧
  is_s64 (ss_ChunkID r).
Definition GetShardRequest_typed (r : GetShardRequest) : Prop := bytes (gs_ShardKey r).
Definition ShardStatusRequest_typed (r : ShardStatusRequest) : Prop :=
  bytes (sq_UserAddr r) ∧ is_s64 (sq_ChunkID r).
Definition DeleteShardRequest_typed (r : DeleteShardRequest) : Prop :=
  bytes (ds_UserAddr r) ∧ is_s64 (ds_ChunkID r) ∧ is_s64 (ds_ShardIndex r) ∧ bytes (ds_Timestamp r) ∧
  bytes (ds_Signature r) ∧ bytes (ds_PublicKey r).
Definition ShardInfo_typed (i : ShardInfo) : Prop :=
  bytes (si_ShardKey i) ∧ is_s64 (si_ShardIndex i) ∧ is_s64 (si_Size i) ∧ bytes (si_UserAddr i) ∧
  is_s64 (si_ChunkID i).
Definition RPCResponse_typed (r : RPCResponse) : Prop :=
  bytes (resp_Version r) ∧ from_option bytes True (resp_Data r) ∧ bytes (resp_Error r) ∧
  from_option ShardInfo_typed True (resp_ShardInfo r) ∧ Forall ShardInfo_typed (resp_ShardInfos r).

(** text survives when it is ASCII; empty data is left out and comes back as [nil] *)
Definition ShardInfo_plain (i : ShardInfo) : Prop :=
  ShardInfo_typed i ∧ ascii (si_ShardKey i) ∧ ascii (si_UserAddr i).
Class MeshJsonLaws `{MeshJson} := {
  law_msg :: JsonLaws RPCMessage RPCMessage_typed
    (λ m, RPCMessage_typed m ∧ ascii (rpc_Version m) ∧ ascii (rpc_Type m) ∧ ascii (rpc_ID m));
  law_response :: JsonLaws RPCResponse RPCResponse_typed
    (λ r, RPCResponse_typed r ∧ ascii (resp_Version r) ∧ resp_Data r ≠ Some [] ∧ ascii (resp_Error r) ∧
          from_option ShardInfo_plain True (resp_ShardInfo r) ∧ Forall ShardInfo_plain (resp_ShardInfos r));
  (** whatever becomes of the text *)
  response_success : ∀ r d, json_marshal r = Ok d → ∃ r', json_unmarshal d = Ok r' ∧ resp_Success r' = resp_Success r;
  law_store_chunk :: JsonLaws StoreChunkRequest StoreChunkRequest_typed
    (λ r, StoreChunkRequest_typed r ∧ ascii (sc_UserAddr r));
  law_get_chunk :: JsonLaws GetChunkRequest GetChunkRequest_typed
    (λ r, GetChunkRequest_typed r ∧ ascii (gc_UserAddr r));
  law_store_shard :: JsonLaws StoreShardRequest StoreShardRequest_typed
    (λ r, StoreShardRequest_typed r ∧ ascii (ss_ShardKey r) ∧ ascii (ss_UserAddr r));
  law_get_shard :: JsonLaws GetShardRequest GetShardRequest_typed
    (λ r, GetShardRequest_typed r ∧ ascii (gs_ShardKey r));
  law_shard_status :: JsonLaws ShardStatusRequest ShardStatusRequest_typed
    (λ r, ShardStatusRequest_typed r ∧ ascii (sq_UserAddr r));
  law_delete_shard :: JsonLaws DeleteShardRequest DeleteShardRequest_typed
    (λ r, DeleteShardRequest_typed r ∧ ascii (ds_UserAddr r) ∧ ascii (ds_Timestamp r) ∧ ascii (ds_Signature r) ∧
          ascii (ds_PublicKey r)) }.

Class MeshText := {
  (** [time.Parse(time.RFC3339, s)], in nanoseconds *)
  parse_RFC3339 : gostring → outcome Z }.

(** [rsa.VerifyPKCS1v15(key, 0, digest, signature)] *)
Class RsaVerify `{Rsa} := { VerifyPKCS1v15 : PublicKey → list Z → list Z → outcome unit }.

(** pkg/crypto/keys.go *)
Definition VerifySignature `{RsaVerify} `{MeshHash} (data signature : list Z) (publicKey : PublicKey) : outcome unit :=
  let hashed := mesh_sha256 data in VerifyPKCS1v15 publicKey hashed signature.

(** ** Durations *)

(** nine digits without trailing zeros, after a point *)
Definition fraction (ns : Z) : string :=
  let ds := drop 1 (string_bytes (pretty (Second + ns))) in
  match drop_zeros (reverse ds) with [] => "" | ds' => "." +:+ bytes_string (reverse ds') end.
(** [Duration.String], from one second on *)
Definition Duration_String (d : Z) : string :=
  let secs := d / Second in
  let s := pretty (secs mod 60) +:+ fraction (d mod Second) +:+ "s" in
  let m := pretty ((secs / 60) mod 60) +:+ "m" +:+ s in
  if secs <? 60 then s else if secs <? 3600 then m else pretty (secs / 3600) +:+ "h" +:+ m.

(** ** The handler *)

(** [fmt.Sprintf("%s_%d_shard_%d", userAddr, chunkID, shardIndex)] *)
Definition shard_key (userAddr : gostring) (chunkID shardIndex : Z) : gostring :=
  userAddr ++ string_bytes ("_" +:+ pretty chunkID +:+ "_shard_" +:+ pretty shardIndex).

(** the outside during one request: the clock, in nanoseconds, the database *)
Record henv := mkHenv { h_now : Z; h_dberr : option string; h_order : list Chunk → list Chunk }.

Abbreviation mesh := (gmap peerID LocalStorage).

Section rpc.
Context `{MeshJson} `{MeshText} `{X509} `{!RsaVerify} `{MeshHash}.

(** the handler's answer to a request that cannot be decoded *)
Definition with_request `{Json A} (s : LocalStorage) (payload : list Z)
  (body : A → LocalStorage * RPCResponse) : LocalStorage * RPCResponse :=
  match json_unmarshal payload with
  | Ok req => body req
  | Err e => (s, failure ("failed to unmarshal request: " +:+ e))
  | Panic => (s, failure "failed to unmarshal request: ")
  end.

Definition handleStoreChunk (s : LocalStorage) (payload : list Z) (e : henv) : LocalStorage * RPCResponse :=
  with_request s payload (λ req : StoreChunkRequest,
    let '(s, r) := StoreChunk s (sc_UserAddr req) (sc_ChunkID req) (sc_Data req) (Unix (h_now e)) (h_dberr e) in
    (s, match r with Err e => failure ("failed to store chunk: " +:+ e) | _ => success end)).

Definition handleGetChunk (s : LocalStorage) (payload : list Z) (e : henv) : LocalStorage * RPCResponse :=
  with_request s payload (λ req : GetChunkRequest,
    (s, match GetChunk s (gc_UserAddr req) (gc_ChunkID req) (h_dberr e) with
        | Ok data => mkRPCResponse [] true (Some data) [] None []
        | Err e => failure ("failed to get chunk: " +:+ e)
        | Panic => failure ""
        end)).

Definition handleStoreShard (s : LocalStorage) (payload : list Z) (e : henv) : LocalStorage * RPCResponse :=
  with_request s payload (λ req : StoreShardRequest,
    let '(s, r) := StoreChunk s (ss_ShardKey req) (ss_ShardIndex req) (ss_Data req) (Unix (h_now e)) (h_dberr e) in
    (s, match r with
        | Err e => failure ("failed to store shard: " +:+ e)
        | _ => mkRPCResponse [] true None []
                 (Some (mkShardInfo (ss_ShardKey req) (ss_ShardIndex req) (len (ss_Data req)) (ss_UserAddr req)
                          (ss_ChunkID req))) []
        end)).

(** chunk 0 "as a placeholder" *)
Definition handleGetShard (s : LocalStorage) (payload : list Z) (e : henv) : LocalStorage * RPCResponse :=
  with_request s payload (λ req : GetShardRequest,
    (s, match GetChunk s (gs_ShardKey req) 0 (h_dberr e) with
        | Ok data => mkRPCResponse [] true (Some data) [] None []
        | Err e => failure ("failed to get shard: " +:+ e)
        | Panic => failure ""
        end)).

Definition status_keeps (req : ShardStatusRequest) (chunk : Chunk) : bool :=
  negb (negb (bool_decide (sq_UserAddr req = [])) && negb (bool_decide (ck_UserAddr chunk = sq_UserAddr req)))
  && negb (negb (bool_decide (sq_UserAddr req = [])) && (0 <? sq_ChunkID req)
           && negb (ck_ChunkID chunk =? sq_ChunkID req)).
Definition handleShardStatus (s : LocalStorage) (payload : list Z) (e : henv) : LocalStorage * RPCResponse :=
  with_request s payload (λ req : ShardStatusRequest,
    (s, match ListAllChunks (h_order e) s (h_dberr e) with
        | Ok chunks =>
            mkRPCResponse [] true None [] None
              ((λ c, mkShardInfo (ck_UserAddr c) (ck_ChunkID c) (len (ck_Data c)) (ck_UserAddr c) (ck_ChunkID c))
               <$> filter (λ c, status_keeps req c = true) chunks)
        | Err e => failure ("failed to list chunks: " +:+ e)
        | Panic => failure ""
        end)).

(** the text that is signed for a deletion *)
Definition delete_message (req : DeleteShardRequest) : list Z :=
  ds_UserAddr req ++ string_bytes ("|" +:+ pretty (ds_ChunkID req) +:+ "|" +:+ pretty (ds_ShardIndex req) +:+ "|")
  ++ ds_Timestamp req.

(** [diff := now.Sub(ts); if diff < 0 { diff = -diff }], on 64 bits *)
Definition timestamp_age (now ts : Z) : Z :=
  let diff := time_Sub now ts in if diff <? 0 then s64 (- diff) else diff.

Definition verifyDeleteShardSignature (req : DeleteShardRequest) (now : Z) : outcome unit :=
  ts ← wrap_err "invalid timestamp format: " (parse_RFC3339 (ds_Timestamp req));
  let diff := timestamp_age now ts in
  if 5 * 60 * Second <? diff then
    Err ("timestamp too old or in future (age: " +:+ Duration_String diff +:+ ")")
  else
    signature ← wrap_err "invalid base64 signature: " (base64_decode (ds_Signature req));
    publicKey ← wrap_err "invalid public key: " (ImportPublicKeyPEM (ds_PublicKey req));
    wrap_err "signature verification failed: " (VerifySignature (delete_message req) signature publicKey).

Definition handleDeleteShard (s : LocalStorage) (payload : list Z) (e : henv) : LocalStorage * RPCResponse :=
  with_request s payload (λ req : DeleteShardRequest,
    let signed := negb (bool_decide (ds_Signature req = [])) && negb (bool_decide (ds_PublicKey req = []))
                  && negb (bool_decide (ds_Timestamp req = [])) in
    let authorized := if signed then verifyDeleteShardSignature req (h_now e) else Ok tt in
    match authorized with
    | Err t => (s, failure ("unauthorized: " +:+ t))
    | Panic => (s, failure "")
    | Ok _ =>
        let shardKey := shard_key (ds_UserAddr req) (ds_ChunkID req) (ds_ShardIndex req) in
        let '(s, r) := DeleteChunk s shardKey (ds_ShardIndex req) (h_dberr e) in
        (s, match r with Err t => failure ("failed to delete shard: " +:+ t) | _ => success end)
    end).

(** the request by its type *)
Definition handle_request (s : LocalStorage) (type : gostring) (payload : list Z) (e : henv)
  : LocalStorage * RPCResponse :=
  if bool_decide (type = MsgTypeStoreChunk) then handleStoreChunk s payload e
  else if bool_decide (type = MsgTypeGetChunk) then handleGetChunk s payload e
  else if bool_decide (type = MsgTypeStoreShard) then handleStoreShard s payload e
  else if bool_decide (type = MsgTypeGetShard) then handleGetShard s payload e
  else if bool_decide (type = MsgTypeShardStatus) then handleShardStatus s payload e
  else if bool_decide (type = MsgTypeDeleteShard) then handleDeleteShard s payload e
  else if bool_decide (type = MsgTypePing) then (s, success)
  else (s, failure ("unknown message type: " +:+ bytes_string type)).

Definition sendError (requestID : gostring) (errMsg : string) : outcome (list Z) :=
  let responseData := match json_marshal (failure errMsg) with Ok d => d | _ => [] end in
  json_marshal (mkRPCMessage [] MsgTypeError requestID responseData).
Definition sendResponse (requestID : gostring) (response : RPCResponse) : outcome (list Z) :=
  match json_marshal response with
  | Ok responseData => json_marshal (mkRPCMessage [] MsgTypeResponse requestID responseData)
  | Err e => sendError requestID ("failed to marshal response: " +:+ e)
  | Panic => Panic
  end.

(** The new storage, and what is written on the stream. *)
Definition handleStream (s : LocalStorage) (request : list Z) (e : henv) : LocalStorage * outcome (list Z) :=
  match json_unmarshal request with
  | Err t => (s, sendError [] ("failed to decode message: " +:+ t))
  | Panic => (s, Panic)
  | Ok msg =>
      let requestVersion := if bool_decide (rpc_Version msg = []) then string_bytes "1.0.0" else rpc_Version msg in
      if negb (IsVersionSupported requestVersion) then
        (s, sendResponse (rpc_ID msg)
              (with_version (failure ("unsupported protocol version: " +:+ bytes_string requestVersion
                 +:+ " (supported: " +:+ show_strings (vi_SupportedVersions GetVersionInfo) +:+ ")"))
                 CurrentVersion))
      else
        let '(s, response) := handle_request s (rpc_Type msg) (rpc_Payload msg) e in
        (s, sendResponse (rpc_ID msg) (with_version response CurrentVersion))
  end.

(** ** The client *)

Inductive link := Up | Refused | Lost.

(** what a request meets: the network, and the peer's clock and database *)
Record cenv := mkCenv { c_link : link; c_henv : henv }.

Definition set_version (m : RPCMessage) (v : gostring) : RPCMessage :=
  mkRPCMessage v (rpc_Type m) (rpc_ID m) (rpc_Payload m).

(** the client's reading of the answer *)
Definition read_response (reply : outcome (list Z)) : outcome RPCResponse :=
  match reply with
  | Ok d =>
      responseMsg ← wrap_err "failed to decode response: " (json_unmarshal d);
      wrap_err "failed to unmarshal response: " (json_unmarshal (rpc_Payload responseMsg))
  | _ => Err "connection closed by peer"
  end.

Definition sendRequest (net : mesh) (peer : peerID) (msg : RPCMessage) (e : cenv) : mesh * outcome RPCResponse :=
  match c_link e, net !! peer with
  | Refused, _ | _, None => (net, Err "failed to open stream: peer not reachable")
  | l, Some s =>
      match json_marshal (set_version msg CurrentVersion) with
      | Ok request =>
          let '(s, reply) := handleStream s request (c_henv e) in
          (<[peer := s]> net,
           match l with Lost => Err "connection closed by peer" | _ => read_response reply end)
      | Err t => (net, Err ("failed to send request: " +:+ t))
      | Panic => (net, Panic)
      end
  end.

(** encode a request, send it, and use the answer of a peer that succeeded *)
Definition call {A Q : Type} `{Json Q} (net : mesh) (peer : peerID) (type id : gostring) (req : Q) (e : cenv)
  (use : RPCResponse → A) : mesh * outcome A :=
  match json_marshal req with
  | Ok reqData =>
      let '(net, r) := sendRequest net peer (mkRPCMessage [] type id reqData) e in
      (net, response ← r;
            if negb (resp_Success response) then Err ("remote node error: " +:+ bytes_string (resp_Error response))
            else Ok (use response))
  | Err t => (net, Err ("failed to marshal request: " +:+ t))
  | Panic => (net, Panic)
  end.

(** [fmt.Sprintf("%s-%d", s, n)] *)
Definition request_id (s : gostring) (n : Z) : gostring := s ++ string_bytes ("-" +:+ pretty n).

Definition Client_StoreChunk (net : mesh) (peer : peerID) (userAddr : gostring) (chunkID : Z) (data : list Z)
  (e : cenv) : mesh * outcome unit :=
  call net peer MsgTypeStoreChunk (request_id userAddr chunkID) (mkStoreChunkRequest userAddr chunkID data) e
    (λ _, tt).
Definition Client_GetChunk (net : mesh) (peer : peerID) (userAddr : gostring) (chunkID : Z) (e : cenv)
  : mesh * outcome (option (list Z)) :=
  call net peer MsgTypeGetChunk (request_id userAddr chunkID) (mkGetChunkRequest userAddr chunkID) e resp_Data.
Definition Client_StoreShard (net : mesh) (peer : peerID) (shardKey : gostring) (shardIndex : Z) (data : list Z)
  (userAddr : gostring) (chunkID : Z) (e : cenv) : mesh * outcome (option ShardInfo) :=
  call net peer MsgTypeStoreShard (request_id shardKey shardIndex)
    (mkStoreShardRequest shardKey shardIndex data userAddr chunkID) e resp_ShardInfo.
Definition Client_GetShard (net : mesh) (peer : peerID) (shardKey : gostring) (e : cenv)
  : mesh * outcome (option (list Z)) :=
  call net peer MsgTypeGetShard shardKey (mkGetShardRequest shardKey) e resp_Data.
Definition Client_GetShardStatus (net : mesh) (peer : peerID) (userAddr : gostring) (chunkID : Z) (e : cenv)
  : mesh * outcome (list ShardInfo) :=
  call net peer MsgTypeShardStatus (string_bytes "status-" ++ request_id userAddr chunkID)
    (mkShardStatusRequest userAddr chunkID) e resp_ShardInfos.
Definition Client_DeleteShard (net : mesh) (peer : peerID) (userAddr : gostring) (chunkID shardIndex : Z)
  (e : cenv) : mesh * outcome unit :=
  call net peer MsgTypeDeleteShard
    (string_bytes "delete-" ++ request_id (request_id userAddr chunkID) shardIndex)
    (mkDeleteShardRequest userAddr chunkID shardIndex [] [] []) e (λ _, tt).

Definition Client_Ping (net : mesh) (peer : peerID) (e : cenv) : mesh * outcome unit :=
  let '(net, r) := sendRequest net peer (mkRPCMessage [] MsgTypePing (string_bytes "ping") []) e in
  (net, response ← r;
        if negb (resp_Success response) then Err ("ping failed: " +:+ bytes_string (resp_Error response))
        else Ok tt).

End rpc.
