(* ===== verification/MeshDistributed.v ===== *)
(** * Distributed chunks: pkg/meshstorage/distributed.go

    The state is the mesh with every node's storage, this node's identifier and
    its table of monitored chunks.  The goroutines of one operation touch
    different shards; the model runs them in the order of the shards, and
    [GetShardStatus], where two of them can write the same entry, in an order
    that is an argument.  A monitored chunk that is repaired is updated in the
    table, which shares it. *)

From Stdlib Require Import SpecFloat.
From S2P Require Import Prelude GoBytes NodeID DhtStore Onion Relay MeshErasure MeshCrypto MeshVersion MeshStore MeshNode MeshRpc.

Record ShardLocation := mkShardLocation {
  sl_ShardIndex : Z; sl_PeerID : peerID; sl_PeerAddrs : list gostring }.
Definition zero_location : ShardLocation := mkShardLocation 0 [] [].

Record DistributedChunk := mkDistributedChunk {
  dc_UserAddr : gostring; dc_ChunkID : Z; dc_OriginalSize : Z; dc_ShardSize : Z;
  dc_ShardLocations : list ShardLocation }.

Record DistributedStorage := mkDistributedStorage {
  st_self : peerID; st_net : mesh; st_chunks : gmap gostring DistributedChunk }.

Definition with_net (ds : DistributedStorage) (net : mesh) : DistributedStorage :=
  mkDistributedStorage (st_self ds) net (st_chunks ds).

(** The outside during one operation: libp2p's connected peers and peerstore,
    how identifiers are printed, what each shard's request meets ([d_pre]: the
    local stores before the goroutines; [d_store]: the second round of a
    repair), and the order in which status goroutines finish. *)
Record denv := mkDenv {
  d_connected : list AddrInfo; d_addrs : peerID → list gostring; d_show : peerID → string;
  d_pre : nat → cenv; d_req : nat → cenv; d_store : nat → cenv; d_ping : nat → cenv;
  d_sched : list (nat * ShardLocation) → list (nat * ShardLocation) }.

Definition shard_indices : list nat := seq 0 (Z.to_nat TotalShards).

(** [fmt.Sprintf("%s:%d", userAddr, chunkID)] *)
Definition registry_key (userAddr : gostring) (chunkID : Z) : gostring :=
  userAddr ++ string_bytes (":" +:+ pretty chunkID).

Definition RegisterChunk (ds : DistributedStorage) (chunk : DistributedChunk) : DistributedStorage :=
  mkDistributedStorage (st_self ds) (st_net ds)
    (<[registry_key (dc_UserAddr chunk) (dc_ChunkID chunk) := chunk]> (st_chunks ds)).
Definition UnregisterChunk (ds : DistributedStorage) (userAddr : gostring) (chunkID : Z) : DistributedStorage :=
  mkDistributedStorage (st_self ds) (st_net ds) (delete (registry_key userAddr chunkID) (st_chunks ds)).

Section distributed.
Context `{ReedSolomon} `{MeshJson} `{MeshText} `{X509} `{!RsaVerify} `{MeshHash}.

Definition NewDistributedStorage (self : peerID) (net : mesh) : DistributedStorage :=
  mkDistributedStorage self net ∅.

Definition generateStorageKey (userAddr : gostring) (chunkID : Z) : gostring :=
  let data := registry_key userAddr chunkID in
  let hash := mesh_sha256 data in
  hex_encode hash.

Definition findStorageNodes (self : peerID) (connected : list AddrInfo) (key : gostring) (count : Z)
  : list peerID :=
  let closestPeers := FindClosestNodes connected key count in
  let peerIDs := ai_ID <$> filter (λ p, ai_ID p ≠ self) closestPeers in
  if len peerIDs <? count then peerIDs ++ [self] else peerIDs.

(** this node's own storage *)
Definition local_store (net : mesh) (self : peerID) (key : gostring) (i : nat) (data : list Z) (e : cenv)
  : mesh * outcome unit :=
  let '(s, r) := StoreChunk (default ∅ (net !! self)) key (Z.of_nat i) data (Unix (h_now (c_henv e)))
                   (h_dberr (c_henv e)) in
  (<[self := s]> net, r).

(** a shard to its node *)
Definition store_shard (net : mesh) (self target : peerID) (key : gostring) (i : nat) (data : list Z) (e : cenv)
  : mesh * outcome unit :=
  if bool_decide (target = self) then local_store net self key i data e
  else Client_StoreChunk net target key (Z.of_nat i) data e.

(** a shard from its node *)
Definition fetch_shard (net : mesh) (self peer : peerID) (key : gostring) (i : Z) (e : cenv)
  : mesh * outcome shard :=
  if bool_decide (peer = self) then
    (net, data ← GetChunk (default ∅ (net !! self)) key i (h_dberr (c_henv e)); Ok (Some data))
  else Client_GetChunk net peer key i e.

(** ** Storing *)

(** the shards that have no peer of their own, stored here first *)
Fixpoint store_local (net : mesh) (self userAddr : gostring) (chunkID : Z) (shards : list shard) (env : nat → cenv)
  (js : list nat) : mesh * outcome unit :=
  match js with
  | [] => (net, Ok tt)
  | i :: js' =>
      match shards !! i with
      | None => (net, Panic)
      | Some s =>
          let '(net, r) := local_store net self (shard_key userAddr chunkID (Z.of_nat i)) i (shard_bytes s) (env i) in
          match r with
          | Ok _ => store_local net self userAddr chunkID shards env js'
          | r => (net, wrap_err ("failed to store local shard " +:+ pretty i +:+ ": ") r)
          end
      end
  end.

(** the goroutines of [StoreDistributed]: the locations, and the errors *)
Fixpoint distribute (net : mesh) (self userAddr : gostring) (chunkID : Z) (targets : list peerID)
  (shards : list shard) (e : denv) (js : list nat) : mesh * outcome (list ShardLocation * list string) :=
  match js with
  | [] => (net, Ok ([], []))
  | i :: js' =>
      match targets !! i, shards !! i with
      | Some target, Some s =>
          let '(net, r) := store_shard net self target (shard_key userAddr chunkID (Z.of_nat i)) i (shard_bytes s)
                             (d_req e i) in
          let '(net, rest) := distribute net self userAddr chunkID targets shards e js' in
          (net, '(locs, errs) ← rest;
                match r with
                | Ok _ => Ok (mkShardLocation (Z.of_nat i) target (d_addrs e target) :: locs, errs)
                | Err t =>
                    Ok (zero_location :: locs,
                        (if bool_decide (target = self) then "failed to store local shard " +:+ pretty i +:+ ": " +:+ t
                         else "failed to store shard " +:+ pretty i +:+ " on peer " +:+ d_show e target +:+ ": " +:+ t)
                        :: errs)
                | Panic => Panic
                end)
      | _, _ => (net, Panic)
      end
  end.

(** [%v] of a list of errors *)
Definition show_errors (errs : list string) : string := show_strings (string_bytes <$> errs).

Definition StoreDistributed (ds : DistributedStorage) (userAddr : gostring) (chunkID : Z) (data : list Z) (e : denv)
  : DistributedStorage * outcome DistributedChunk :=
  match wrap_err "failed to encode data: " (Encode data) with
  | Err t => (ds, Err t)
  | Panic => (ds, Panic)
  | Ok encoded =>
      let key := generateStorageKey userAddr chunkID in
      let targetPeers := findStorageNodes (st_self ds) (d_connected e) key TotalShards in
      let missing := drop (length targetPeers) shard_indices in
      let '(net, pre) := store_local (st_net ds) (st_self ds) userAddr chunkID (ed_Shards encoded) (d_pre e) missing in
      match pre with
      | Err t => (with_net ds net, Err t)
      | Panic => (with_net ds net, Panic)
      | Ok _ =>
          let targetPeers := targetPeers ++ ((λ _, st_self ds) <$> missing) in
          let '(net, r) := distribute net (st_self ds) userAddr chunkID targetPeers (ed_Shards encoded) e
                             shard_indices in
          let ds := with_net ds net in
          match r with
          | Err t => (ds, Err t)
          | Panic => (ds, Panic)
          | Ok (shardLocations, errs) =>
              if ParityShards <? len errs then
                (ds, Err ("failed to store " +:+ pretty (len errs) +:+ " shards (too many failures): "
                          +:+ show_errors errs))
              else
                let chunk := mkDistributedChunk userAddr chunkID (ed_OriginalSize encoded) (ed_ShardSize encoded)
                               shardLocations in
                (RegisterChunk ds chunk, Ok chunk)
          end
      end
  end.

(** ** Retrieving *)

(** [encoded.Shards[index] = shard], which panics out of range *)
Definition set_shard (shards : list shard) (index : Z) (s : shard) : outcome (list shard) :=
  if (index <? 0) || (len shards <=? index) then Panic else Ok (<[Z.to_nat index := s]> shards).

Fixpoint fetch_all (net : mesh) (self userAddr : gostring) (chunkID : Z) (env : nat → cenv) (n : nat)
  (locs : list ShardLocation) (shards : list shard) : mesh * outcome (list shard * Z) :=
  match locs with
  | [] => (net, Ok (shards, 0))
  | loc :: locs' =>
      let '(net, r) := fetch_shard net self (sl_PeerID loc) (shard_key userAddr chunkID (sl_ShardIndex loc))
                         (sl_ShardIndex loc) (env n) in
      match r with
      | Ok s =>
          match set_shard shards (sl_ShardIndex loc) s with
          | Ok shards =>
              let '(net, r) := fetch_all net self userAddr chunkID env (S n) locs' shards in
              (net, '(shards, c) ← r; Ok (shards, c + 1))
          | Err t => (net, Err t)
          | Panic => (net, Panic)
          end
      | Err _ => fetch_all net self userAddr chunkID env (S n) locs' shards
      | Panic => (net, Panic)
      end
  end.

Definition no_shards : list shard := replicate (Z.to_nat TotalShards) None.

Definition RetrieveDistributed (ds : DistributedStorage) (distributedChunk : option DistributedChunk) (e : denv)
  : DistributedStorage * outcome (list Z) :=
  match distributedChunk with
  | None => (ds, Err "distributed chunk is nil")
  | Some c =>
      let '(net, r) := fetch_all (st_net ds) (st_self ds) (dc_UserAddr c) (dc_ChunkID c) (d_req e) 0
                         (dc_ShardLocations c) no_shards in
      (with_net ds net,
       '(shards, successCount) ← r;
       if successCount <? MinShardsForRecovery then
         Err ("insufficient shards retrieved: have " +:+ pretty successCount +:+ ", need "
              +:+ pretty MinShardsForRecovery)
       else wrap_err "failed to decode data: " (Decode (Some (mkEncodedData shards (dc_ShardSize c) (dc_OriginalSize c)))))
  end.

(** ** Health *)

Definition set_status (status : list bool) (index : Z) (b : bool) : outcome (list bool) :=
  if (index <? 0) || (len status <=? index) then Panic else Ok (<[Z.to_nat index := b]> status).

Fixpoint ping_all (net : mesh) (self : peerID) (env : nat → cenv) (locs : list (nat * ShardLocation))
  (status : list bool) : mesh * outcome (list bool) :=
  match locs with
  | [] => (net, Ok status)
  | (n, loc) :: locs' =>
      let '(net, available) :=
        if bool_decide (sl_PeerID loc = self) then (net, Ok true)
        else let '(net, r) := Client_Ping net (sl_PeerID loc) (env n) in
             (net, match r with Ok _ => Ok true | Err _ => Ok false | Panic => Panic end) in
      match available with
      | Ok b =>
          match set_status status (sl_ShardIndex loc) b with
          | Ok status => ping_all net self env locs' status
          | Err t => (net, Err t)
          | Panic => (net, Panic)
          end
      | Err t => (net, Err t)
      | Panic => (net, Panic)
      end
  end.

Definition GetShardStatus (ds : DistributedStorage) (c : DistributedChunk) (e : denv)
  : DistributedStorage * outcome (list bool) :=
  let '(net, r) := ping_all (st_net ds) (st_self ds) (d_ping e) (d_sched e (imap pair (dc_ShardLocations c)))
                     (replicate (Z.to_nat TotalShards) false) in
  (with_net ds net, r).

Definition count_true (status : list bool) : Z := len (filter (λ b, b = true) status).
Definition health_score (availableCount : Z) : spec_float :=
  SFdiv 53 1024 (f64_of availableCount) (f64_of TotalShards).
(** [int(health * float64(TotalShards))] *)
Definition health_shards (health : spec_float) : Z := int64_of (SFmul 53 1024 health (f64_of TotalShards)).

Definition CalculateHealth (ds : DistributedStorage) (c : DistributedChunk) (e : denv)
  : DistributedStorage * outcome spec_float :=
  let '(ds, r) := GetShardStatus ds c e in
  (ds, status ← r; Ok (health_score (count_true status))).

(** ** Repair *)

(** the indices of a status list that have a value *)
Definition indices_of (b : bool) (status : list bool) : list nat :=
  (λ p : nat * bool, p.1) <$> filter (λ p : nat * bool, p.2 = b) (imap pair status).

(** the retrieval of a repair, by index *)
Fixpoint fetch_listed (net : mesh) (self : peerID) (c : DistributedChunk) (env : nat → cenv) (js : list nat)
  (shards : list shard) : mesh * outcome (list shard * Z) :=
  match js with
  | [] => (net, Ok (shards, 0))
  | i :: js' =>
      match dc_ShardLocations c !! i with
      | None => (net, Panic)
      | Some location =>
          let '(net, r) := fetch_shard net self (sl_PeerID location)
                             (shard_key (dc_UserAddr c) (dc_ChunkID c) (Z.of_nat i)) (Z.of_nat i) (env i) in
          match r with
          | Ok s =>
              let '(net, r) := fetch_listed net self c env js' (<[i := s]> shards) in
              (net, '(shards, n) ← r; Ok (shards, n + 1))
          | Err _ => fetch_listed net self c env js' shards
          | Panic => (net, Panic)
          end
      end
  end.

(** shard to node: the closest nodes, then this one *)
Definition shard_nodes (self : peerID) (storageNodes : list peerID) : list peerID :=
  (λ i, default self (storageNodes !! i)) <$> shard_indices.

(** storing the recreated shards: the locations change where it succeeds *)
Fixpoint store_listed (net : mesh) (self : peerID) (c : DistributedChunk) (nodes : list peerID) (shards : list shard)
  (e : denv) (js : list nat) (locs : list ShardLocation) : mesh * outcome (list ShardLocation * Z) :=
  match js with
  | [] => (net, Ok (locs, 0))
  | i :: js' =>
      match nodes !! i, shards !! i with
      | Some target, Some s =>
          let '(net, r) := store_shard net self target (shard_key (dc_UserAddr c) (dc_ChunkID c) (Z.of_nat i)) i
                             (shard_bytes s) (d_store e i) in
          match r with
          | Ok _ =>
              if bool_decide (i < length locs)%nat then
                let locs := <[i := mkShardLocation (Z.of_nat i) target (d_addrs e target)]> locs in
                let '(net, r) := store_listed net self c nodes shards e js' locs in
                (net, '(locs, n) ← r; Ok (locs, n + 1))
              else (net, Panic)
          | Err _ => store_listed net self c nodes shards e js' locs
          | Panic => (net, Panic)
          end
      | _, _ => (net, Panic)
      end
  end.

Definition with_locations (c : DistributedChunk) (locs : list ShardLocation) : DistributedChunk :=
  mkDistributedChunk (dc_UserAddr c) (dc_ChunkID c) (dc_OriginalSize c) (dc_ShardSize c) locs.

(** The chunk as it is afterwards, and the result. *)
Definition RepairChunk (ds : DistributedStorage) (c : DistributedChunk) (e : denv)
  : DistributedStorage * DistributedChunk * outcome unit :=
  let '(ds, r) := GetShardStatus ds c e in
  match r with
  | Err t => (ds, c, Err ("failed to get shard status: " +:+ t))
  | Panic => (ds, c, Panic)
  | Ok status =>
      let availableCount := count_true status in
      let missingShards := indices_of false status in
      if HealthExcellent <=? availableCount then (ds, c, Ok tt)
      else if availableCount <? MinShardsForRecovery then
        (ds, c, Err ("insufficient shards for recovery: have " +:+ pretty availableCount +:+ ", need "
                     +:+ pretty MinShardsForRecovery))
      else
        let '(net, r) := fetch_listed (st_net ds) (st_self ds) c (d_req e) (indices_of true status) no_shards in
        let ds := with_net ds net in
        match r with
        | Err t => (ds, c, Err t)
        | Panic => (ds, c, Panic)
        | Ok (shards, retrievedCount) =>
            if retrievedCount <? MinShardsForRecovery then
              (ds, c, Err ("failed to retrieve enough shards: got " +:+ pretty retrievedCount +:+ ", need "
                           +:+ pretty MinShardsForRecovery))
            else
              match wrap_err "failed to reconstruct shards: " (rs_Reconstruct shards) with
              | Err t => (ds, c, Err t)
              | Panic => (ds, c, Panic)
              | Ok shards =>
                  let key := generateStorageKey (dc_UserAddr c) (dc_ChunkID c) in
                  let nodes := shard_nodes (st_self ds) (findStorageNodes (st_self ds) (d_connected e) key TotalShards) in
                  let '(net, r) := store_listed (st_net ds) (st_self ds) c nodes shards e missingShards
                                     (dc_ShardLocations c) in
                  let ds := with_net ds net in
                  match r with
                  | Err t => (ds, c, Err t)
                  | Panic => (ds, c, Panic)
                  | Ok (locs, successCount) =>
                      (ds, with_locations c locs,
                       if successCount =? 0 then Err "failed to store any repaired shards" else Ok tt)
                  end
              end
        end
  end.

(** the peers are asked twice: [e] is the outside during the first round, [e']
    during the repair *)
Definition CheckAndRepairIfNeeded (ds : DistributedStorage) (c : DistributedChunk) (e e' : denv)
  : DistributedStorage * DistributedChunk * outcome unit :=
  let '(ds, r) := CalculateHealth ds c e in
  match r with
  | Err t => (ds, c, Err ("failed to calculate health: " +:+ t))
  | Panic => (ds, c, Panic)
  | Ok health =>
      let availableShards := health_shards health in
      if HealthGood <=? availableShards then (ds, c, Ok tt)
      else if HealthDegraded <=? availableShards then RepairChunk ds c e'
      else if HealthCritical <=? availableShards then RepairChunk ds c e'
      else (ds, c, Err ("chunk health too low for repair: " +:+ pretty availableShards +:+ "/" +:+ pretty TotalShards
                        +:+ " shards (need at least " +:+ pretty HealthCritical +:+ ")"))
  end.

(** one chunk of [checkAllChunks]; errors are only logged *)
Definition check_chunk (ds : DistributedStorage) (key : gostring) (e e' : denv) : DistributedStorage :=
  match st_chunks ds !! key with
  | None => ds
  | Some c =>
      let '(ds, c, _) := CheckAndRepairIfNeeded ds c e e' in
      mkDistributedStorage (st_self ds) (st_net ds) (<[key := c]> (st_chunks ds))
  end.
(** the registered chunks one after the other; [order] is the order of the map *)
Definition checkAllChunks (ds : DistributedStorage) (order : list gostring) (e e' : gostring → denv)
  : DistributedStorage := foldl (λ ds key, check_chunk ds key (e key) (e' key)) ds order.

(** ** Deletion *)

Fixpoint delete_all (net : mesh) (self userAddr : gostring) (chunkID : Z) (nodes : list peerID) (env : nat → cenv)
  (js : list nat) : mesh * outcome (Z * option string) :=
  match js with
  | [] => (net, Ok (0, None))
  | i :: js' =>
      match nodes !! i with
      | None => (net, Panic)
      | Some peer =>
          let '(net, r) :=
            if bool_decide (peer = self) then
              let '(s, r) := DeleteChunk (default ∅ (net !! self)) (shard_key userAddr chunkID (Z.of_nat i)) (Z.of_nat i)
                               (h_dberr (c_henv (env i))) in
              (<[self := s]> net, r)
            else Client_DeleteShard net peer userAddr chunkID (Z.of_nat i) (env i) in
          let '(net, rest) := delete_all net self userAddr chunkID nodes env js' in
          (net, '(n, last) ← rest;
                match r with
                | Ok _ => Ok (n + 1, last)
                | Err t => Ok (n, match last with Some l => Some l | None => Some t end)
                | Panic => Panic
                end)
      end
  end.

(** The nodes are looked up under another key than the one they were chosen by. *)
Definition Distributed_DeleteChunk (ds : DistributedStorage) (userAddr : gostring) (chunkID : Z) (e : denv)
  : DistributedStorage * outcome unit :=
  let key := registry_key userAddr chunkID in
  let storageNodes := findStorageNodes (st_self ds) (d_connected e) key TotalShards in
  let nodes := shard_nodes (st_self ds) storageNodes in
  let '(net, r) := delete_all (st_net ds) (st_self ds) userAddr chunkID nodes (d_req e) shard_indices in
  let ds := with_net ds net in
  let minRequired := TotalShards * 2 / 3 in
  match r with
  | Ok (successCount, lastErr) =>
      if successCount <? minRequired then
        (ds, Err ("failed to delete enough shards (" +:+ pretty successCount +:+ "/" +:+ pretty TotalShards
                  +:+ " deleted, " +:+ pretty minRequired +:+ " required): " +:+ default "" lastErr))
      else (UnregisterChunk ds userAddr chunkID, Ok tt)
  | Err t => (ds, Err t)
  | Panic => (ds, Panic)
  end.

End distributed.
