(* ===== verification/MeshRpcProofs.v ===== *)
(** * Theorems on the requests between mesh nodes *)

From S2P Require Import Prelude GoBytes GoText NodeID DhtStore DhtNode Onion Relay MeshCrypto MeshVersion Base64 MeshStore MeshNode MeshRpc.

Section rpc_proofs.
Context `{MeshJsonLaws} `{MeshText} `{X509} `{!RsaVerify} `{MeshHash}.

(** ** Messages arrive *)

Lemma json_sent {A} `{Json A} {typed plain} `{!JsonLaws A typed plain} (a : A) :
  typed a → plain a → ∃ d, json_marshal a = Ok d ∧ bytes d ∧ json_unmarshal d = Ok a.
Proof.
  intros Ht Hp. destruct (json_total a Ht) as (d & Hd & Hb). exists d. split_and!; [done..|]. by eapply json_round.
Qed.

Lemma message_sent v t id payload :
  ascii v → ascii t → ascii id → bytes payload →
  ∃ d, json_marshal (mkRPCMessage v t id payload) = Ok d ∧ json_unmarshal d = Ok (mkRPCMessage v t id payload).
Proof.
  intros Hv Ht Hi Hp. assert (RPCMessage_typed (mkRPCMessage v t id payload)) as Htyped.
  { split_and!; cbn; first [done|by apply ascii_bytes]. }
  destruct (json_sent (mkRPCMessage v t id payload) Htyped) as (d & ? & _ & ?); [by split_and!|by exists d].
Qed.

(** an answer, as the client reads it *)
Lemma read_response_sent id r :
  ascii id → RPCResponse_typed r →
  ∃ r', read_response (sendResponse id r) = Ok r' ∧ resp_Success r' = resp_Success r ∧
    (ascii (resp_Version r) → resp_Data r ≠ Some [] → ascii (resp_Error r) →
     from_option ShardInfo_plain True (resp_ShardInfo r) → Forall ShardInfo_plain (resp_ShardInfos r) → r' = r).
Proof.
  intros Hid Ht. destruct (json_total r Ht) as (d & Hd & Hb). destruct (response_success r d Hd) as (r' & Hr & Hs).
  destruct (message_sent [] MsgTypeResponse id d) as (m & Hm & Hu); [by_decision..|done|done|].
  exists r'. unfold sendResponse, read_response. rewrite Hd, Hm, Hu. cbn [wrap_err mbind outcome_bind rpc_Payload].
  rewrite Hr. cbn [wrap_err mbind outcome_bind]. split_and!; [done..|]. intros ? ? ? ? ?.
  rewrite (json_round r d) in Hr; [by apply Ok_inj in Hr|by split_and!|done].
Qed.

Lemma handleStream_message s m d e :
  json_unmarshal d = Ok m → rpc_Version m = CurrentVersion →
  handleStream s d e = let '(s, response) := handle_request s (rpc_Type m) (rpc_Payload m) e in
                       (s, sendResponse (rpc_ID m) (with_version response CurrentVersion)).
Proof. intros Hd Hv. unfold handleStream. by rewrite Hd, Hv. Qed.

(** a request to a peer that can be reached *)
Lemma sendRequest_reached net peer type id payload e s :
  ascii type → ascii id → bytes payload → c_link e ≠ Refused → net !! peer = Some s →
  sendRequest net peer (mkRPCMessage [] type id payload) e
  = let '(s', response) := handle_request s type payload (c_henv e) in
    (<[peer := s']> net,
     match c_link e with
     | Lost => Err "connection closed by peer"
     | _ => read_response (sendResponse id (with_version response CurrentVersion))
     end).
Proof.
  intros Ht Hi Hp Hl Hs. unfold sendRequest, set_version. cbn [rpc_Type rpc_ID rpc_Payload].
  destruct (message_sent CurrentVersion type id payload) as (d & Hd & Hu); [by_decision|done..|].
  rewrite Hd, Hs. destruct (c_link e); try done;
    rewrite (handleStream_message s _ d (c_henv e) Hu eq_refl); cbn [rpc_Type rpc_ID rpc_Payload];
    by destruct (handle_request s type payload (c_henv e)).
Qed.

Lemma sendRequest_unreached net peer m e :
  c_link e = Refused ∨ net !! peer = None →
  sendRequest net peer m e = (net, Err "failed to open stream: peer not reachable").
Proof. intros Hc. unfold sendRequest. destruct Hc as [->|Hn]; [done|]. rewrite Hn. by destruct (c_link e). Qed.

Definition reached (net : mesh) (peer : peerID) (e : cenv) : Prop :=
  c_link e ≠ Refused ∧ net !! peer ≠ None.

(** A call of any kind: the peer handles the request if it can be reached, and
    the caller gets the use of its answer, or an error. *)
Lemma call_cases {A Q} `{Json Q} {typed plain} `{!JsonLaws Q typed plain} net peer type id (req : Q) e
    (use : RPCResponse → A) :
  ascii type → ascii id → typed req → plain req →
  (∀ s d, net !! peer = Some s → json_unmarshal d = Ok req → RPCResponse_typed (handle_request s type d (c_henv e)).2) →
  (∃ t, call net peer type id req e use = (net, Err t) ∧ (c_link e = Refused ∨ net !! peer = None)) ∨
  ∃ s d, net !! peer = Some s ∧ c_link e ≠ Refused ∧ json_unmarshal d = Ok req ∧
    let '(s', response) := handle_request s type d (c_henv e) in
    ∃ r, call net peer type id req e use = (<[peer := s']> net, r) ∧
      ((∃ t, r = Err t) ∧ (c_link e = Lost ∨ resp_Success response = false) ∨
       c_link e = Up ∧ resp_Success response = true ∧
       ∃ response', r = Ok (use response') ∧
         (resp_Data response ≠ Some [] → ascii (resp_Error response) →
          from_option ShardInfo_plain True (resp_ShardInfo response) →
          Forall ShardInfo_plain (resp_ShardInfos response) → response' = with_version response CurrentVersion)).
Proof.
  intros Ht Hi Hty Hpl Hresp. destruct (json_sent req Hty Hpl) as (d & Hd & Hb & Hu).
  unfold call. rewrite Hd. destruct (net !! peer) as [s|] eqn:Hs; [destruct (c_link e) eqn:Hl|].
  2: { left. rewrite sendRequest_unreached by auto. eexists. split; [done|auto]. }
  3: { left. rewrite sendRequest_unreached by auto. eexists. split; [done|auto]. }
  - right. exists s, d. split_and!; [done|congruence|done|].
    rewrite (sendRequest_reached net peer type id d e s) by (done || congruence).
    pose proof (Hresp s d eq_refl Hu) as Htr. destruct (handle_request s type d (c_henv e)) as [s' response]. rewrite Hl.
    cbn [snd] in Htr. destruct Htr as (Hv & Hdt & He & Hinfo & Hinfos).
    destruct (read_response_sent id (with_version response CurrentVersion) Hi) as (r' & Hr & Hsucc & Hplain).
    { split_and!; try done. by_decision. }
    rewrite Hr. cbn [mbind outcome_bind]. eexists. split; [done|]. cbn in Hsucc. rewrite Hsucc.
    destruct (resp_Success response); cbn [negb]; [right|left; by eauto]. split_and!; [done..|].
    exists r'. split; [done|]. intros ? ? ? ?. apply Hplain; try done. by_decision.
  - right. exists s, d. split_and!; [done|congruence|done|].
    rewrite (sendRequest_reached net peer type id d e s) by (done || congruence).
    destruct (handle_request s type d (c_henv e)) as [s' response]. rewrite Hl. cbn [mbind outcome_bind].
    eexists. split; [done|]. left. eauto.
Qed.

(** ** Keys *)

Lemma request_id_ascii s n : ascii s → ascii (request_id s n).
Proof.
  intros Hs. unfold request_id. rewrite string_bytes_app, !ascii_app.
  split_and!; [done|by_decision|apply decimal_ascii, pretty_decimal].
Qed.
Lemma shard_key_ascii u c i : ascii u → ascii (shard_key u c i).
Proof.
  intros Hu. unfold shard_key. rewrite !string_bytes_app, !ascii_app.
  split_and!; try done; try by_decision; apply decimal_ascii, pretty_decimal.
Qed.

(** a key determines the user, the chunk and the shard *)
Lemma shard_key_inj u c i u' c' i' :
  shard_key u c i = shard_key u' c' i' → u = u' ∧ c = c' ∧ i = i'.
Proof.
  unfold shard_key. rewrite !string_bytes_app. set (sep := string_bytes "_").
  change (string_bytes "_shard_") with (95 :: string_bytes "shard" ++ sep). change sep with [95]. cbn [app].
  pose proof (pretty_decimal c) as Hc. pose proof (pretty_decimal c') as Hc'.
  pose proof (pretty_decimal i) as Hi. pose proof (pretty_decimal i') as Hi'.
  set (dc := string_bytes (pretty c)) in *. set (dc' := string_bytes (pretty c')) in *.
  set (di := string_bytes (pretty i)) in *. set (di' := string_bytes (pretty i')) in *.
  assert (∀ u d1 d2 : list Z, u ++ 95 :: d1 ++ 95 :: (string_bytes "shard" ++ [95]) ++ d2
          = ((u ++ 95 :: d1) ++ 95 :: string_bytes "shard") ++ 95 :: d2) as Hassoc.
  { intros v d1 d2. rewrite <- !app_assoc. cbn [app]. by rewrite <- ?app_assoc. }
  rewrite !Hassoc. intros [E1 Ei]%app_sep_inj; [|apply decimal_not_elem; [done|lia]..].
  apply app_sep_inj in E1 as [E1 _]; [|by_decision..].
  apply app_sep_inj in E1 as [Eu Ec]; [|apply decimal_not_elem; [done|lia]..].
  split_and!; [done|..]; by apply (inj pretty), (inj string_bytes).
Qed.

(** ** Answers are values of their Go type *)

Lemma success_typed : RPCResponse_typed success.
Proof. split_and!; cbn; try done; by_decision. Qed.
Lemma failure_typed t : RPCResponse_typed (failure t).
Proof. split_and!; cbn; try done; [by_decision|apply bytes_string_bytes]. Qed.

Lemma with_request_typed {A : Type} `{Json A} (s : LocalStorage) (d : list Z) (body : A → LocalStorage * RPCResponse)
    (req : A) :
  json_unmarshal d = Ok req → with_request s d body = body req.
Proof. intros Hd. unfold with_request. by rewrite Hd. Qed.

(** ** Storing and getting a chunk at a peer *)

Definition row_at (net : mesh) (peer : peerID) (key : gostring) (id : Z) (row : Row) : Prop :=
  ∃ s, net !! peer = Some s ∧ s !! (key, id) = Some row.

(** the mesh after a chunk was written *)
Definition written (net : mesh) (peer : peerID) (key : gostring) (id : Z) (data : list Z) (net' : mesh) : Prop :=
  ∃ s row, net !! peer = Some s ∧ row_Data row = data ∧ net' = <[peer := <[(key, id) := row]> s]> net.

Lemma handleStoreChunk_cases s d key id data e :
  json_unmarshal d = Ok (mkStoreChunkRequest key id data) → data ≠ [] →
  (h_dberr e = None ∧
   handleStoreChunk s d e = (<[(key, id) := mkRow data (Unix (h_now e)) (len data)]> s, success)) ∨
  ∃ t, h_dberr e ≠ None ∧ handleStoreChunk s d e = (s, failure t).
Proof.
  intros Hd Hne. unfold handleStoreChunk. rewrite (with_request_typed _ _ _ _ Hd).
  destruct (h_dberr e) as [t|] eqn:Et; cbn [sc_UserAddr sc_ChunkID sc_Data].
  - right. unfold StoreChunk. destruct (Z.eqb_spec (len data) 0); [by destruct data|]. by eexists.
  - left. by rewrite StoreChunk_ok.
Qed.

Lemma Client_StoreChunk_cases net peer key id data e :
  ascii key → is_s64 id → bytes data → data ≠ [] →
  let '(net', r) := Client_StoreChunk net peer key id data e in
  (r = Ok tt ∧ written net peer key id data net' ∨
   (∃ t, r = Err t) ∧ (net' = net ∨ written net peer key id data net')) ∧
  (c_link e = Up → h_dberr (c_henv e) = None → net !! peer ≠ None → r = Ok tt).
Proof.
  intros Hk Hi Hb Hne. unfold Client_StoreChunk.
  assert (StoreChunkRequest_typed (mkStoreChunkRequest key id data)) as Hty
    by (split_and!; cbn; [by apply ascii_bytes|done..]).
  destruct (call_cases net peer MsgTypeStoreChunk (request_id key id) (mkStoreChunkRequest key id data) e (λ _, tt))
    as [(t & -> & Hun)|(s & d & Hs & Hl & Hd & Hc)].
  - by_decision.
  - by apply request_id_ascii.
  - exact Hty.
  - by split.
  - intros s d _ Hd. change (handle_request s MsgTypeStoreChunk d (c_henv e)) with (handleStoreChunk s d (c_henv e)).
    destruct (handleStoreChunk_cases s d key id data (c_henv e) Hd Hne) as [(_ & ->)|(t & _ & ->)];
      [apply success_typed|apply failure_typed].
  - split; [right; eauto|]. intros ? ? ?. destruct Hun; congruence.
  - change (handle_request s MsgTypeStoreChunk d (c_henv e)) with (handleStoreChunk s d (c_henv e)) in Hc.
    destruct (handleStoreChunk_cases s d key id data (c_henv e) Hd Hne) as [(Hdb & Hh)|(t & Hdb & Hh)];
      rewrite Hh in Hc; destruct Hc as (r & -> & Hr).
    + assert (written net peer key id data
                (<[peer := <[(key, id) := mkRow data (Unix (h_now (c_henv e))) (len data)]> s]> net)) as Hw
        by (exists s, (mkRow data (Unix (h_now (c_henv e))) (len data)); by split_and!).
      destruct Hr as [[[t ->] Hlost]|(_ & _ & resp & -> & _)]; [|by auto].
      split; [right; by eauto|]. intros Hup. destruct Hlost; [congruence|done].
    + rewrite insert_id by done. destruct Hr as [[[t' ->] _]|(_ & ? & _)]; [|done].
      split; [right; by eauto|]. by intros.
Qed.

Lemma handleGetChunk_cases s d key id e :
  json_unmarshal d = Ok (mkGetChunkRequest key id) →
  (∃ row, h_dberr e = None ∧ s !! (key, id) = Some row ∧
     handleGetChunk s d e = (s, mkRPCResponse [] true (Some (row_Data row)) [] None [])) ∨
  ∃ t, (h_dberr e ≠ None ∨ s !! (key, id) = None) ∧ handleGetChunk s d e = (s, failure t).
Proof.
  intros Hd. unfold handleGetChunk. rewrite (with_request_typed _ _ _ _ Hd). unfold GetChunk.
  cbn [gc_UserAddr gc_ChunkID]. destruct (h_dberr e); [right; eauto|].
  destruct (s !! (key, id)) as [row|] eqn:Es; [left|right]; eauto.
Qed.

(** the rows of the mesh are chunks that were stored *)
Definition net_ok (net : mesh) : Prop :=
  ∀ peer key id row, row_at net peer key id row → row_Data row ≠ [] ∧ bytes (row_Data row).

Lemma Client_GetChunk_cases net peer key id e :
  net_ok net → ascii key → is_s64 id →
  ∃ r, Client_GetChunk net peer key id e = (net, r) ∧
    ((∃ row, row_at net peer key id row ∧ r = Ok (Some (row_Data row))) ∨
     (∃ t, r = Err t) ∧
     (c_link e ≠ Up ∨ h_dberr (c_henv e) ≠ None ∨ ¬ ∃ row, row_at net peer key id row)).
Proof.
  intros Hnet Hk Hi. unfold Client_GetChunk.
  assert (GetChunkRequest_typed (mkGetChunkRequest key id)) as Hty
    by (split_and!; cbn; [by apply ascii_bytes|done..]).
  assert (∀ s row, net !! peer = Some s → s !! (key, id) = Some row → row_Data row ≠ [] ∧ bytes (row_Data row)) as Hrow.
  { intros s row Hs Hr. eapply Hnet. by exists s. }
  destruct (call_cases (typed := GetChunkRequest_typed) net peer MsgTypeGetChunk (request_id key id)
    (mkGetChunkRequest key id) e resp_Data)
    as [(t & -> & Hun)|(s & d & Hs & Hl & Hd & Hc)].
  - by_decision.
  - by apply request_id_ascii.
  - exact Hty.
  - by split.
  - intros s d Hs Hd. change (handle_request s MsgTypeGetChunk d (c_henv e)) with (handleGetChunk s d (c_henv e)).
    destruct (handleGetChunk_cases s d key id (c_henv e) Hd) as [(row & _ & Hr & ->)|(t & _ & ->)];
      [|apply failure_typed]. destruct (Hrow s row Hs Hr). split_and!; cbn; try done; by_decision.
  - eexists. split; [done|]. right. split; [eauto|]. destruct Hun as [Hun|Hun]; [left; congruence|].
    right. right. intros (row & s & Hs & _). congruence.
  - change (handle_request s MsgTypeGetChunk d (c_henv e)) with (handleGetChunk s d (c_henv e)) in Hc.
    destruct (handleGetChunk_cases s d key id (c_henv e) Hd) as [(row & Hdb & Hr & Hh)|(t & Hdb & Hh)];
      rewrite Hh in Hc; destruct Hc as (r & -> & Hr'); rewrite insert_id by done.
    + destruct (Hrow s row Hs Hr) as [Hne Hb].
      destruct Hr' as [[[t ->] [Hlost|?]]|(_ & _ & resp & -> & Hresp)]; [|done|].
      * eexists. split; [done|]. right. split; [eauto|]. left. congruence.
      * rewrite Hresp by (first [done|by_decision|cbn; congruence]). eexists. split; [done|]. left. exists row.
        split; [by exists s|done].
    + destruct Hr' as [[[t' ->] _]|(_ & ? & _)]; [|done]. eexists. split; [done|]. right. split; [eauto|].
      right. destruct Hdb as [Hdb|Hdb]; [by left|]. right. intros (row & s' & Hs' & Hr'). simplify_eq.
Qed.

(** a ping changes nothing, and is answered by a peer that is up *)
Definition peer_up (net : mesh) (peer : peerID) (e : cenv) : Prop := c_link e = Up ∧ net !! peer ≠ None.
#[export] Instance peer_up_dec net peer e : Decision (peer_up net peer e).
Proof. unfold peer_up. destruct (c_link e); [|right; by intros []..]. destruct (net !! peer); [left|right]; naive_solver. Defined.

Lemma Client_Ping_cases net peer e :
  ∃ r, Client_Ping net peer e = (net, r) ∧
    (peer_up net peer e ∧ r = Ok tt ∨ ¬ peer_up net peer e ∧ ∃ t, r = Err t).
Proof.
  unfold Client_Ping, peer_up. destruct (net !! peer) as [s|] eqn:Hs; [destruct (c_link e) eqn:Hl|].
  2: { rewrite sendRequest_unreached by auto. eexists. split; [done|]. right. split; [naive_solver|by eexists]. }
  3: { rewrite sendRequest_unreached by auto. eexists. split; [done|]. right. split; [naive_solver|by eexists]. }
  - rewrite (sendRequest_reached net peer MsgTypePing (string_bytes "ping") [] e s)
      by (done || congruence || by_decision).
    change (handle_request s MsgTypePing [] (c_henv e)) with (s, success). rewrite Hl, insert_id by done.
    destruct (read_response_sent (string_bytes "ping") (with_version success CurrentVersion)) as (r & -> & Hr & _).
    { by_decision. }
    { split_and!; cbn; try done; by_decision. }
    cbn [mbind outcome_bind]. rewrite Hr. eexists. split; [done|]. left. naive_solver.
  - rewrite (sendRequest_reached net peer MsgTypePing (string_bytes "ping") [] e s)
      by (done || congruence || by_decision).
    change (handle_request s MsgTypePing [] (c_henv e)) with (s, success). rewrite Hl, insert_id by done.
    eexists. split; [done|]. right. split; [naive_solver|by eexists].
Qed.

(** ** Shards by their own requests *)

Lemma StoreShard_up net peer s key i data u c e :
  net !! peer = Some s → c_link e = Up → h_dberr (c_henv e) = None → ascii key → ascii u → is_s64 i → is_s64 c →
  bytes data → data ≠ [] → is_s64 (len data) →
  Client_StoreShard net peer key i data u c e
  = (<[peer := <[(key, i) := mkRow data (Unix (h_now (c_henv e))) (len data)]> s]> net,
     Ok (Some (mkShardInfo key i (len data) u c))).
Proof.
  intros Hs Hup Hdb Hk Hu Hi Hc Hb Hne Hlen. unfold Client_StoreShard.
  set (req := mkStoreShardRequest key i data u c).
  assert (StoreShardRequest_typed req) as Hty by (split_and!; cbn; first [done|by apply ascii_bytes]).
  assert (∀ d, json_unmarshal d = Ok req → handle_request s MsgTypeStoreShard d (c_henv e)
            = (<[(key, i) := mkRow data (Unix (h_now (c_henv e))) (len data)]> s,
               mkRPCResponse [] true None [] (Some (mkShardInfo key i (len data) u c)) [])) as Hh.
  { intros d Hd. change (handle_request s MsgTypeStoreShard d (c_henv e)) with (handleStoreShard s d (c_henv e)).
    unfold handleStoreShard. rewrite (with_request_typed _ _ _ _ Hd), Hdb. cbn [req ss_ShardKey ss_ShardIndex ss_Data].
    by rewrite StoreChunk_ok. }
  assert (ShardInfo_plain (mkShardInfo key i (len data) u c)) as Hinfo.
  { split; [split_and!; cbn; first [done|by apply ascii_bytes]|done]. }
  destruct (call_cases net peer MsgTypeStoreShard (request_id key i) req e resp_ShardInfo)
    as [(t & _ & Hun)|(s' & d & Hs' & _ & Hd & Hcall)].
  - by_decision.
  - by apply request_id_ascii.
  - exact Hty.
  - by split_and!.
  - intros s' d Hs' Hd. rewrite Hs in Hs'. injection Hs' as <-. rewrite (Hh d Hd). destruct Hinfo.
    split_and!; cbn; try done; by_decision.
  - destruct Hun; congruence.
  - rewrite Hs in Hs'. injection Hs' as <-. rewrite (Hh d Hd) in Hcall. destruct Hcall as (r & -> & Hr).
    destruct Hr as [[_ [?|?]]|(_ & _ & resp & -> & Hresp)]; [congruence|done|].
    rewrite Hresp by (first [done|by_decision]). done.
Qed.

Lemma GetShard_up net peer s key e :
  net !! peer = Some s → c_link e = Up → h_dberr (c_henv e) = None → ascii key → net_ok net →
  match s !! (key, 0) with
  | Some row => Client_GetShard net peer key e = (net, Ok (Some (row_Data row)))
  | None => ∃ t, Client_GetShard net peer key e = (net, Err t)
  end.
Proof.
  intros Hs Hup Hdb Hk Hnet. unfold Client_GetShard. set (req := mkGetShardRequest key).
  assert (GetShardRequest_typed req) as Hty by (by apply ascii_bytes).
  assert (∀ d, json_unmarshal d = Ok req → handle_request s MsgTypeGetShard d (c_henv e)
            = (s, match s !! (key, 0) with
                  | Some row => mkRPCResponse [] true (Some (row_Data row)) [] None []
                  | None => failure ("failed to get shard: " +:+ not_found key 0)
                  end)) as Hh.
  { intros d Hd. change (handle_request s MsgTypeGetShard d (c_henv e)) with (handleGetShard s d (c_henv e)).
    unfold handleGetShard. rewrite (with_request_typed _ _ _ _ Hd), Hdb. cbn [req gs_ShardKey GetChunk].
    by destruct (s !! (key, 0)). }
  assert (∀ row, s !! (key, 0) = Some row → row_Data row ≠ [] ∧ bytes (row_Data row)) as Hrow.
  { intros row Hr. eapply Hnet. by exists s. }
  destruct (call_cases net peer MsgTypeGetShard key req e resp_Data)
    as [(t & _ & Hun)|(s' & d & Hs' & _ & Hd & Hcall)].
  - by_decision.
  - done.
  - exact Hty.
  - by split.
  - intros s' d Hs' Hd. rewrite Hs in Hs'. injection Hs' as <-. rewrite (Hh d Hd). cbn [snd].
    destruct (s !! (key, 0)) as [row|]; [|apply failure_typed]. destruct (Hrow row eq_refl).
    split_and!; cbn; try done; by_decision.
  - destruct Hun; congruence.
  - rewrite Hs in Hs'. injection Hs' as <-. rewrite (Hh d Hd) in Hcall. destruct Hcall as (r & -> & Hr).
    rewrite insert_id by done. destruct (s !! (key, 0)) as [row|].
    + destruct (Hrow row eq_refl). destruct Hr as [[_ [?|?]]|(_ & _ & resp & -> & Hresp)]; [congruence|done|].
      rewrite Hresp by (first [done|by_decision|cbn; congruence]). done.
    + destruct Hr as [[[t ->] _]|(_ & ? & _)]; [by eauto|done].
Qed.

Lemma DeleteShard_up net peer s u c i e :
  net !! peer = Some s → c_link e = Up → h_dberr (c_henv e) = None → ascii u → is_s64 c → is_s64 i →
  match s !! (shard_key u c i, i) with
  | Some _ => Client_DeleteShard net peer u c i e = (<[peer := delete (shard_key u c i, i) s]> net, Ok tt)
  | None => ∃ t, Client_DeleteShard net peer u c i e = (net, Err t)
  end.
Proof.
  intros Hs Hup Hdb Hu Hc Hi. unfold Client_DeleteShard. set (req := mkDeleteShardRequest u c i [] [] []).
  assert (ascii []) as Hnil by constructor.
  assert (DeleteShardRequest_typed req) as Hty by (split_and!; cbn; first [done|by apply ascii_bytes]).
  assert (∀ d, json_unmarshal d = Ok req → handle_request s MsgTypeDeleteShard d (c_henv e)
            = match s !! (shard_key u c i, i) with
              | Some _ => (delete (shard_key u c i, i) s, success)
              | None => (s, failure ("failed to delete shard: " +:+ not_found (shard_key u c i) i))
              end) as Hh.
  { intros d Hd. change (handle_request s MsgTypeDeleteShard d (c_henv e)) with (handleDeleteShard s d (c_henv e)).
    unfold handleDeleteShard. rewrite (with_request_typed _ _ _ _ Hd), Hdb.
    cbn [req ds_UserAddr ds_ChunkID ds_ShardIndex ds_Signature DeleteChunk]. cbn -[shard_key].
    by destruct (s !! (shard_key u c i, i)). }
  destruct (call_cases net peer MsgTypeDeleteShard
    (string_bytes "delete-" ++ request_id (request_id u c) i) req e (λ _, tt))
    as [(t & _ & Hun)|(s' & d & Hs' & _ & Hd & Hcall)].
  - by_decision.
  - apply ascii_app. split; [by_decision|by apply request_id_ascii, request_id_ascii].
  - exact Hty.
  - by split_and!.
  - intros s' d Hs' Hd. rewrite Hs in Hs'. injection Hs' as <-. rewrite (Hh d Hd).
    destruct (s !! _); [apply success_typed|apply failure_typed].
  - destruct Hun; congruence.
  - rewrite Hs in Hs'. injection Hs' as <-. rewrite (Hh d Hd) in Hcall.
    destruct (s !! (shard_key u c i, i)) as [row|]; destruct Hcall as (r & -> & Hr).
    + destruct Hr as [[_ [?|?]]|(_ & _ & resp & -> & _)]; [congruence|done|done].
    + rewrite insert_id by done. destruct Hr as [[[t ->] _]|(_ & ? & _)]; [by eauto|done].
Qed.

(** the rows of [net'] are rows of [net] *)
Record loses (net net' : mesh) : Prop := {
  loses_peers : ∀ p : peerID, net' !! p = None ↔ net !! p = None;
  loses_rows : ∀ p k j row, row_at net' p k j row → row_at net p k j row }.

Lemma loses_refl net : loses net net.
Proof. by split. Qed.
Lemma loses_trans net1 net2 net3 : loses net1 net2 → loses net2 net3 → loses net1 net3.
Proof. intros [P1 R1] [P2 R2]. split; [intros p; by rewrite P2, P1|auto]. Qed.
Lemma loses_delete net (peer : peerID) s (k : gostring * Z) :
  net !! peer = Some s → loses net (<[peer := delete k s]> net).
Proof.
  intros Hs. split; intros p.
  - destruct (decide (p = peer)) as [->|Hp]; [rewrite lookup_insert_eq, Hs; naive_solver|by rewrite lookup_insert_ne].
  - intros key j row (s' & Hs' & Hr). destruct (decide (p = peer)) as [->|Hp].
    + rewrite lookup_insert_eq in Hs'. injection Hs' as <-. apply lookup_delete_Some in Hr as [_ Hr]. by exists s.
    + rewrite lookup_insert_ne in Hs' by done. by exists s'.
Qed.

Lemma DeleteChunk_cases s key i db :
  DeleteChunk s key i db = (delete (key, i) s, Ok tt) ∨ ∃ t, DeleteChunk s key i db = (s, Err t).
Proof. unfold DeleteChunk. destruct db; [eauto|]. destruct (s !! (key, i)); eauto. Qed.

Lemma Client_DeleteShard_loses net peer u c i e :
  ascii u → is_s64 c → is_s64 i →
  let '(net', r) := Client_DeleteShard net peer u c i e in loses net net' ∧ r ≠ Panic.
Proof.
  intros Hu Hc Hi. unfold Client_DeleteShard. set (req := mkDeleteShardRequest u c i [] [] []).
  assert (ascii []) as Hnil by constructor.
  assert (DeleteShardRequest_typed req) as Hty by (split_and!; cbn; first [done|by apply ascii_bytes]).
  assert (∀ s d, json_unmarshal d = Ok req →
    handle_request s MsgTypeDeleteShard d (c_henv e) = (delete (shard_key u c i, i) s, success) ∨
    ∃ t, handle_request s MsgTypeDeleteShard d (c_henv e) = (s, failure t)) as Hh.
  { intros s d Hd. change (handle_request s MsgTypeDeleteShard d (c_henv e)) with (handleDeleteShard s d (c_henv e)).
    unfold handleDeleteShard. rewrite (with_request_typed _ _ _ _ Hd). cbn -[shard_key].
    destruct (DeleteChunk_cases s (shard_key u c i) i (h_dberr (c_henv e))) as [->|[t ->]]; eauto. }
  destruct (call_cases net peer MsgTypeDeleteShard
    (string_bytes "delete-" ++ request_id (request_id u c) i) req e (λ _, tt))
    as [(t & -> & Hun)|(s & d & Hs & _ & Hd & Hcall)].
  - by_decision.
  - apply ascii_app. split; [by_decision|by apply request_id_ascii, request_id_ascii].
  - exact Hty.
  - by split_and!.
  - intros s d _ Hd. destruct (Hh s d Hd) as [->|[t ->]]; [apply success_typed|apply failure_typed].
  - split; [apply loses_refl|done].
  - destruct (Hh s d Hd) as [E|[t E]]; rewrite E in Hcall; destruct Hcall as (r & -> & Hr).
    + split; [by apply loses_delete|]. destruct Hr as [[[t ->] _]|(_ & _ & resp & -> & _)]; done.
    + rewrite insert_id by done. split; [apply loses_refl|]. destruct Hr as [[[t' ->] _]|(_ & _ & resp & -> & _)]; done.
Qed.

(** ** Properties *)

(** A shard stored with [StoreShard] is found by [GetShard] only if its index is
    0: the one files it under its index, the other looks under 0. *)
Theorem get_shard_ignores_index (net : mesh) (peer : peerID) (s : LocalStorage) (key : gostring) (i : Z)
    (data : list Z) (u : gostring) (c : Z) (e e' : cenv) :
  net !! peer = Some s → net_ok net → c_link e = Up → h_dberr (c_henv e) = None →
  c_link e' = Up → h_dberr (c_henv e') = None → ascii key → ascii u → is_s64 i → is_s64 c →
  bytes data → data ≠ [] → is_s64 (len data) → s !! (key, 0) = None →
  let '(net', r) := Client_StoreShard net peer key i data u c e in
  r = Ok (Some (mkShardInfo key i (len data) u c)) ∧
  (i = 0 → (Client_GetShard net' peer key e').2 = Ok (Some data)) ∧
  (i ≠ 0 → ∃ t, (Client_GetShard net' peer key e').2 = Err t).
Proof.
  intros Hs Hnet Hup Hdb Hup' Hdb' Hk Hu Hi Hc Hb Hne Hlen Hz. rewrite (StoreShard_up net peer s) by done.
  set (row := mkRow data _ _). set (net' := <[peer := _]> net).
  assert (net_ok net') as Hnet'.
  { intros p k j r (s' & Hs' & Hr). subst net'. destruct (decide (p = peer)) as [->|Hp].
    - rewrite lookup_insert_eq in Hs'. injection Hs' as <-. destruct (decide ((k, j) = (key, i))) as [E|E].
      + rewrite E, lookup_insert_eq in Hr. by injection Hr as <-.
      + rewrite lookup_insert_ne in Hr by done. apply (Hnet peer k j). by exists s.
    - rewrite lookup_insert_ne in Hs' by done. apply (Hnet p k j). by exists s'. }
  pose proof (GetShard_up net' peer _ key e' (lookup_insert_eq _ _ _) Hup' Hdb' Hk Hnet') as Hg.
  split_and!; [done| |].
  - intros ->. rewrite lookup_insert_eq in Hg. by rewrite Hg.
  - intros Hi0. rewrite lookup_insert_ne, Hz in Hg by congruence. destruct Hg as [t Hg]. exists t. by rewrite Hg.
Qed.

(** Any node can delete any user's shard: a request without signature is
    carried out. *)
Theorem unsigned_delete_accepted (net : mesh) (peer : peerID) (s : LocalStorage) (u : gostring) (c i : Z) (e : cenv) :
  net !! peer = Some s → is_Some (s !! (shard_key u c i, i)) → c_link e = Up → h_dberr (c_henv e) = None →
  ascii u → is_s64 c → is_s64 i →
  Client_DeleteShard net peer u c i e = (<[peer := delete (shard_key u c i, i) s]> net, Ok tt).
Proof.
  intros Hs [row Hr] Hup Hdb Hu Hc Hi. pose proof (DeleteShard_up net peer s u c i e Hs Hup Hdb Hu Hc Hi) as Hd.
  by rewrite Hr in Hd.
Qed.

Lemma timestamp_age_cases now ts :
  (Z.abs (now - ts) < 2 ^ 63 ∧ timestamp_age now ts = Z.abs (now - ts)) ∨
  (2 ^ 63 ≤ now - ts ∧ timestamp_age now ts = 2 ^ 63 - 1) ∨
  (2 ^ 63 ≤ ts - now ∧ timestamp_age now ts = - 2 ^ 63).
Proof.
  unfold timestamp_age, time_Sub.
  destruct (Z.ltb_spec (Z.max (- 2 ^ 63) (Z.min (2 ^ 63 - 1) (now - ts))) 0) as [Hn|Hn].
  - destruct (Z.le_gt_cases (2 ^ 63) (ts - now)) as [Hf|Hf].
    + right. right. split; [done|]. rewrite Z.max_l by lia. reflexivity.
    + left. split; [lia|]. rewrite s64_id; lia.
  - destruct (Z.le_gt_cases (2 ^ 63) (now - ts)) as [Hf|Hf]; [right; left|left]; lia.
Qed.

(** The signature of a deletion counts exactly when its time is at most five
    minutes off, or more than 292 years in the future: the difference saturates
    and its negation overflows. *)
Theorem delete_signature_window (req : DeleteShardRequest) (now ts : Z) (sig : list Z) (key : PublicKey) :
  parse_RFC3339 (ds_Timestamp req) = Ok ts → base64_decode (ds_Signature req) = Ok sig →
  ImportPublicKeyPEM (ds_PublicKey req) = Ok key → VerifySignature (delete_message req) sig key = Ok tt →
  verifyDeleteShardSignature req now = Ok tt ↔ Z.abs (now - ts) ≤ 300 * Second ∨ 2 ^ 63 ≤ ts - now.
Proof.
  intros Ht Hs Hk Hv. unfold verifyDeleteShardSignature. rewrite Ht, Hs, Hk. cbn [wrap_err mbind outcome_bind]. rewrite Hv.
  pose proof (timestamp_age_cases now ts) as Ha. unfold Second.
  destruct (Z.ltb_spec (5 * 60 * 1000000000) (timestamp_age now ts)); split; intros; try done; lia.
Qed.

(** A request of a version the node does not support changes nothing and is
    answered with a failure; without a version it counts as 1.0.0. *)
Theorem version_gate (s : LocalStorage) (m : RPCMessage) (d : list Z) (e : henv) :
  json_unmarshal d = Ok m → ascii (rpc_ID m) →
  if bool_decide (rpc_Version m = [] ∨ rpc_Version m = string_bytes "1.0.0") then
    handleStream s d e = (let '(s, response) := handle_request s (rpc_Type m) (rpc_Payload m) e in
                          (s, sendResponse (rpc_ID m) (with_version response CurrentVersion)))
  else (handleStream s d e).1 = s ∧
       ∃ r, read_response (handleStream s d e).2 = Ok r ∧ resp_Success r = false.
Proof.
  intros Hd Hid. unfold handleStream. rewrite Hd. case_bool_decide as Hv.
  - destruct Hv as [->| ->]; done.
  - rewrite bool_decide_false by tauto. unfold IsVersionSupported. rewrite bool_decide_false by tauto.
    cbn [contains getSupportedVersions]. rewrite bool_decide_false by (intros E; apply Hv; by right).
    cbn [negb fst snd]. split; [done|].
    destruct (read_response_sent (rpc_ID m) (with_version (failure ("unsupported protocol version: "
      +:+ bytes_string (rpc_Version m) +:+ " (supported: " +:+ show_strings (vi_SupportedVersions GetVersionInfo)
      +:+ ")")) CurrentVersion) Hid) as (r & Hr & Hs & _).
    { split_and!; cbn; try done; [by_decision|apply bytes_string_bytes]. }
    exists r. by split.
Qed.

End rpc_proofs.
