(* ===== verification/MeshProofs.v ===== *)
(** * Theorems on distributed chunks

    What is stored can be retrieved as long as ten of its shards can be
    fetched, whatever else happens in the mesh. *)

From S2P Require Import Prelude GoBytes GoText NodeID DhtStore DhtNode Onion Relay MeshErasure MeshCrypto MeshVersion MeshStore MeshNode MeshRpc MeshRpcProofs MeshDistributed.

(** ** What an operation may write

    [W k j d]: data [d] may be written under the key [(k, j)]. *)

Abbreviation writeset := (gostring → Z → list Z → Prop).

Record grows (W : writeset) (net net' : mesh) : Prop := {
  grows_peers : ∀ p : peerID, net' !! p = None ↔ net !! p = None;
  grows_new : ∀ p k j row, row_at net' p k j row → row_at net p k j row ∨ W k j (row_Data row);
  grows_old : ∀ p k j row, row_at net p k j row →
    ∃ row', row_at net' p k j row' ∧ (row' = row ∨ W k j (row_Data row')) }.

Lemma grows_refl W net : grows W net net.
Proof. split; [done|auto|]. intros p k j row Hr. exists row. auto. Qed.

Lemma grows_trans W net1 net2 net3 : grows W net1 net2 → grows W net2 net3 → grows W net1 net3.
Proof.
  intros [P1 N1 O1] [P2 N2 O2]. split.
  - intros p. by rewrite P2, P1.
  - intros p k j row Hr. destruct (N2 p k j row Hr) as [Hr2|?]; [by apply N1|by right].
  - intros p k j row Hr. destruct (O1 p k j row Hr) as (row2 & Hr2 & H2).
    destruct (O2 p k j row2 Hr2) as (row3 & Hr3 & H3). exists row3. split; [done|].
    destruct H3 as [->|?]; [done|by right].
Qed.

Lemma grows_weaken (W W' : writeset) net net' :
  (∀ k j d, W k j d → W' k j d) → grows W net net' → grows W' net net'.
Proof.
  intros Hw [P N O]. split; [done|..].
  - intros p k j row Hr. destruct (N p k j row Hr); auto.
  - intros p k j row Hr. destruct (O p k j row Hr) as (row' & Hr' & [?|?]); eauto.
Qed.

(** one row *)
Lemma grows_insert (W : writeset) (net : mesh) (peer : peerID) (s : LocalStorage) (key : gostring) (id : Z) (row : Row) :
  net !! peer = Some s → W key id (row_Data row) →
  grows W net (<[peer := <[(key, id) := row]> s]> net).
Proof.
  intros Hs Hw. split.
  - intros p. destruct (decide (p = peer)) as [->|Hp]; [rewrite lookup_insert_eq, Hs; naive_solver|].
    by rewrite lookup_insert_ne.
  - intros p k j r (s' & Hs' & Hr). destruct (decide (p = peer)) as [->|Hp].
    + rewrite lookup_insert_eq in Hs'. injection Hs' as <-. destruct (decide ((k, j) = (key, id))) as [[= -> ->]|Hk].
      * rewrite lookup_insert_eq in Hr. injection Hr as <-. by right.
      * rewrite lookup_insert_ne in Hr by done. left. by exists s.
    + rewrite lookup_insert_ne in Hs' by done. left. by exists s'.
  - intros p k j r (s' & Hs' & Hr). destruct (decide (p = peer)) as [->|Hp].
    + rewrite Hs' in Hs. injection Hs as ->. destruct (decide ((k, j) = (key, id))) as [[= -> ->]|Hk].
      * exists row. split; [|by right]. eexists. by rewrite !lookup_insert_eq.
      * exists r. split; [|by left]. eexists. rewrite lookup_insert_eq. split; [done|]. by rewrite lookup_insert_ne.
    + exists r. split; [|by left]. exists s'. by rewrite lookup_insert_ne.
Qed.

Lemma row_at_fun net p k j row row' : row_at net p k j row → row_at net p k j row' → row = row'.
Proof. intros (s & Hs & Hr) (s' & Hs' & Hr'). congruence. Qed.

(** what is written are chunks *)
Definition writes_ok (W : writeset) : Prop := ∀ k j d, W k j d → d ≠ [] ∧ bytes d.

Lemma grows_net_ok W net net' : writes_ok W → grows W net net' → net_ok net → net_ok net'.
Proof. intros Hw [_ N _] Hn p k j row Hr. destruct (N p k j row Hr); [by eapply Hn|by eapply Hw]. Qed.

Section mesh_proofs.
Context `{ReedSolomonLaws} `{MeshJsonLaws} `{MeshText} `{X509} `{!RsaVerify} `{MeshHash}.

(** ** Single shards *)

Definition one_write (key : gostring) (i : Z) (data : list Z) : writeset :=
  λ k j d, k = key ∧ j = i ∧ d = data.

Lemma written_grows net peer key id data net' :
  written net peer key id data net' →
  grows (one_write key id data) net net' ∧ ∃ row, row_at net' peer key id row ∧ row_Data row = data.
Proof.
  intros (s & row & Hs & Hd & ->). split.
  - apply grows_insert; [done|by split_and!].
  - exists row. split; [|done]. eexists. by rewrite !lookup_insert_eq.
Qed.

(** a node that can store a shard *)
Definition writable (net : mesh) (self target : peerID) (e : cenv) : Prop :=
  h_dberr (c_henv e) = None ∧ (target = self ∨ c_link e = Up ∧ net !! target ≠ None).

Lemma writable_grows W net net' self target e :
  grows W net net' → writable net self target e → writable net' self target e.
Proof.
  intros Hg [Hdb Hw]. split; [done|]. destruct Hw as [?|[? Hn]]; [by left|right]. split; [done|].
  by rewrite (grows_peers _ _ _ Hg).
Qed.
Lemma grows_self W net net' (p : peerID) : grows W net net' → net !! p ≠ None → net' !! p ≠ None.
Proof. intros Hg. by rewrite (grows_peers _ _ _ Hg). Qed.

(** storing a shard, wherever: it writes nothing else, and success means that it is there *)
Lemma store_shard_cases (net : mesh) (self target : peerID) key i data e :
  net !! self ≠ None → ascii key → is_s64 (Z.of_nat i) → bytes data → data ≠ [] →
  let '(net', r) := store_shard net self target key i data e in
  grows (one_write key (Z.of_nat i) data) net net' ∧
  (r = Ok tt ∧ (∃ row, row_at net' target key (Z.of_nat i) row ∧ row_Data row = data) ∨
   (∃ t, r = Err t) ∧ ¬ writable net self target e).
Proof.
  intros Hself Hk Hi Hb Hne. unfold store_shard, local_store, writable. case_bool_decide as Ht.
  - subst target. unfold StoreChunk. destruct (Z.eqb_spec (len data) 0); [by destruct data|].
    destruct (net !! self) as [s|] eqn:Hs; [|done]. cbn [from_option id].
    destruct (h_dberr (c_henv e)); [rewrite insert_id by done; split; [apply grows_refl|naive_solver]|].
    split; [by apply grows_insert; [|split_and!]|]. left. split; [done|].
    exists (mkRow data (Unix (h_now (c_henv e))) (len data)). split; [|done]. eexists. by rewrite !lookup_insert_eq.
  - pose proof (Client_StoreChunk_cases net target key (Z.of_nat i) data e Hk Hi Hb Hne) as Hc.
    destruct (Client_StoreChunk net target key (Z.of_nat i) data e) as [net' r].
    destruct Hc as [[[-> Hw]|[[t ->] Hw]] Hup].
    + apply written_grows in Hw as [? ?]. auto.
    + split; [|naive_solver]. destruct Hw as [->|Hw]; [apply grows_refl|by apply written_grows in Hw as [? _]].
Qed.

(** a shard that can be fetched *)
Definition available (net : mesh) (self peer : peerID) (key : gostring) (i : Z) (e : cenv) : Prop :=
  (peer = self ∨ c_link e = Up) ∧ h_dberr (c_henv e) = None ∧ ∃ row, row_at net peer key i row.

Lemma fetch_shard_cases net self peer key i e :
  net_ok net → ascii key → is_s64 i →
  ∃ r, fetch_shard net self peer key i e = (net, r) ∧
    ((∃ row, row_at net peer key i row ∧ r = Ok (Some (row_Data row))) ∨
     (∃ t, r = Err t) ∧ ¬ available net self peer key i e).
Proof.
  intros Hn Hk Hi. unfold fetch_shard. case_bool_decide as Hp.
  - subst peer. eexists. split; [done|]. unfold GetChunk, available.
    destruct (h_dberr (c_henv e)); [right; split; [by eexists|by intros (_ & ? & _)]|].
    destruct (net !! self) as [s|] eqn:Es; cbn [from_option id].
    + destruct (s !! (key, i)) as [row|] eqn:Er; [left; exists row; split; [by exists s|done]|].
      right. split; [by eexists|]. intros (_ & _ & row & s' & Hs' & Hr). congruence.
    + rewrite lookup_empty. right. split; [by eexists|]. intros (_ & _ & row & s' & Hs' & Hr). congruence.
  - destruct (Client_GetChunk_cases net peer key i e Hn Hk Hi) as (r & -> & Hr). exists r. split; [done|].
    destruct Hr as [Hr|[Ht Hr]]; [by left|right]. split; [done|]. intros (Hu & Hdb & Hrow).
    destruct Hr as [Hr|[Hr|Hr]]; [|by apply Hr|by apply Hr]. destruct Hu; [done|congruence].
Qed.

(** ** One chunk

    [u] and [c] name a chunk and [code] are its shards. *)

Section chunk.
Context (u : gostring) (c : Z) (data : list Z) (code : list shard).
Context (Hu : ascii u) (Hcode : codeword data code).

(** shard [i] of the code under its key *)
Definition chunk_writes : writeset :=
  λ k j d, ∃ i : nat, k = shard_key u c (Z.of_nat i) ∧ j = Z.of_nat i ∧ code !! i = Some (Some d).

Lemma chunk_writes_ok : writes_ok chunk_writes.
Proof. intros k j d (i & _ & _ & Hd). apply (cw_shard _ _ Hcode) in Hd as (b & [= <-] & ? & ?). done. Qed.

Lemma chunk_writes_at (i : nat) d :
  chunk_writes (shard_key u c (Z.of_nat i)) (Z.of_nat i) d → code !! i = Some (Some d).
Proof. intros (i' & _ & E%Nat2Z.inj & Hd). by subst. Qed.

Lemma code_index (i : nat) : (i < 15)%nat → ∃ b, code !! i = Some (Some b) ∧ b ≠ [] ∧ bytes b ∧ is_s64 (Z.of_nat i).
Proof.
  intros Hi. destruct (lookup_lt_is_Some_2 code i) as [s Hs]; [by rewrite (cw_length _ _ Hcode)|].
  destruct (cw_shard _ _ Hcode i s Hs) as (b & -> & ? & ?). exists b. split_and!; try done; unfold is_s64 in *; lia.
Qed.

(** the peer of a location has the shard *)
Definition stored (net : mesh) (loc : ShardLocation) : Prop :=
  ∃ i row, sl_ShardIndex loc = Z.of_nat i ∧ row_at net (sl_PeerID loc) (shard_key u c (Z.of_nat i)) (Z.of_nat i) row ∧
    code !! i = Some (Some (row_Data row)).

Lemma stored_grows net net' loc : grows chunk_writes net net' → stored net loc → stored net' loc.
Proof.
  intros [_ _ O] (i & row & Hi & Hr & Hd). destruct (O _ _ _ _ Hr) as (row' & Hr' & Hw).
  exists i, row'. split_and!; [done..|]. destruct Hw as [->|Hw]; [done|]. by apply chunk_writes_at.
Qed.

Lemma shard_write (i : nat) b net net' :
  code !! i = Some (Some b) → grows (one_write (shard_key u c (Z.of_nat i)) (Z.of_nat i) b) net net' →
  grows chunk_writes net net'.
Proof. intros Hb. apply grows_weaken. intros k j d (-> & -> & ->). by exists i. Qed.

(** *** Storing *)

Lemma store_local_grows self env js : ∀ net,
  net !! self ≠ None → (∀ i, i ∈ js → (i < 15)%nat) →
  let '(net', r) := store_local net self u c code env js in
  grows chunk_writes net net' ∧ r ≠ Panic ∧ ((∀ i, i ∈ js → h_dberr (c_henv (env i)) = None) → r = Ok tt).
Proof.
  induction js as [|i js IH]; intros net Hself Hjs; cbn [store_local]; [split_and!; [apply grows_refl|done..]|].
  destruct (code_index i) as (b & Hb & Hne & Hbb & Hi); [by apply Hjs; left|]. rewrite Hb. change (shard_bytes (Some b)) with b.
  pose proof (store_shard_cases net self self (shard_key u c (Z.of_nat i)) i b (env i) Hself
    ltac:(by apply shard_key_ascii) Hi Hbb Hne) as Hs.
  unfold store_shard in Hs. rewrite bool_decide_true in Hs by done.
  destruct (local_store net self (shard_key u c (Z.of_nat i)) i b (env i)) as [net1 r]. destruct Hs as [Hg Hr].
  apply (shard_write i b) in Hg; [|done]. destruct Hr as [[-> _]|[[t ->] Hnw]].
  - specialize (IH net1 ltac:(by eapply grows_self) ltac:(intros j Hj; apply Hjs; by right)).
    destruct (store_local net1 self u c code env js) as [net2 r2]. destruct IH as (Hg2 & ? & Hok).
    split_and!; [by eapply grows_trans|done|]. intros Hdb. apply Hok. intros j Hj. apply Hdb. by right.
  - split_and!; [done|by cbn|]. intros Hdb. destruct Hnw. split; [|by left]. apply Hdb. left.
Qed.

Lemma distribute_spec self targets e js : ∀ net,
  net !! self ≠ None → NoDup js → (∀ i, i ∈ js → (i < 15)%nat) → length targets = 15%nat →
  ∃ net' locs errs held, distribute net self u c targets code e js = (net', Ok (locs, errs)) ∧
    grows chunk_writes net net' ∧ length locs = length js ∧
    (∀ n i loc, js !! n = Some i → locs !! n = Some loc →
       loc = zero_location ∨ sl_ShardIndex loc = Z.of_nat i ∧ stored net' loc) ∧
    NoDup held ∧ (length held + length errs = length js)%nat ∧
    (∀ i, i ∈ held → ∃ n loc, js !! n = Some i ∧ locs !! n = Some loc ∧ sl_ShardIndex loc = Z.of_nat i ∧ stored net' loc) ∧
    ((∀ i target, i ∈ js → targets !! i = Some target → writable net self target (d_req e i)) → errs = []).
Proof.
  induction js as [|i js IH]; intros net Hself Hn Hjs Hlen; cbn [distribute].
  { exists net, [], [], []. split_and!; [done|apply grows_refl|done|by intros|apply NoDup_nil_2|done| |done].
    intros i Hi. by apply not_elem_of_nil in Hi. }
  apply NoDup_cons in Hn as [Hni Hn].
  destruct (code_index i) as (b & Hb & Hne & Hbb & Hi); [by apply Hjs; left|].
  destruct (lookup_lt_is_Some_2 targets i) as [target Ht]; [rewrite Hlen; by apply Hjs; left|].
  rewrite Ht, Hb. change (shard_bytes (Some b)) with b.
  pose proof (store_shard_cases net self target (shard_key u c (Z.of_nat i)) i b (d_req e i) Hself
    ltac:(by apply shard_key_ascii) Hi Hbb Hne) as Hs.
  destruct (store_shard net self target (shard_key u c (Z.of_nat i)) i b (d_req e i)) as [net1 r].
  destruct Hs as [Hg Hr]. apply (shard_write i b) in Hg; [|done].
  destruct (IH net1 ltac:(by eapply grows_self) Hn ltac:(intros j Hj; apply Hjs; by right) Hlen)
    as (net2 & locs & errs & held & -> & Hg2 & Hll & Hlocs & Hnh & Hcount & Hheld & Hall).
  pose proof (grows_trans _ _ _ _ Hg Hg2) as Hg3. cbn [mbind outcome_bind].
  assert (∀ x, x ∈ held → x ∈ js) as Hsub.
  { intros x Hx. destruct (Hheld x Hx) as (n & loc & Hjn & _). by eapply list_elem_of_lookup_2. }
  destruct Hr as [[-> (row & Hrow & Hd)]|[[t ->] Hnw]].
  - set (loc0 := mkShardLocation (Z.of_nat i) target (d_addrs e target)).
    assert (stored net2 loc0) as Hst.
    { apply (stored_grows net1); [done|]. exists i, row. split_and!; [done..|]. by rewrite Hd. }
    exists net2, (loc0 :: locs), errs, (i :: held). split_and!; [done|done|cbn; lia| | |cbn; lia| |].
    + intros [|n] j loc Hj Hl; cbn in Hj, Hl; [|by eapply Hlocs]. simplify_eq. by right.
    + apply NoDup_cons. split; [|done]. intros Hin. by apply Hni, Hsub.
    + intros j [->|Hj]%elem_of_cons; [by exists 0%nat, loc0|]. destruct (Hheld j Hj) as (n & loc & ? & ? & ? & ?).
      by exists (S n), loc.
    + intros Hw. apply Hall. intros j tgt Hj Hjt. apply (writable_grows chunk_writes net); [done|].
      apply Hw; [by right|done].
  - exists net2, (zero_location :: locs). eexists _, held. split_and!; [done|done|cbn; lia| |done|cbn; lia| |].
    + intros [|n] j loc Hj Hl; cbn in Hj, Hl; [|by eapply Hlocs]. simplify_eq. by left.
    + intros j Hj. destruct (Hheld j Hj) as (n & loc & ? & ? & ? & ?). by exists (S n), loc.
    + intros Hw. destruct Hnw. apply Hw; [by left|done].
Qed.

(** *** Retrieving *)

(** rows of the chunk at a peer are the right shards *)
Definition good_at (net : mesh) (peer : peerID) (i : nat) : Prop :=
  ∀ row, row_at net peer (shard_key u c (Z.of_nat i)) (Z.of_nat i) row → code !! i = Some (Some (row_Data row)).

Lemma good_grows net net' peer i : grows chunk_writes net net' → good_at net peer i → good_at net' peer i.
Proof.
  intros [_ N _] Hg row Hr. destruct (N _ _ _ _ Hr) as [Ho|Hw]; [by apply Hg|by apply chunk_writes_at].
Qed.

(** Whatever the locations still hold is right.  A location that failed is zero. *)
Definition intact (net : mesh) (locs : list ShardLocation) : Prop :=
  length locs = 15%nat ∧
  ∀ n loc, locs !! n = Some loc →
    (sl_ShardIndex loc = Z.of_nat n ∨ sl_ShardIndex loc = 0) ∧
    good_at net (sl_PeerID loc) n ∧ good_at net (sl_PeerID loc) (Z.to_nat (sl_ShardIndex loc)).

Lemma intact_grows net net' locs : grows chunk_writes net net' → intact net locs → intact net' locs.
Proof.
  intros Hg [Hlen Hi]. split; [done|]. intros n loc Hl. destruct (Hi n loc Hl) as (? & ? & ?).
  split_and!; [done|by eapply good_grows..].
Qed.

Definition fetchable (net : mesh) (loc : ShardLocation) : Prop :=
  ∃ i : nat, (i < 15)%nat ∧ sl_ShardIndex loc = Z.of_nat i ∧ good_at net (sl_PeerID loc) i.

Lemma intact_fetchable net locs : intact net locs → ∀ loc, loc ∈ locs → fetchable net loc.
Proof.
  intros [Hlen Hi] loc [n Hn]%list_elem_of_lookup_1. destruct (Hi n loc Hn) as (Hidx & Hg & Hg').
  pose proof (lookup_lt_Some _ _ _ Hn). destruct Hidx as [E|E].
  - exists n. split_and!; [lia|done..].
  - rewrite E in Hg'. exists 0%nat. split_and!; [lia|done..].
Qed.

Definition agrees (shards : list shard) : Prop := ∀ i s, shards !! i = Some (Some s) → code !! i = Some (Some s).

Definition location_available (net : mesh) (self : peerID) (e : cenv) (loc : ShardLocation) : Prop :=
  available net self (sl_PeerID loc) (shard_key u c (sl_ShardIndex loc)) (sl_ShardIndex loc) e.

Lemma fetch_all_spec net self env locs : ∀ n shards,
  net_ok net → (∀ loc, loc ∈ locs → fetchable net loc) → length shards = 15%nat → agrees shards →
  ∃ shards' cnt, fetch_all net self u c env n locs shards = (net, Ok (shards', cnt)) ∧
    length shards' = 15%nat ∧ agrees shards' ∧ present shards' ≤ present shards + cnt ∧
    (∀ i s, shards !! i = Some (Some s) → shards' !! i = Some (Some s)) ∧
    (∀ m loc, locs !! m = Some loc → location_available net self (env (n + m)%nat) loc →
       ∃ s, shards' !! Z.to_nat (sl_ShardIndex loc) = Some (Some s)).
Proof.
  induction locs as [|loc locs IH]; intros n shards Hn Hint Hlen Hag; cbn [fetch_all].
  { exists shards, 0. split_and!; try done. lia. }
  destruct (Hint loc) as (i & Hi & Hidx & Hrow); [left|]. rewrite Hidx.
  destruct (code_index i Hi) as (b & Hb & _ & _ & Hs64).
  destruct (fetch_shard_cases net self (sl_PeerID loc) (shard_key u c (Z.of_nat i)) (Z.of_nat i) (env n) Hn
    ltac:(by apply shard_key_ascii) Hs64) as (r & -> & Hr).
  assert (∀ loc, loc ∈ locs → fetchable net loc) as Hint' by (intros l Hl; apply Hint; by right).
  destruct Hr as [(row & Hat & ->)|[[t ->] Hna]].
  - unfold set_shard. rewrite (proj2 (orb_false_iff _ _)) by (rewrite Z.ltb_ge, Z.leb_gt; unfold len; lia).
    rewrite Nat2Z.id. pose proof (Hrow row Hat) as Hd.
    destruct (IH (S n) (<[i := Some (row_Data row)]> shards) Hn Hint') as (shards' & cnt & -> & Hl' & Ha' & Hp & Hk & Hav).
    { by rewrite length_insert. }
    { intros j s. destruct (decide (j = i)) as [->|Hj].
      - rewrite list_lookup_insert_eq by lia. by intros [= <-].
      - rewrite list_lookup_insert_ne by done. apply Hag. }
    exists shards', (cnt + 1). pose proof (present_insert shards i (Some (row_Data row))). split_and!; try done.
    + lia.
    + intros j s Hj. apply Hk. destruct (decide (j = i)) as [->|Hji]; [|by rewrite list_lookup_insert_ne].
      rewrite list_lookup_insert_eq by lia. apply Hag in Hj. congruence.
    + intros [|m] l Hl Hv; cbn in Hl.
      * injection Hl as <-. rewrite Hidx, Nat2Z.id. eexists. apply Hk. by apply list_lookup_insert_eq; lia.
      * rewrite Nat.add_succ_r in Hv. by eapply (Hav m).
  - destruct (IH (S n) shards Hn Hint' Hlen Hag) as (shards' & cnt & -> & Hl' & Ha' & Hp & Hk & Hav).
    exists shards', cnt. split_and!; try done. intros [|m] l Hl Hv; cbn in Hl.
    + injection Hl as <-. rewrite Nat.add_0_r in Hv. unfold location_available in Hv. by rewrite Hidx in Hv.
    + rewrite Nat.add_succ_r in Hv. by eapply (Hav m).
Qed.

(** a chunk whose locations are intact *)
Record chunk_ok (net : mesh) (chunk : DistributedChunk) : Prop := {
  co_user : dc_UserAddr chunk = u;
  co_id : dc_ChunkID chunk = c;
  co_size : dc_OriginalSize chunk = len data;
  co_intact : intact net (dc_ShardLocations chunk) }.

(** position [n] of the locations can be fetched *)
Definition alive_at (net : mesh) (self : peerID) (env : nat → cenv) (locs : list ShardLocation) (n : nat) : Prop :=
  ∃ loc, locs !! n = Some loc ∧ sl_ShardIndex loc = Z.of_nat n ∧ location_available net self (env n) loc.

Lemma agrees_none : agrees no_shards.
Proof. intros i s. unfold no_shards. by intros [? _]%lookup_replicate. Qed.

Lemma retrieve_chunk ds chunk e :
  net_ok (st_net ds) → chunk_ok (st_net ds) chunk →
  ∃ r, RetrieveDistributed ds (Some chunk) e = (ds, r) ∧ (r = Ok data ∨ ∃ t, r = Err t) ∧
    ∀ alive, NoDup alive → MinShardsForRecovery ≤ len alive →
      (∀ n, n ∈ alive → alive_at (st_net ds) (st_self ds) (d_req e) (dc_ShardLocations chunk) n) → r = Ok data.
Proof.
  intros Hn [Eu Ec Es Hint]. unfold RetrieveDistributed. rewrite Eu, Ec, Es.
  destruct (fetch_all_spec (st_net ds) (st_self ds) (d_req e) (dc_ShardLocations chunk) 0 no_shards Hn
    (intact_fetchable _ _ Hint) eq_refl agrees_none) as (shards & cnt & -> & Hl & Hag & Hp & _ & Hav).
  eexists. split; [by destruct ds|]. change (present no_shards) with 0 in Hp. cbn [mbind outcome_bind].
  split.
  - destruct (Z.ltb_spec cnt MinShardsForRecovery) as [?|_]; [right; by eexists|].
    destruct (decide (MinShardsForRecovery ≤ present shards)) as [Hge|Hlt].
    + left. by rewrite (Decode_codeword data code shards).
    + right. rewrite Decode_insufficient by (done || lia). by eexists.
  - intros alive Hnd Hten Hal. assert (len alive ≤ present shards) as Hle.
    { apply present_positions; [done|]. intros i Hi. destruct (Hal i Hi) as (loc & Hloc & Hidx & Ha).
      destruct (Hav i loc Hloc Ha) as [s Hs]. exists s. by rewrite Hidx, Nat2Z.id in Hs. }
    destruct (Z.ltb_spec cnt MinShardsForRecovery) as [?|_]; [lia|].
    rewrite (Decode_codeword data code shards) by (done || lia). done.
Qed.

(** *** Storing, all of it *)

Definition no_rows (net : mesh) (peer : peerID) : Prop := ∀ k j row, ¬ row_at net peer k j row.

Lemma stored_good net loc i : sl_ShardIndex loc = Z.of_nat i → stored net loc → good_at net (sl_PeerID loc) i.
Proof.
  intros Hi (i' & row & Hi' & Hr & Hd) row' Hr'. assert (i' = i) as -> by lia.
  by rewrite (row_at_fun _ _ _ _ _ _ Hr' Hr).
Qed.

Lemma findStorageNodes_le self connected key : (length (findStorageNodes self connected key TotalShards) ≤ 15)%nat.
Proof.
  unfold findStorageNodes. set (l := ai_ID <$> _).
  assert (length l ≤ 15)%nat as Hl.
  { subst l. rewrite length_fmap. etrans; [apply length_filter|]. unfold FindClosestNodes.
    rewrite length_fmap, length_take. change (Z.to_nat TotalShards) with 15%nat. lia. }
  destruct (Z.ltb_spec (len l) TotalShards) as [Hlt|?]; [|done]. rewrite length_app. cbn [length].
  unfold len in Hlt. change TotalShards with 15 in Hlt. lia.
Qed.

Lemma targets_length (self : peerID) (nodes : list peerID) :
  (length nodes ≤ 15)%nat → length (nodes ++ ((λ _ : nat, self) <$> drop (length nodes) shard_indices)) = 15%nat.
Proof.
  intros Hl. rewrite length_app, length_fmap, length_drop.
  change (length shard_indices) with 15%nat. lia.
Qed.

(** the targets of a store are this node and connected peers *)
Lemma findStorageNodes_elem self connected key (p : peerID) :
  p ∈ findStorageNodes self connected key TotalShards → p = self ∨ p ∈ ai_ID <$> connected.
Proof.
  unfold findStorageNodes. set (l := ai_ID <$> _).
  assert (p ∈ l → p ∈ ai_ID <$> connected) as Hl.
  { subst l. intros (a & -> & [_ Ha]%list_elem_of_filter)%list_elem_of_fmap. apply list_elem_of_fmap_2.
    by eapply FindClosestNodes_elem. }
  destruct (len l <? TotalShards); [|auto]. intros [?|E%list_elem_of_singleton]%elem_of_app; auto.
Qed.

Lemma targets_elem (self : peerID) connected key (i : nat) (p : peerID) :
  let nodes := findStorageNodes self connected key TotalShards in
  (nodes ++ ((λ _ : nat, self) <$> drop (length nodes) shard_indices)) !! i = Some p →
  p = self ∨ p ∈ ai_ID <$> connected.
Proof.
  intros nodes Hp%list_elem_of_lookup_2. apply elem_of_app in Hp as [Hp|Hp]; [by eapply findStorageNodes_elem|].
  apply list_elem_of_fmap in Hp as (? & -> & _). by left.
Qed.

Lemma shard_indices_lookup (n i : nat) : shard_indices !! n = Some i → i = n ∧ (n < 15)%nat.
Proof. intros [-> Hn]%lookup_seq. change (Z.to_nat TotalShards) with 15%nat in Hn. split; [lia|done]. Qed.
Lemma shard_indices_lt (i : nat) : i ∈ shard_indices → (i < 15)%nat.
Proof. intros [n [-> ?]%shard_indices_lookup]%list_elem_of_lookup_1. done. Qed.

(** the locations after the goroutines of a store *)
Lemma distribute_intact net0 net locs :
  no_rows net0 [] → grows chunk_writes net0 net → length locs = 15%nat →
  (∀ n i loc, shard_indices !! n = Some i → locs !! n = Some loc →
     loc = zero_location ∨ sl_ShardIndex loc = Z.of_nat i ∧ stored net loc) →
  intact net locs.
Proof.
  intros Hno Hg Hl Hlocs. split; [done|]. intros n loc Hloc. pose proof (lookup_lt_Some _ _ _ Hloc) as Hlt.
  destruct (lookup_lt_is_Some_2 shard_indices n) as [i Hi]; [by rewrite Hl in Hlt|].
  destruct (shard_indices_lookup _ _ Hi) as [-> _].
  destruct (Hlocs n n loc Hi Hloc) as [->|[Hidx Hst]].
  - split_and!; [by right|..]; apply (good_grows net0); try done; intros row Hr; by apply Hno in Hr.
  - rewrite Hidx, Nat2Z.id. split_and!; [by left|by apply stored_good..].
Qed.

(** a position whose peer has its shard *)
Definition held_at (net : mesh) (locs : list ShardLocation) (n : nat) : Prop :=
  ∃ loc, locs !! n = Some loc ∧ sl_ShardIndex loc = Z.of_nat n ∧ stored net loc.

(** this node and the connected peers can store *)
Definition nodes_writable (ds : DistributedStorage) (e : denv) : Prop :=
  ∀ i p, h_dberr (c_henv (d_pre e i)) = None ∧
    (p = st_self ds ∨ p ∈ ai_ID <$> d_connected e → writable (st_net ds) (st_self ds) p (d_req e i)).

(** fifteen distinct positions are all of them *)
Lemma all_positions held : NoDup held → length held = 15%nat → (∀ n, n ∈ held → (n < 15)%nat) → ∀ n : nat, (n < 15)%nat → n ∈ held.
Proof.
  intros Hnd Hl Hlt n Hn. assert (held ≡ₚ seq 0 15) as ->; [|by apply elem_of_seq; lia].
  apply submseteq_length_Permutation; [|by rewrite Hl]. apply NoDup_submseteq; [done|]. intros m Hm%Hlt. apply elem_of_seq. lia.
Qed.

Lemma store_chunk ds e size :
  Encode data = Ok (mkEncodedData code size (len data)) → st_net ds !! st_self ds ≠ None → no_rows (st_net ds) [] →
  let '(ds', r) := StoreDistributed ds u c data e in
  grows chunk_writes (st_net ds) (st_net ds') ∧ st_self ds' = st_self ds ∧
  match r with
  | Ok chunk => chunk_ok (st_net ds') chunk ∧ st_chunks ds' = <[registry_key u c := chunk]> (st_chunks ds) ∧
      (∃ held, NoDup held ∧ 10 ≤ len held ∧ ∀ n, n ∈ held → held_at (st_net ds') (dc_ShardLocations chunk) n) ∧
      (nodes_writable ds e → ∀ n, (n < 15)%nat → held_at (st_net ds') (dc_ShardLocations chunk) n)
  | Err _ => st_chunks ds' = st_chunks ds ∧ ¬ nodes_writable ds e
  | Panic => False
  end.
Proof.
  intros Henc Hself Hno. unfold StoreDistributed. rewrite Henc. cbn [wrap_err ed_Shards ed_OriginalSize ed_ShardSize].
  set (nodes := findStorageNodes _ _ _ _). pose proof (findStorageNodes_le (st_self ds) (d_connected e) (generateStorageKey u c)) as Hle.
  fold nodes in Hle.
  pose proof (store_local_grows (st_self ds) (d_pre e) (drop (length nodes) shard_indices) (st_net ds) Hself
    ltac:(intros i Hi; apply shard_indices_lt; by eapply (subseteq_drop _ shard_indices))) as Hpre.
  destruct (store_local _ _ _ _ _ _ _) as [net1 pre]. destruct Hpre as (Hg1 & Hnp & Hpre).
  destruct pre as [[]|t|]; [| |done].
  2: { split_and!; [done..|]. intros Hw. by specialize (Hpre (λ i _, proj1 (Hw i []))). }
  destruct (distribute_spec (st_self ds) (nodes ++ ((λ _ : nat, st_self ds) <$> drop (length nodes) shard_indices)) e
    shard_indices net1 ltac:(by eapply grows_self) ltac:(apply NoDup_seq) shard_indices_lt (targets_length _ _ Hle))
    as (net2 & locs & errs & held & -> & Hg2 & Hll & Hlocs & Hnd & Hcount & Hheld & Hall).
  pose proof (grows_trans _ _ _ _ Hg1 Hg2) as Hg. change (length shard_indices) with 15%nat in *.
  assert (nodes_writable ds e → errs = []) as Hnone.
  { intros Hw. apply Hall. intros i p _ Hp. apply (writable_grows chunk_writes (st_net ds)); [done|]. apply Hw. by eapply targets_elem. }
  assert (∀ n, n ∈ held → held_at net2 locs n) as Hat.
  { intros n Hn. destruct (Hheld n Hn) as (m & loc & Hm & Hloc & Hidx & Hst).
    apply shard_indices_lookup in Hm as [-> _]. by exists loc. }
  destruct (Z.ltb_spec ParityShards (len errs)) as [Hmany|Hfew].
  { split_and!; [done..|]. intros Hw. by rewrite (Hnone Hw) in Hmany. }
  split_and!; [done|done|..|exists held; split_and!|]; try done.
  - split; try done. by eapply distribute_intact.
  - change ParityShards with 5 in Hfew. unfold len in *. lia.
  - intros Hw n Hn. apply Hat. rewrite (Hnone Hw) in Hcount. apply all_positions; [done|cbn in Hcount; lia| |done].
    intros m Hm. destruct (Hheld m Hm) as (? & ? & Hm' & _). by apply shard_indices_lt, (list_elem_of_lookup_2 _ _ _ Hm').
Qed.

(** *** Status *)

(** a location whose peer answers *)
Definition answers (net : mesh) (self : peerID) (e : cenv) (loc : ShardLocation) : Prop :=
  sl_PeerID loc = self ∨ peer_up net (sl_PeerID loc) e.
#[local] Instance answers_dec net self e loc : Decision (answers net self e loc).
Proof. unfold answers. apply _. Defined.

Lemma ping_all_spec net self env locs : ∀ status,
  (∀ n loc, (n, loc) ∈ locs → 0 ≤ sl_ShardIndex loc < 15) → length status = 15%nat →
  ∃ status', ping_all net self env locs status = (net, Ok status') ∧ length status' = 15%nat ∧
    ∀ (i : nat) b, status' !! i = Some b →
      (∃ n loc, (n, loc) ∈ locs ∧ sl_ShardIndex loc = Z.of_nat i ∧ b = bool_decide (answers net self (env n) loc)) ∨
      status !! i = Some b ∧ ∀ n loc, (n, loc) ∈ locs → sl_ShardIndex loc ≠ Z.of_nat i.
Proof.
  induction locs as [|[n loc] locs IH]; intros status Hidx Hl; cbn [ping_all].
  { exists status. split_and!; try done. intros i b Hb. right. split; [done|]. intros ? ? []%not_elem_of_nil. }
  pose proof (Hidx n loc ltac:(left)) as Hloc.
  set (b0 := bool_decide (answers net self (env n) loc)).
  assert ((if bool_decide (sl_PeerID loc = self) then (net, Ok true)
           else let '(net, r) := Client_Ping net (sl_PeerID loc) (env n) in
                (net, match r with Ok _ => Ok true | Err _ => Ok false | Panic => Panic end)) = (net, Ok b0)) as ->.
  { subst b0. unfold answers. case_bool_decide as Hp; [by rewrite bool_decide_true by auto|].
    destruct (Client_Ping_cases net (sl_PeerID loc) (env n)) as (r & -> & [[? ->]|[? [t ->]]]);
      [rewrite bool_decide_true by auto|rewrite bool_decide_false by naive_solver]; done. }
  unfold set_status. rewrite (proj2 (orb_false_iff _ _)) by (rewrite Z.ltb_ge, Z.leb_gt; unfold len; lia).
  destruct (IH (<[Z.to_nat (sl_ShardIndex loc) := b0]> status)) as (status' & -> & Hl' & Hst).
  { intros m l Hm. apply (Hidx m). by right. }
  { by rewrite length_insert. }
  exists status'. split_and!; [done..|]. intros i b Hb. destruct (Hst i b Hb) as [(m & l & Hm & ? & ?)|[Hi Hno]].
  - left. exists m, l. split_and!; [by right|done..].
  - destruct (decide (Z.to_nat (sl_ShardIndex loc) = i)) as [<-|Hne].
    + left. exists n, loc. split_and!; [left|lia|]. rewrite list_lookup_insert_eq in Hi by lia. by injection Hi as <-.
    + right. rewrite list_lookup_insert_ne in Hi by done. split; [done|].
      intros m l [[= -> ->]|Hm]%elem_of_cons; [lia|by apply Hno in Hm].
Qed.

(** the goroutines all run, in some order *)
Definition fair (e : denv) : Prop := ∀ l, d_sched e l ≡ₚ l.

Lemma GetShardStatus_spec ds chunk e :
  fair e → intact (st_net ds) (dc_ShardLocations chunk) →
  ∃ status, GetShardStatus ds chunk e = (ds, Ok status) ∧ length status = 15%nat ∧
    ∀ (i : nat) b, status !! i = Some b →
      (∃ n loc, dc_ShardLocations chunk !! n = Some loc ∧ sl_ShardIndex loc = Z.of_nat i ∧
         b = bool_decide (answers (st_net ds) (st_self ds) (d_ping e n) loc)) ∨
      b = false ∧ ∀ n loc, dc_ShardLocations chunk !! n = Some loc → sl_ShardIndex loc ≠ Z.of_nat i.
Proof.
  intros Hf Hint. unfold GetShardStatus.
  assert (∀ n loc, (n, loc) ∈ d_sched e (imap pair (dc_ShardLocations chunk)) ↔
                   dc_ShardLocations chunk !! n = Some loc) as Hin.
  { intros n loc. rewrite (Hf _), elem_of_lookup_imap. naive_solver. }
  destruct (ping_all_spec (st_net ds) (st_self ds) (d_ping e) (d_sched e (imap pair (dc_ShardLocations chunk)))
    (replicate (Z.to_nat TotalShards) false)) as (status & -> & Hl & Hst); [|done|].
  { intros n loc Hloc%Hin. destruct (intact_fetchable _ _ Hint loc) as (i & ? & -> & _);
      [by eapply list_elem_of_lookup_2|lia]. }
  exists status. split_and!; [by destruct ds|done|]. intros i b Hb.
  destruct (Hst i b Hb) as [(n & loc & ?%Hin & ? & ?)|[[-> _]%lookup_replicate Hno]]; [left; eauto|right].
  split; [done|]. intros n loc Hloc. by apply (Hno n), Hin.
Qed.

(** *** Repair *)

Lemma elem_of_indices b status (i : nat) : i ∈ indices_of b status ↔ status !! i = Some b.
Proof.
  unfold indices_of. rewrite list_elem_of_fmap. split.
  - intros (p & -> & Hp). apply list_elem_of_filter in Hp as [Hb Hp].
    apply elem_of_lookup_imap in Hp as (j & y & -> & Hy). cbn in *. by subst.
  - intros Hi. exists (i, b). split; [done|]. apply list_elem_of_filter. split; [done|].
    apply elem_of_lookup_imap. eauto.
Qed.
Lemma indices_NoDup b status : NoDup (indices_of b status).
Proof.
  unfold indices_of. eapply sublist_NoDup; [|apply fmap_sublist, sublist_filter].
  rewrite fmap_imap. change (λ n, _ ∘ pair n) with (λ (n : nat) (_ : bool), n).
  assert (imap (λ (n : nat) (_ : bool), n) status = seq 0 (length status)) as ->; [|apply NoDup_seq].
  apply list_eq. intros i. rewrite list_lookup_imap. destruct (status !! i) as [x|] eqn:E; cbn.
  - apply lookup_lt_Some in E. by rewrite lookup_seq_lt.
  - apply lookup_ge_None in E. by rewrite lookup_seq_ge.
Qed.
Lemma indices_count status : len (indices_of true status) = count_true status.
Proof.
  unfold indices_of, count_true, len. rewrite length_fmap. f_equal.
  assert (snd <$> imap pair status = status) as E.
  { rewrite fmap_imap. apply list_eq. intros i. rewrite list_lookup_imap. by destruct (status !! i). }
  rewrite <- E at 2. symmetry. apply (length_filter_fmap snd (λ b, b = true)).
Qed.
Lemma indices_lt b status (i : nat) : length status = 15%nat → i ∈ indices_of b status → (i < 15)%nat.
Proof. intros Hl Hi%elem_of_indices%lookup_lt_Some. lia. Qed.

Lemma fetch_listed_spec net self chunk env js : ∀ shards,
  net_ok net → dc_UserAddr chunk = u → dc_ChunkID chunk = c → intact net (dc_ShardLocations chunk) →
  NoDup js → (∀ i, i ∈ js → (i < 15)%nat ∧ shards !! i = Some None) → length shards = 15%nat → agrees shards →
  ∃ shards' cnt, fetch_listed net self chunk env js shards = (net, Ok (shards', cnt)) ∧
    length shards' = 15%nat ∧ agrees shards' ∧ present shards' = present shards + cnt ∧
    ((∀ i, i ∈ js → alive_at net self env (dc_ShardLocations chunk) i) → cnt = len js).
Proof.
  induction js as [|i js IH]; intros shards Hn Eu Ec Hint Hnd Hjs Hl Hag; cbn [fetch_listed].
  { exists shards, 0. split_and!; try done. lia. }
  apply NoDup_cons in Hnd as [Hni Hnd]. destruct (Hjs i ltac:(left)) as [Hi Hnone].
  destruct (lookup_lt_is_Some_2 (dc_ShardLocations chunk) i) as [loc Hloc]; [by rewrite (proj1 Hint)|].
  destruct (proj2 Hint i loc Hloc) as (_ & Hgood & _). rewrite Hloc, Eu, Ec.
  destruct (code_index i Hi) as (b & Hb & _ & _ & Hs64).
  destruct (fetch_shard_cases net self (sl_PeerID loc) (shard_key u c (Z.of_nat i)) (Z.of_nat i) (env i) Hn
    ltac:(by apply shard_key_ascii) Hs64) as (r & -> & Hr).
  destruct Hr as [(row & Hat & ->)|[[t ->] Hna]].
  - destruct (IH (<[i := Some (row_Data row)]> shards)) as (shards' & cnt & -> & Hl' & Hag' & Hp & Hall); try done.
    { intros j Hj. destruct (Hjs j ltac:(by right)) as [? ?]. rewrite list_lookup_insert_ne by (intros ->; done). done. }
    { by rewrite length_insert. }
    { intros j s. destruct (decide (j = i)) as [->|Hj].
      - rewrite list_lookup_insert_eq by lia. intros [= <-]. by apply Hgood.
      - rewrite list_lookup_insert_ne by done. apply Hag. }
    exists shards', (cnt + 1). rewrite present_insert_new in Hp by done. split_and!; try done; [lia|].
    intros Ha. rewrite len_cons, Hall; [lia|]. intros j Hj. apply Ha. by right.
  - destruct (IH shards) as (shards' & cnt & -> & Hl' & Hag' & Hp & Hall); try done.
    { intros j Hj. apply Hjs. by right. }
    exists shards', cnt. split_and!; try done. intros Ha. destruct (Ha i ltac:(left)) as (loc' & Hloc' & Hidx & Hav).
    rewrite Hloc in Hloc'. injection Hloc' as <-. unfold location_available in Hav. by rewrite Hidx in Hav.
Qed.

(** a location of its own position that has its shard *)
Lemma intact_insert net locs (i : nat) loc :
  intact net locs → (i < 15)%nat → sl_ShardIndex loc = Z.of_nat i → stored net loc → intact net (<[i := loc]> locs).
Proof.
  intros [Hl Hint] Hi Hidx Hst. split; [by rewrite length_insert|]. intros n l Hn.
  destruct (decide (n = i)) as [->|Hne].
  - rewrite list_lookup_insert_eq in Hn by lia. injection Hn as <-. rewrite Hidx, Nat2Z.id.
    split_and!; [by left|by apply stored_good..].
  - rewrite list_lookup_insert_ne in Hn by done. by apply Hint.
Qed.

Lemma held_grows net net' locs n : grows chunk_writes net net' → held_at net locs n → held_at net' locs n.
Proof. intros Hg (loc & ? & ? & Hst). exists loc. split_and!; [done..|by eapply stored_grows]. Qed.

Lemma store_listed_spec self chunk nodes e js : ∀ net locs,
  net !! self ≠ None → dc_UserAddr chunk = u → dc_ChunkID chunk = c → intact net locs →
  (∀ i, i ∈ js → (i < 15)%nat) → length nodes = 15%nat →
  ∃ net' locs' cnt, store_listed net self chunk nodes code e js locs = (net', Ok (locs', cnt)) ∧
    grows chunk_writes net net' ∧ intact net' locs' ∧
    (∀ n, n ∉ js → locs' !! n = locs !! n) ∧ (∀ n, held_at net locs n → held_at net' locs' n) ∧
    ((∀ i p, i ∈ js → nodes !! i = Some p → writable net self p (d_store e i)) →
     cnt = len js ∧ ∀ i, i ∈ js → held_at net' locs' i).
Proof.
  induction js as [|i js IH]; intros net locs Hself Eu Ec Hint Hjs Hl; cbn [store_listed].
  { exists net, locs, 0. split_and!; try done; [apply grows_refl|]. intros _. split; [done|]. by intros i Hi%not_elem_of_nil. }
  assert (i < 15)%nat as Hi by (apply Hjs; left).
  destruct (lookup_lt_is_Some_2 nodes i) as [p Hp]; [by rewrite Hl|].
  destruct (code_index i Hi) as (b & Hb & Hne & Hbb & Hs64). rewrite Hp, Hb, Eu, Ec.
  change (shard_bytes (Some b)) with b.
  pose proof (store_shard_cases net self p (shard_key u c (Z.of_nat i)) i b (d_store e i) Hself
    ltac:(by apply shard_key_ascii) Hs64 Hbb Hne) as Hs.
  destruct (store_shard net self p (shard_key u c (Z.of_nat i)) i b (d_store e i)) as [net1 r].
  destruct Hs as [Hg Hr]. apply (shard_write i b) in Hg; [|done].
  pose proof (grows_self _ _ _ self Hg Hself) as Hself1.
  assert (∀ j, j ∈ js → (j < 15)%nat) as Hjs' by (intros j Hj; apply Hjs; by right).
  destruct Hr as [[-> (row & Hrow & Hd)]|[[t ->] Hnw]].
  - rewrite bool_decide_true by (rewrite (proj1 Hint); done). set (loc := mkShardLocation (Z.of_nat i) p _).
    assert (stored net1 loc) as Hst by (exists i, row; split_and!; [done..|by rewrite Hd]).
    assert (intact net1 (<[i := loc]> locs)) as Hint1
      by (apply intact_insert; [by eapply intact_grows|done..]).
    assert (held_at net1 (<[i := loc]> locs) i) as Hheld1.
    { exists loc. split_and!; [|done..]. apply list_lookup_insert_eq. by rewrite (proj1 Hint). }
    destruct (IH net1 (<[i := loc]> locs) Hself1 Eu Ec Hint1 Hjs' Hl)
      as (net2 & locs2 & cnt & -> & Hg2 & Hint2 & Hkeep & Hheld & Hall).
    exists net2, locs2, (cnt + 1). split_and!; [done|by eapply grows_trans|done|..].
    + intros n Hn. apply not_elem_of_cons in Hn as [? ?]. rewrite Hkeep by done. by rewrite list_lookup_insert_ne.
    + intros n Hn. apply Hheld. destruct (decide (n = i)) as [->|Hni]; [done|].
      destruct (held_grows _ _ _ _ Hg Hn) as (l & Hln & ? & ?). exists l. by rewrite list_lookup_insert_ne.
    + intros Hw. destruct Hall as [-> Hall].
      { intros j q Hj Hq. apply (writable_grows chunk_writes net); [done|]. apply Hw; [by right|done]. }
      rewrite len_cons. split; [lia|]. intros j [->|Hj]%elem_of_cons; auto.
  - destruct (IH net1 locs Hself1 Eu Ec ltac:(by eapply intact_grows) Hjs' Hl)
      as (net2 & locs2 & cnt & -> & Hg2 & Hint2 & Hkeep & Hheld & Hall).
    exists net2, locs2, cnt. split_and!; [done|by eapply grows_trans|done|..].
    + intros n Hn. apply not_elem_of_cons in Hn as [? ?]. by apply Hkeep.
    + intros n Hn. apply Hheld. by eapply held_grows.
    + intros Hw. destruct Hnw. apply Hw; [left|done].
Qed.

Lemma shard_nodes_length self nodes : length (shard_nodes self nodes) = 15%nat.
Proof. unfold shard_nodes. by rewrite length_fmap. Qed.
Lemma shard_nodes_elem self connected key (i : nat) (p : peerID) :
  shard_nodes self (findStorageNodes self connected key TotalShards) !! i = Some p →
  p = self ∨ p ∈ ai_ID <$> connected.
Proof.
  unfold shard_nodes. intros (j & -> & _)%list_lookup_fmap_Some.
  destruct (findStorageNodes _ _ _ _ !! j) as [q|] eqn:Eq; [|by left].
  apply list_elem_of_lookup_2 in Eq. by eapply findStorageNodes_elem.
Qed.

Lemma alive_held net self env locs n :
  (n < 15)%nat → intact net locs → alive_at net self env locs n → held_at net locs n.
Proof.
  intros Hn [_ Hint] (loc & Hloc & Hidx & _ & _ & row & Hrow). exists loc. split_and!; [done..|].
  rewrite Hidx in Hrow. exists n, row. split_and!; [done..|]. destruct (Hint n loc Hloc) as (_ & Hg & _). by apply Hg.
Qed.

(** every location has the index of its position *)
Definition complete (locs : list ShardLocation) : Prop :=
  ∀ n loc, locs !! n = Some loc → sl_ShardIndex loc = Z.of_nat n.

Definition answers_at (net : mesh) (self : peerID) (env : nat → cenv) (locs : list ShardLocation) (n : nat) : Prop :=
  ∃ loc, locs !! n = Some loc ∧ answers net self (env n) loc.

(** what a repair needs: the peers that answer have their shards, there are ten
    of them, and the nodes that get the others can store *)
Record repairable (ds : DistributedStorage) (locs : list ShardLocation) (e : denv) : Prop := {
  rp_complete : complete locs;
  rp_alive : ∀ n, answers_at (st_net ds) (st_self ds) (d_ping e) locs n →
    alive_at (st_net ds) (st_self ds) (d_req e) locs n;
  rp_ten : ∃ ups, NoDup ups ∧ MinShardsForRecovery ≤ len ups ∧
    ∀ n, n ∈ ups → answers_at (st_net ds) (st_self ds) (d_ping e) locs n;
  rp_writable : ∀ i p, p = st_self ds ∨ p ∈ ai_ID <$> d_connected e →
    writable (st_net ds) (st_self ds) p (d_store e i) }.

Lemma status_complete net self env locs status :
  complete locs → length locs = 15%nat → length status = 15%nat →
  (∀ (i : nat) b, status !! i = Some b →
      (∃ n loc, locs !! n = Some loc ∧ sl_ShardIndex loc = Z.of_nat i ∧
         b = bool_decide (answers net self (env n) loc)) ∨
      b = false ∧ ∀ n loc, locs !! n = Some loc → sl_ShardIndex loc ≠ Z.of_nat i) →
  ∀ i, status !! i = Some true ↔ answers_at net self env locs i.
Proof.
  intros Hc Hl Hls Hst i. split.
  - intros Hi. destruct (Hst i true Hi) as [(n & loc & Hloc & Hidx & Hb)|[? _]]; [|done].
    rewrite (Hc n loc Hloc) in Hidx. apply Nat2Z.inj in Hidx as ->. exists loc. split; [done|].
    by apply (bool_decide_eq_true_1 _ (eq_sym Hb)).
  - intros (loc & Hloc & Ha). pose proof (lookup_lt_Some _ _ _ Hloc) as Hlt.
    destruct (lookup_lt_is_Some_2 status i) as [b Hb]; [lia|]. rewrite Hb.
    destruct (Hst i b Hb) as [(n & l & Hn & Hidx & ->)|[_ Hno]]; [|by destruct (Hno i loc Hloc); apply Hc].
    rewrite (Hc n l Hn) in Hidx. apply Nat2Z.inj in Hidx as ->. rewrite Hloc in Hn. injection Hn as ->.
    by rewrite bool_decide_true.
Qed.

(** Ten right shards reconstruct all. *)
Lemma reconstruct_code shards :
  length shards = 15%nat → agrees shards → MinShardsForRecovery ≤ present shards → rs_Reconstruct shards = Ok code.
Proof.
  intros Hl Hag Hp. destruct (cw_encoded _ _ Hcode) as [orig He]. apply (rs_reconstruct_ok orig); try done.
  by rewrite (cw_length _ _ Hcode).
Qed.

Lemma count_all status : length status = 15%nat → HealthExcellent ≤ count_true status → ∀ i : nat, (i < 15)%nat → status !! i = Some true.
Proof.
  intros Hl Hc i Hi. destruct (lookup_lt_is_Some_2 status i) as [[] Hb]; [lia|done|].
  exfalso. apply take_drop_middle in Hb. rewrite <- Hb in Hc, Hl. unfold count_true, len in Hc.
  rewrite filter_app, filter_cons_False, length_app in Hc by done. rewrite length_app in Hl. cbn [length] in Hl.
  pose proof (length_filter (λ b, b = true) (take i status)). pose proof (length_filter (λ b, b = true) (drop (S i) status)).
  change HealthExcellent with 15 in Hc. lia.
Qed.

Lemma count_ge status js :
  NoDup js → (∀ i : nat, i ∈ js → status !! i = Some true) → len js ≤ count_true status.
Proof.
  intros Hnd Hjs. rewrite <- indices_count. apply inj_le, submseteq_length, NoDup_submseteq; [done|].
  intros n Hn. by apply elem_of_indices, Hjs.
Qed.

Lemma missing_some status :
  length status = 15%nat → count_true status < HealthExcellent → len (indices_of false status) ≠ 0.
Proof.
  intros Hl Hc Hm. assert (HealthExcellent ≤ count_true status); [|lia].
  apply (count_ge status (seq 0 15)); [apply NoDup_seq|]. intros i Hi%elem_of_seq.
  destruct (lookup_lt_is_Some_2 status i) as [[] Hb]; [lia|done|]. apply elem_of_indices in Hb.
  destruct (indices_of false status); [by apply not_elem_of_nil in Hb|].
  rewrite len_cons in Hm. pose proof (len_nonneg l). lia.
Qed.

Lemma repairable_status ds chunk e status :
  intact (st_net ds) (dc_ShardLocations chunk) → length status = 15%nat →
  (∀ (i : nat) b, status !! i = Some b →
      (∃ n loc, dc_ShardLocations chunk !! n = Some loc ∧ sl_ShardIndex loc = Z.of_nat i ∧
         b = bool_decide (answers (st_net ds) (st_self ds) (d_ping e n) loc)) ∨
      b = false ∧ ∀ n loc, dc_ShardLocations chunk !! n = Some loc → sl_ShardIndex loc ≠ Z.of_nat i) →
  repairable ds (dc_ShardLocations chunk) e →
  (∀ i, status !! i = Some true → alive_at (st_net ds) (st_self ds) (d_req e) (dc_ShardLocations chunk) i) ∧
  MinShardsForRecovery ≤ count_true status.
Proof.
  intros Hint Hls Hst [Hc Ha (ups & Hnd & Hten & Hups) _].
  pose proof (status_complete _ _ _ _ _ Hc (proj1 Hint) Hls Hst) as Hiff.
  split; [intros i Hi; by apply Ha, Hiff|]. etrans; [exact Hten|]. apply count_ge; [done|].
  intros n Hn. by apply Hiff, Hups.
Qed.

(** what a repair does to a chunk that is all right *)
Record repaired (ds ds' : DistributedStorage) (chunk chunk' : DistributedChunk) : Prop := {
  rd_grows : grows chunk_writes (st_net ds) (st_net ds');
  rd_self : st_self ds' = st_self ds;
  rd_chunks : st_chunks ds' = st_chunks ds;
  rd_ok : chunk_ok (st_net ds') chunk';
  rd_held : ∀ n, held_at (st_net ds) (dc_ShardLocations chunk) n →
    held_at (st_net ds') (dc_ShardLocations chunk') n }.

Lemma repaired_refl ds chunk : chunk_ok (st_net ds) chunk → repaired ds ds chunk chunk.
Proof. intros Hok. split; try done. apply grows_refl. Qed.

Lemma repaired_store ds chunk net locs :
  chunk_ok (st_net ds) chunk → grows chunk_writes (st_net ds) net → intact net locs →
  (∀ n, held_at (st_net ds) (dc_ShardLocations chunk) n → held_at net locs n) →
  repaired ds (with_net ds net) chunk (with_locations chunk locs).
Proof. intros [Eu Ec Es _] Hg Hint Hh. split; try done. Qed.

Lemma repair_chunk ds chunk e :
  fair e → net_ok (st_net ds) → st_net ds !! st_self ds ≠ None → chunk_ok (st_net ds) chunk →
  let '(ds', chunk', r) := RepairChunk ds chunk e in
  repaired ds ds' chunk chunk' ∧ r ≠ Panic ∧
  (repairable ds (dc_ShardLocations chunk) e →
   r = Ok tt ∧ ∀ n, (n < 15)%nat → held_at (st_net ds') (dc_ShardLocations chunk') n).
Proof.
  intros Hf Hn Hself Hok. pose proof (repaired_refl ds chunk Hok) as Hrefl. pose proof Hok as [Eu Ec Es Hint].
  unfold RepairChunk. destruct (GetShardStatus_spec ds chunk e Hf Hint) as (status & -> & Hls & Hst).
  pose proof (repairable_status ds chunk e status Hint Hls Hst) as Hrep.
  destruct (Z.leb_spec HealthExcellent (count_true status)) as [Hall|Hmiss].
  { split_and!; [done..|]. intros [Ha _]%Hrep. split; [done|]. intros n Hlt. eapply (alive_held _ _ (d_req e)); [done..|].
    apply Ha. by eapply count_all. }
  destruct (Z.ltb_spec (count_true status) MinShardsForRecovery) as [Hfew|_].
  { split_and!; [done..|]. intros [_ ?]%Hrep. lia. }
  destruct (fetch_listed_spec (st_net ds) (st_self ds) chunk (d_req e) (indices_of true status) no_shards Hn Eu Ec Hint
    (indices_NoDup _ _)) as (shards & cnt & -> & Hl & Hag & Hp & Hall); [|done|apply agrees_none|].
  { intros i Hi%(indices_lt _ _ _ Hls). split; [done|]. by apply lookup_replicate_2. }
  change (present no_shards) with 0 in Hp. rewrite Z.add_0_l in Hp.
  assert (with_net ds (st_net ds) = ds) as -> by by destruct ds.
  destruct (Z.ltb_spec cnt MinShardsForRecovery) as [Hfew|Hge].
  { split_and!; [done..|]. intros [Ha ?]%Hrep. rewrite Hall in Hfew; [rewrite indices_count in Hfew; lia|].
    intros i Hi. by apply Ha, elem_of_indices. }
  rewrite (reconstruct_code shards Hl Hag) by lia. cbn [wrap_err].
  set (nodes := shard_nodes _ _). set (missing := indices_of false status).
  destruct (store_listed_spec (st_self ds) chunk nodes e missing (st_net ds) (dc_ShardLocations chunk) Hself Eu Ec Hint
    (λ i, indices_lt _ _ i Hls) (shard_nodes_length _ _)) as (net & locs & stored' & -> & Hg & Hint' & Hkeep & Hheld & Hdone).
  split_and!; [by apply repaired_store|by destruct (stored' =? 0)|].
  intros Hr. destruct (Hrep Hr) as [Ha _]. destruct Hdone as [-> Hdone].
  { intros i p _ Hp'. apply (rp_writable _ _ _ Hr). by eapply shard_nodes_elem. }
  split.
  - destruct (Z.eqb_spec (len missing) 0) as [E|_]; [|done]. by destruct (missing_some status Hls Hmiss).
  - intros n Hlt. destruct (lookup_lt_is_Some_2 status n) as [[] Hb]; [lia| |].
    + apply Hheld. eapply alive_held; [done..|by apply Ha].
    + by apply Hdone, elem_of_indices.
Qed.

(** *** Health *)

(** the division and the multiplication by 15 are exact enough *)
Lemma health_exact n : 0 ≤ n ≤ 15 → health_shards (health_score n) = n.
Proof.
  intros Hn. assert (forallb (λ n, health_shards (health_score n) =? n) (seqZ 0 16) = true) as Hall by (vm_compute; reflexivity).
  rewrite forallb_forall in Hall. apply Z.eqb_eq, Hall, list_elem_of_In, elem_of_seqZ. lia.
Qed.

Lemma count_bounds status : length status = 15%nat → 0 ≤ count_true status ≤ 15.
Proof. intros Hl. unfold count_true, len. pose proof (length_filter (λ b, b = true) status). lia. Qed.

Lemma CalculateHealth_spec ds chunk e :
  fair e → intact (st_net ds) (dc_ShardLocations chunk) →
  ∃ status, GetShardStatus ds chunk e = (ds, Ok status) ∧ length status = 15%nat ∧
    CalculateHealth ds chunk e = (ds, Ok (health_score (count_true status))) ∧
    health_shards (health_score (count_true status)) = count_true status.
Proof.
  intros Hf Hint. destruct (GetShardStatus_spec ds chunk e Hf Hint) as (status & Hs & Hl & _).
  exists status. split_and!; [done..| |by apply health_exact, count_bounds]. unfold CalculateHealth. by rewrite Hs.
Qed.

Lemma check_repair ds chunk e e' :
  fair e → fair e' → net_ok (st_net ds) → st_net ds !! st_self ds ≠ None → chunk_ok (st_net ds) chunk →
  let '(ds', chunk', r) := CheckAndRepairIfNeeded ds chunk e e' in repaired ds ds' chunk chunk' ∧ r ≠ Panic.
Proof.
  intros Hf Hf' Hn Hself Hok. pose proof (repaired_refl ds chunk Hok) as Hrefl. unfold CheckAndRepairIfNeeded.
  destruct (CalculateHealth_spec ds chunk e Hf (co_intact _ _ Hok)) as (status & _ & _ & -> & ->).
  pose proof (repair_chunk ds chunk e' Hf' Hn Hself Hok) as Hr.
  destruct (HealthGood <=? count_true status); [done|].
  destruct (HealthDegraded <=? count_true status); [destruct (RepairChunk ds chunk e') as [[??]?]; naive_solver|].
  destruct (HealthCritical <=? count_true status); [destruct (RepairChunk ds chunk e') as [[??]?]; naive_solver|done].
Qed.

End chunk.

Lemma ping_all_blind net net' self env locs : ∀ status,
  (∀ p : peerID, net' !! p = None ↔ net !! p = None) →
  ∃ r, ping_all net self env locs status = (net, r) ∧ ping_all net' self env locs status = (net', r).
Proof.
  induction locs as [|[n loc] locs IH]; intros status Hp; cbn [ping_all]; [by eexists|].
  destruct (bool_decide (sl_PeerID loc = self)).
  - destruct (set_status status (sl_ShardIndex loc) true); [by apply IH|by eexists..].
  - assert (peer_up net' (sl_PeerID loc) (env n) ↔ peer_up net (sl_PeerID loc) (env n)) as Hiff
      by (unfold peer_up; by rewrite Hp).
    destruct (Client_Ping_cases net (sl_PeerID loc) (env n)) as (r & -> & Hr).
    destruct (Client_Ping_cases net' (sl_PeerID loc) (env n)) as (r' & -> & Hr').
    destruct Hr as [[Hu ->]|[Hu [t ->]]], Hr' as [[Hu' ->]|[Hu' [t' ->]]]; try (exfalso; tauto);
      (destruct (set_status status (sl_ShardIndex loc) _); [by apply IH|by eexists..]).
Qed.

(** ** A chunk whose shards do not fit together

    Whatever the shards hold, an operation on a chunk writes only under its keys. *)

Section frame.
Context (u : gostring) (c : Z) (Hu : ascii u).

Definition own_writes : writeset := λ k _ d, d ≠ [] ∧ bytes d ∧ ∃ i, k = shard_key u c i.

Lemma own_writes_ok : writes_ok own_writes.
Proof. by intros k j d (? & ? & _). Qed.

Lemma ping_all_length net self env locs : ∀ status status',
  (ping_all net self env locs status).2 = Ok status' → length status' = length status.
Proof.
  induction locs as [|[n loc] locs IH]; intros status status'; cbn [ping_all]; [by intros [= <-]|].
  destruct (if bool_decide _ then _ else _) as [net1 [b|t|]] eqn:E; [|done..].
  assert (net1 = net) as ->.
  { case_bool_decide; [by injection E as <- _|]. destruct (Client_Ping_cases net (sl_PeerID loc) (env n)) as (r & Hr & _).
    rewrite Hr in E. by injection E as <- _. }
  unfold set_status. destruct (_ || _); [done|]. intros Hs%IH. by rewrite length_insert in Hs.
Qed.

(** the shards that are there have bytes *)
Definition filled (shards : list shard) : Prop := ∀ i s, shards !! i = Some (Some s) → s ≠ [] ∧ bytes s.

Lemma fetch_listed_frame net self chunk env js : ∀ shards,
  net_ok net → ascii (dc_UserAddr chunk) → (∀ i, i ∈ js → (i < 15)%nat) → filled shards →
  ∃ r, fetch_listed net self chunk env js shards = (net, r) ∧
    ∀ shards' n, r = Ok (shards', n) → length shards' = length shards ∧ filled shards'.
Proof.
  induction js as [|i js IH]; intros shards Hn Ha Hjs Hf; cbn [fetch_listed].
  { eexists. split; [done|]. by intros shards' n [= <- _]. }
  destruct (dc_ShardLocations chunk !! i) as [loc|]; [|by eexists].
  destruct (fetch_shard_cases net self (sl_PeerID loc) (shard_key (dc_UserAddr chunk) (dc_ChunkID chunk) (Z.of_nat i)) (Z.of_nat i) (env i) Hn
    ltac:(by apply shard_key_ascii) ltac:(pose proof (Hjs i ltac:(left)); unfold is_s64; lia)) as (r & -> & Hr).
  assert (∀ j, j ∈ js → (j < 15)%nat) as Hjs' by (intros j Hj; apply Hjs; by right).
  destruct Hr as [(row & Hat & ->)|[[t ->] _]]; [|by apply IH].
  destruct (IH (<[i := Some (row_Data row)]> shards) Hn Ha Hjs') as (r & -> & Hr).
  { intros j s. destruct (decide (j = i)) as [->|Hne]; [|rewrite list_lookup_insert_ne by done; apply Hf].
    intros [(_ & [= <-] & _)|[? _]]%list_lookup_insert_Some; [by eapply Hn|done]. }
  eexists. split; [done|]. intros shards' n E. destruct r as [[sh k]|t|]; [|done..]. injection E as <- _.
  rewrite <- (length_insert shards i (Some (row_Data row))). by eapply Hr.
Qed.

Lemma store_listed_frame self chunk nodes shards e js : ∀ net locs,
  net !! self ≠ None → dc_UserAddr chunk = u → dc_ChunkID chunk = c → (∀ i, i ∈ js → (i < 15)%nat) →
  (∀ i s, shards !! i = Some s → ∃ b, s = Some b ∧ b ≠ [] ∧ bytes b) →
  grows own_writes net (store_listed net self chunk nodes shards e js locs).1.
Proof.
  induction js as [|i js IH]; intros net locs Hself Eu Ec Hjs Hs; cbn [store_listed]; [apply grows_refl|].
  destruct (nodes !! i) as [p|]; [|apply grows_refl]. destruct (shards !! i) as [s|] eqn:Es; [|apply grows_refl].
  destruct (Hs i s Es) as (b & -> & Hne & Hb). rewrite Eu, Ec. change (shard_bytes (Some b)) with b.
  pose proof (store_shard_cases net self p (shard_key u c (Z.of_nat i)) i b (d_store e i) Hself ltac:(by apply shard_key_ascii)
    ltac:(pose proof (Hjs i ltac:(left)); unfold is_s64; lia) Hb Hne) as Hg.
  destruct (store_shard _ _ _ _ _ _ _) as [net1 r]. destruct Hg as [Hg _].
  apply (grows_weaken _ own_writes) in Hg; [|intros k j d (-> & _ & ->); split_and!; [done..|by eexists]].
  assert (∀ locs, grows own_writes net (store_listed net1 self chunk nodes shards e js locs).1) as Hrest.
  { intros l. eapply grows_trans; [exact Hg|]. apply IH; [by eapply grows_self|done..|intros j Hj; apply Hjs; by right|done]. }
  destruct r as [|t|]; [|apply Hrest|done]. case_bool_decide; [|done].
  set (locs' := <[i := _]> locs). specialize (Hrest locs'). by destruct (store_listed net1 _ _ _ _ _ _ locs') as [net2 r].
Qed.

(** what a check or a repair may change *)
Record framed (ds ds' : DistributedStorage) (chunk' : DistributedChunk) : Prop := {
  fr_grows : grows own_writes (st_net ds) (st_net ds');
  fr_self : st_self ds' = st_self ds;
  fr_chunks : st_chunks ds' = st_chunks ds;
  fr_user : dc_UserAddr chunk' = u;
  fr_id : dc_ChunkID chunk' = c }.

Lemma framed_refl ds chunk : dc_UserAddr chunk = u → dc_ChunkID chunk = c → framed ds ds chunk.
Proof. intros. split; try done. apply grows_refl. Qed.

Lemma status_frame ds chunk e :
  ∃ r, GetShardStatus ds chunk e = (ds, r) ∧ ∀ status, r = Ok status → length status = 15%nat.
Proof.
  unfold GetShardStatus. set (locs := d_sched _ _). set (status0 := replicate _ _).
  destruct (ping_all_blind (st_net ds) (st_net ds) (st_self ds) (d_ping e) locs status0) as (r & E & _); [done|].
  pose proof (ping_all_length (st_net ds) (st_self ds) (d_ping e) locs status0) as Hl. rewrite E in *.
  exists r. split; [by destruct ds|]. intros status ->. by apply Hl.
Qed.

Lemma repair_frame ds chunk e :
  net_ok (st_net ds) → st_net ds !! st_self ds ≠ None → dc_UserAddr chunk = u → dc_ChunkID chunk = c →
  let '(ds', chunk', _) := RepairChunk ds chunk e in framed ds ds' chunk'.
Proof.
  intros Hn Hself Eu Ec. pose proof (framed_refl ds chunk Eu Ec) as Hrefl. unfold RepairChunk.
  destruct (status_frame ds chunk e) as (r & -> & Hls). destruct r as [status|t|]; [|done..]. specialize (Hls status eq_refl).
  destruct (HealthExcellent <=? _); [done|]. destruct (_ <? MinShardsForRecovery); [done|].
  destruct (fetch_listed_frame (st_net ds) (st_self ds) chunk (d_req e) (indices_of true status) no_shards) as (r & -> & Hr);
    [done|by rewrite Eu|intros i; by eapply indices_lt|by intros i s [? _]%lookup_replicate|].
  assert (with_net ds (st_net ds) = ds) as -> by by destruct ds.
  destruct r as [[shards n]|t|]; [|done..]. destruct (Hr shards n eq_refl) as [Hl Hf].
  destruct (n <? MinShardsForRecovery); [done|]. destruct (rs_Reconstruct shards) as [code|t|] eqn:Ec'; cbn [wrap_err]; [|done..].
  destruct (rs_reconstruct_filled shards code Hl Hf Ec') as [_ Hcode].
  set (nodes := shard_nodes _ _). set (missing := indices_of false status).
  pose proof (store_listed_frame (st_self ds) chunk nodes code e missing (st_net ds) (dc_ShardLocations chunk) Hself Eu Ec
    (λ i, indices_lt _ _ i Hls) Hcode) as Hg.
  destruct (store_listed _ _ _ _ _ _ _ _) as [net [[locs k]|t|]]; by split.
Qed.

Lemma check_frame ds chunk e e' :
  net_ok (st_net ds) → st_net ds !! st_self ds ≠ None → dc_UserAddr chunk = u → dc_ChunkID chunk = c →
  let '(ds', chunk', _) := CheckAndRepairIfNeeded ds chunk e e' in framed ds ds' chunk'.
Proof.
  intros Hn Hself Eu Ec. pose proof (framed_refl ds chunk Eu Ec) as Hrefl. unfold CheckAndRepairIfNeeded, CalculateHealth.
  destruct (status_frame ds chunk e) as (r & -> & _). destruct r as [status|t|]; cbn [mbind outcome_bind]; [|done..].
  pose proof (repair_frame ds chunk e' Hn Hself Eu Ec) as Hr.
  destruct (RepairChunk ds chunk e') as [[ds' chunk'] r]. destruct (_ <=? _); [done|]. destruct (_ <=? _); [done|].
  by destruct (_ <=? _).
Qed.
End frame.
End mesh_proofs.
