(* ===== verification/MeshRun.v ===== *)
(** * The life of the chunks of a node

    The node stores, checks and deletes chunks while the rest of the mesh loses
    rows, gains nodes and stores other chunks.  Its table of chunks implements a
    map from users and chunk numbers to data: what is retrieved is what was
    stored last, or an error, and it is retrieved when ten shards can be
    fetched.  A store that fails takes its chunk out of the map, because shards of
    an older one may have been replaced. *)

From S2P Require Import Prelude GoBytes GoText NodeID DhtStore DhtNode Onion Relay MeshErasure MeshCrypto MeshVersion MeshStore MeshNode MeshRpc MeshRpcProofs MeshDistributed MeshProofs.

(** the contents: what was stored under a user and a number *)
Abbreviation contents := (gmap (gostring * Z) (list Z)).

Section run.
Context `{ReedSolomonLaws} `{MeshJsonLaws} `{MeshText} `{X509} `{!RsaVerify} `{MeshHash}.

Lemma registry_key_inj u c u' c' : registry_key u c = registry_key u' c' → u = u' ∧ c = c'.
Proof.
  unfold registry_key. rewrite !string_bytes_app. intros E.
  apply (app_sep_inj 58) in E as [-> E]; [|apply decimal_not_elem; [apply pretty_decimal|lia]..].
  apply string_bytes_inj, (inj pretty) in E. done.
Qed.

(** the shards of a chunk *)
Definition encoding (data : list Z) (code : list shard) : Prop :=
  codeword data code ∧ ∃ n, Encode data = Ok (mkEncodedData code n (len data)).

Lemma encoding_fun data code code' : encoding data code → encoding data code' → code = code'.
Proof. intros [_ [n E]] [_ [n' E']]. rewrite E in E'. by injection E'. Qed.
Lemma encoding_ex data : data ≠ [] → bytes data → ∃ code, encoding data code.
Proof. intros Hne Hb. destruct (Encode_codeword data Hne Hb) as (code & n & He & Hc). exists code. split; [done|by exists n]. Qed.

(** the registered chunk [chunk] holds [data] *)
Definition holds (net : mesh) (u : gostring) (c : Z) (data : list Z) (chunk : DistributedChunk) : Prop :=
  ∃ code, encoding data code ∧ chunk_ok u c data code net chunk.

(** the mesh has this node and nobody without a name *)
Record mesh_inv (self : peerID) (net : mesh) : Prop := {
  mi_self : net !! self ≠ None;
  mi_nobody : net !! ([] : peerID) = None;
  mi_net : net_ok net }.

(** a registered chunk of which nothing is known but its name *)
Definition named (u : gostring) (c : Z) (chunk : DistributedChunk) : Prop :=
  ascii u ∧ dc_UserAddr chunk = u ∧ dc_ChunkID chunk = c.

(** the table has the chunks of [m], and perhaps others, whose shards a failed store
    has mixed *)
Record table_inv (net : mesh) (chunks : gmap gostring DistributedChunk) (m : contents) : Prop := {
  ti_ascii : ∀ u c data, m !! (u, c) = Some data → ascii u;
  ti_chunks : ∀ u c, match chunks !! registry_key u c, m !! (u, c) with
    | Some chunk, Some data => holds net u c data chunk
    | Some chunk, None => named u c chunk
    | None, None => True
    | None, Some _ => False
    end;
  ti_keys : ∀ key, chunks !! key ≠ None → ∃ u c, key = registry_key u c }.

Definition node_inv (ds : DistributedStorage) (m : contents) : Prop :=
  mesh_inv (st_self ds) (st_net ds) ∧ table_inv (st_net ds) (st_chunks ds) m.

(** ** Steps *)

(** writes that are not shards of a chunk in [m] *)
Definition foreign (m : contents) : writeset :=
  λ k j d, d ≠ [] ∧ bytes d ∧ ∀ u c i, m !! (u, c) ≠ None → k ≠ shard_key u c i.

Inductive node_step : DistributedStorage * contents → DistributedStorage * contents → Prop :=
  | step_store ds m u c data e ds' chunk :
      ascii u → data ≠ [] → bytes data → StoreDistributed ds u c data e = (ds', Ok chunk) →
      node_step (ds, m) (ds', <[(u, c) := data]> m)
  (** a store that fails may have replaced shards of the chunk it should replace,
      which stays registered *)
  | step_store_failed ds m u c data e ds' t :
      ascii u → data ≠ [] → bytes data → StoreDistributed ds u c data e = (ds', Err t) →
      node_step (ds, m) (ds', delete (u, c) m)
  | step_check ds m order e e' :
      (∀ key, fair (e key)) → (∀ key, fair (e' key)) → node_step (ds, m) (checkAllChunks ds order e e', m)
  | step_delete ds m u c e ds' r :
      ascii u → is_s64 c → Distributed_DeleteChunk ds u c e = (ds', r) →
      node_step (ds, m) (ds', if r is Ok _ then delete (u, c) m else m)
  (** nodes lose what they stored, or it is deleted by somebody else *)
  | step_lose ds m net :
      loses (st_net ds) net → node_step (ds, m) (with_net ds net, m)
  (** other chunks are stored *)
  | step_other ds m net :
      grows (foreign m) (st_net ds) net → node_step (ds, m) (with_net ds net, m)
  (** a node joins *)
  | step_join ds m (p : peerID) :
      p ≠ [] → st_net ds !! p = None → node_step (ds, m) (with_net ds (<[p := ∅]> (st_net ds)), m).

(** ** The invariant *)

Lemma holds_net net net' u c data chunk code :
  encoding data code → (∀ p i, good_at u c code net p i → good_at u c code net' p i) →
  holds net u c data chunk → holds net' u c data chunk.
Proof.
  intros He Hg (code' & He' & [Eu Ec Es [Hl Hi]]). rewrite (encoding_fun _ _ _ He' He) in *. exists code.
  split; [done|]. split; try done. split; [done|]. intros n loc Hloc. destruct (Hi n loc Hloc) as (? & ? & ?).
  split_and!; auto.
Qed.

Lemma good_loses u c code net net' p i : loses net net' → good_at u c code net p i → good_at u c code net' p i.
Proof. intros [_ R] Hg row Hr. by apply Hg, R. Qed.

(** writes of other chunks do not touch these *)
Lemma good_disjoint (W : writeset) u c code net net' p i :
  (∀ j d, ¬ W (shard_key u c (Z.of_nat i)) j d) → grows W net net' →
  good_at u c code net p i → good_at u c code net' p i.
Proof. intros Hd [_ N _] Hg row Hr. destruct (N _ _ _ _ Hr) as [?|Hw]; [by apply Hg|by apply Hd in Hw]. Qed.

Lemma chunk_writes_other u c u' c' code i j d :
  (u, c) ≠ (u', c') → ¬ chunk_writes u' c' code (shard_key u c i) j d.
Proof. intros Hne (i' & E & _). apply shard_key_inj in E as (-> & -> & _). done. Qed.

Lemma holds_other net net' u c u' c' data code' chunk :
  (u, c) ≠ (u', c') → grows (chunk_writes u' c' code') net net' → holds net u c data chunk → holds net' u c data chunk.
Proof.
  intros Hne Hg (code & He & Hok). apply (holds_net net _ _ _ _ _ code He); [|by exists code].
  intros p i. apply (good_disjoint _ _ _ _ _ _ _ _ (λ j d, chunk_writes_other u c u' c' code' _ j d Hne) Hg).
Qed.

Lemma holds_loses net net' u c data chunk : loses net net' → holds net u c data chunk → holds net' u c data chunk.
Proof.
  intros Hl (code & He & Hok). apply (holds_net net _ _ _ _ _ code He); [|by exists code].
  intros p i. by apply good_loses.
Qed.

Lemma mesh_grows W self net net' : writes_ok W → grows W net net' → mesh_inv self net → mesh_inv self net'.
Proof.
  intros Hw Hg [Hs Hno Hn]. split; [by eapply grows_self|by rewrite (grows_peers _ _ _ Hg)|by eapply grows_net_ok].
Qed.
Lemma mesh_loses self net net' : loses net net' → mesh_inv self net → mesh_inv self net'.
Proof.
  intros [Hp Hr] [Hs Hno Hn]. split; [by rewrite Hp|by rewrite Hp|]. intros p k j row Hrow. by eapply Hn, Hr.
Qed.

Lemma table_net net net' chunks m :
  (∀ u c data chunk, m !! (u, c) = Some data → holds net u c data chunk → holds net' u c data chunk) →
  table_inv net chunks m → table_inv net' chunks m.
Proof.
  intros Hh [Ha Hc Hk]. split; try done. intros u c. specialize (Hc u c).
  destruct (chunks !! registry_key u c), (m !! (u, c)) eqn:Em; try done. by apply Hh.
Qed.

(** a chunk stored or repaired *)
Lemma table_update net net' chunks m u c code data chunk :
  table_inv net chunks m → ascii u → grows (chunk_writes u c code) net net' → holds net' u c data chunk →
  table_inv net' (<[registry_key u c := chunk]> chunks) (<[(u, c) := data]> m).
Proof.
  intros [Ha Hc Hk] Hu Hg Hh. split.
  - intros u' c' d [[[= <- <-] _]|[_ Hm]]%lookup_insert_Some; [done|by eapply Ha].
  - intros u' c'. destruct (decide ((u', c') = (u, c))) as [[= -> ->]|Hne]; [by rewrite !lookup_insert_eq|].
    rewrite !lookup_insert_ne; [|done|by intros [-> ->]%registry_key_inj]. specialize (Hc u' c').
    destruct (chunks !! registry_key u' c'), (m !! (u', c')); try done. by eapply holds_other.
  - intros key. destruct (decide (key = registry_key u c)) as [->|Hne]; [eauto|]. rewrite lookup_insert_ne by done. apply Hk.
Qed.

Lemma table_delete net chunks m u c :
  table_inv net chunks m → table_inv net (delete (registry_key u c) chunks) (delete (u, c) m).
Proof.
  intros [Ha Hc Hk]. split.
  - intros u' c' d [_ Hm]%lookup_delete_Some. by eapply Ha.
  - intros u' c'. destruct (decide ((u', c') = (u, c))) as [[= -> ->]|Hne]; [by rewrite !lookup_delete_eq|].
    rewrite !lookup_delete_ne; [apply Hc|done|by intros [-> ->]%registry_key_inj].
  - intros key Hn. apply Hk. intros E. apply Hn. apply lookup_delete_None. by right.
Qed.

(** a chunk that is not kept: its table entry stays, or another with its name *)
Lemma table_forget net net' chunks m (u : gostring) (c : Z) (W : writeset) :
  (∀ u' c' i j d, (u, c) ≠ (u', c') → ¬ W (shard_key u' c' i) j d) → ascii u → grows W net net' →
  table_inv net chunks m → table_inv net' chunks (delete (u, c) m).
Proof.
  intros Hw Hu Hg [Ha Hc Hk]. split; [|intros u' c'|done].
  - intros u' c' d [_ Hm]%lookup_delete_Some. by eapply Ha.
  - specialize (Hc u' c'). destruct (decide ((u, c) = (u', c'))) as [[= <- <-]|Hne].
    + rewrite lookup_delete_eq. destruct (chunks !! registry_key u c) as [chunk|]; [|done].
      destruct (m !! (u, c)); [|done]. by destruct Hc as (code & _ & [? ? _ _]).
    + rewrite lookup_delete_ne by done. destruct (chunks !! registry_key u' c'), (m !! (u', c')); try done.
      destruct Hc as (code & Henc & Hok). apply (holds_net net _ _ _ _ _ code Henc); [|by exists code].
      intros p i. apply (good_disjoint W); [|done]. intros j b. by apply Hw.
Qed.
Lemma table_named net chunks m u c chunk :
  m !! (u, c) = None → named u c chunk → table_inv net chunks m → table_inv net (<[registry_key u c := chunk]> chunks) m.
Proof.
  intros Hm Hn [Ha Hc Hk]. split; [done|intros u' c'|].
  - destruct (decide ((u', c') = (u, c))) as [[= -> ->]|Hne]; [by rewrite lookup_insert_eq, Hm|].
    rewrite lookup_insert_ne; [apply Hc|by intros [-> ->]%registry_key_inj].
  - intros key. destruct (decide (key = registry_key u c)) as [->|Hne]; [eauto|]. rewrite lookup_insert_ne by done. apply Hk.
Qed.

Lemma no_rows_nobody (net : mesh) p : net !! p = None → no_rows net p.
Proof. intros Hn k j row (s & Hs & _). congruence. Qed.

(** *** Every step *)

Lemma inv_store ds m u c data e :
  ascii u → data ≠ [] → bytes data → node_inv ds m →
  match StoreDistributed ds u c data e with
  | (ds', Ok _) => node_inv ds' (<[(u, c) := data]> m)
  | (ds', Err _) => node_inv ds' (delete (u, c) m)
  | (_, Panic) => False
  end.
Proof.
  intros Hu Hne Hb [Hm Ht]. destruct (encoding_ex data Hne Hb) as (code & Hcode & n & He).
  pose proof (store_chunk u c data code Hu Hcode ds e n He (mi_self _ _ Hm) (no_rows_nobody _ _ (mi_nobody _ _ Hm))) as Hs.
  destruct (StoreDistributed ds u c data e) as [ds' r]. destruct Hs as (Hg & Hself & Hr).
  assert (mesh_inv (st_self ds') (st_net ds')) as Hm'.
  { rewrite Hself. eapply mesh_grows; [|done..]. by eapply chunk_writes_ok. }
  destruct r as [chunk|t|]; [| |done].
  - destruct Hr as (Hok & Hchunks & _). split; [done|]. rewrite Hchunks. eapply table_update; try done.
    exists code. split; [|done]. split; [done|by exists n].
  - split; [done|]. destruct Hr as [-> _]. eapply table_forget; [|done..]. intros u' c' i j b Hne'.
    by apply chunk_writes_other, not_eq_sym.
Qed.

Lemma inv_check_chunk ds m key e e' :
  fair e → fair e' → node_inv ds m → node_inv (check_chunk ds key e e') m.
Proof.
  intros Hf Hf' [Hm Ht]. unfold check_chunk. destruct (st_chunks ds !! key) as [chunk|] eqn:Hkey; [|done].
  destruct (ti_keys _ _ _ Ht key) as (u & c & ->); [congruence|].
  pose proof (ti_chunks _ _ _ Ht u c) as Hc. rewrite Hkey in Hc. destruct (m !! (u, c)) as [data|] eqn:Em.
  2: { destruct Hc as (Hu & Eu & Ec). pose proof (check_frame u c Hu ds chunk e e' (mi_net _ _ Hm) (mi_self _ _ Hm) Eu Ec) as Hr.
    destruct (CheckAndRepairIfNeeded ds chunk e e') as [[ds' chunk'] r]. destruct Hr as [Hg Hself Hch Eu' Ec'].
    split; cbn [st_self st_net st_chunks]; [rewrite Hself; by eapply mesh_grows, Hm; [apply (own_writes_ok u c)|]|].
    rewrite Hch. apply table_named; [done|by split_and!|]. rewrite <- (delete_id m (u, c) Em). eapply table_forget; [|done..].
    by intros u' c' i j d Hne (_ & _ & i' & (-> & -> & _)%shard_key_inj). }
  destruct Hc as (code & Henc & Hok). pose proof (ti_ascii _ _ _ Ht u c data Em) as Hu.
  pose proof (check_repair u c data code Hu (proj1 Henc) ds chunk e e' Hf Hf' (mi_net _ _ Hm) (mi_self _ _ Hm) Hok) as Hr.
  destruct (CheckAndRepairIfNeeded ds chunk e e') as [[ds' chunk'] r]. destruct Hr as [[Hg Hself Hch Hok' _] _].
  split; cbn [st_self st_net st_chunks].
  - rewrite Hself. eapply mesh_grows; [|done..]. by eapply chunk_writes_ok, Henc.
  - rewrite Hch, <- (insert_id m (u, c) data Em). eapply table_update; try done. by exists code.
Qed.

Lemma inv_check ds m order e e' :
  (∀ key, fair (e key)) → (∀ key, fair (e' key)) → node_inv ds m → node_inv (checkAllChunks ds order e e') m.
Proof.
  intros Hf Hf'. unfold checkAllChunks. revert ds. induction order as [|key order IH]; intros ds Hi; [done|].
  cbn [foldl]. apply IH. by apply inv_check_chunk.
Qed.

Lemma delete_all_loses self u c nodes env js : ∀ net,
  ascii u → is_s64 c → net !! self ≠ None → (∀ i, i ∈ js → (i < 15)%nat) →
  loses net (delete_all net self u c nodes env js).1.
Proof.
  induction js as [|i js IH]; intros net Hu Hc Hs Hjs; cbn [delete_all]; [apply loses_refl|].
  destruct (nodes !! i) as [p|]; [|apply loses_refl].
  assert (is_s64 (Z.of_nat i)) as Hi by (pose proof (Hjs i ltac:(left)); unfold is_s64; lia).
  set (first := if bool_decide (p = self) then _ else _).
  assert (loses net first.1) as Hl.
  { subst first. case_bool_decide as Hp.
    - destruct (net !! self) as [s|] eqn:Es; [|done]. cbn [from_option id].
      destruct (DeleteChunk_cases s (shard_key u c (Z.of_nat i)) (Z.of_nat i) (h_dberr (c_henv (env i)))) as [->|[t ->]]; cbn [fst].
      + by apply loses_delete.
      + rewrite insert_id by done. apply loses_refl.
    - pose proof (Client_DeleteShard_loses net p u c (Z.of_nat i) (env i) Hu Hc Hi) as Hd.
      destruct (Client_DeleteShard net p u c (Z.of_nat i) (env i)). by destruct Hd. }
  destruct first as [net1 r]. cbn [fst] in Hl.
  specialize (IH net1 Hu Hc ltac:(by rewrite (loses_peers _ _ Hl)) ltac:(intros j Hj; apply Hjs; by right)).
  destruct (delete_all net1 self u c nodes env js) as [net2 rest]. by eapply loses_trans.
Qed.

Lemma inv_delete ds m u c e :
  ascii u → is_s64 c → node_inv ds m →
  let '(ds', r) := Distributed_DeleteChunk ds u c e in node_inv ds' (if r is Ok _ then delete (u, c) m else m).
Proof.
  intros Hu Hc [Hm Ht]. unfold Distributed_DeleteChunk. set (nodes := shard_nodes _ _).
  pose proof (delete_all_loses (st_self ds) u c nodes (d_req e) shard_indices (st_net ds) Hu Hc (mi_self _ _ Hm) shard_indices_lt) as Hl.
  destruct (delete_all _ _ _ _ _ _ _) as [net r]. cbn [fst] in Hl.
  assert (mesh_inv (st_self ds) net) as Hm' by by eapply mesh_loses.
  assert (table_inv net (st_chunks ds) m) as Ht'.
  { eapply table_net; [|done]. intros u' c' d ch _. by apply holds_loses. }
  destruct r as [[n last]|t|]; [|by split..]. destruct (n <? TotalShards * 2 / 3); [by split|].
  split; [done|]. by apply table_delete.
Qed.

Lemma step_inv s s' : node_step s s' → node_inv s.1 s.2 → node_inv s'.1 s'.2.
Proof.
  destruct 1 as [ds m u c data e ds' chunk Hu Hne Hb Hs|ds m u c data e ds' t Hu Hne Hb Hs|ds m order e e' Hf Hf'
                |ds m u c e ds' r Hu Hc Hd|ds m net Hl|ds m net Hg|ds m p Hp Hnone]; cbn [fst snd]; intros Hi.
  - pose proof (inv_store ds m u c data e Hu Hne Hb Hi) as Hs'. by rewrite Hs in Hs'.
  - pose proof (inv_store ds m u c data e Hu Hne Hb Hi) as Hs'. by rewrite Hs in Hs'.
  - by apply inv_check.
  - pose proof (inv_delete ds m u c e Hu Hc Hi) as Hd'. by rewrite Hd in Hd'.
  - destruct Hi as [Hm Ht]. split; [by eapply mesh_loses|]. eapply table_net; [|done]. intros u c d ch _. by apply holds_loses.
  - destruct Hi as [Hm Ht]. split.
    + eapply mesh_grows; [|done..]. by intros k j d (? & ? & _).
    + eapply table_net; [|done]. intros u c d ch Hlook (code & Henc & Hok).
      apply (holds_net (st_net ds) _ _ _ _ _ code Henc); [|by exists code]. intros q i.
      apply (good_disjoint (foreign m)); [|done]. intros j b (_ & _ & Hf). by eapply Hf; [rewrite Hlook|].
  - destruct Hi as [Hm Ht]. assert (∀ q k j row, row_at (<[p:=∅]> (st_net ds)) q k j row → row_at (st_net ds) q k j row) as Hr.
    { intros q k j row (s & Hs & Hrow). destruct (decide (q = p)) as [->|Hq].
      - rewrite lookup_insert_eq in Hs. injection Hs as <-. by rewrite lookup_empty in Hrow.
      - rewrite lookup_insert_ne in Hs by done. by exists s. }
    split.
    + destruct Hm as [Hself Hno Hn]. split; cbn [st_self st_net with_net].
      * destruct (decide (st_self ds = p)) as [->|?]; [by rewrite lookup_insert_eq|by rewrite lookup_insert_ne].
      * by rewrite lookup_insert_ne.
      * intros q k j row Hrow. by eapply Hn, Hr.
    + eapply table_net; [|done]. intros u c d ch _ (code & Henc & Hok).
      apply (holds_net (st_net ds) _ _ _ _ _ code Henc); [|by exists code]. intros q i Hg row Hrow. by apply Hg, Hr.
Qed.

(** ** Properties *)

Lemma run_inv s s' : rtc node_step s s' → node_inv s.1 s.2 → node_inv s'.1 s'.2.
Proof. induction 1 as [|s1 s2 s3 Hs _ IH]; [done|]. intros Hi. by apply IH, (step_inv s1). Qed.

Lemma new_inv self net : mesh_inv self net → node_inv (NewDistributedStorage self net) ∅.
Proof.
  intros Hm. split; [done|]. split.
  - intros u c data. by rewrite lookup_empty.
  - intros u c. by rewrite !lookup_empty.
  - intros key. cbn. by rewrite lookup_empty.
Qed.

(** C3: After any sequence of stores that succeed or fail, checks with repairs,
    deletions, losses and foreign writes, a chunk whose last store succeeded and that
    was not deleted since is registered, its retrieval gives what was stored last or
    an error and changes nothing, and it gives the data when ten shards can be
    fetched.  A store that fails may mix the shards of the chunk it should replace:
    that chunk leaves the map (see [failed_overwrite_destroys]), the others stay. *)
Theorem chunk_survives (self : peerID) (net : mesh) (ds : DistributedStorage) (m : contents) (u : gostring) (c : Z)
    (data : list Z) (e : denv) :
  mesh_inv self net → rtc node_step (NewDistributedStorage self net, ∅) (ds, m) → m !! (u, c) = Some data →
  ∃ chunk r, st_chunks ds !! registry_key u c = Some chunk ∧
    RetrieveDistributed ds (Some chunk) e = (ds, r) ∧ (r = Ok data ∨ ∃ t, r = Err t) ∧
    ∀ alive, NoDup alive → MinShardsForRecovery ≤ len alive →
      (∀ n, n ∈ alive → alive_at u c (st_net ds) (st_self ds) (d_req e) (dc_ShardLocations chunk) n) → r = Ok data.
Proof.
  intros Hm Hrun Hlook. apply run_inv in Hrun as [Hm' Ht]; [|by apply new_inv]. cbn [fst snd] in *.
  pose proof (ti_chunks _ _ _ Ht u c) as Hc. rewrite Hlook in Hc.
  destruct (st_chunks ds !! registry_key u c) as [chunk|]; [|done]. destruct Hc as (code & [Hcode _] & Hok).
  destruct (retrieve_chunk u c data code (ti_ascii _ _ _ Ht u c data Hlook) Hcode ds chunk e (mi_net _ _ Hm') Hok) as (r & Hr & Hcases & Halive).
  exists chunk, r. done.
Qed.

(** every request is answered and every database works *)
Definition all_up (env : nat → cenv) : Prop := ∀ i, c_link (env i) = Up ∧ h_dberr (c_henv (env i)) = None.

Lemma held_alive u c code net self env locs n :
  c_link (env n) = Up ∧ h_dberr (c_henv (env n)) = None → held_at u c code net locs n → alive_at u c net self env locs n.
Proof.
  intros [Hl Hdb] (loc & Hloc & Hidx & i & row & Hi & Hrow & _). exists loc. split_and!; [done..|].
  rewrite <- Hi in Hrow. split_and!; [by right|done|by exists row].
Qed.

Lemma survivors (failed : list nat) :
  len failed ≤ CalculateFaultTolerance → MinShardsForRecovery ≤ len (filter (.∉ failed) (seq 0 15)).
Proof.
  intros Hf. assert (seq 0 15 ⊆+ filter (.∉ failed) (seq 0 15) ++ failed) as Hs%submseteq_length.
  { apply NoDup_submseteq; [apply NoDup_seq|]. intros n Hn. apply elem_of_app.
    destruct (decide (n ∈ failed)); [by right|left]. by apply list_elem_of_filter. }
  rewrite length_app, length_seq in Hs. unfold len in *. change CalculateFaultTolerance with 5 in Hf.
  change MinShardsForRecovery with 10. lia.
Qed.

(** nothing fails during a store *)
Record store_ready (ds : DistributedStorage) (e : denv) : Prop := {
  sr_mesh : mesh_inv (st_self ds) (st_net ds);
  sr_peers : ∀ p, p ∈ ai_ID <$> d_connected e → st_net ds !! p ≠ None;
  sr_pre : all_up (d_pre e);
  sr_req : all_up (d_req e) }.

Lemma store_up ds u c data e :
  store_ready ds e → ascii u → data ≠ [] → bytes data →
  ∃ ds' chunk code, StoreDistributed ds u c data e = (ds', Ok chunk) ∧ encoding data code ∧
    mesh_inv (st_self ds') (st_net ds') ∧ (∀ p, st_net ds' !! p = None ↔ st_net ds !! p = None) ∧
    chunk_ok u c data code (st_net ds') chunk ∧ st_chunks ds' = <[registry_key u c := chunk]> (st_chunks ds) ∧
    ∀ n, (n < 15)%nat → held_at u c code (st_net ds') (dc_ShardLocations chunk) n.
Proof.
  intros [Hm Hpeers Hpre Hreq] Hu Hne Hb. destruct (encoding_ex data Hne Hb) as (code & Hcode & n & He).
  pose proof (store_chunk u c data code Hu Hcode ds e n He (mi_self _ _ Hm) (no_rows_nobody _ _ (mi_nobody _ _ Hm))) as Hs.
  destruct (StoreDistributed ds u c data e) as [ds' r]. destruct Hs as (Hg & Hself & Hr).
  assert (nodes_writable ds e) as Hw.
  { intros i p. split; [apply Hpre|]. intros Hp. split; [apply Hreq|].
    destruct Hp as [->|Hp]; [by left|right]. split; [apply Hreq|by apply Hpeers]. }
  destruct r as [chunk|t|]; [|by destruct Hr|done]. destruct Hr as (Hok & Hch & _ & Hheld).
  exists ds', chunk, code. split_and!; try done; [split; [done|by exists n]| | |by apply Hheld].
  - rewrite Hself. eapply mesh_grows; [|done..]. by eapply chunk_writes_ok.
  - by eapply grows_peers.
Qed.

(** C15: When the connected peers are in the mesh and nothing fails, a chunk is
    stored with all its shards, and it is retrieved again although five of them
    cannot be fetched any more. *)
Theorem store_then_retrieve (ds : DistributedStorage) (u : gostring) (c : Z) (data : list Z) (e : denv) :
  store_ready ds e → ascii u → data ≠ [] → bytes data →
  ∃ ds' chunk, StoreDistributed ds u c data e = (ds', Ok chunk) ∧
    st_chunks ds' = <[registry_key u c := chunk]> (st_chunks ds) ∧
    ∀ e' failed, len failed ≤ CalculateFaultTolerance →
      (∀ i : nat, i ∉ failed → c_link (d_req e' i) = Up ∧ h_dberr (c_henv (d_req e' i)) = None) →
      RetrieveDistributed ds' (Some chunk) e' = (ds', Ok data).
Proof.
  intros Hr Hu Hne Hb. destruct (store_up ds u c data e Hr Hu Hne Hb) as (ds' & chunk & code & Hs & Henc & Hm & _ & Hok & Hch & Hheld).
  exists ds', chunk. split_and!; [done..|]. intros e' failed Hf Hup.
  destruct (retrieve_chunk u c data code Hu (proj1 Henc) ds' chunk e' (mi_net _ _ Hm) Hok) as (r & -> & _ & Halive).
  rewrite (Halive (filter (.∉ failed) (seq 0 15))); [done|apply NoDup_filter, NoDup_seq|by apply survivors|].
  intros n [Hn Hlt%elem_of_seq]%list_elem_of_filter. eapply held_alive; [by apply Hup|]. apply Hheld. lia.
Qed.

(** C16: A repair restores every shard: if the peers that answer, at least ten, have
    theirs and the nodes chosen for the others can store, then afterwards all
    fifteen shards are where the chunk says, and the chunk holds the same data. *)
Theorem repair_restores (ds : DistributedStorage) (u : gostring) (c : Z) (data : list Z) (chunk : DistributedChunk)
    (e : denv) :
  mesh_inv (st_self ds) (st_net ds) → ascii u → holds (st_net ds) u c data chunk → fair e →
  repairable u c ds (dc_ShardLocations chunk) e →
  ∃ ds' chunk', RepairChunk ds chunk e = (ds', chunk', Ok tt) ∧ holds (st_net ds') u c data chunk' ∧
    ∀ env n, all_up env → (n < 15)%nat → alive_at u c (st_net ds') (st_self ds') env (dc_ShardLocations chunk') n.
Proof.
  intros Hm Hu (code & Henc & Hok) Hf Hrep.
  pose proof (repair_chunk u c data code Hu (proj1 Henc) ds chunk e Hf (mi_net _ _ Hm) (mi_self _ _ Hm) Hok) as Hr.
  destruct (RepairChunk ds chunk e) as [[ds' chunk'] r]. destruct Hr as ([_ _ _ Hok' _] & _ & Hdone).
  destruct (Hdone Hrep) as [-> Hheld]. exists ds', chunk'. split_and!; [done|by exists code|].
  intros env n Hup Hn. eapply held_alive; [by apply Hup|by apply Hheld].
Qed.

(** C38: The detour of the health through floating point loses nothing: a chunk is
    left alone with 13 shards or more, repaired with 10 to 12, and given up with
    less. *)
Theorem check_thresholds (ds : DistributedStorage) (u : gostring) (c : Z) (data : list Z) (chunk : DistributedChunk)
    (e e' : denv) :
  fair e → holds (st_net ds) u c data chunk →
  ∃ status, GetShardStatus ds chunk e = (ds, Ok status) ∧
    CheckAndRepairIfNeeded ds chunk e e'
    = if 13 <=? count_true status then (ds, chunk, Ok tt)
      else if 10 <=? count_true status then RepairChunk ds chunk e'
      else (ds, chunk, Err ("chunk health too low for repair: " +:+ pretty (count_true status)
                            +:+ "/15 shards (need at least 10)")).
Proof.
  intros Hf (code & [Hcode _] & Hok).
  destruct (CalculateHealth_spec u c code ds chunk e Hf (co_intact _ _ _ _ _ _ Hok)) as (status & Hs & _ & Hh & Hexact).
  exists status. split; [done|]. unfold CheckAndRepairIfNeeded. rewrite Hh, Hexact.
  change HealthGood with 13. change HealthDegraded with 11. change HealthCritical with 10.
  destruct (Z.leb_spec 13 (count_true status)); [done|]. destruct (Z.leb_spec 11 (count_true status)), (Z.leb_spec 10 (count_true status)); lia || done.
Qed.

(** The status of the shards is the status of their peers: shards that are lost
    by peers that are still there, even all of them, are not noticed, and the
    check repairs nothing. *)
Theorem health_blind (ds : DistributedStorage) (chunk : DistributedChunk) (e e' : denv) (net : mesh) (status : list bool) :
  loses (st_net ds) net → GetShardStatus ds chunk e = (ds, Ok status) → length status = 15%nat →
  HealthGood ≤ count_true status →
  GetShardStatus (with_net ds net) chunk e = (with_net ds net, Ok status) ∧
  CheckAndRepairIfNeeded (with_net ds net) chunk e e' = (with_net ds net, chunk, Ok tt).
Proof.
  intros Hl Hs Hlen Hc. unfold GetShardStatus in Hs.
  destruct (ping_all_blind (st_net ds) net (st_self ds) (d_ping e) (d_sched e (imap pair (dc_ShardLocations chunk)))
    (replicate (Z.to_nat TotalShards) false) (loses_peers _ _ Hl)) as (r & E & E'). rewrite E in Hs. injection Hs as _ ->.
  assert (GetShardStatus (with_net ds net) chunk e = (with_net ds net, Ok status)) as Hst
    by (unfold GetShardStatus; cbn [with_net st_net st_self]; by rewrite E').
  split; [exact Hst|]. unfold CheckAndRepairIfNeeded, CalculateHealth. rewrite Hst. cbn [mbind outcome_bind].
  rewrite health_exact by by apply count_bounds. destruct (Z.leb_spec HealthGood (count_true status)); [done|lia].
Qed.

End run.
