(* ===== verification/MeshSample.v ===== *)
(** * Concrete instances of what the mesh storage uses

    A code whose parity shards each repeat the data, the field format of
    [DhtSample] for the messages, and keys of one byte, so that hypotheses can
    be discharged and the model evaluated. *)

From S2P Require Import Prelude GoBytes DhtStore DhtSample DhtNodeSample Onion OnionProofs Relay RelayProofs MeshErasure MeshCrypto MeshRpc.

(** ** The code *)

(** [n] pieces of length [k] *)
Fixpoint parts (n k : nat) (p : list Z) : list (list Z) :=
  match n with O => [] | S n' => take k p :: parts n' k (drop k p) end.

Lemma parts_spec n k p : length p = (n * k)%nat →
  length (parts n k p) = n ∧ Forall (λ s, length s = k) (parts n k p) ∧ mjoin (parts n k p) = p.
Proof.
  revert p. induction n as [|n IH]; intros p Hl; cbn [parts].
  { by destruct p. }
  destruct (IH (drop k p)) as (H1 & H2 & H3); [rewrite length_drop; lia|]. split_and!.
  - cbn. by rewrite H1.
  - constructor; [rewrite length_take; lia|done].
  - change (take k p ++ mjoin (parts n k (drop k p)) = p). by rewrite H3, take_drop.
Qed.

Lemma parts_join k (ds : list (list Z)) :
  Forall (λ s, length s = k) ds → parts (length ds) k (mjoin ds) = ds.
Proof.
  induction 1 as [|s ds Hs _ IH]; [done|]. cbn [length parts]. change (mjoin (s :: ds)) with (s ++ mjoin ds).
  by rewrite take_app_length', drop_app_length', IH.
Qed.

Definition data_ok (ds : list (list Z)) : Prop :=
  length ds = 10%nat ∧ (0 < length (default [] (head ds)))%nat ∧
  Forall (λ s, length s = length (default [] (head ds)) ∧ bytes s) ds.
#[local] Instance data_ok_dec ds : Decision (data_ok ds).
Proof. unfold data_ok. apply _. Defined.

Definition code_of (ds : list (list Z)) : list shard := (Some <$> ds) ++ replicate 5 (Some (mjoin ds)).
Definition encode_data (ds : list (list Z)) : outcome (list shard) :=
  if decide (data_ok ds) then Ok (code_of ds) else Err "reedsolomon: shard sizes do not match".
Definition encode_shards (shards : list shard) : outcome (list shard) :=
  match mapM id (take 10 shards) with
  | Some ds => if decide (length shards = 15%nat) then encode_data ds else Err "reedsolomon: too few shards given"
  | None => Err "reedsolomon: shard sizes do not match"
  end.

#[local] Instance sample_rs : ReedSolomon := {|
  rs_Split data :=
    let k := ((length data + 9) / 10)%nat in
    Ok (Some <$> parts 10 k (data ++ replicate (10 * k - length data) 0) ++ replicate 5 (replicate k 0));
  rs_Encode := encode_shards;
  rs_Reconstruct got :=
    if decide (Forall is_Some got) then Ok got
    else match mapM id (take 10 got) with
    | Some ds => encode_data ds
    | None =>
        match omap id (drop 10 got) with
        | p :: _ => encode_data (parts 10 (length p / 10) p)
        | [] => Err "reedsolomon: too few shards given"
        end
    end;
  rs_Verify code := match encode_shards code with Ok code' => Ok (bool_decide (code' = code)) | _ => Ok false end |}.

Lemma mapM_some (ds : list (list Z)) : mapM id (Some <$> ds) = Some ds.
Proof. apply mapM_fmap_Some. done. Qed.

Lemma encode_shards_some ds rest :
  data_ok ds → length rest = 5%nat → encode_shards ((Some <$> ds) ++ rest) = Ok (code_of ds).
Proof.
  intros Hd Hr. unfold encode_shards, encode_data. destruct Hd as [Hl Hd]. rewrite take_app_length' by by rewrite length_fmap.
  rewrite mapM_some, decide_True, decide_True; [done|by split|rewrite length_app, length_fmap; lia].
Qed.

Lemma encode_shards_ok shards code :
  encode_shards shards = Ok code → ∃ ds, data_ok ds ∧ code = code_of ds.
Proof.
  unfold encode_shards, encode_data. destruct (mapM id _) as [ds|]; [|done].
  destruct (decide _); [|done]. destruct (decide (data_ok ds)); [|done]. intros [= <-]. by exists ds.
Qed.

Lemma join_length (k : nat) (ds : list (list Z)) :
  Forall (λ s, length s = k) ds → length (mjoin ds) = (length ds * k)%nat.
Proof.
  induction 1 as [|s l Hs _ IH]; [done|]. change (mjoin (s :: l)) with (s ++ mjoin l). rewrite length_app, IH. cbn [length]. lia.
Qed.

Lemma data_ok_join ds : data_ok ds → parts 10 (length (mjoin ds) / 10) (mjoin ds) = ds.
Proof.
  intros (Hl & Hk & Hall). set (k := length (default [] (head ds))) in *.
  assert (Forall (λ s, length s = k) ds) as Hf by (eapply Forall_impl; [exact Hall|naive_solver]).
  assert (length (mjoin ds) = (10 * k)%nat) as Hj by by rewrite <- Hl; apply join_length.
  rewrite Hj, Nat.mul_comm, Nat.div_mul by done. rewrite <- Hl at 1. by apply parts_join.
Qed.

(** data shards that are all there are the data *)
Lemma data_present got ds ds' :
  length ds = 10%nat → (∀ i s, got !! i = Some (Some s) → code_of ds !! i = Some (Some s)) →
  length got = 15%nat → mapM id (take 10 got) = Some ds' → ds' = ds.
Proof.
  intros Hl Hag Hg Hm. apply mapM_Some in Hm. apply list_eq. intros i.
  destruct (decide (i < 10)%nat) as [Hi|Hi].
  - destruct (lookup_lt_is_Some_2 got i) as [x Hx]; [lia|].
    assert (take 10 got !! i = Some x) as Ht by by rewrite lookup_take_lt.
    destruct (Forall2_lookup_l _ _ _ _ _ Hm Ht) as (s & Hs & Hxs). cbn in Hxs. subst x.
    apply Hag in Hx. unfold code_of in Hx. rewrite lookup_app_l, list_lookup_fmap in Hx by (rewrite length_fmap; lia).
    rewrite Hs. destruct (ds !! i); cbn in Hx; congruence.
  - apply Forall2_length in Hm. rewrite length_take in Hm. rewrite !lookup_ge_None_2 by lia. done.
Qed.

Lemma parity_present got ds p rest :
  length ds = 10%nat → (∀ i s, got !! i = Some (Some s) → code_of ds !! i = Some (Some s)) →
  omap id (drop 10 got) = p :: rest → p = mjoin ds.
Proof.
  intros Hl Hag Hp. assert (p ∈ omap id (drop 10 got)) as Hin by (rewrite Hp; left).
  apply list_elem_of_omap in Hin as (x & Hx & Hxp). cbn in Hxp. subst x.
  apply list_elem_of_lookup_1 in Hx as [i Hi]. rewrite lookup_drop in Hi. apply Hag in Hi. unfold code_of in Hi.
  rewrite lookup_app_r in Hi by (rewrite length_fmap; lia). apply lookup_replicate in Hi as [[= ->] _]. done.
Qed.

Lemma present_omap (l : list shard) : present l = len (omap id l).
Proof.
  induction l as [|[s|] l IH]; [done|..]; unfold present, len in *.
  - rewrite filter_cons_True by done. cbn [omap list_omap id length]. lia.
  - rewrite filter_cons_False by (by intros []). exact IH.
Qed.

(** ten shards without parity are all the data *)
Lemma no_parity_all got :
  length got = 15%nat → MinShardsForRecovery ≤ present got → omap id (drop 10 got) = [] →
  mapM id (take 10 got) ≠ None.
Proof.
  intros Hl Hp Hno. rewrite <- (take_drop 10 got), present_app, (present_omap (drop 10 got)), Hno in Hp.
  unfold len in Hp. cbn [length] in Hp. intros Hm. apply mapM_None, Exists_exists in Hm as (x & Hx & Hxn). cbn in Hxn. subst x.
  apply list_elem_of_split in Hx as (a & b & Hab). rewrite Hab in Hp.
  rewrite (present_app a (None :: b)) in Hp. change (present (None :: b)) with (present b) in Hp.
  pose proof (present_bound a). pose proof (present_bound b).
  assert (length (take 10 got) = 10%nat) as H10 by (rewrite length_take; lia). rewrite Hab, length_app in H10.
  cbn [length] in H10. change MinShardsForRecovery with 10 in Hp. unfold len in *. lia.
Qed.

Lemma full_code (got code : list shard) :
  Forall is_Some got → length got = length code →
  (∀ i s, got !! i = Some (Some s) → code !! i = Some (Some s)) → got = code.
Proof.
  intros Hf Hl Hag. apply list_eq_same_length with (length code); [done..|]. intros i x y _ Hx Hy.
  rewrite Forall_lookup in Hf. destruct (Hf i x Hx) as [s ->]. apply Hag in Hx. congruence.
Qed.

Lemma bytes_join (l : list (list Z)) s : bytes (mjoin l) → s ∈ l → bytes s.
Proof.
  unfold bytes. rewrite !Forall_forall. intros Hl Hs b Hb. apply Hl. apply list_elem_of_join. by exists s.
Qed.

Lemma code_of_filled ds :
  data_ok ds → length (code_of ds) = 15%nat ∧ ∀ i s, code_of ds !! i = Some s → ∃ b, s = Some b ∧ b ≠ [] ∧ bytes b.
Proof.
  intros (Hl & Hk & Hd). unfold code_of. split; [rewrite length_app, length_fmap, length_replicate; lia|].
  assert (Forall (λ b, b ≠ [] ∧ bytes b) (ds ++ replicate 5 (mjoin ds))) as Hall.
  { apply Forall_app. split.
    - eapply Forall_impl; [exact Hd|]. intros b [Hb ?]. split; [|done]. intros ->. cbn in *. lia.
    - apply Forall_replicate. split.
      + destruct ds as [|s0 ss]; [done|]. cbn in Hk. change (s0 ++ mjoin ss ≠ []). by destruct s0; [cbn in Hk; lia|].
      + unfold bytes. apply Forall_join. eapply Forall_impl; [exact Hd|]. by intros ? [_ ?]. }
  intros i s Hs. replace ((Some <$> ds) ++ replicate 5 (Some (mjoin ds))) with (Some <$> (ds ++ replicate 5 (mjoin ds))) in Hs
    by (by rewrite fmap_app, fmap_replicate).
  apply list_lookup_fmap_Some in Hs as (b & -> & Hb). exists b. split; [done|]. by eapply (Forall_lookup_1 _ _ _ _ Hall).
Qed.

#[local] Instance sample_rs_laws : ReedSolomonLaws.
Proof.
  constructor; cbn [rs_Split rs_Encode rs_Reconstruct rs_Verify sample_rs].
  - intros data Hne Hb. set (k := ((length data + 9) / 10)%nat). set (pad := replicate (10 * k - length data) 0).
    assert (0 < length data)%nat as Hpos by (destruct data; [done|cbn; lia]).
    assert (length data ≤ 10 * k)%nat as Hk.
    { subst k. pose proof (Nat.div_mod_eq (length data + 9) 10). pose proof (Nat.mod_upper_bound (length data + 9) 10). lia. }
    destruct (parts_spec 10 k (data ++ pad)) as (H1 & H2 & H3); [subst pad; rewrite length_app, length_replicate; lia|].
    assert (bytes (data ++ pad)) as Hbp by (apply bytes_app; split; [done|apply Forall_replicate; unfold is_byte; lia]).
    exists (parts 10 k (data ++ pad) ++ replicate 5 (replicate k 0)), pad, k. split_and!; [done| |lia| |].
    + rewrite length_app, H1, length_replicate. done.
    + apply Forall_app. split.
      * rewrite Forall_forall in H2 |- *. intros s Hs. split; [by apply H2|]. rewrite <- H3 in Hbp.
        by eapply bytes_join.
      * apply Forall_replicate. split; [apply length_replicate|]. apply Forall_replicate. unfold is_byte. lia.
    + by rewrite take_app_length'.
  - intros shards n Hl Hn Hall. set (ds := take 10 shards).
    assert (data_ok ds) as Hd.
    { subst ds. destruct shards as [|s0 ss]; [done|]. split; [rewrite length_take; lia|].
      change (head (take 10 (s0 :: ss))) with (Some s0). cbn [default from_option id].
      pose proof Hall as Hall'. apply Forall_cons in Hall' as [[<- _] _]. split; [done|by apply Forall_take]. }
    exists (replicate 5 (mjoin ds)). split_and!; [|done|].
    + rewrite <- (take_drop 10 shards) at 1. rewrite fmap_app, encode_shards_some, fmap_app, fmap_replicate; [done..|].
      rewrite length_fmap, length_drop. lia.
    + apply Forall_replicate. destruct Hd as (Hl' & Hk & Hd). split.
      * destruct ds as [|s0 ss]; [done|]. cbn in Hk. change (s0 ++ mjoin ss ≠ []). by destruct s0; [cbn in Hk; lia|].
      * unfold bytes. apply Forall_join. eapply Forall_impl; [exact Hd|]. by intros ? [_ ?].
  - intros shards code got (ds & Hd & ->)%encode_shards_ok Hl Hp Hag.
    assert (length (code_of ds) = 15%nat) as Hcl.
    { unfold code_of. destruct Hd as [Hd _]. rewrite length_app, length_fmap, length_replicate. lia. }
    destruct (decide (Forall is_Some got)) as [Hfull|_]; [by rewrite (full_code got (code_of ds))|].
    rewrite Hcl in Hl. destruct (mapM id (take 10 got)) as [ds'|] eqn:Em.
    + rewrite (data_present got ds ds' (proj1 Hd) Hag Hl Em). unfold encode_data. by rewrite decide_True.
    + destruct (omap id (drop 10 got)) as [|p rest] eqn:Eo; [by destruct (no_parity_all got Hl Hp Eo)|].
      rewrite (parity_present got ds p rest (proj1 Hd) Hag Eo), data_ok_join by done.
      unfold encode_data. by rewrite decide_True.
  - intros got code Hl Hp E. destruct (decide (Forall is_Some got)) as [Hfull|_].
    + injection E as <-. split; [done|]. intros i s Hs. rewrite Forall_lookup in Hfull. destruct (Hfull i s Hs) as [b ->].
      exists b. split; [done|by eapply Hp].
    + assert (∃ ds, data_ok ds ∧ code = code_of ds) as (ds & Hd & ->); [|by apply code_of_filled].
      destruct (mapM id (take 10 got)) as [ds|]; [|destruct (omap id (drop 10 got)) as [|p rest]; [done|]];
        unfold encode_data in E; (destruct (decide (data_ok _)); [|done]); injection E as <-; eauto.
  - intros shards code (ds & Hd & ->)%encode_shards_ok. unfold code_of at 1. rewrite encode_shards_some by done.
    by rewrite bool_decide_true.
Qed.

(** ** Messages *)

Ltac typed_dec d := unfold d; apply _.
#[local] Instance from_option_dec {A} (P : A → Prop) `{∀ a, Decision (P a)} (o : option A) : Decision (from_option P True o).
Proof. destruct o; cbn; apply _. Defined.
#[local] Instance RPCMessage_typed_dec m : Decision (RPCMessage_typed m).
Proof. typed_dec RPCMessage_typed. Defined.
#[local] Instance StoreChunkRequest_typed_dec m : Decision (StoreChunkRequest_typed m).
Proof. typed_dec StoreChunkRequest_typed. Defined.
#[local] Instance GetChunkRequest_typed_dec m : Decision (GetChunkRequest_typed m).
Proof. typed_dec GetChunkRequest_typed. Defined.
#[local] Instance StoreShardRequest_typed_dec m : Decision (StoreShardRequest_typed m).
Proof. typed_dec StoreShardRequest_typed. Defined.
#[local] Instance GetShardRequest_typed_dec m : Decision (GetShardRequest_typed m).
Proof. typed_dec GetShardRequest_typed. Defined.
#[local] Instance ShardStatusRequest_typed_dec m : Decision (ShardStatusRequest_typed m).
Proof. typed_dec ShardStatusRequest_typed. Defined.
#[local] Instance DeleteShardRequest_typed_dec m : Decision (DeleteShardRequest_typed m).
Proof. typed_dec DeleteShardRequest_typed. Defined.
#[local] Instance ShardInfo_typed_dec m : Decision (ShardInfo_typed m).
Proof. typed_dec ShardInfo_typed. Defined.
#[local] Instance RPCResponse_typed_dec m : Decision (RPCResponse_typed m).
Proof. typed_dec RPCResponse_typed. Defined.

(** an optional field *)
Definition opt_field {A} (f : A → list Z) (o : option A) : list Z := match o with Some a => 1 :: f a | None => [] end.
Definition field_opt {A} (f : list Z → option A) (l : list Z) : option (option A) :=
  match l with [] => Some None | _ :: d => a ← f d; Some (Some a) end.
Lemma field_opt_field {A} (f : A → list Z) g (o : option A) :
  from_option (λ a, g (f a) = Some a) True o → field_opt g (opt_field f o) = Some o.
Proof. destruct o; cbn; [intros ->|]; done. Qed.
Lemma opt_field_bytes {A} (f : A → list Z) (o : option A) :
  from_option (λ a, bytes (f a)) True o → bytes (opt_field f o).
Proof. destruct o; cbn; [|constructor]. intros Hb. constructor; [unfold is_byte; lia|done]. Qed.

Definition info_field (i : ShardInfo) : list Z :=
  write_fields [si_ShardKey i; int_field (si_ShardIndex i); int_field (si_Size i); si_UserAddr i; int_field (si_ChunkID i)].
Definition field_info (d : list Z) : option ShardInfo :=
  match read_fields [] d with
  | Some [k; i; n; u; c] => Some (mkShardInfo k (field_int i) (field_int n) u (field_int c))
  | _ => None
  end.
Lemma field_info_field i : ShardInfo_typed i → field_info (info_field i) = Some i.
Proof.
  destruct i. intros (? & ? & ? & ? & ?). unfold field_info, info_field. rewrite read_write_fields. cbn in *.
  by rewrite !field_int_field.
Qed.
Lemma info_field_bytes i : ShardInfo_typed i → bytes (info_field i).
Proof.
  intros (? & ? & ? & ? & ?). apply write_fields_bytes. rewrite !Forall_cons. split_and!; try done; apply bytes_be_put.
Qed.

#[local] Instance sample_mesh_json : MeshJson := {|
  json_msg := sample_json (λ m, [rpc_Version m; rpc_Type m; rpc_ID m; rpc_Payload m])
    (λ fs, match fs with [v; t; i; p] => Some (mkRPCMessage v t i p) | _ => None end) RPCMessage_typed;
  json_response := sample_json
    (λ r, resp_Version r :: bool_field (resp_Success r) :: opt_field id (resp_Data r) :: resp_Error r
          :: opt_field info_field (resp_ShardInfo r) :: (info_field <$> resp_ShardInfos r))
    (λ fs, match fs with
           | v :: s :: d :: e :: i :: infos =>
               d ← field_opt Some d; i ← field_opt field_info i; infos ← mapM field_info infos;
               Some (mkRPCResponse v (field_bool s) d e i infos)
           | _ => None end) RPCResponse_typed;
  json_store_chunk := sample_json (λ r, [sc_UserAddr r; int_field (sc_ChunkID r); sc_Data r])
    (λ fs, match fs with [u; c; d] => Some (mkStoreChunkRequest u (field_int c) d) | _ => None end) StoreChunkRequest_typed;
  json_get_chunk := sample_json (λ r, [gc_UserAddr r; int_field (gc_ChunkID r)])
    (λ fs, match fs with [u; c] => Some (mkGetChunkRequest u (field_int c)) | _ => None end) GetChunkRequest_typed;
  json_store_shard := sample_json
    (λ r, [ss_ShardKey r; int_field (ss_ShardIndex r); ss_Data r; ss_UserAddr r; int_field (ss_ChunkID r)])
    (λ fs, match fs with
           | [k; i; d; u; c] => Some (mkStoreShardRequest k (field_int i) d u (field_int c))
           | _ => None end) StoreShardRequest_typed;
  json_get_shard := sample_json (λ r, [gs_ShardKey r])
    (λ fs, match fs with [k] => Some (mkGetShardRequest k) | _ => None end) GetShardRequest_typed;
  json_shard_status := sample_json (λ r, [sq_UserAddr r; int_field (sq_ChunkID r)])
    (λ fs, match fs with [u; c] => Some (mkShardStatusRequest u (field_int c)) | _ => None end) ShardStatusRequest_typed;
  json_delete_shard := sample_json
    (λ r, [ds_UserAddr r; int_field (ds_ChunkID r); int_field (ds_ShardIndex r); ds_Timestamp r; ds_Signature r; ds_PublicKey r])
    (λ fs, match fs with
           | [u; c; i; t; s; p] => Some (mkDeleteShardRequest u (field_int c) (field_int i) t s p)
           | _ => None end) DeleteShardRequest_typed |}.

Lemma field_infos l : Forall ShardInfo_typed l → mapM field_info (info_field <$> l) = Some l.
Proof.
  induction 1 as [|i l Hi _ IH]; [done|]. rewrite fmap_cons. cbn [mapM]. by rewrite field_info_field, IH.
Qed.

#[local] Instance sample_mesh_json_laws : MeshJsonLaws.
Proof.
  assert (∀ r, RPCResponse_typed r →
    (λ fs, match fs with
           | v :: s :: d :: e :: i :: infos =>
               d ← field_opt Some d; i ← field_opt field_info i; infos ← mapM field_info infos;
               Some (mkRPCResponse v (field_bool s) d e i infos)
           | _ => None end)
    (resp_Version r :: bool_field (resp_Success r) :: opt_field id (resp_Data r) :: resp_Error r
          :: opt_field info_field (resp_ShardInfo r) :: (info_field <$> resp_ShardInfos r)) = Some r) as Hr.
  { intros [v s d e i infos] (? & ? & ? & Hi & His). cbn in *.
    rewrite (field_opt_field id Some) by by destruct d. cbn.
    rewrite field_opt_field by (destruct i; [by apply field_info_field|done]). cbn.
    by rewrite field_infos, field_bool_field. }
  constructor; try apply sample_json_laws.
  - by intros [].
  - intros [] (? & ? & ? & ?). cbn in *. by rewrite !Forall_cons.
  - exact Hr.
  - intros [v s d e i infos] (? & ? & ? & Hi & His). cbn in *. rewrite !Forall_cons. split_and!; try done.
    + apply bool_field_bytes.
    + apply opt_field_bytes. by destruct d.
    + apply opt_field_bytes. destruct i; [by apply info_field_bytes|done].
    + apply Forall_fmap. eapply Forall_impl; [exact His|]. apply info_field_bytes.
  - intros r d. unfold json_marshal, json_unmarshal. cbn [json_response sample_mesh_json sample_json].
    destruct (decide (RPCResponse_typed r)) as [Ht|]; [|done]. intros Hd%Ok_inj. subst d. exists r.
    rewrite read_write_fields. cbn [mbind option_bind]. rewrite (Hr r Ht), decide_True by done. done.
  - intros [] (? & ? & ?). cbn in *. by rewrite field_int_field.
  - intros [] (? & ? & ?). cbn in *. rewrite !Forall_cons. split_and!; [done|apply bytes_be_put|done..].
  - intros [] (? & ?). cbn in *. by rewrite field_int_field.
  - intros [] (? & ?). cbn in *. rewrite !Forall_cons. split_and!; [done|apply bytes_be_put|done..].
  - intros [] (? & ? & ? & ? & ?). cbn in *. by rewrite !field_int_field.
  - intros [] (? & ? & ? & ? & ?). cbn in *. rewrite !Forall_cons. split_and!; [done|apply bytes_be_put|done|done|apply bytes_be_put|done].
  - by intros [].
  - intros [] ?. by rewrite !Forall_cons.
  - intros [] (? & ?). cbn in *. by rewrite field_int_field.
  - intros [] (? & ?). cbn in *. rewrite !Forall_cons. split_and!; [done|apply bytes_be_put|done..].
  - intros [] (? & ? & ? & ? & ? & ?). cbn in *. by rewrite !field_int_field.
  - intros [] (? & ? & ? & ? & ? & ?). cbn in *. rewrite !Forall_cons.
    split_and!; [done|apply bytes_be_put|apply bytes_be_put|done..].
Qed.

(** ** The rest *)

#[local] Existing Instances OnionSample.rsa.
(** a date is written in seconds, one character for each *)
#[local] Instance sample_mesh_text : MeshText := {|
  parse_RFC3339 s := Ok (be_get s * Second) |}.
#[local] Instance sample_rsa_verify : RsaVerify := {|
  VerifyPKCS1v15 key digest sig := if bool_decide (sig = [key]) then Ok tt else Err "crypto/rsa: verification error" |}.
