(* ===== verification/MeshWitness.v ===== *)
(** * Concrete runs of the mesh storage

    The hypotheses of the theorems hold on small meshes, and a few runs that
    show what the code does where it is surprising. *)

From S2P Require Import Prelude GoBytes GoText NodeID DhtStore DhtSample DhtNode Onion OnionProofs Relay RelayProofs MeshErasure MeshCrypto MeshVersion Base64 MeshStore MeshNode MeshRpc MeshRpcProofs MeshDistributed MeshProofs MeshRun MeshSample.

Module MeshDemo.
Definition up : cenv := mkCenv Up (mkHenv 1700000000000000000 None id).
Definition down : cenv := mkCenv Refused (mkHenv 1700000000000000000 None id).
Definition disk_full : cenv := mkCenv Up (mkHenv 1700000000000000000 (Some "disk full") id).

Definition peer (p : Z) : AddrInfo := mkAddrInfo [p] [string_bytes "/ip4/10.0.0.1"].
(** two connected peers; requests and pings as given *)
Definition env (req ping : nat → cenv) : denv :=
  mkDenv [peer 2; peer 48] (λ _, []) (λ _, "") (λ _, up) req (λ _, up) ping id.
Definition env_up : denv := env (λ _, up) (λ _, up).

(** three nodes; this one is the first *)
Definition net : mesh := <[[1] := ∅]> (<[[2] := ∅]> (<[[48] := ∅]> ∅)).
Definition alice : gostring := string_bytes "alice".
Definition store_of (r : DistributedStorage * outcome DistributedChunk) : DistributedStorage := r.1.
Definition chunk_of (r : DistributedStorage * outcome DistributedChunk) : option DistributedChunk :=
  match r.2 with Ok c => Some c | _ => None end.

Lemma net_rows (p : peerID) k j row : ¬ row_at net p k j row.
Proof.
  intros (s & Hs & Hr). unfold net in Hs. assert (s = ∅) as ->; [|by rewrite lookup_empty in Hr].
  rewrite !lookup_insert_Some, lookup_empty in Hs. naive_solver.
Qed.
Lemma net_inv : mesh_inv [1] net.
Proof.
  split; [by vm_compute|reflexivity|]. intros p k j row Hr. by apply net_rows in Hr.
Qed.
Lemma net_peers (p : peerID) : p ∈ ai_ID <$> d_connected env_up → net !! p ≠ None.
Proof. cbn. intros [->|[->|[]%not_elem_of_nil]%elem_of_cons]%elem_of_cons; by vm_compute. Qed.
End MeshDemo.

Section mesh_witnesses.
#[local] Existing Instances OnionSample.rsa RelaySample.x509 MeshCrypto.sample_mesh_hash sample_rs sample_rs_laws
  sample_mesh_json sample_mesh_json_laws sample_mesh_text sample_rsa_verify.
Import MeshDemo.

Definition start : DistributedStorage := NewDistributedStorage [1] net.

Lemma start_ready : store_ready start env_up.
Proof. split; [apply net_inv|apply net_peers|done|done]. Qed.

Lemma alice_ok : ascii alice ∧ [1; 2; 3] ≠ [] ∧ bytes [1; 2; 3].
Proof. split_and!; [by_decision|done|by_decision]. Qed.

(** ** Witnesses *)

(** two nodes lose everything after a store, and the chunk is retrieved *)
Lemma chunk_survives_witness :
  ∃ ds m chunk, rtc node_step (start, ∅) (ds, m) ∧ m !! (alice, 7) = Some [1; 2; 3] ∧
    (RetrieveDistributed ds (Some chunk) env_up).2 = Ok [1; 2; 3].
Proof.
  destruct alice_ok as (Ha & Hne & Hb).
  destruct (store_up start alice 7 [1; 2; 3] env_up start_ready Ha Hne Hb)
    as (ds & chunk & code & Hs & Henc & Hm & Hpeers & Hok & Hch & Hheld).
  set (m := <[(alice, 7) := [1; 2; 3]]> (∅ : contents)).
  assert (rtc node_step (start, ∅) (ds, m)) as Hrun.
  { apply rtc_once. by apply (step_store start ∅ alice 7 [1; 2; 3] env_up ds chunk). }
  destruct (chunk_survives [1] net ds m alice 7 [1; 2; 3] env_up net_inv Hrun (lookup_insert_eq _ _ _))
    as (chunk' & r & Hc & Hr & _ & Halive).
  rewrite Hch, lookup_insert_eq in Hc. injection Hc as <-.
  exists ds, m, chunk. split_and!; [done|apply lookup_insert_eq|]. rewrite Hr. cbn [snd].
  apply (Halive (seq 0 15)); [apply NoDup_seq|by vm_compute|]. intros n [_ Hn]%elem_of_seq.
  apply (held_alive alice 7 code); [split; reflexivity|]. apply Hheld. lia.
Defined.

(** shards 3 to 7 cannot be fetched any more *)
Lemma store_then_retrieve_witness :
  ∃ ds chunk, StoreDistributed start alice 7 [1; 2; 3] env_up = (ds, Ok chunk) ∧
    RetrieveDistributed ds (Some chunk)
      (env (λ i, if bool_decide (i ∈ [3; 4; 5; 6; 7]%nat) then down else up) (λ _, up)) = (ds, Ok [1; 2; 3]).
Proof.
  destruct alice_ok as (Ha & Hne & Hb).
  destruct (store_then_retrieve start alice 7 [1; 2; 3] env_up start_ready Ha Hne Hb) as (ds & chunk & Hs & _ & Hr).
  exists ds, chunk. split; [exact Hs|]. clear Hs. apply (Hr _ [3; 4; 5; 6; 7]%nat); [by vm_compute|].
  intros i Hi. cbn. rewrite bool_decide_false by exact Hi. split; reflexivity.
Defined.

(** the peer of shard 0 does not answer *)
Lemma repair_restores_witness :
  ∃ ds chunk ds' chunk', StoreDistributed start alice 7 [1; 2; 3] env_up = (ds, Ok chunk) ∧
    RepairChunk ds chunk (env (λ _, up) (λ i, if (i =? 0)%nat then down else up)) = (ds', chunk', Ok tt).
Proof.
  destruct alice_ok as (Ha & Hne & Hb).
  destruct (store_up start alice 7 [1; 2; 3] env_up start_ready Ha Hne Hb)
    as (ds & chunk & code & Hs & Henc & Hm & Hpeers & Hok & Hch & Hheld).
  assert (∀ n loc, dc_ShardLocations chunk !! n = Some loc → (n < 15)%nat) as Hlt.
  { intros n loc Hloc%lookup_lt_Some. by rewrite (proj1 (co_intact _ _ _ _ _ _ Hok)) in Hloc. }
  destruct (repair_restores ds alice 7 [1; 2; 3] chunk (env (λ _, up) (λ i, if (i =? 0)%nat then down else up)))
    as (ds' & chunk' & Hr & _); [exact Hm|exact Ha|exists code; split; assumption|intros l; reflexivity| |exists ds, chunk, ds', chunk'; split; assumption].
  split.
  - intros n loc Hloc. destruct (Hheld n (Hlt n loc Hloc)) as (loc' & Hloc' & Hidx & _). congruence.
  - intros n (loc & Hloc & _). apply (held_alive alice 7 code); [split; reflexivity|]. eapply Hheld, Hlt, Hloc.
  - exists (seq 1 14). split_and!; [apply NoDup_seq|by vm_compute|]. intros n [Hn1 Hn2]%elem_of_seq.
    destruct (Hheld n ltac:(lia)) as (loc & Hloc & _ & i & row & _ & (s & Hrow & _) & _). exists loc. split; [exact Hloc|].
    right. cbn. rewrite (proj2 (Nat.eqb_neq n 0)) by lia. split; [reflexivity|]. rewrite Hrow. discriminate.
  - intros i p Hp. split; [reflexivity|]. destruct Hp as [->|Hp]; [left; reflexivity|right]. split; [reflexivity|].
    intros E. exact (net_peers p Hp (proj1 (Hpeers p) E)).
Defined.

Lemma check_thresholds_witness :
  ∃ ds chunk status, StoreDistributed start alice 7 [1; 2; 3] env_up = (ds, Ok chunk) ∧
    GetShardStatus ds chunk env_up = (ds, Ok status).
Proof.
  destruct alice_ok as (Ha & Hne & Hb).
  destruct (store_up start alice 7 [1; 2; 3] env_up start_ready Ha Hne Hb)
    as (ds & chunk & code & Hs & Henc & Hm & Hpeers & Hok & Hch & Hheld).
  destruct (check_thresholds ds alice 7 [1; 2; 3] chunk env_up env_up) as (status & Hst & _);
    [intros l; reflexivity|exists code; split; assumption|exists ds, chunk, status; split; assumption].
Defined.

(** all nodes lose all they have *)
Lemma health_blind_witness :
  ∃ ds chunk, StoreDistributed start alice 7 [1; 2; 3] env_up = (ds, Ok chunk) ∧
    CheckAndRepairIfNeeded (with_net ds net) chunk env_up env_up = (with_net ds net, chunk, Ok tt).
Proof.
  destruct alice_ok as (Ha & Hne & Hb).
  destruct (store_up start alice 7 [1; 2; 3] env_up start_ready Ha Hne Hb)
    as (ds & chunk & code & Hs & Henc & Hm & Hpeers & Hok & Hch & Hheld).
  assert (loses (st_net ds) net) as Hl.
  { split; [intros p; exact (iff_sym (Hpeers p))|]. intros p k j row Hr. destruct (net_rows _ _ _ _ Hr). }
  assert (ds = (StoreDistributed start alice 7 [1; 2; 3] env_up).1) as Ed by (rewrite Hs; reflexivity).
  assert (Some chunk = chunk_of (StoreDistributed start alice 7 [1; 2; 3] env_up)) as Ec by (rewrite Hs; reflexivity).
  exists ds, chunk. split; [exact Hs|]. clear Hs.
  assert (GetShardStatus ds chunk env_up = (ds, Ok (replicate 15 true))) as Hst.
  { enough (match chunk_of (StoreDistributed start alice 7 [1; 2; 3] env_up) with
            | Some chunk => (GetShardStatus (StoreDistributed start alice 7 [1; 2; 3] env_up).1 chunk env_up).2
            | None => Panic end = Ok (replicate 15 true)) as E.
    - rewrite <- Ec, <- Ed in E. destruct (GetShardStatus_spec alice 7 code ds chunk env_up ltac:(intros l; reflexivity)
        (co_intact _ _ _ _ _ _ Hok)) as (st & Est & _). rewrite Est in E |- *. cbn [snd] in E. rewrite E. reflexivity.
    - vm_compute. reflexivity. }
  apply (health_blind ds chunk env_up env_up net (replicate 15 true) Hl Hst); [reflexivity|by vm_compute].
Defined.

Lemma get_shard_ignores_index_witness :
  ∃ t, (Client_GetShard (Client_StoreShard net [2] alice 3 [1; 2] alice 7 up).1 [2] alice up).2 = Err t.
Proof.
  pose proof (get_shard_ignores_index net [2] ∅ alice 3 [1; 2] alice 7 up up) as Hg.
  destruct (Client_StoreShard net [2] alice 3 [1; 2] alice 7 up) as [net' r]. apply Hg; try done; try by_decision.
  - intros p k j row Hr. by apply net_rows in Hr.
Defined.

Lemma unsigned_delete_accepted_witness :
  (Client_DeleteShard (<[[2] := <[(shard_key alice 7 3, 3) := mkRow [1] 0 1]> ∅]> net) [2] alice 7 3 up).2 = Ok tt.
Proof.
  rewrite (unsigned_delete_accepted _ [2] (<[(shard_key alice 7 3, 3) := mkRow [1] 0 1]> ∅)); try done; try by_decision.
Defined.

(** a date more than 292 years ahead *)
Lemma delete_signature_window_witness :
  verifyDeleteShardSignature (mkDeleteShardRequest alice 7 3 (be_put 8 10000000000) (string_bytes "CQ==") [9]) 0 = Ok tt ∧
  verifyDeleteShardSignature (mkDeleteShardRequest alice 7 3 (be_put 8 301) (string_bytes "CQ==") [9]) 0 ≠ Ok tt.
Proof.
  split.
  - apply (delete_signature_window _ 0 (10000000000 * Second) [9] (9 : @PublicKey OnionSample.rsa)); try reflexivity. right. by vm_compute.
  - rewrite (delete_signature_window _ 0 (301 * Second) [9] (9 : @PublicKey OnionSample.rsa)); try reflexivity. unfold Second. lia.
Defined.

Lemma version_gate_witness :
  (handleStream ∅ (default [] (match json_marshal (mkRPCMessage (string_bytes "2.0.0") MsgTypePing [] []) with Ok d => Some d | _ => None end)) (c_henv up)).1 = ∅.
Proof.
  pose proof (version_gate ∅ (mkRPCMessage (string_bytes "2.0.0") MsgTypePing [] [])
    (default [] (match json_marshal (mkRPCMessage (string_bytes "2.0.0") MsgTypePing [] []) with Ok d => Some d | _ => None end))
    (c_henv up)) as Hg.
  rewrite bool_decide_false in Hg by (by_decision || (intros [?|?]; discriminate)). apply Hg; [by vm_compute|constructor].
Defined.

Lemma find_closest_nodes_spec_witness :
  len (FindClosestNodes [peer 2; peer 48] alice 1) = 1.
Proof. destruct (find_closest_nodes_spec [peer 2; peer 48] alice 1) as (rest & _ & Hl & _); [lia|]. rewrite Hl. reflexivity. Defined.

(** ** Runs *)

Definition stored_alice : DistributedStorage * outcome DistributedChunk := StoreDistributed start alice 7 [1; 2; 3] env_up.
Definition rows (ds : DistributedStorage) (p : peerID) : nat := size (default ∅ (st_net ds !! p)).

(** Deleting looks the nodes up under another key than storing: it asks each of
    the two peers for the other one's shard, reports success, and both keep
    theirs. *)
Example deletion_misses_shards :
  let '(ds, r) := Distributed_DeleteChunk stored_alice.1 alice 7 env_up in
  r = Ok tt ∧ rows ds [1] = 0%nat ∧ rows ds [2] = 1%nat ∧ rows ds [48] = 1%nat.
Proof. vm_compute. done. Qed.

(** A store that fails has replaced shards of the chunk that is still registered,
    with its old size: retrieving it gives bytes that nobody stored. *)
Example failed_overwrite_destroys :
  match chunk_of stored_alice with
  | Some chunk =>
      let '(ds, r) := StoreDistributed stored_alice.1 alice 7 [9; 9; 9; 9]
                        (env (λ i, if (i <? 9)%nat then up else disk_full) (λ _, up)) in
      (∃ t, r = Err t) ∧ st_chunks ds !! registry_key alice 7 = Some chunk ∧
      (RetrieveDistributed ds (Some chunk) env_up).2 = Ok [9; 9; 9]
  | None => False
  end.
Proof. vm_compute. split_and!; [by eexists|reflexivity..]. Qed.

(** A shard that could not be stored has the index 0 in the list of locations:
    its unknown peer does not answer, and shard 0 counts as missing. *)
Example failed_shard_hides_first :
  let '(ds, r) := StoreDistributed start alice 7 [1; 2; 3] (env (λ i, if (i =? 3)%nat then disk_full else up) (λ _, up)) in
  match r with
  | Ok chunk => (GetShardStatus ds chunk env_up).2 = Ok ([false; true; true; false] ++ replicate 11 true)
  | _ => False
  end.
Proof. vm_compute. reflexivity. Qed.

End mesh_witnesses.
