(* ===== verification/SessionStore.v ===== *)
(** * Keeping sessions on disk: pkg/network/session_storage.go, and the parts of
    x3dh_manager.go, session_manager.go, message_sender.go and client.go that save
    and load

    The storage directory is a map from file names to contents.  Every access can
    fail; a write that fails may have cut the file down to what was written so far.
    [encoding/gob] and [encoding/json] are the classes [Gob] and [Json].  Files are
    the ones this program writes: a null among the one-time prekeys is not. *)

From S2P Require Import Prelude GoBytes NodeID Wire Ratchet Ed25519 X3DH Aes DhtStore Session MeshVersion.

(** ** Files *)

Abbreviation Disk := (gmap string (list Z)).

Inductive write_fault :=
| Written
| NotOpened (e : string)
| Cut (n : nat) (e : string).

(** what the operating system does with the accesses of one call; [io_seed]
    stands for the order in which gob ranges over a map *)
Record io := mkIo {
  io_read : string → option string; io_write : string → write_fault;
  io_remove : string → option string; io_seed : nat }.
Definition working (seed : nat) : io := mkIo (λ _, None) (λ _, Written) (λ _, None) seed.

Inductive read_result :=
| Contents (d : list Z)
| NotExist
| Unreadable (e : string).

(** [os.ReadFile], and [os.Open] followed by reading *)
Definition ReadFile (f : io) (d : Disk) (name : string) : read_result :=
  match io_read f name with
  | Some e => Unreadable e
  | None => match d !! name with Some b => Contents b | None => NotExist end
  end.

(** [os.WriteFile], and [os.Create] followed by writing: [opened] and [written]
    are the texts put before the error of the two *)
Definition write_file (f : io) (d : Disk) (name : string) (data : list Z) (opened written : string)
  : Disk * outcome unit :=
  match io_write f name with
  | Written => (<[name := data]> d, Ok tt)
  | NotOpened e => (d, Err (opened +:+ e))
  | Cut n e => (<[name := take n data]> d, Err (written +:+ e))
  end.

(** [encoding/gob] at one Go type *)
Class Gob (A : Type) := {
  gob_encode : nat → A → list Z;
  gob_decode : list Z → outcome A }.

(** A value of the type comes back; what is cut short is reported. *)
Class GobLaws (A : Type) `{Gob A} (typed : A → Prop) := {
  gob_no_panic : ∀ d, gob_decode (A := A) d ≠ Panic;
  gob_round : ∀ seed a, typed a → gob_decode (gob_encode seed a) = Ok a;
  gob_cut : ∀ seed a n, typed a → (n < length (gob_encode seed a))%nat →
    ∃ e, gob_decode (A := A) (take n (gob_encode seed a)) = Err e }.

(** ** Keys of the files *)

(** [copy(addr[:], addrBytes)] into an address *)
Definition copy_address (b : list Z) : list Z := take 20 (b ++ replicate 20 0).

(** addresses to hexadecimal strings and back; entries that are not hexadecimal
    are skipped.  [entries] is a map in the order of the loop. *)
Definition hex_map {A} (m : gmap (list Z) A) : gmap gostring A :=
  list_to_map (prod_map hex_encode id <$> map_to_list m).
Definition restore_map {A} (entries : list (gostring * A)) (m : gmap (list Z) A) : gmap (list Z) A :=
  foldl (λ m kv, match hex_decode kv.1 with Ok b => <[copy_address b := kv.2]> m | _ => m end) m entries.

(** [fmt.Sscanf(s, "%d", &n)] into a uint32, which stays 0 when this fails *)
Definition Sscanf_u32 (s : gostring) : Z :=
  match skip_space (length s) s with
  | Ok s => let n := number (digits s) in if n <? 2 ^ 32 then n else 0
  | _ => 0
  end.

(** ** session_storage.go *)

Record X3DHState := mkX3DHState {
  x3_IdentityKeyPair : option IdentityKeyPair; x3_SignedPreKey : option SignedPreKeyPrivate;
  x3_OneTimePreKeys : gmap gostring OneTimePreKeyPrivate; x3_RegistrationID : Z }.

Definition x3dh_file : string := "x3dh_state.json".
Definition sessions_file : string := "ratchet_sessions.gob".
Definition bundles_file : string := "key_bundle_cache.json".

Abbreviation session_map := (gmap gostring RatchetState).
Abbreviation bundle_map := (gmap gostring KeyBundle).

Section storage.
Context `{Json X3DHState} `{Json bundle_map} `{Gob session_map}.

(** [os.MkdirAll]: the directory is there, with what it had *)
Definition NewSessionStorage (dir : Disk) (mkdir : option string) : outcome Disk :=
  match mkdir with
  | Some e => Err ("failed to create storage directory: " +:+ e)
  | None => Ok dir
  end.

Definition SaveX3DHState (f : io) (d : Disk) (state : X3DHState) : Disk * outcome unit :=
  match wrap_err "failed to marshal X3DH state: " (json_marshal state) with
  | Ok data => write_file f d x3dh_file data "failed to write X3DH state: " "failed to write X3DH state: "
  | Err e => (d, Err e)
  | Panic => (d, Panic)
  end.

(** [Ok None]: there is no file *)
Definition LoadX3DHState (f : io) (d : Disk) : outcome (option X3DHState) :=
  match ReadFile f d x3dh_file with
  | NotExist => Ok None
  | Unreadable e => Err ("failed to read X3DH state: " +:+ e)
  | Contents data =>
      state ← wrap_err "failed to unmarshal X3DH state: " (json_unmarshal data); Ok (Some state)
  end.

Definition LoadAllRatchetSessions (f : io) (d : Disk) : outcome session_map :=
  match ReadFile f d sessions_file with
  | NotExist => Ok ∅
  | Unreadable e => Err ("failed to open ratchet sessions: " +:+ e)
  | Contents data => wrap_err "failed to decode ratchet sessions: " (gob_decode data)
  end.

Definition saveAllRatchetSessions (f : io) (d : Disk) (sessions : session_map) : Disk * outcome unit :=
  write_file f d sessions_file (gob_encode (io_seed f) sessions)
    "failed to create ratchet sessions file: " "failed to encode ratchet sessions: ".

Definition SaveRatchetSession (f : io) (d : Disk) (addr : list Z) (session : RatchetState)
  : Disk * outcome unit :=
  match LoadAllRatchetSessions f d with
  | Ok sessions => saveAllRatchetSessions f d (<[hex_encode addr := session]> sessions)
  | Err e => (d, Err e)
  | Panic => (d, Panic)
  end.

Definition LoadRatchetSession (f : io) (d : Disk) (addr : list Z) : outcome (option RatchetState) :=
  sessions ← LoadAllRatchetSessions f d; Ok (sessions !! hex_encode addr).

Definition DeleteRatchetSession (f : io) (d : Disk) (addr : list Z) : Disk * outcome unit :=
  match LoadAllRatchetSessions f d with
  | Ok sessions => saveAllRatchetSessions f d (delete (hex_encode addr) sessions)
  | Err e => (d, Err e)
  | Panic => (d, Panic)
  end.

Definition SaveKeyBundleCache (f : io) (d : Disk) (cache : gmap (list Z) KeyBundle) : Disk * outcome unit :=
  match wrap_err "failed to marshal key bundle cache: " (json_marshal (hex_map cache)) with
  | Ok data => write_file f d bundles_file data
      "failed to write key bundle cache: " "failed to write key bundle cache: "
  | Err e => (d, Err e)
  | Panic => (d, Panic)
  end.

(** the order of the loops over maps that were read *)
Context (order_s : list (gostring * RatchetState) → list (gostring * RatchetState))
        (order_b : list (gostring * KeyBundle) → list (gostring * KeyBundle))
        (order_o : list (gostring * OneTimePreKeyPrivate) → list (gostring * OneTimePreKeyPrivate)).

Definition LoadKeyBundleCache (f : io) (d : Disk) : outcome (gmap (list Z) KeyBundle) :=
  match ReadFile f d bundles_file with
  | NotExist => Ok ∅
  | Unreadable e => Err ("failed to read key bundle cache: " +:+ e)
  | Contents data =>
      stringCache ← wrap_err "failed to unmarshal key bundle cache: " (json_unmarshal data);
      Ok (restore_map (order_b (map_to_list stringCache)) ∅)
  end.

Fixpoint remove_files (f : io) (d : Disk) (files : list string) : Disk * outcome unit :=
  match files with
  | [] => (d, Ok tt)
  | name :: files' =>
      match io_remove f name with
      | Some e => (d, Err ("failed to remove " +:+ name +:+ ": " +:+ e))
      | None => remove_files f (delete name d) files'
      end
  end.
(** a file that does not exist is not an error *)
Definition Storage_Clear (f : io) (d : Disk) : Disk * outcome unit :=
  remove_files f d [x3dh_file; sessions_file; bundles_file].

(** ** x3dh_manager.go *)

(** [opkMap[fmt.Sprintf("%d", keyID)] = opk] *)
Definition decimal_map (m : opk_map) : gmap gostring OneTimePreKeyPrivate :=
  list_to_map (prod_map (λ id, string_bytes (pretty id)) id <$> map_to_list m).
Definition x3dh_state_of (c : Client) : X3DHState :=
  mkX3DHState (cl_x3dhIdentity c) (cl_signedPreKey c) (decimal_map (cl_oneTimePreKeys c)) (cl_registrationID c).

(** [None]: no storage is attached *)
Definition saveX3DHState (f : io) (d : option Disk) (c : Client) : option Disk * outcome unit :=
  match d with
  | None => (None, Ok tt)
  | Some d => let '(d, r) := SaveX3DHState f d (x3dh_state_of c) in (Some d, r)
  end.

Definition scan_opks (entries : list (gostring * OneTimePreKeyPrivate)) : opk_map :=
  foldl (λ m kv, <[Sscanf_u32 kv.1 := kv.2]> m) ∅ entries.

(** The log line at the end reads the identity and the signed prekey. *)
Definition loadX3DHState (f : io) (d : option Disk) (c : Client) : Client * outcome unit :=
  match d with
  | None => (c, Ok tt)
  | Some d =>
      match LoadX3DHState f d with
      | Err e => (c, Err e)
      | Panic => (c, Panic)
      | Ok None => (c, Ok tt)
      | Ok (Some state) =>
          let c := mkClient (cl_Address c) (cl_connected c) (x3_IdentityKeyPair state) (x3_SignedPreKey state)
            (scan_opks (order_o (map_to_list (x3_OneTimePreKeys state)))) (x3_RegistrationID state)
            (cl_ratchetSessions c) (cl_keyBundleCache c) in
          (c, match x3_IdentityKeyPair state, x3_SignedPreKey state with Some _, Some _ => Ok tt | _, _ => Panic end)
      end
  end.

(** ** client.go *)

(** [NewClient]: the maps are empty; the address is set afterwards *)
Definition NewClient (addr : list Z) : Client := mkClient addr false None None ∅ 0 ∅ ∅.

(** Failures are logged and the next file is loaded. *)
Definition load_sessions (f : io) (d : Disk) (c : Client) : Client * outcome unit :=
  match LoadAllRatchetSessions f d with
  | Panic => (c, Panic)
  | Err _ => (c, Ok tt)
  | Ok sessions => (with_sessions c (restore_map (order_s (map_to_list sessions)) (cl_ratchetSessions c)), Ok tt)
  end.
Definition load_bundles (f : io) (d : Disk) (c : Client) : Client * outcome unit :=
  match LoadKeyBundleCache f d with
  | Panic => (c, Panic)
  | Err _ => (c, Ok tt)
  | Ok cache => (if bool_decide (cache = ∅) then c else with_bundles c cache, Ok tt)
  end.
Definition LoadPersistedState (f : io) (d : option Disk) (c : Client) : Client * outcome unit :=
  match d with
  | None => (c, Ok tt)
  | Some disk =>
      match loadX3DHState f d c with
      | (c, Panic) => (c, Panic)
      | (c, _) =>
          match load_sessions f disk c with
          | (c, Panic) => (c, Panic)
          | (c, _) => load_bundles f disk c
          end
      end
  end.

End storage.

(** ** The operations of a client that has a storage

    The functions of Session.v with the saving they do; errors of saving are
    logged. *)

Record Stored := mkStored { st_client : Client; st_disk : option Disk }.

Section stored.
Context `{RatchetOps} `{Ed25519} `{AesGcm} `{Json X3DHState} `{Json bundle_map} `{Gob session_map}.

Definition keep_session (f : io) (d : option Disk) (addr : list Z) (s : RatchetState) : option Disk :=
  (λ d, (SaveRatchetSession f d addr s).1) <$> d.
Definition keep_bundles (f : io) (d : option Disk) (c : Client) : option Disk :=
  (λ d, (SaveKeyBundleCache f d (cl_keyBundleCache c)).1) <$> d.
Definition keep_x3dh (f : io) (d : option Disk) (c : Client) : option Disk := (saveX3DHState f d c).1.

Definition Stored_InitializeX3DH (f : io) (p : Stored) (r : x3dh_random) (nowMs now : Z) : Stored * outcome unit :=
  let '(c, res) := InitializeX3DH (st_client p) r nowMs now in
  (mkStored c (match res with Ok _ => keep_x3dh f (st_disk p) c | _ => st_disk p end), res).

(** nothing is saved when there are keys enough *)
Definition Stored_RefillOneTimePreKeys (f : io) (p : Stored) (threshold : Z) (rnd : Z → option (list Z))
  : Stored * outcome unit :=
  if threshold <=? Z.of_nat (size (cl_oneTimePreKeys (st_client p))) then (p, Ok tt)
  else
    let '(c, res) := RefillOneTimePreKeys (st_client p) threshold rnd in
    (mkStored c (match res with Ok _ => keep_x3dh f (st_disk p) c | _ => st_disk p end), res).

Definition Stored_CacheKeyBundle (f : io) (p : Stored) (addr : list Z) (bundle : KeyBundle) : Stored :=
  let c := CacheKeyBundle (st_client p) addr bundle in mkStored c (keep_bundles f (st_disk p) c).
Definition Stored_RemoveCachedKeyBundle (f : io) (p : Stored) (addr : list Z) : Stored :=
  let c := RemoveCachedKeyBundle (st_client p) addr in mkStored c (keep_bundles f (st_disk p) c).
(** the file stays *)
Definition Stored_ClearKeyBundleCache (p : Stored) : Stored :=
  mkStored (ClearKeyBundleCache (st_client p)) (st_disk p).

(** only a session that was not there before is saved; the prekeys are not *)
Definition Stored_InitializeRatchetSession (f : io) (p : Stored) (from : list Z) (initialMsg : InitialMessage)
  : Stored * outcome unit :=
  let '(c, res) := InitializeRatchetSession (st_client p) from initialMsg in
  (mkStored c (match cl_ratchetSessions (st_client p) !! from, cl_ratchetSessions c !! from with
               | None, Some s => keep_session f (st_disk p) from s
               | _, _ => st_disk p
               end), res).

Definition Stored_SetRatchetSession (f : io) (p : Stored) (addr : list Z) (s : RatchetState) : Stored :=
  mkStored (SetRatchetSession (st_client p) addr s) (keep_session f (st_disk p) addr s).

(** A new session is saved before the initial message is sent ([f1]), and the
    session again when the message is encrypted ([f2]). *)
Definition Stored_ratchet_message (f1 f2 : io) (p : Stored) (to : list Z) (recipientKeyBundle : option KeyBundle)
  (plaintext : list Z) (eph nonce : option (list Z)) (send : list Z → outcome unit)
  : Stored * outcome (list Z) :=
  let c := st_client p in
  let '(c', res) := ratchet_message c to recipientKeyBundle plaintext eph nonce send in
  let disk :=
    match cl_connected c, cl_x3dhIdentity c with
    | true, Some identity =>
        let '(c1, established) := establish_session c identity to recipientKeyBundle eph send in
        let disk1 :=
          match cl_ratchetSessions c !! to, cl_ratchetSessions c1 !! to with
          | None, Some s => keep_session f1 (st_disk p) to s
          | _, _ => st_disk p
          end in
        match established, res, cl_ratchetSessions c' !! to with
        | Ok _, Ok _, Some s => keep_session f2 disk1 to s
        | _, _, _ => disk1
        end
    | _, _ => st_disk p
    end in
  (mkStored c' disk, res).

(** session_manager.go; a message that does not decrypt is not saved *)
Definition Stored_tryDecryptRatchetMessage (f : io) (p : Stored) (payload : slice) (from : list Z)
  (rnd : option (list Z)) : Stored * outcome (option (list Z)) :=
  let '(c, res) := tryDecryptRatchetMessage (st_client p) payload from rnd in
  (mkStored c (match res, cl_ratchetSessions c !! from with
               | Ok (Some _), Some s => keep_session f (st_disk p) from s
               | _, _ => st_disk p
               end), res).

(** message_handler.go: the sessions tried by [handleDirectMessage] are not saved *)
Definition Stored_handle_ratchet (p : Stored) (decrypted : slice) (rnd : list Z → option (list Z))
  (range : list (list Z)) : Stored * outcome (option (list Z)) :=
  let '(c, res) := handle_ratchet (st_client p) decrypted rnd range in (mkStored c (st_disk p), res).

End stored.
