(* ===== verification/SessionStoreProofs.v ===== *)
(** * What a restart gives back (session_storage.go, LoadPersistedState)

    [restart_restores]: a client that was run with a storage and is started again
    has its sessions, identity, prekeys and key bundles.  [torn_write_loses_sessions],
    [prekeys_without_identity] and [used_prekey_returns] are the limits. *)

From S2P Require Import Prelude GoBytes NodeID Wire Ratchet Ed25519 X3DH Aes DhtStore Session DhtNode MeshVersion GoText SessionStore.

(** ** Values of the Go types *)

Definition RatchetState_typed (s : RatchetState) : Prop :=
  Forall (array 32) [RootKey s; SendingChainKey s; ReceivingChainKey s; DHSendingPrivate s; DHSendingPublic s;
                     DHReceivingPublic s] ∧
  Forall (in_range 32) [SendingMsgNum s; ReceivingMsgNum s; PreviousChainLen s] ∧
  map_Forall (λ k v, array 32 k.1 ∧ in_range 32 k.2 ∧ array 32 v) (SkippedMessageKeys s) ∧
  array 20 (LocalAddress s) ∧ array 20 (RemoteAddress s).
Definition identity_typed (i : IdentityKeyPair) : Prop :=
  array 32 (ik_PublicKey i) ∧ array 64 (ik_PrivateKey i) ∧ array 32 (ik_DHPublic i) ∧ array 32 (ik_DHPrivate i).
Definition spk_typed (k : SignedPreKeyPrivate) : Prop :=
  in_range 32 (spkp_KeyID k) ∧ array 32 (spkp_PublicKey k) ∧ array 32 (spkp_PrivateKey k) ∧
  array 64 (spkp_Signature k) ∧ in_range 64 (spkp_Timestamp k).
Definition opk_typed (k : OneTimePreKeyPrivate) : Prop :=
  in_range 32 (opkp_KeyID k) ∧ array 32 (opkp_PublicKey k) ∧ array 32 (opkp_PrivateKey k).
Definition opt_typed {A} (P : A → Prop) (o : option A) : Prop := match o with Some a => P a | None => True end.

Definition sessions_typed (m : session_map) : Prop := map_Forall (λ k s, ascii k ∧ RatchetState_typed s) m.
Definition bundles_typed (m : bundle_map) : Prop := map_Forall (λ k b, ascii k ∧ KeyBundle_wf b) m.
Definition x3dh_typed (s : X3DHState) : Prop :=
  opt_typed identity_typed (x3_IdentityKeyPair s) ∧ opt_typed spk_typed (x3_SignedPreKey s) ∧
  map_Forall (λ k o, ascii k ∧ opk_typed o) (x3_OneTimePreKeys s) ∧ in_range 32 (x3_RegistrationID s).

Definition client_typed (c : Client) : Prop :=
  opt_typed identity_typed (cl_x3dhIdentity c) ∧ opt_typed spk_typed (cl_signedPreKey c) ∧
  map_Forall (λ k o, in_range 32 k ∧ opk_typed o) (cl_oneTimePreKeys c) ∧ in_range 32 (cl_registrationID c) ∧
  map_Forall (λ k s, array 20 k ∧ RatchetState_typed s) (cl_ratchetSessions c) ∧
  map_Forall (λ k b, array 20 k ∧ KeyBundle_wf b) (cl_keyBundleCache c).

#[export] Instance RatchetState_typed_dec s : Decision (RatchetState_typed s).
Proof. unfold RatchetState_typed. apply _. Defined.
#[export] Instance opt_typed_dec {A} (P : A → Prop) `{∀ a, Decision (P a)} o : Decision (opt_typed P o).
Proof. destruct o; cbn; apply _. Defined.
#[export] Instance sessions_typed_dec m : Decision (sessions_typed m).
Proof. unfold sessions_typed. apply _. Defined.
#[export] Instance bundles_typed_dec m : Decision (bundles_typed m).
Proof. unfold bundles_typed. apply _. Defined.
#[export] Instance x3dh_typed_dec s : Decision (x3dh_typed s).
Proof. unfold x3dh_typed, identity_typed, spk_typed, opk_typed. apply _. Defined.
#[export] Instance client_typed_dec c : Decision (client_typed c).
Proof. unfold client_typed, identity_typed, spk_typed, opk_typed. apply _. Defined.

(** ** Renaming the keys of a map

    [encode] is injective on the keys that occur; writing the entries one after
    the other, in any order, gives the map back. *)

Section rekey.
Context {K : Type} `{Countable K} {A : Type} (P : K → Prop) (encode : K → gostring) (decode : gostring → option K).
Context (Hdecode : ∀ k, P k → decode (encode k) = Some k).

Definition rekey (m : gmap K A) : gmap gostring A := list_to_map (prod_map encode id <$> map_to_list m).
Definition unkey (entries : list (gostring * A)) (m : gmap K A) : gmap K A :=
  foldl (λ m kv, match decode kv.1 with Some k => <[k := kv.2]> m | None => m end) m entries.

Lemma encode_inj k k' : P k → P k' → encode k = encode k' → k = k'.
Proof using Hdecode. intros Hk Hk' E. apply (f_equal decode) in E. rewrite !Hdecode in E by done. congruence. Qed.

Lemma rekey_NoDup (m : gmap K A) : map_Forall (λ k _, P k) m → NoDup ((prod_map encode id <$> map_to_list m).*1).
Proof using Hdecode.
  intros Hm. rewrite <- list_fmap_compose. assert (fst ∘ prod_map encode (@id A) = encode ∘ fst) as -> by done.
  rewrite list_fmap_compose. apply NoDup_fmap_2_strong; [|apply NoDup_fst_map_to_list].
  intros k k' Hk Hk'. apply list_elem_of_fmap in Hk as ([? x] & -> & Hk). apply list_elem_of_fmap in Hk' as ([? x'] & -> & Hk').
  apply elem_of_map_to_list in Hk, Hk'. apply encode_inj; [by apply (Hm _ x)|by apply (Hm _ x')].
Qed.

Lemma rekey_lookup (m : gmap K A) h x : map_Forall (λ k _, P k) m →
  rekey m !! h = Some x ↔ ∃ k, h = encode k ∧ m !! k = Some x.
Proof using Hdecode.
  intros Hm. unfold rekey. rewrite <- elem_of_list_to_map by by apply rekey_NoDup. rewrite list_elem_of_fmap. split.
  - intros ([k y] & E & Hin). apply elem_of_map_to_list in Hin. exists k. by simplify_eq/=.
  - intros (k & -> & Hk). exists (k, x). split; [done|by apply elem_of_map_to_list].
Qed.

Lemma rekey_insert (m : gmap K A) k x : map_Forall (λ k _, P k) m → P k →
  rekey (<[k := x]> m) = <[encode k := x]> (rekey m).
Proof using Hdecode.
  intros Hm Hk. apply map_eq. intros h. apply option_eq. intros y.
  rewrite rekey_lookup by (by apply map_Forall_insert_2). rewrite lookup_insert_Some, rekey_lookup by done. split.
  - intros (k' & -> & [[-> ->]|[Hne Hl]]%lookup_insert_Some); [by left|]. right. split; [|by exists k'].
    intros E. apply Hne. by apply (encode_inj k k'); [..|exact (Hm k' y Hl)|].
  - intros [[<- ->]|[Hne (k' & -> & Hl)]].
    + exists k. split; [done|apply lookup_insert_eq].
    + exists k'. split; [done|]. rewrite lookup_insert_ne; [done|]. by intros ->.
Qed.

Lemma unkey_insert (entries : list (K * A)) m : Forall (λ kv, P kv.1) entries →
  unkey (prod_map encode id <$> entries) m = foldl (λ m kv, <[kv.1 := kv.2]> m) m entries.
Proof using Hdecode.
  intros HP. revert m. induction HP as [|[k x] entries Hk HP IH]; intros m; [done|]. cbn in *.
  rewrite Hdecode by done. apply IH.
Qed.

Lemma foldl_insert (entries : list (K * A)) : NoDup entries.*1 →
  foldl (λ m kv, <[kv.1 := kv.2]> m) ∅ entries = list_to_map (M := gmap K A) entries.
Proof.
  induction entries as [|[k x] entries IH] using rev_ind; [done|]. rewrite fmap_app, NoDup_app. intros (Hn & Hd & _).
  rewrite foldl_snoc, IH, list_to_map_snoc; [done| |done]. intros Hin. apply (Hd k Hin). by left.
Qed.

Lemma unkey_rekey (m : gmap K A) entries : map_Forall (λ k _, P k) m → entries ≡ₚ map_to_list (rekey m) →
  unkey entries ∅ = m.
Proof using Hdecode.
  intros Hm Hp. unfold rekey in Hp. rewrite map_to_list_to_map in Hp by by apply rekey_NoDup.
  apply Permutation_map_inv in Hp as (l & -> & Hl). symmetry in Hl. change (map (prod_map encode id) l) with (prod_map encode (@id A) <$> l).
  assert (NoDup l.*1) as Hn by (rewrite Hl; apply NoDup_fst_map_to_list).
  rewrite unkey_insert, foldl_insert by (done || rewrite Hl; apply Forall_forall; intros [k x] Hk%elem_of_map_to_list; exact (Hm k x Hk)).
  rewrite (list_to_map_proper l (map_to_list m)) by done. apply list_to_map_to_list.
Qed.

Lemma rekey_Forall (m : gmap K A) (Q : gostring → A → Prop) :
  map_Forall (λ k x, P k ∧ Q (encode k) x) m → map_Forall Q (rekey m).
Proof using Hdecode.
  intros Hm h x Hl. apply rekey_lookup in Hl as (k & -> & Hk); [by apply Hm|]. intros k' x' Hk'. by apply Hm in Hk' as [? _].
Qed.
End rekey.

(** ** Addresses and key numbers *)

Definition hex_address (h : gostring) : option (list Z) :=
  match hex_decode h with Ok b => Some (copy_address b) | _ => None end.
Lemma hex_address_encode a : array 20 a → hex_address (hex_encode a) = Some a.
Proof.
  intros [Hl Hb]. unfold hex_address, copy_address. rewrite hex_decode_encode by done. by rewrite take_app_length'.
Qed.

Lemma number_app ds d : number (ds ++ [d]) = 10 * number ds + (d - 48).
Proof. unfold number. by rewrite foldl_snoc. Qed.


Definition is_digits (l : list Z) : Prop := Forall (λ b, is_digit b = true) l.

Lemma pretty_char_digit d : (d < 10)%N →
  Z.of_nat (Ascii.nat_of_ascii (pretty_N_char d)) = 48 + Z.of_N d.
Proof.
  intros Hd. assert (d ∈ (N.of_nat <$> seq 0 10)) as Hin.
  { apply list_elem_of_fmap. exists (N.to_nat d). split; [lia|]. apply elem_of_seq. lia. }
  clear Hd. revert d Hin. by apply Forall_forall, (bool_decide_unpack (Forall _ _)).
Qed.

Lemma pretty_go_digits x s : is_digits (string_bytes s) →
  is_digits (string_bytes (pretty_N_go x s)) ∧
  number (string_bytes (pretty_N_go x s)) = foldl (λ n d, 10 * n + (d - 48)) (Z.of_N x) (string_bytes s).
Proof.
  revert s. induction (N.lt_wf_0 x) as [x _ IH]; intros s Hs.
  destruct (decide (x = 0)%N) as [->|Hx]; [by rewrite pretty_N_go_0|].
  rewrite pretty_N_go_step by lia. pose proof (N.mod_lt x 10 ltac:(lia)) as Hm.
  pose proof (N.div_mod x 10 ltac:(lia)) as Hdm. set (c := pretty_N_char (x `mod` 10)).
  remember (x `mod` 10)%N as r eqn:Er. remember (x / 10)%N as q eqn:Eq. clear Er.
  assert (Z.of_nat (Ascii.nat_of_ascii c) = 48 + Z.of_N r) as Hc by by apply pretty_char_digit.
  assert (string_bytes (String c s) = (48 + Z.of_N r) :: string_bytes s) as Es by (unfold string_bytes at 1; cbn; by rewrite Hc).
  destruct (IH q ltac:(rewrite Eq; apply N.div_lt; lia) (String c s)) as [Hd ->].
  { rewrite Es. constructor; [|done]. unfold is_digit. apply andb_true_iff. split; apply Z.leb_le; lia. }
  split; [done|]. rewrite Es. cbn [foldl]. f_equal. lia.
Qed.

Lemma pretty_digits z : 0 ≤ z → is_digits (string_bytes (pretty z)) ∧ number (string_bytes (pretty z)) = z ∧
  string_bytes (pretty z) ≠ [].
Proof.
  intros Hz. destruct z as [|p|p]; [by split_and!; [repeat constructor|..]| |lia].
  change (pretty (Z.pos p)) with (pretty_N_go (N.pos p) "").
  destruct (pretty_go_digits (N.pos p) "") as [Hd Hn]; [constructor|]. split_and!; [done|done|].
  intros E. rewrite E in Hn. by vm_compute in Hn.
Qed.

Lemma digits_all l : is_digits l → digits l = l.
Proof. induction 1 as [|b l Hb Hl IH]; [done|]. cbn. by rewrite Hb, IH. Qed.

Lemma strip_digit b l : is_digit b = true → strip_space (b :: l) = None.
Proof.
  intros Hb. unfold strip_space. destruct (filter _ spaces) as [|p ps] eqn:E; [done|]. exfalso.
  assert (p ∈ filter (λ p, take (length p) (b :: l) = p) spaces) as Hp by (rewrite E; left).
  apply list_elem_of_filter in Hp as [Ht Hin].
  assert (forallb (λ p, match p with b :: _ => negb (is_digit b) | [] => false end) spaces = true) as Hall by done.
  rewrite forallb_forall in Hall. apply list_elem_of_In in Hin. specialize (Hall p Hin). cbv beta in Hall.
  destruct p as [|c p]; [done|]. injection Ht as -> _. by rewrite Hb in Hall.
Qed.

Lemma Sscanf_pretty z : in_range 32 z → Sscanf_u32 (string_bytes (pretty z)) = z.
Proof.
  intros [Hz Hb]. destruct (pretty_digits z Hz) as (Hd & Hn & Hne). unfold Sscanf_u32.
  destruct (string_bytes (pretty z)) as [|b l] eqn:E; [done|].
  assert (skip_space (length (b :: l)) (b :: l) = Ok (b :: l)) as ->.
  { apply Forall_cons in Hd as [Hb' _]. cbn [skip_space length]. rewrite strip_digit by done.
    destruct (decide (b = 10)) as [->|Hne10]; [done|]. destruct b as [|p|p]; [done| |done].
    repeat match goal with |- match ?p with _ => _ end = _ => destruct p; try done end. }
  rewrite digits_all, Hn by done. destruct (Z.ltb_spec z (2 ^ 32)); [done|lia].
Qed.

Lemma hex_ascii l : bytes l → ascii (hex_encode l).
Proof.
  intros Hb. unfold ascii, hex_encode. apply Forall_bind. eapply Forall_impl; [exact Hb|]. intros b Hb'.
  pose proof (byte_cases (λ b, (hex_digit (Z.shiftr b 4) <? 128) && (hex_digit (Z.land b 15) <? 128) &&
    (0 <=? hex_digit (Z.shiftr b 4)) && (0 <=? hex_digit (Z.land b 15))) eq_refl b Hb') as Hc.
  cbv beta in Hc. rewrite !andb_true_iff, !Z.ltb_lt, !Z.leb_le in Hc. constructor; [lia|]. constructor; [lia|constructor].
Qed.

Lemma hex_map_rekey {A} (m : gmap (list Z) A) : hex_map m = rekey hex_encode m.
Proof. done. Qed.
Lemma restore_map_unkey {A} (entries : list (gostring * A)) m : restore_map entries m = unkey hex_address entries m.
Proof.
  unfold restore_map, unkey. revert m. induction entries as [|kv entries IH]; intros m; [done|]. cbn.
  rewrite IH. unfold hex_address. by destruct (hex_decode kv.1).
Qed.
Lemma restore_hex {A} (m : gmap (list Z) A) entries :
  map_Forall (λ k _, array 20 k) m → entries ≡ₚ map_to_list (hex_map m) → restore_map entries ∅ = m.
Proof. rewrite restore_map_unkey. apply unkey_rekey, hex_address_encode. Qed.

Lemma scan_decimal (m : opk_map) entries :
  map_Forall (λ k _, in_range 32 k) m → entries ≡ₚ map_to_list (decimal_map m) → scan_opks entries = m.
Proof.
  apply (unkey_rekey (in_range 32) (λ id, string_bytes (pretty id)) (λ s, Some (Sscanf_u32 s))).
  intros k Hk. by rewrite Sscanf_pretty.
Qed.

(** ** What is on disk *)

Section restart.
Context `{RatchetOps} `{Ed25519} `{AesGcm} `{Json X3DHState} `{Json bundle_map} `{Gob session_map}.
Context `{!JsonLaws X3DHState x3dh_typed x3dh_typed} `{!JsonLaws bundle_map bundles_typed bundles_typed}
  `{!GobLaws session_map sessions_typed}.
Implicit Types (d : Disk) (c : Client) (p : Stored) (m : opk_map).

Definition saved_x3dh (d : Disk) (c : Client) (m : opk_map) : Prop :=
  is_Some (cl_x3dhIdentity c) ∧ is_Some (cl_signedPreKey c) ∧ cl_oneTimePreKeys c ⊆ m ∧
  map_Forall (λ k o, in_range 32 k ∧ opk_typed o) m ∧
  ∃ data, d !! x3dh_file = Some data ∧ json_unmarshal data = Ok (x3dh_state_of (with_opks c m)).
Definition saved_sessions (d : Disk) (S : gmap (list Z) RatchetState) : Prop :=
  ∀ seed, LoadAllRatchetSessions (working seed) d = Ok (hex_map S).
Definition saved_bundles (d : Disk) (B : gmap (list Z) KeyBundle) : Prop :=
  match d !! bundles_file with
  | None => B = ∅
  | Some data => json_unmarshal data = Ok (hex_map B)
  end.

(** the disk has the client, with the one-time prekeys [m] of the last time they
    were saved *)
Definition on_disk (p : Stored) (m : opk_map) : Prop :=
  client_typed (st_client p) ∧
  ∃ d, st_disk p = Some d ∧ saved_x3dh d (st_client p) m ∧ saved_sessions d (cl_ratchetSessions (st_client p)) ∧
    saved_bundles d (cl_keyBundleCache (st_client p)).

Lemma sessions_typed_hex (S : gmap (list Z) RatchetState) :
  map_Forall (λ k s, array 20 k ∧ RatchetState_typed s) S → sessions_typed (hex_map S).
Proof.
  intros HS. apply (rekey_Forall (array 20) _ _ hex_address_encode). eapply map_Forall_impl; [exact HS|].
  intros k s [Hk Hs]. split_and!; [done|apply hex_ascii, Hk|done].
Qed.
Lemma bundles_typed_hex (B : gmap (list Z) KeyBundle) :
  map_Forall (λ k b, array 20 k ∧ KeyBundle_wf b) B → bundles_typed (hex_map B).
Proof.
  intros HB. apply (rekey_Forall (array 20) _ _ hex_address_encode). eapply map_Forall_impl; [exact HB|].
  intros k b [Hk Hb]. split_and!; [done|apply hex_ascii, Hk|done].
Qed.

(** saving a session; the other files stay *)
Lemma save_session_spec d S seed addr s :
  saved_sessions d S → array 20 addr → map_Forall (λ k s, array 20 k ∧ RatchetState_typed s) (<[addr := s]> S) →
  map_Forall (λ k _, array 20 k) S →
  ∃ d', SaveRatchetSession (working seed) d addr s = (d', Ok tt) ∧ saved_sessions d' (<[addr := s]> S) ∧
    d' !! x3dh_file = d !! x3dh_file ∧ d' !! bundles_file = d !! bundles_file.
Proof using GobLaws0.
  intros HS Ha Ht Hk. unfold SaveRatchetSession. rewrite HS. unfold saveAllRatchetSessions, write_file. cbn [working io_write io_seed].
  eexists. split; [done|]. split_and!; [|by rewrite lookup_insert_ne..].
  intros seed'. unfold LoadAllRatchetSessions, ReadFile. cbn [working io_read]. rewrite lookup_insert_eq.
  rewrite !hex_map_rekey, <- (rekey_insert (array 20) _ _ hex_address_encode) by done.
  rewrite gob_round; [done|]. by apply sessions_typed_hex.
Qed.

Lemma save_bundles_spec d c seed : client_typed c →
  ∃ d', SaveKeyBundleCache (working seed) d (cl_keyBundleCache c) = (d', Ok tt) ∧ saved_bundles d' (cl_keyBundleCache c) ∧
    d' !! x3dh_file = d !! x3dh_file ∧ d' !! sessions_file = d !! sessions_file.
Proof using JsonLaws1.
  intros (_ & _ & _ & _ & _ & HB). unfold SaveKeyBundleCache. apply bundles_typed_hex in HB.
  destruct (json_total _ HB) as (data & Hj & _). rewrite Hj. cbn [wrap_err]. unfold write_file. cbn [working io_write].
  eexists. split; [done|]. split_and!; [|by rewrite lookup_insert_ne..].
  unfold saved_bundles. rewrite lookup_insert_eq. by eapply json_round.
Qed.

Lemma x3dh_state_typed c : client_typed c → x3dh_typed (x3dh_state_of c).
Proof.
  intros (Hi & Hk & Ho & Hr & _ & _). split_and!; [done|done| |done]. apply (rekey_Forall (in_range 32) _ (λ s, Some (Sscanf_u32 s))).
  - intros k Hk'. by rewrite Sscanf_pretty.
  - eapply map_Forall_impl; [exact Ho|]. intros k o [Hk' Ho']. split_and!; [done|apply decimal_ascii, pretty_decimal|done].
Qed.

Lemma save_x3dh_spec d c seed : client_typed c → is_Some (cl_x3dhIdentity c) → is_Some (cl_signedPreKey c) →
  ∃ d', saveX3DHState (working seed) (Some d) c = (Some d', Ok tt) ∧ saved_x3dh d' c (cl_oneTimePreKeys c) ∧
    d' !! bundles_file = d !! bundles_file ∧ d' !! sessions_file = d !! sessions_file.
Proof using JsonLaws0.
  intros Hc Hsi Hsk. unfold saveX3DHState, SaveX3DHState. pose proof (x3dh_state_typed c Hc) as Ht.
  destruct (json_total _ Ht) as (data & Hj & _). rewrite Hj. cbn [wrap_err]. unfold write_file. cbn [working io_write].
  eexists. split; [done|]. split_and!; [|by rewrite lookup_insert_ne..].
  split_and!; [done|done|done|apply Hc|]. exists data. rewrite lookup_insert_eq. split; [done|].
  rewrite (json_round _ _ Ht Hj). by destruct c.
Qed.

(** ** The operations keep the disk up to date *)

Lemma accept_cases c from msg c' r : InitializeRatchetSession c from msg = (c', r) →
  c' = c ∨ ∃ opks, opks ⊆ cl_oneTimePreKeys c ∧
    (c' = with_opks c opks ∨ ∃ s, cl_ratchetSessions c !! from = None ∧ c' = set_session (with_opks c opks) from s).
Proof.
  unfold InitializeRatchetSession. destruct (cl_x3dhIdentity c) as [identity|]; [|intros [= <- _]; by left].
  destruct (cl_signedPreKey c) as [spk|]; [|intros [= <- _]; by left].
  destruct (cl_ratchetSessions c !! from) eqn:Es; [intros [= <- _]; by left|].
  destruct (X3DHResponder _ _ _ _) as [opks res] eqn:Ex.
  assert (opks ⊆ cl_oneTimePreKeys c) as Hsub.
  { unfold X3DHResponder in Ex. repeat case_match; simplify_eq; try done; apply delete_subseteq. }
  intros E. right. exists opks. split; [done|].
  repeat case_match; simplify_eq; eauto.
Qed.

Lemma accept_consumes c from msg c' : InitializeRatchetSession c from msg = (c', Ok tt) →
  cl_ratchetSessions c !! from = None → im_UsedOneTimePreKeyID msg ≠ 0 →
  cl_oneTimePreKeys c' !! im_UsedOneTimePreKeyID msg = None.
Proof.
  unfold InitializeRatchetSession. intros E Hn Hid. rewrite Hn in E.
  destruct (cl_x3dhIdentity c) as [identity|]; [|done]. destruct (cl_signedPreKey c) as [spk|]; [|done].
  destruct (X3DHResponder _ _ _ _) as [opks res] eqn:Ex. destruct res as [secret| |]; [|done..].
  assert (opks !! im_UsedOneTimePreKeyID msg = None) as Ho.
  { unfold X3DHResponder in Ex. apply Z.eqb_neq in Hid. rewrite Hid in Ex. cbn [negb] in Ex.
    repeat case_match; simplify_eq. apply lookup_delete_eq. }
  cbn [wrap_err] in E. by repeat case_match; simplify_eq.
Qed.

Lemma establish_cases c identity to kb eph send c' r : establish_session c identity to kb eph send = (c', r) →
  c' = c ∨ ∃ s, cl_ratchetSessions c !! to = None ∧ c' = set_session c to s.
Proof.
  unfold establish_session. destruct (cl_ratchetSessions c !! to) eqn:Es; [intros [= <- _]; by left|].
  repeat case_match; intros; simplify_eq; eauto.
Qed.

Definition with_connected (c : Client) (b : bool) : Client :=
  mkClient (cl_Address c) b (cl_x3dhIdentity c) (cl_signedPreKey c) (cl_oneTimePreKeys c) (cl_registrationID c)
    (cl_ratchetSessions c) (cl_keyBundleCache c).

(** one operation that succeeds on a working disk.  Values are Go values: the
    client that results, and the one in between when a session is established,
    are well typed. *)
Inductive stored_step (p : Stored) : Stored → Prop :=
| do_connect b : stored_step p (mkStored (with_connected (st_client p) b) (st_disk p))
| do_initialize seed r nowMs now p' :
    Stored_InitializeX3DH (working seed) p r nowMs now = (p', Ok tt) → stored_step p p'
| do_refill seed threshold rnd p' :
    Stored_RefillOneTimePreKeys (working seed) p threshold rnd = (p', Ok tt) → stored_step p p'
| do_cache seed addr bundle : stored_step p (Stored_CacheKeyBundle (working seed) p addr bundle)
| do_remove seed addr : stored_step p (Stored_RemoveCachedKeyBundle (working seed) p addr)
| do_set seed addr s : array 20 addr → stored_step p (Stored_SetRatchetSession (working seed) p addr s)
| do_accept seed from msg p' r :
    array 20 from → Stored_InitializeRatchetSession (working seed) p from msg = (p', r) → stored_step p p'
| do_send seed1 seed2 to kb pt eph nonce send p' payload :
    array 20 to →
    (∀ identity, cl_x3dhIdentity (st_client p) = Some identity →
       client_typed (establish_session (st_client p) identity to kb eph send).1) →
    Stored_ratchet_message (working seed1) (working seed2) p to kb pt eph nonce send = (p', Ok payload) →
    stored_step p p'
| do_decrypt seed payload from rnd p' pt :
    array 20 from →
    Stored_tryDecryptRatchetMessage (working seed) p payload from rnd = (p', Ok (Some pt)) → stored_step p p'.

Definition typed_step (p p' : Stored) : Prop := stored_step p p' ∧ client_typed (st_client p').

(** a client whose prekeys and sessions alone differ *)
Lemma saved_x3dh_same d d' c c' m :
  saved_x3dh d c m → d' !! x3dh_file = d !! x3dh_file → cl_x3dhIdentity c' = cl_x3dhIdentity c →
  cl_signedPreKey c' = cl_signedPreKey c → cl_registrationID c' = cl_registrationID c →
  cl_oneTimePreKeys c' ⊆ cl_oneTimePreKeys c → saved_x3dh d' c' m.
Proof.
  intros (Hi & Hk & Hm & Ht & data & Hd & Hj) Ed Ei Ek Er Ho. unfold saved_x3dh. rewrite Ei, Ek, Ed.
  split_and!; [done|done|by etrans|done|]. exists data. split; [done|]. rewrite Hj. f_equal.
  unfold x3dh_state_of. cbn. by rewrite Ei, Ek, Er.
Qed.
Lemma saved_sessions_same d d' S : saved_sessions d S → d' !! sessions_file = d !! sessions_file → saved_sessions d' S.
Proof. intros HS E seed. specialize (HS seed). revert HS. unfold LoadAllRatchetSessions, ReadFile. cbn. by rewrite E. Qed.
Lemma saved_bundles_same d d' B : saved_bundles d B → d' !! bundles_file = d !! bundles_file → saved_bundles d' B.
Proof. unfold saved_bundles. by intros HB ->. Qed.

(** the client with one session replaced *)
Lemma keep_session_ok p m seed addr s c' :
  on_disk p m → array 20 addr → client_typed c' → cl_ratchetSessions c' = <[addr := s]> (cl_ratchetSessions (st_client p)) →
  cl_x3dhIdentity c' = cl_x3dhIdentity (st_client p) → cl_signedPreKey c' = cl_signedPreKey (st_client p) →
  cl_registrationID c' = cl_registrationID (st_client p) → cl_oneTimePreKeys c' ⊆ cl_oneTimePreKeys (st_client p) →
  cl_keyBundleCache c' = cl_keyBundleCache (st_client p) →
  on_disk (mkStored c' (keep_session (working seed) (st_disk p) addr s)) m.
Proof using GobLaws0.
  intros (Hc & d & Hd & Hx & HS & HB) Ha Ht Es Ei Ek Er Ho Eb. split; [done|]. rewrite Hd. cbn [st_disk keep_session fmap option_fmap option_map].
  destruct (save_session_spec d _ seed addr s HS Ha) as (d' & E & HS' & Ex & Eb').
  - rewrite <- Es. apply Ht.
  - eapply map_Forall_impl; [apply Hc|]. by intros k x [? _].
  - rewrite E. exists d'. cbn [fst st_client]. rewrite Es, Eb. split_and!; [done| |done|].
    + by eapply saved_x3dh_same.
    + by eapply saved_bundles_same.
Qed.

(** the client with the same sessions and files *)
Lemma keep_nothing_ok p m c' :
  on_disk p m → client_typed c' → cl_ratchetSessions c' = cl_ratchetSessions (st_client p) →
  cl_x3dhIdentity c' = cl_x3dhIdentity (st_client p) → cl_signedPreKey c' = cl_signedPreKey (st_client p) →
  cl_registrationID c' = cl_registrationID (st_client p) → cl_oneTimePreKeys c' ⊆ cl_oneTimePreKeys (st_client p) →
  cl_keyBundleCache c' = cl_keyBundleCache (st_client p) → on_disk (mkStored c' (st_disk p)) m.
Proof.
  intros (Hc & d & Hd & Hx & HS & HB) Ht Es Ei Ek Er Ho Eb. split; [done|]. exists d. cbn [st_client st_disk].
  rewrite Es, Eb. split_and!; [done| |done|done]. by eapply saved_x3dh_same.
Qed.

Lemma keep_x3dh_ok p seed d c' :
  st_disk p = Some d → client_typed c' → is_Some (cl_x3dhIdentity c') → is_Some (cl_signedPreKey c') →
  saved_sessions d (cl_ratchetSessions c') → saved_bundles d (cl_keyBundleCache c') →
  on_disk (mkStored c' (keep_x3dh (working seed) (st_disk p) c')) (cl_oneTimePreKeys c').
Proof using JsonLaws0.
  intros Hd Ht Hi Hk HS HB. split; [done|]. unfold keep_x3dh. rewrite Hd.
  destruct (save_x3dh_spec d c' seed Ht Hi Hk) as (d' & E & Hx & Eb & Es). rewrite E. exists d'. cbn [fst st_disk st_client].
  split_and!; [done|done|by eapply saved_sessions_same|by eapply saved_bundles_same].
Qed.

Lemma keep_bundles_ok p m seed B : let c' := with_bundles (st_client p) B in
  on_disk p m → client_typed c' → on_disk (mkStored c' (keep_bundles (working seed) (st_disk p) c')) m.
Proof using JsonLaws1.
  intros c' (Hc & d & Hd & Hx & HS & HB) Ht. split; [done|]. unfold keep_bundles. rewrite Hd. cbn [fmap option_fmap option_map st_disk st_client].
  destruct (save_bundles_spec d c' seed Ht) as (d' & Es & HB' & Ex & Ess). rewrite Es. exists d'. cbn [fst].
  split_and!; [done|by eapply saved_x3dh_same|by eapply saved_sessions_same|done].
Qed.

Lemma initialized c r nowMs now c' : InitializeX3DH c r nowMs now = (c', Ok tt) →
  is_Some (cl_x3dhIdentity c') ∧ is_Some (cl_signedPreKey c') ∧ cl_ratchetSessions c' = cl_ratchetSessions c ∧
  cl_keyBundleCache c' = cl_keyBundleCache c.
Proof.
  unfold InitializeX3DH. destruct (wrap_err _ (GenerateIdentityKeyPair _ _)) as [identity| |]; [|done..].
  destruct (wrap_err _ (GenerateSignedPreKey _ _ _ _)) as [spk| |]; [|done..].
  destruct (wrap_err _ (GenerateOneTimePreKeys _ _ _)) as [opks| |]; [|done..]. intros E. injection E as <-.
  split_and!; [by eexists|by eexists|done|done].
Qed.

Lemma initialize_ok p seed r nowMs now p' d :
  st_disk p = Some d → saved_sessions d (cl_ratchetSessions (st_client p)) → saved_bundles d (cl_keyBundleCache (st_client p)) →
  Stored_InitializeX3DH (working seed) p r nowMs now = (p', Ok tt) → client_typed (st_client p') →
  on_disk p' (cl_oneTimePreKeys (st_client p')).
Proof using JsonLaws0.
  intros Hd HS HB. unfold Stored_InitializeX3DH. destruct (InitializeX3DH _ _ _ _) as [c' res] eqn:E. intros [= <- ->] Ht.
  apply initialized in E as (Hi & Hk & Es & Eb). rewrite <- Es in HS. rewrite <- Eb in HB. by apply (keep_x3dh_ok p seed d).
Qed.

Lemma fresh_on_disk addr seed r nowMs now p :
  Stored_InitializeX3DH (working seed) (mkStored (NewClient addr) (Some ∅)) r nowMs now = (p, Ok tt) → client_typed (st_client p) →
  on_disk p (cl_oneTimePreKeys (st_client p)).
Proof using JsonLaws0.
  intros E Ht. eapply (initialize_ok (mkStored (NewClient addr) (Some ∅)) _ _ _ _ _ ∅); [done| |by unfold saved_bundles; rewrite lookup_empty|exact E|done]. intros s.
  unfold LoadAllRatchetSessions, ReadFile, hex_map. cbn [working io_read st_client NewClient cl_ratchetSessions].
  by rewrite lookup_empty, map_to_list_empty.
Qed.

Lemma refill_ok p m seed threshold rnd p' :
  on_disk p m → Stored_RefillOneTimePreKeys (working seed) p threshold rnd = (p', Ok tt) → client_typed (st_client p') →
  ∃ m', on_disk p' m'.
Proof using JsonLaws0.
  unfold Stored_RefillOneTimePreKeys. intros Hp. destruct (threshold <=? _) eqn:El; [intros [= <-] _; by exists m|].
  destruct (RefillOneTimePreKeys _ _ _) as [c' res] eqn:E. intros [= <- ->] Ht. destruct Hp as (Hc & d & Hd & Hx & HS & HB).
  unfold RefillOneTimePreKeys in E. rewrite El in E. destruct Hx as (Hi & Hk & _).
  destruct (wrap_err _ _) as [keys| |] in E; [|done..]. injection E as <-.
  eexists. by apply (keep_x3dh_ok p seed d).
Qed.

Lemma accept_ok p m seed from msg p' r :
  on_disk p m → array 20 from → Stored_InitializeRatchetSession (working seed) p from msg = (p', r) →
  client_typed (st_client p') → on_disk p' m.
Proof using GobLaws0.
  unfold Stored_InitializeRatchetSession. intros Hp Ha. destruct (InitializeRatchetSession _ _ _) as [c' res] eqn:E. intros [= <- ->].
  cbn [st_client]. destruct (accept_cases _ _ _ _ _ E) as [->|(opks & Hsub & [->|(s & Hn & ->)])].
  - destruct p as [c d]. intros _. cbn [st_client st_disk]. by destruct (_ !! _).
  - intros Ht. cbn [cl_ratchetSessions with_opks]. destruct (_ !! from); by apply keep_nothing_ok.
  - intros Ht. rewrite Hn. cbn [cl_ratchetSessions set_session with_sessions with_opks]. rewrite lookup_insert_eq.
    by apply keep_session_ok.
Qed.

Lemma send_ok p m seed1 seed2 to kb pt eph nonce send p' payload :
  on_disk p m → array 20 to →
  (∀ identity, cl_x3dhIdentity (st_client p) = Some identity →
     client_typed (establish_session (st_client p) identity to kb eph send).1) →
  Stored_ratchet_message (working seed1) (working seed2) p to kb pt eph nonce send = (p', Ok payload) →
  client_typed (st_client p') → on_disk p' m.
Proof using GobLaws0.
  unfold Stored_ratchet_message. intros Hp Ha Hmid. destruct (ratchet_message _ _ _ _ _ _ _) as [c' res] eqn:E. intros [= <- ->].
  cbn [st_client]. intros Ht. unfold ratchet_message in E. destruct (cl_connected (st_client p)); [cbn [negb] in E|by simplify_eq].
  destruct (cl_x3dhIdentity (st_client p)) as [identity|] eqn:Ei; [|done]. specialize (Hmid identity eq_refl).
  destruct (establish_session _ _ _ _ _ _) as [c1 established] eqn:Eest. cbn [fst] in Hmid.
  destruct established as [session| |]; [|by simplify_eq..].
  destruct (RatchetEncrypt _ _ _) as [session' re]. injection E as <- _. cbn [cl_ratchetSessions set_session with_sessions].
  rewrite lookup_insert_eq. destruct (establish_cases _ _ _ _ _ _ _ _ Eest) as [->|(s & Hn & ->)].
  - destruct (cl_ratchetSessions (st_client p) !! to); by apply (keep_session_ok p m seed2).
  - rewrite Hn. cbn [cl_ratchetSessions set_session with_sessions]. rewrite lookup_insert_eq.
    apply (keep_session_ok (mkStored (set_session (st_client p) to s) (keep_session (working seed1) (st_disk p) to s)) m seed2); try done.
    by apply keep_session_ok.
Qed.

Lemma decrypt_ok p m seed payload from rnd p' pt :
  on_disk p m → array 20 from → Stored_tryDecryptRatchetMessage (working seed) p payload from rnd = (p', Ok (Some pt)) →
  client_typed (st_client p') → on_disk p' m.
Proof using GobLaws0.
  unfold Stored_tryDecryptRatchetMessage. intros Hp Ha. destruct (tryDecryptRatchetMessage _ _ _ _) as [c' res] eqn:E. intros [= <- ->].
  cbn [st_client]. intros Ht. unfold tryDecryptRatchetMessage in E.
  destruct (split_payload _) as [[[header ct]|]| |]; [|by simplify_eq..].
  destruct (cl_ratchetSessions (st_client p) !! from) as [session|] eqn:Es; [|by simplify_eq].
  destruct (RatchetDecrypt _ _ _ _ _) as [session' re]. injection E as <- _. cbn [cl_ratchetSessions set_session with_sessions].
  rewrite lookup_insert_eq. by apply keep_session_ok.
Qed.

Lemma typed_step_ok p p' m : on_disk p m → typed_step p p' → ∃ m', on_disk p' m'.
Proof using All.
  intros Hp [Hs Ht]. destruct Hs.
  - exists m. by apply keep_nothing_ok.
  - destruct Hp as (Hc & d & Hd & Hx & HS & HB). eexists. by eapply initialize_ok.
  - by eapply refill_ok.
  - exists m. by apply keep_bundles_ok.
  - exists m. by apply keep_bundles_ok.
  - exists m. by apply keep_session_ok.
  - exists m. by eapply accept_ok.
  - exists m. by eapply send_ok.
  - exists m. by eapply decrypt_ok.
Qed.

(** ** Loading *)

Section loading.
Context (order_s : list (gostring * RatchetState) → list (gostring * RatchetState))
        (order_b : list (gostring * KeyBundle) → list (gostring * KeyBundle))
        (order_o : list (gostring * OneTimePreKeyPrivate) → list (gostring * OneTimePreKeyPrivate)).
Context (Horder_s : ∀ l, order_s l ≡ₚ l) (Horder_b : ∀ l, order_b l ≡ₚ l) (Horder_o : ∀ l, order_o l ≡ₚ l).

(** the client that a restart makes of what is on disk *)
Definition restarted (addr : list Z) (c : Client) (m : opk_map) : Client :=
  mkClient addr false (cl_x3dhIdentity c) (cl_signedPreKey c) m (cl_registrationID c)
    (cl_ratchetSessions c) (cl_keyBundleCache c).

Lemma load_on_disk p m seed addr : on_disk p m →
  LoadPersistedState order_s order_b order_o (working seed) (st_disk p) (NewClient addr)
  = (restarted addr (st_client p) m, Ok tt).
Proof using Horder_s Horder_b Horder_o.
  intros (Hc & d & Hd & ((i & Hi) & (k & Hk) & Hm & Ht & data & Hdata & Hj) & HS & HB).
  destruct Hc as (_ & _ & _ & _ & Hts & Htb). unfold LoadPersistedState, loadX3DHState, LoadX3DHState, ReadFile. rewrite Hd.
  cbn [working io_read]. rewrite Hdata, Hj. cbn [wrap_err mbind outcome_bind x3_IdentityKeyPair x3_SignedPreKey x3dh_state_of with_opks
    cl_x3dhIdentity cl_signedPreKey cl_oneTimePreKeys cl_registrationID x3_OneTimePreKeys x3_RegistrationID]. rewrite Hi, Hk.
  rewrite (scan_decimal m) by first [apply Horder_o|eapply map_Forall_impl; [exact Ht|by intros ? ? [? _]]].
  unfold load_sessions. rewrite HS. cbn [cl_ratchetSessions NewClient].
  rewrite (restore_hex (cl_ratchetSessions (st_client p))) by first [apply Horder_s|eapply map_Forall_impl; [exact Hts|by intros ? ? [? _]]].
  unfold load_bundles, LoadKeyBundleCache, ReadFile. cbn [working io_read]. unfold restarted. rewrite Hi, Hk. unfold saved_bundles in HB.
  destruct (d !! bundles_file) as [bd|]; [|by rewrite HB].
  rewrite HB. cbn [wrap_err mbind outcome_bind].
  rewrite (restore_hex (cl_keyBundleCache (st_client p))) by first [apply Horder_b|eapply map_Forall_impl; [exact Htb|by intros ? ? [? _]]].
  case_bool_decide as E; [by rewrite E|done].
Qed.

(** C4: A client is created with a storage, makes its keys, and then runs: it connects,
    sends, accepts sessions, caches bundles, refills prekeys.  On a working disk the
    next start gives back its identity, signed prekey, registration number, all
    ratchet sessions and all key bundles, whatever the order of the loops, and at
    least the one-time prekeys it still had. *)
Theorem restart_restores (addr : list Z) (p p' : Stored) (r : x3dh_random) (nowMs now : Z) (seed seed' : nat) :
  Stored_InitializeX3DH (working seed) (mkStored (NewClient addr) (Some ∅)) r nowMs now = (p, Ok tt) →
  client_typed (st_client p) → rtc typed_step p p' →
  ∃ m, cl_oneTimePreKeys (st_client p') ⊆ m ∧
    LoadPersistedState order_s order_b order_o (working seed') (st_disk p') (NewClient addr)
    = (restarted addr (st_client p') m, Ok tt).
Proof using All.
  intros Ei Ht Hrun. assert (on_disk p (cl_oneTimePreKeys (st_client p))) as Hp by (by eapply fresh_on_disk).
  assert (∃ m, on_disk p' m) as [m Hp'].
  { revert Hp. generalize (cl_oneTimePreKeys (st_client p)). clear Ei Ht.
    induction Hrun as [|p p1 p2 Hs _ IH]; intros m Hp; [by eexists|].
    destruct (typed_step_ok _ _ _ Hp Hs) as [m1 Hp1]. by eapply IH. }
  exists m. split; [by destruct Hp' as (_ & d & _ & (_ & _ & Hm & _) & _)|by apply load_on_disk].
Qed.

(** The prekey an initial message used is gone from memory but not from the disk:
    after a restart it is there again. *)
Theorem used_prekey_returns (addr from : list Z) (p p' : Stored) (r : x3dh_random) (nowMs now : Z) (seed seed1 seed2 : nat)
    (msg : InitialMessage) (opk : OneTimePreKeyPrivate) :
  Stored_InitializeX3DH (working seed) (mkStored (NewClient addr) (Some ∅)) r nowMs now = (p, Ok tt) →
  client_typed (st_client p) → array 20 from → im_UsedOneTimePreKeyID msg ≠ 0 →
  cl_oneTimePreKeys (st_client p) !! im_UsedOneTimePreKeyID msg = Some opk →
  Stored_InitializeRatchetSession (working seed1) p from msg = (p', Ok tt) → client_typed (st_client p') →
  cl_oneTimePreKeys (st_client p') !! im_UsedOneTimePreKeyID msg = None ∧
  cl_oneTimePreKeys (LoadPersistedState order_s order_b order_o (working seed2) (st_disk p') (NewClient addr)).1
    !! im_UsedOneTimePreKeyID msg = Some opk.
Proof using All.
  intros Ei Ht Ha Hid Hopk Eacc Ht'. assert (on_disk p (cl_oneTimePreKeys (st_client p))) as Hp by (by eapply fresh_on_disk).
  pose proof (accept_ok _ _ _ _ _ _ _ Hp Ha Eacc Ht') as Hp'. rewrite (load_on_disk _ _ _ _ Hp'). split; [|done].
  assert (cl_ratchetSessions (st_client p) = ∅) as Hs.
  { unfold Stored_InitializeX3DH in Ei. destruct (InitializeX3DH _ _ _ _) as [c res] eqn:E. injection Ei as <- ->.
    cbn [st_client]. by apply initialized in E as (_ & _ & -> & _). }
  unfold Stored_InitializeRatchetSession in Eacc. destruct (InitializeRatchetSession _ _ _) as [c' res] eqn:E.
  injection Eacc as <- ->. cbn [st_client]. eapply accept_consumes; [exact E|by rewrite Hs|done].
Qed.

(** A client that refills its prekeys before it has made its keys saves a state
    without an identity; loading that file panics, at every start. *)
Theorem prekeys_without_identity (addr : list Z) (p : Stored) (threshold : Z) (rnd : Z → option (list Z)) (seed seed' : nat) :
  0 < threshold → Stored_RefillOneTimePreKeys (working seed) (mkStored (NewClient addr) (Some ∅)) threshold rnd = (p, Ok tt) →
  client_typed (st_client p) →
  (LoadPersistedState order_s order_b order_o (working seed') (st_disk p) (NewClient addr)).2 = Panic.
Proof using JsonLaws0.
  intros Hth. unfold Stored_RefillOneTimePreKeys. destruct (threshold <=? _) eqn:El; [apply Z.leb_le in El; cbn [st_client NewClient cl_oneTimePreKeys] in El; rewrite map_size_empty in El; lia|].
  destruct (RefillOneTimePreKeys _ _ _) as [c' res] eqn:E. intros [= <- ->] Ht.
  unfold RefillOneTimePreKeys in E. rewrite El in E.
  destruct (wrap_err _ _) as [keys| |] in E; [|done..]. injection E as <-. cbn [st_client] in Ht.
  unfold keep_x3dh, saveX3DHState, SaveX3DHState. destruct (json_total _ (x3dh_state_typed _ Ht)) as (data & Hj & _).
  cbn [st_disk st_client]. rewrite Hj. cbn [wrap_err]. unfold write_file. cbn [working io_write fst].
  unfold LoadPersistedState, loadX3DHState, LoadX3DHState, ReadFile. cbn [working io_read]. rewrite lookup_insert_eq.
  by rewrite (json_round _ _ (x3dh_state_typed _ Ht) Hj).
Qed.

(** C39: When a write of the sessions file is cut short, all sessions are lost: no
    later save or deletion succeeds, and the next start loads none. *)
Theorem torn_write_loses_sessions (f : io) (d : Disk) (S : session_map) (addr : list Z) (s : RatchetState) (n : nat) (e : string) :
  LoadAllRatchetSessions f d = Ok S → sessions_typed (<[hex_encode addr := s]> S) → io_write f sessions_file = Cut n e →
  (n < length (gob_encode (io_seed f) (<[hex_encode addr := s]> S)))%nat →
  ∃ d' t, SaveRatchetSession f d addr s = (d', Err t) ∧
    ∀ f', io_read f' sessions_file = None →
      ∃ t', LoadAllRatchetSessions f' d' = Err t' ∧
        (∀ addr' s', SaveRatchetSession f' d' addr' s' = (d', Err t')) ∧
        (∀ addr', DeleteRatchetSession f' d' addr' = (d', Err t')) ∧
        ∀ c, load_sessions order_s f' d' c = (c, Ok tt).
Proof using GobLaws0.
  intros Hl Ht Hw Hn. destruct (gob_cut _ _ _ Ht Hn) as [ge Hg]. unfold SaveRatchetSession at 1. rewrite Hl.
  unfold saveAllRatchetSessions, write_file. rewrite Hw. do 2 eexists. split; [done|]. intros f' Hr.
  assert (∃ t', LoadAllRatchetSessions f' (<[sessions_file := take n (gob_encode (io_seed f) (<[hex_encode addr := s]> S))]> d) = Err t')
    as [t' Et].
  { unfold LoadAllRatchetSessions, ReadFile. rewrite Hr, lookup_insert_eq, Hg. cbn. by eexists. }
  exists t'. unfold SaveRatchetSession, DeleteRatchetSession, load_sessions. by rewrite Et.
Qed.

End loading.
End restart.
