(* ===== verification/SampleCodec.v ===== *)
(** * A codec for the witnesses

    The theorems take [encoding/json] and [encoding/gob] as parameters.  Here is
    one concrete codec that has the documented laws, for every countable type: the
    number of a value, one bit to a byte, with an end mark. *)

From S2P Require Import Prelude GoBytes DhtStore SessionStore.

Fixpoint bits (p : positive) : list Z :=
  match p with xH => [2] | xO p => 0 :: bits p | xI p => 1 :: bits p end.
Fixpoint unbits (l : list Z) : option positive :=
  match l with
  | [] => None
  | b :: l' =>
      if b =? 2 then match l' with [] => Some xH | _ => None end
      else if b =? 0 then xO <$> unbits l'
      else if b =? 1 then xI <$> unbits l'
      else None
  end.

Lemma unbits_bits p : unbits (bits p) = Some p.
Proof. induction p as [p IH|p IH|]; cbn; by rewrite ?IH. Qed.
Lemma bits_bytes p : bytes (bits p).
Proof. induction p; constructor; (done || unfold is_byte; lia || constructor). Qed.
Lemma bits_length p : (0 < length (bits p))%nat.
Proof. destruct p; cbn; lia. Qed.
Lemma unbits_cut p n : (n < length (bits p))%nat → unbits (take n (bits p)) = None.
Proof.
  revert n. induction p as [p IH|p IH|]; intros [|n] Hn; try done; cbn in *.
  - by rewrite IH by lia.
  - by rewrite IH by lia.
  - lia.
Qed.

Section codec.
Context {A : Type} `{Countable A} (typed : A → Prop) `{∀ a, Decision (typed a)}.

Definition codec_encode (a : A) : list Z := bits (encode a).
Definition codec_decode (d : list Z) : outcome A :=
  match unbits d ≫= decode with
  | Some a => if decide (typed a) then Ok a else Err "type"
  | None => Err "unexpected EOF"
  end.

Lemma codec_round a : typed a → codec_decode (codec_encode a) = Ok a.
Proof.
  intros Ha. unfold codec_decode, codec_encode. rewrite unbits_bits. cbn [mbind option_bind]. rewrite decode_encode.
  by rewrite decide_True.
Qed.
Lemma codec_no_panic d : codec_decode d ≠ Panic.
Proof. unfold codec_decode. by repeat case_match. Qed.

Definition codec_json : Json A := {| json_marshal a := Ok (codec_encode a); json_unmarshal := codec_decode |}.
Lemma codec_json_laws : @JsonLaws A codec_json typed typed.
Proof.
  split.
  - apply codec_no_panic.
  - intros d a. cbn. unfold codec_decode. repeat case_match; naive_solver.
  - intros a _. exists (codec_encode a). split; [done|apply bits_bytes].
  - intros a d Ha E. injection E as <-. by apply codec_round.
Qed.

Definition codec_gob : Gob A := {| gob_encode _ a := codec_encode a; gob_decode := codec_decode |}.
Lemma codec_gob_laws : @GobLaws A codec_gob typed.
Proof.
  split.
  - apply codec_no_panic.
  - intros seed a Ha. by apply codec_round.
  - intros seed a n Ha Hn. exists "unexpected EOF"%string. cbn in *. unfold codec_decode, codec_encode in *.
    by rewrite unbits_cut.
Qed.
End codec.
