(* ===== verification/SessionStoreWitness.v ===== *)
(** * Witnesses for session storage *)

From S2P Require Import Prelude GoBytes NodeID Wire Ratchet Ed25519 X3DH Aes DhtStore DhtSample RatchetProofs Session SessionProofs SessionStore SessionStoreProofs SampleCodec.

Module StoreSample.
#[global] Instance opkp_eq_dec : EqDecision OneTimePreKeyPrivate.
Proof. solve_decision. Defined.
#[global] Instance opkp_countable : Countable OneTimePreKeyPrivate :=
  inj_countable' (λ k, (opkp_KeyID k, opkp_PublicKey k, opkp_PrivateKey k))
    (λ t, mkOneTimePreKeyPrivate t.1.1 t.1.2 t.2) ltac:(by intros []).
#[global] Instance spkp_eq_dec : EqDecision SignedPreKeyPrivate.
Proof. solve_decision. Defined.
#[global] Instance spkp_countable : Countable SignedPreKeyPrivate :=
  inj_countable' (λ k, (spkp_KeyID k, spkp_PublicKey k, spkp_PrivateKey k, spkp_Signature k, spkp_Timestamp k))
    (λ t, mkSignedPreKeyPrivate t.1.1.1.1 t.1.1.1.2 t.1.1.2 t.1.2 t.2) ltac:(by intros []).
#[global] Instance identity_eq_dec : EqDecision IdentityKeyPair.
Proof. solve_decision. Defined.
#[global] Instance identity_countable : Countable IdentityKeyPair :=
  inj_countable' (λ k, (ik_PublicKey k, ik_PrivateKey k, ik_DHPublic k, ik_DHPrivate k))
    (λ t, mkIdentity t.1.1.1 t.1.1.2 t.1.2 t.2) ltac:(by intros []).
#[global] Instance x3dh_state_eq_dec : EqDecision X3DHState.
Proof. solve_decision. Defined.
#[global] Instance x3dh_state_countable : Countable X3DHState :=
  inj_countable' (λ s, (x3_IdentityKeyPair s, x3_SignedPreKey s, x3_OneTimePreKeys s, x3_RegistrationID s))
    (λ t, mkX3DHState t.1.1.1 t.1.1.2 t.1.2 t.2) ltac:(by intros []).
#[global] Instance opk_eq_dec : EqDecision OneTimePreKey.
Proof. solve_decision. Defined.
#[global] Instance opk_countable : Countable OneTimePreKey :=
  inj_countable' (λ k, (opk_KeyID k, opk_PublicKey k)) (λ t, mkOneTimePreKey t.1 t.2) ltac:(by intros []).
#[global] Instance spk_eq_dec : EqDecision SignedPreKey.
Proof. solve_decision. Defined.
#[global] Instance spk_countable : Countable SignedPreKey :=
  inj_countable' (λ k, (spk_KeyID k, spk_PublicKey k, spk_Signature k, spk_Timestamp k))
    (λ t, mkSignedPreKey t.1.1.1 t.1.1.2 t.1.2 t.2) ltac:(by intros []).
#[global] Instance bundle_eq_dec : EqDecision KeyBundle.
Proof. solve_decision. Defined.
#[global] Instance bundle_countable : Countable KeyBundle :=
  inj_countable' (λ k, (kb_Address k, kb_IdentityKey k, kb_SignedPreKey k, kb_OneTimePreKeys k, kb_RegistrationID k))
    (λ t, mkKeyBundle t.1.1.1.1 t.1.1.1.2 t.1.1.2 t.1.2 t.2) ltac:(by intros []).
#[global] Instance ratchet_eq_dec : EqDecision RatchetState.
Proof. solve_decision. Defined.
#[global] Instance ratchet_countable : Countable RatchetState :=
  inj_countable' (λ s, ((RootKey s, SendingChainKey s, SendingMsgNum s, ReceivingChainKey s),
      (ReceivingMsgNum s, DHSendingPrivate s, DHSendingPublic s, DHReceivingPublic s),
      (PreviousChainLen s, SkippedMessageKeys s, LocalAddress s, RemoteAddress s)))
    (λ '((a, b, c, d), (e, f, g, h), (i, j, k, l)), mkRatchetState a b c d e f g h i j k l) ltac:(by intros []).

#[export] Instance x3dh_json : Json X3DHState := codec_json x3dh_typed.
#[export] Instance x3dh_json_laws : JsonLaws X3DHState x3dh_typed x3dh_typed := codec_json_laws x3dh_typed.
#[export] Instance bundles_json : Json bundle_map := codec_json bundles_typed.
#[export] Instance bundles_json_laws : JsonLaws bundle_map bundles_typed bundles_typed := codec_json_laws bundles_typed.
#[export] Instance sessions_gob : Gob session_map := codec_gob sessions_typed.
#[export] Instance sessions_gob_laws : GobLaws session_map sessions_typed := codec_gob_laws sessions_typed.

Definition session : RatchetState :=
  mkRatchetState (replicate 32 1) (replicate 32 2) 3 (replicate 32 4) 5 (replicate 32 6) (replicate 32 7) (replicate 32 8) 9
    {[(replicate 32 10, 11) := replicate 32 12]} (replicate 20 1) (replicate 20 2).
Definition address : list Z := replicate 20 1.
Definition peer : list Z := replicate 20 2.
End StoreSample.

Section witnesses.
#[local] Existing Instances Toy.ops Toy.laws sample_crypto sample_crypto_laws sample_aes sample_aes_laws.
#[local] Existing Instances StoreSample.x3dh_json StoreSample.bundles_json StoreSample.sessions_gob.
Import StoreSample SessionSample.

Definition started : Stored := (Stored_InitializeX3DH (working 0) (mkStored (NewClient address) (Some ∅)) (random 10) 7 7).1.

Lemma stored_initialize f p r nowMs now : (InitializeX3DH (st_client p) r nowMs now).2 = Ok tt →
  Stored_InitializeX3DH f p r nowMs now = ((Stored_InitializeX3DH f p r nowMs now).1, Ok tt) ∧
  st_client (Stored_InitializeX3DH f p r nowMs now).1 = (InitializeX3DH (st_client p) r nowMs now).1.
Proof. unfold Stored_InitializeX3DH. destruct (InitializeX3DH _ _ _ _) as [c res]. cbn [snd]. by intros ->. Qed.

Lemma started_ok : Stored_InitializeX3DH (working 0) (mkStored (NewClient address) (Some ∅)) (random 10) 7 7 = (started, Ok tt) ∧
  client_typed (st_client started).
Proof.
  unfold started. destruct (stored_initialize (working 0) (mkStored (NewClient address) (Some ∅)) (random 10) 7 7) as [E Ec].
  - vm_compute. reflexivity.
  - split; [exact E|]. rewrite Ec. by_decision.
Qed.

Lemma restart_restores_witness :
  let p := Stored_SetRatchetSession (working 1) started peer session in
  ∃ m, cl_oneTimePreKeys (st_client p) ⊆ m ∧
    LoadPersistedState id id id (working 2) (st_disk p) (NewClient address) = (restarted address (st_client p) m, Ok tt).
Proof.
  intros p. destruct started_ok as [E Ht].
  apply (restart_restores id id id (λ l, Permutation_refl l) (λ l, Permutation_refl l) (λ l, Permutation_refl l)
    address started p (random 10) 7 7 0 2 E Ht).
  apply rtc_once. split; [apply do_set; by_decision|]. destruct Ht as (H1 & H2 & H3 & H4 & H5 & H6).
  split_and!; [exact H1|exact H2|exact H3|exact H4| |exact H6].
  apply map_Forall_insert_2; [split; by_decision|exact H5].
Defined.
Lemma stored_accept f p from msg : (InitializeRatchetSession (st_client p) from msg).2 = Ok tt →
  Stored_InitializeRatchetSession f p from msg = ((Stored_InitializeRatchetSession f p from msg).1, Ok tt) ∧
  st_client (Stored_InitializeRatchetSession f p from msg).1 = (InitializeRatchetSession (st_client p) from msg).1.
Proof. unfold Stored_InitializeRatchetSession. destruct (InitializeRatchetSession _ _ _) as [c res]. cbn [snd]. by intros ->. Qed.

Lemma stored_refill f p threshold rnd : Z.of_nat (size (cl_oneTimePreKeys (st_client p))) < threshold →
  (RefillOneTimePreKeys (st_client p) threshold rnd).2 = Ok tt →
  Stored_RefillOneTimePreKeys f p threshold rnd = ((Stored_RefillOneTimePreKeys f p threshold rnd).1, Ok tt) ∧
  st_client (Stored_RefillOneTimePreKeys f p threshold rnd).1 = (RefillOneTimePreKeys (st_client p) threshold rnd).1.
Proof.
  unfold Stored_RefillOneTimePreKeys. intros Hlt. destruct (Z.leb_spec threshold (Z.of_nat (size (cl_oneTimePreKeys (st_client p))))); [lia|].
  destruct (RefillOneTimePreKeys _ _ _) as [c res]. cbn [snd]. by intros ->.
Qed.

Definition initial : InitialMessage := mkInitialMessage peer (Toy.key 3) (Toy.key 4) 1 100 [].
Definition accepted : Stored := (Stored_InitializeRatchetSession (working 1) started peer initial).1.

Lemma used_prekey_returns_witness :
  cl_oneTimePreKeys (st_client accepted) !! 100 = None ∧
  is_Some (cl_oneTimePreKeys (LoadPersistedState id id id (working 2) (st_disk accepted) (NewClient address)).1 !! 100).
Proof.
  destruct started_ok as [E Ht].
  assert (st_client started = (InitializeX3DH (NewClient address) (random 10) 7 7).1) as Ec.
  { exact (proj2 (stored_initialize (working 0) (mkStored (NewClient address) (Some ∅)) (random 10) 7 7 ltac:(vm_compute; reflexivity))). }
  assert (Stored_InitializeRatchetSession (working 1) started peer initial = (accepted, Ok tt) ∧
    st_client accepted = (InitializeRatchetSession (st_client started) peer initial).1) as [Ea Eca].
  { apply stored_accept. rewrite Ec. vm_compute. reflexivity. }
  destruct (cl_oneTimePreKeys (st_client started) !! 100) as [opk|] eqn:Eo.
  - pose proof (used_prekey_returns id id id (λ l, Permutation_refl l) (λ l, Permutation_refl l) (λ l, Permutation_refl l)
      address peer started accepted (random 10) 7 7 0 1 2 initial opk E Ht) as Hw.
    destruct Hw as [Hn Hs]; [by_decision|done|exact Eo|exact Ea|rewrite Eca, Ec; by_decision|].
    split; [exact Hn|]. exists opk. exact Hs.
  - exfalso. rewrite Ec in Eo. by vm_compute in Eo.
Defined.

Lemma torn_write_loses_sessions_witness :
  let f := mkIo (λ _, None) (λ _, Cut 0 "no space left on device") (λ _, None) 0 in
  ∃ d' t, SaveRatchetSession f ∅ peer session = (d', Err t) ∧
    ∀ f', io_read f' sessions_file = None →
      ∃ t', LoadAllRatchetSessions f' d' = Err t' ∧
        (∀ addr' s', SaveRatchetSession f' d' addr' s' = (d', Err t')) ∧
        (∀ addr', DeleteRatchetSession f' d' addr' = (d', Err t')) ∧
        ∀ c, load_sessions id f' d' c = (c, Ok tt).
Proof.
  intros f. apply (torn_write_loses_sessions id f ∅ ∅ peer session 0 "no space left on device").
  - vm_compute. reflexivity.
  - by_decision.
  - reflexivity.
  - apply bits_length.
Defined.

Definition refilled : Stored := (Stored_RefillOneTimePreKeys (working 0) (mkStored (NewClient address) (Some ∅)) 10 (λ i, Some (Toy.key (u8 i)))).1.

Lemma prekeys_without_identity_witness :
  (LoadPersistedState id id id (working 1) (st_disk refilled) (NewClient address)).2 = Panic.
Proof.
  destruct (stored_refill (working 0) (mkStored (NewClient address) (Some ∅)) 10 (λ i, Some (Toy.key (u8 i)))) as [E Ec];
    [vm_compute; reflexivity|vm_compute; reflexivity|].
  apply (prekeys_without_identity id id id address refilled 10 (λ i, Some (Toy.key (u8 i))) 0 1).
  - reflexivity.
  - exact E.
  - unfold refilled. rewrite Ec. by_decision.
Defined.
End witnesses.
