(* ===== verification/RestartProofs.v ===== *)
(** * What a restart does not give back

    The numbers of the messages sent and received, the buffer and the set of
    received numbers are in memory only ([NewClient] of client.go makes empty
    maps; [LoadPersistedState] does not touch them). *)

From S2P Require Import Prelude GoBytes Wire Inbox InboxProofs.

Section restart_order.
Context (ep : Endpoint) (clock : DirectMessage → Z * list Z).

Lemma nothing_new (log log' ds all : list DirectMessage) :
  (∀ from, in_order (by_peer from log) (by_peer from ds)) →
  (∀ from, in_order (by_peer from (log ++ log')) (by_peer from (ds ++ all))) →
  (∀ from n, arrival (by_peer from (log ++ log')) n = arrival (by_peer from log) n) → all = [].
Proof.
  intros H1 H2 Ha. destruct all as [|m all]; [done|]. exfalso.
  assert (by_peer (dm_From m) (ds ++ m :: all) = by_peer (dm_From m) ds) as E.
  { apply (in_order_unique (by_peer (dm_From m) log)); [|apply H1]. destruct (H2 (dm_From m)) as [Hd Hn].
    split; [|by rewrite <- Ha]. intros i m' Hi. rewrite <- Ha. by apply Hd. }
  apply (f_equal length) in E. rewrite by_peer_app, length_app in E. unfold by_peer in E at 2.
  rewrite filter_cons_True in E by done. cbn in E. lia.
Qed.

Lemma send_all_from sender receiver seqs items n : default 0 (seqs !! receiver) = n → 0 ≤ n → n + len items ≤ 2 ^ 64 →
  (∀ m, m ∈ send_all sender receiver seqs items → dm_From m = sender ∧ n ≤ dm_SequenceNumber m < n + len items) ∧
  len (send_all sender receiver seqs items) = len items.
Proof.
  intros Hn H0 Hb. assert (len (send_all sender receiver seqs items) = len items) as El.
  { clear. unfold len. f_equal. revert seqs. induction items as [|[[t ty] c] items IH]; intros seqs; [done|]. cbn. by rewrite IH. }
  split; [|done]. intros m [i Hi]%list_elem_of_lookup.
  destruct (send_all_numbers sender receiver items seqs n i m Hn H0 Hb Hi) as [-> ->]. apply lookup_lt_Some in Hi.
  unfold len in *. split; [done|lia].
Qed.

Lemma stream_all_in_order sender receiver items : len items ≤ 2 ^ 64 →
  in_order (send_all sender receiver ∅ items) (send_all sender receiver ∅ items).
Proof.
  intros Hb. set (l := send_all sender receiver ∅ items). split.
  - intros i m Hi. destruct (stream_numbers _ _ _ _ _ Hb Hi) as [Hn _].
    assert (is_Some (arrival l (Z.of_nat i))) as [m' Hm'].
    { destruct (arrival l (Z.of_nat i)) eqn:E; [done|]. exfalso. apply (arrival_none _ _ E m); [|done]. by eapply list_elem_of_lookup_2. }
    rewrite Hm'. f_equal. apply (stream_arrival sender receiver items l) in Hm' as [Hl _]; [|done|done].
    rewrite Nat2Z.id in Hl. fold l in Hl. congruence.
  - destruct (arrival l (len l)) as [m|] eqn:E; [|done]. apply (stream_arrival sender receiver items l) in E as [E _]; [|done|done].
    apply lookup_lt_Some in E. fold l in E. unfold len in E. lia.
Qed.

Lemma numbers_nonneg (l : list DirectMessage) sender lo hi :
  (∀ m, m ∈ l → dm_From m = sender ∧ lo ≤ dm_SequenceNumber m < hi) → 0 ≤ lo → Forall (λ m, 0 ≤ dm_SequenceNumber m) l.
Proof. intros Hl H0. apply Forall_forall. intros m [_ Hm]%Hl. lia. Qed.

(** a whole stream is delivered *)
Lemma whole_stream sender receiver items : len items < 2 ^ 64 → let l := send_all sender receiver ∅ items in
  ∃ ib, handle_all ep clock empty_inbox l = Some (ib, l ≫= deliverMessage ep clock) ∧
    ∀ from, holds ib from (by_peer from l) (by_peer from l).
Proof.
  intros Hlen l. pose proof (len_nonneg items).
  destruct (send_all_from sender receiver ∅ items 0) as [Hf El]; [by rewrite lookup_empty|lia|lia|]. fold l in Hf, El.
  destruct (handle_all_spec ep clock l empty_inbox [] []) as (ib & all & Ha & Hh);
    [intros; apply holds_empty|by eapply numbers_nonneg|cbn; lia|].
  exists ib. cbn [app] in Hh. assert (all = l) as ->; [|by rewrite Ha].
  assert (by_peer sender l = l) as Hmine by (apply by_peer_all; intros m Hm; by apply Hf).
  assert (by_peer sender all = l) as E.
  { eapply (in_order_unique l); [|apply stream_all_in_order; lia]. rewrite <- Hmine at 1. eapply holds_in_order, Hh. }
  rewrite <- E. symmetry. apply by_peer_all. intros m Hm. destruct (decide (dm_From m = sender)) as [|Hne]; [done|exfalso].
  pose proof (holds_in_order _ _ _ _ (Hh (dm_From m))) as Ho.
  rewrite (by_peer_none (dm_From m) sender l) in Ho by (done || intros m' Hm'; by apply Hf).
  assert (by_peer (dm_From m) all = []) as E0 by (by eapply in_order_unique; [exact Ho|]).
  assert (m ∈ by_peer (dm_From m) all) as Hin by (by apply list_elem_of_filter). rewrite E0 in Hin. by apply not_elem_of_nil in Hin.
Qed.

(** numbers that were there before are dropped *)
Lemma repeated_dropped ib sender receiver items items' :
  len items + len items' < 2 ^ 64 → len items' ≤ len items →
  (∀ from, holds ib from (by_peer from (send_all sender receiver ∅ items)) (by_peer from (send_all sender receiver ∅ items))) →
  ∃ ib', handle_all ep clock ib (send_all sender receiver ∅ items') = Some (ib', []).
Proof.
  intros Hlen Hle Hh. pose proof (len_nonneg items'). pose proof (len_nonneg items).
  destruct (send_all_from sender receiver ∅ items 0) as [Hf El]; [by rewrite lookup_empty|lia|lia|].
  destruct (send_all_from sender receiver ∅ items' 0) as [Hf' El']; [by rewrite lookup_empty|lia|lia|].
  set (l := send_all sender receiver ∅ items) in *. set (l' := send_all sender receiver ∅ items') in *.
  destruct (handle_all_spec ep clock l' ib l l) as (ib' & all' & Ha' & Hh');
    [exact Hh|by eapply numbers_nonneg|rewrite len_app; lia|].
  exists ib'. rewrite Ha', (nothing_new l l' l all'); [done| | |].
  - intros from. eapply holds_in_order, Hh.
  - intros from. eapply holds_in_order, Hh'.
  - intros from k. rewrite by_peer_app, arrival_app. destruct (arrival (by_peer from l) k) eqn:E; [done|].
    destruct (arrival (by_peer from l') k) as [m|] eqn:E'; [|done]. exfalso.
    apply arrival_elem in E' as [[Hfrom Hin]%list_elem_of_filter <-]. destruct (Hf' m Hin) as [Hs Hr]. subst from.
    rewrite Hs, (by_peer_all sender l) in E by (intros m' Hm'; by apply Hf).
    destruct (lookup_lt_is_Some_2 l (Z.to_nat (dm_SequenceNumber m))) as [m0 Hm0]; [unfold len in *; lia|].
    destruct (stream_numbers sender receiver items _ m0 ltac:(lia) Hm0) as [Hn0 _].
    apply (arrival_none _ _ E m0); [by eapply list_elem_of_lookup_2|lia].
Qed.

(** without number 0 nothing is delivered *)
Lemma later_numbers_wait sender receiver seqs items n :
  seqs !! receiver = Some n → 0 < n → n + len items ≤ 2 ^ 64 → len items < 2 ^ 64 →
  ∃ ib, handle_all ep clock empty_inbox (send_all sender receiver seqs items) = Some (ib, []).
Proof.
  intros Hn Hpos Hb Hlen. destruct (send_all_from sender receiver seqs items n) as [Hfn Eln]; [by rewrite Hn|lia|lia|].
  set (l := send_all sender receiver seqs items) in *.
  destruct (handle_all_spec ep clock l empty_inbox [] []) as (ib & all & Ha & Hh);
    [intros; apply holds_empty|eapply numbers_nonneg; [exact Hfn|lia]|cbn; lia|].
  exists ib. rewrite Ha. destruct all as [|m all]; [done|exfalso].
  pose proof (holds_in_order _ _ _ _ (Hh (dm_From m))) as [Ho _]. cbn [app] in Ho.
  assert (by_peer (dm_From m) (m :: all) !! 0%nat = Some m) as E0 by (unfold by_peer; by rewrite filter_cons_True).
  apply Ho, arrival_elem in E0 as [[_ Hin]%list_elem_of_filter E0]. apply Hfn in Hin as [_ Hin]. lia.
Qed.

(** C28: A sender that starts again numbers its messages from 0: a receiver that went on
    drops as many of them as it had received before.  A receiver that starts again
    waits for number 0: of a sender that went on it delivers nothing. *)
Theorem restart_breaks_ordering (sender receiver : list Z) (items items' : list (Z * Z * list Z)) (seqs : gmap (list Z) Z) (n : Z) :
  len items + len items' < 2 ^ 64 → len items' ≤ len items →
  seqs !! receiver = Some n → 0 < n → n + len items' ≤ 2 ^ 64 →
  (∃ ib ib', handle_all ep clock empty_inbox (send_all sender receiver ∅ items)
               = Some (ib, send_all sender receiver ∅ items ≫= deliverMessage ep clock) ∧
             handle_all ep clock ib (send_all sender receiver ∅ items') = Some (ib', [])) ∧
  ∃ ib, handle_all ep clock empty_inbox (send_all sender receiver seqs items') = Some (ib, []).
Proof.
  intros Hlen Hle Hn Hpos Hb. pose proof (len_nonneg items'). split; [|eapply later_numbers_wait; [done..|lia]].
  destruct (whole_stream sender receiver items) as (ib & Ha & Hh); [lia|].
  destruct (repeated_dropped ib sender receiver items items' Hlen Hle Hh) as [ib' Ha']. by exists ib, ib'.
Qed.

End restart_order.

Lemma restart_breaks_ordering_witness :
  let items := InboxSample.items in
  (∃ ib ib', handle_all InboxSample.ep InboxSample.clock empty_inbox (send_all (InboxSample.addr 1) (InboxSample.addr 9) ∅ items)
               = Some (ib, send_all (InboxSample.addr 1) (InboxSample.addr 9) ∅ items ≫= deliverMessage InboxSample.ep InboxSample.clock) ∧
             handle_all InboxSample.ep InboxSample.clock ib (send_all (InboxSample.addr 1) (InboxSample.addr 9) ∅ (take 3 items)) = Some (ib', [])) ∧
  ∃ ib, handle_all InboxSample.ep InboxSample.clock empty_inbox
    (send_all (InboxSample.addr 1) (InboxSample.addr 9) {[InboxSample.addr 9 := 5]} (take 3 items)) = Some (ib, []).
Proof.
  apply (restart_breaks_ordering InboxSample.ep InboxSample.clock (InboxSample.addr 1) (InboxSample.addr 9) InboxSample.items
    (take 3 InboxSample.items) {[InboxSample.addr 9 := 5]} 5); first [by_decision|reflexivity|vm_compute; congruence].
Defined.
