(* ===== verification/MessageDb.v ===== *)
(** * The message database: pkg/storage/database.go, messages.go, contacts.go,
    conversations.go, helpers.go

    The SQLite tables are data: the messages in the order of their rows, contacts
    and conversations by their primary keys.  A statement may fail ([Some e]); a
    failed statement changes nothing.  The loops over result rows do not look at
    [rows.Err()]: [read] is the number of rows that came before the iteration
    stopped, if it stopped early.  SQL leaves the order of rows with equal sort
    keys open: the [ORDER BY] clauses are parameters.  Foreign keys are not
    enforced (SQLite's default), and the column created_at is never read. *)

From S2P Require Import Prelude GoBytes NodeID Wire Ratchet Aes DhtStore Inbox.

(** ** Tables *)

Record MessageRow := mkMessageRow {
  mr_id : Z; mr_conversation_id : gostring; mr_message_id : gostring; mr_from_address : gostring;
  mr_to_address : gostring; mr_content : list Z; mr_content_type : Z; mr_timestamp : Z; mr_status : string;
  mr_is_outgoing : Z; mr_mesh_chunk_id : Z; mr_encryption_key : list Z; mr_reply_to_id : gostring }.

Record DB_Contact := mkContact {
  co_Address : gostring; co_Username : gostring; co_Bio : gostring; co_AvatarChunkID : Z; co_AvatarKey : list Z;
  co_PublicKey : list Z; co_AddedAt : Z; co_LastSeen : Z; co_IsBlocked : bool; co_IsFavorite : bool }.
Record ContactRow := mkContactRow {
  cr_username : gostring; cr_bio : gostring; cr_avatar_chunk_id : Z; cr_avatar_key : list Z; cr_public_key : list Z;
  cr_added_at : Z; cr_last_seen : Z; cr_is_blocked : Z; cr_is_favorite : Z }.

Record Conversation := mkConversation {
  cv_ID : gostring; cv_ContactAddress : gostring; cv_LastMessageID : gostring; cv_LastMessage : gostring;
  cv_LastTimestamp : Z; cv_UnreadCount : Z; cv_IsMuted : bool; cv_IsPinned : bool }.
Record ConversationRow := mkConversationRow {
  vr_contact_address : gostring; vr_last_message_id : gostring; vr_last_message : gostring;
  vr_last_timestamp : Z; vr_unread_count : Z; vr_is_muted : Z; vr_is_pinned : Z }.

(** [t_sequence]: the last number AUTOINCREMENT gave out *)
Record Tables := mkTables {
  t_messages : list MessageRow; t_sequence : Z;
  t_contacts : gmap gostring ContactRow; t_conversations : gmap gostring ConversationRow }.
Record MessageDB := mkMessageDB { db_tables : Tables; db_encryptionKey : list Z }.

Definition with_messages (db : MessageDB) (rows : list MessageRow) (seq : Z) : MessageDB :=
  mkMessageDB (mkTables rows seq (t_contacts (db_tables db)) (t_conversations (db_tables db))) (db_encryptionKey db).
Definition with_contacts (db : MessageDB) (m : gmap gostring ContactRow) : MessageDB :=
  mkMessageDB (mkTables (t_messages (db_tables db)) (t_sequence (db_tables db)) m (t_conversations (db_tables db)))
    (db_encryptionKey db).
Definition with_conversations (db : MessageDB) (m : gmap gostring ConversationRow) : MessageDB :=
  mkMessageDB (mkTables (t_messages (db_tables db)) (t_sequence (db_tables db)) (t_contacts (db_tables db)) m)
    (db_encryptionKey db).

(** ** helpers.go *)

Definition boolToInt (b : bool) : Z := if b then 1 else 0.
Definition intToBool (i : Z) : bool := negb (i =? 0).
Definition getOtherParty (msg : StoredMessage) : gostring :=
  if sm_IsOutgoing msg then sm_ToAddress msg else sm_FromAddress msg.

Definition str_eqb (a b : gostring) : bool := bool_decide (a = b).
(** [for i := 0; i <= len(s)-len(substr); i++]; [n] is the number of positions left *)
Fixpoint containsHelper (n : nat) (s substr : gostring) : bool :=
  match n with
  | O => false
  | S n' => if str_eqb (take (length substr) s) substr then true else containsHelper n' (drop 1 s) substr
  end.
Definition text_contains (s substr : gostring) : bool :=
  (len substr <=? len s) &&
  (str_eqb s substr ||
   ((len substr <? len s) &&
    (str_eqb (take (length substr) s) substr || str_eqb (drop (length s - length substr) s) substr ||
     containsHelper (length s - length substr + 1) s substr))).

(** ** database.go *)

Definition ErrNotFound : string := "not found".

Section database.
Context `{RatchetOps} `{AesGcm}.

Definition deriveKey (password : gostring) : list Z := sha256 password.

(** the tables of the file; [opened] and the two statements may fail *)
Definition NewMessageDB (file : option Tables) (password : gostring) (opened wal schema : option string)
  : outcome MessageDB :=
  match opened, wal, schema with
  | Some e, _, _ => Err ("failed to open database: " +:+ e)
  | None, Some e, _ => Err ("failed to enable WAL mode: " +:+ e)
  | None, None, Some e => Err ("failed to create schema: " +:+ e)
  | None, None, None => Ok (mkMessageDB (default (mkTables [] 0 ∅ ∅) file) (deriveKey password))
  end.

(** database/sql refuses a uint64 of 2^63 or more *)
Definition sql_uint64 (arg : Z) (x : Z) : option string :=
  if x <? 2 ^ 63 then None
  else Some ("sql: converting argument $" +:+ pretty arg +:+ " type: uint64 values with high bit set are not supported").

(** ** conversations.go *)

Definition message_preview (content : list Z) : gostring :=
  if 100 <? len content then take 100 content ++ string_bytes "..." else content.

(** [INSERT ... ON CONFLICT(id) DO UPDATE] *)
Definition upsert_conversation (old : option ConversationRow) (msg : StoredMessage) : ConversationRow :=
  let preview := message_preview (sm_Content msg) in
  match old with
  | None => mkConversationRow (getOtherParty msg) (sm_MessageID msg) preview (sm_Timestamp msg) 0 0 0
  | Some old =>
      mkConversationRow (vr_contact_address old) (sm_MessageID msg) preview (sm_Timestamp msg)
        (if negb (str_eqb (sm_MessageID msg) (vr_last_message_id old)) && (boolToInt (sm_IsOutgoing msg) =? 0)
         then vr_unread_count old + 1 else vr_unread_count old)
        (vr_is_muted old) (vr_is_pinned old)
  end.
Definition updateConversation (q : option string) (db : MessageDB) (msg : StoredMessage) : MessageDB * outcome unit :=
  match q with
  | Some e => (db, Err e)
  | None =>
      let id := sm_ConversationID msg in
      let t := t_conversations (db_tables db) in
      (with_conversations db (<[id := upsert_conversation (t !! id) msg]> t), Ok tt)
  end.

Definition conversation_of (kv : gostring * ConversationRow) : Conversation :=
  let r := kv.2 in
  mkConversation kv.1 (vr_contact_address r) (vr_last_message_id r) (vr_last_message r) (vr_last_timestamp r)
    (vr_unread_count r) (intToBool (vr_is_muted r)) (intToBool (vr_is_pinned r)).

(** the rows that are read: all, or the first [n] *)
Definition rows_read {A} (read : option nat) (rows : list A) : list A :=
  match read with None => rows | Some n => take n rows end.

(** [by_activity]: ORDER BY is_pinned DESC, last_timestamp DESC *)
Definition GetConversations (by_activity : list (gostring * ConversationRow) → list (gostring * ConversationRow))
  (q : option string) (read : option nat) (db : MessageDB) : outcome (list Conversation) :=
  match q with
  | Some e => Err e
  | None => Ok (conversation_of <$> rows_read read (by_activity (map_to_list (t_conversations (db_tables db)))))
  end.

Definition mark_read (r : ConversationRow) : ConversationRow :=
  mkConversationRow (vr_contact_address r) (vr_last_message_id r) (vr_last_message r) (vr_last_timestamp r) 0
    (vr_is_muted r) (vr_is_pinned r).
Definition MarkConversationRead (q : option string) (db : MessageDB) (conversationID : gostring) : MessageDB * outcome unit :=
  match q with
  | Some e => (db, Err e)
  | None => (with_conversations db (alter mark_read conversationID (t_conversations (db_tables db))), Ok tt)
  end.

(** ** messages.go *)

(** the values that one [SaveMessage] draws and the errors of its two statements *)
Record save_env := mkSaveEnv {
  se_nonce : option (list Z); se_key_nonce : option (list Z); se_insert : option string; se_update : option string }.

Definition set_id (msg : StoredMessage) (id : Z) : StoredMessage :=
  mkStoredMessage id (sm_ConversationID msg) (sm_MessageID msg) (sm_FromAddress msg) (sm_ToAddress msg) (sm_Content msg)
    (sm_ContentType msg) (sm_Timestamp msg) (sm_Status msg) (sm_IsOutgoing msg) (sm_MeshChunkID msg) (sm_EncryptionKey msg)
    (sm_ReplyToID msg).

Definition encrypt_fields (env : save_env) (key : list Z) (msg : StoredMessage) : outcome (list Z * list Z) :=
  encryptedContent ← wrap_err "failed to encrypt content: " (AESEncrypt (se_nonce env) (sm_Content msg) key);
  encryptedMeshKey ←
    (if 0 <? len (sm_EncryptionKey msg)
     then wrap_err "failed to encrypt mesh key: " (AESEncrypt (se_key_nonce env) (sm_EncryptionKey msg) key)
     else Ok []);
  Ok (encryptedContent, encryptedMeshKey).

(** the row of a message with the number [id] *)
Definition message_row (id : Z) (msg : StoredMessage) (content meshKey : list Z) : MessageRow :=
  mkMessageRow id (sm_ConversationID msg) (sm_MessageID msg) (sm_FromAddress msg) (sm_ToAddress msg) content
    (sm_ContentType msg) (sm_Timestamp msg) (sm_Status msg) (boolToInt (sm_IsOutgoing msg)) (sm_MeshChunkID msg) meshKey
    (sm_ReplyToID msg).

Definition insert_message (q : option string) (db : MessageDB) (msg : StoredMessage) (content meshKey : list Z)
  : MessageDB * outcome Z :=
  match q, sql_uint64 10 (sm_MeshChunkID msg) with
  | Some e, _ | None, Some e => (db, Err e)
  | None, None =>
      if bool_decide (sm_MessageID msg ∈ mr_message_id <$> t_messages (db_tables db))
      then (db, Err "UNIQUE constraint failed: messages.message_id")
      else
        let id := t_sequence (db_tables db) + 1 in
        (with_messages db (t_messages (db_tables db) ++ [message_row id msg content meshKey]) id, Ok id)
  end.

(** also the message, whose ID is set once the row is in *)
Definition DB_SaveMessage (env : save_env) (db : MessageDB) (msg : StoredMessage) : MessageDB * StoredMessage * outcome unit :=
  match encrypt_fields env (db_encryptionKey db) msg with
  | Err e => (db, msg, Err e)
  | Panic => (db, msg, Panic)
  | Ok (content, meshKey) =>
      match insert_message (se_insert env) db msg content meshKey with
      | (db, Ok id) =>
          let msg := set_id msg id in
          let '(db, r) := updateConversation (se_update env) db msg in
          (db, msg, wrap_err "failed to update conversation: " r)
      | (db, Err e) => (db, msg, Err ("failed to save message: " +:+ e))
      | (db, Panic) => (db, msg, Panic)
      end
  end.

Definition message_of (row : MessageRow) (content meshKey : list Z) : StoredMessage :=
  mkStoredMessage (mr_id row) (mr_conversation_id row) (mr_message_id row) (mr_from_address row) (mr_to_address row) content
    (mr_content_type row) (mr_timestamp row) (mr_status row) (intToBool (mr_is_outgoing row)) (mr_mesh_chunk_id row) meshKey
    (mr_reply_to_id row).

(** the scan and the decryption of one row *)
Definition decrypt_row (key : list Z) (row : MessageRow) : outcome StoredMessage :=
  content ← wrap_err "failed to decrypt content: " (AESDecrypt (mr_content row) key);
  meshKey ←
    (if 0 <? len (mr_encryption_key row)
     then wrap_err "failed to decrypt mesh key: " (AESDecrypt (mr_encryption_key row) key)
     else Ok []);
  Ok (message_of row content meshKey).

Definition GetMessage (q : option string) (db : MessageDB) (messageID : gostring) : outcome StoredMessage :=
  match q with
  | Some e => Err e
  | None =>
      match list_find (λ row, mr_message_id row = messageID) (t_messages (db_tables db)) with
      | None => Err ErrNotFound
      | Some (_, row) => decrypt_row (db_encryptionKey db) row
      end
  end.

Fixpoint decrypt_rows (key : list Z) (rows : list MessageRow) : outcome (list StoredMessage) :=
  match rows with
  | [] => Ok []
  | row :: rows' => msg ← decrypt_row key row; msgs ← decrypt_rows key rows'; Ok (msg :: msgs)
  end.

(** [LIMIT ? OFFSET ?]: a negative limit is none, a negative offset is 0 *)
Definition limit_rows {A} (limit : Z) (rows : list A) : list A :=
  if limit <? 0 then rows else take (Z.to_nat limit) rows.
Definition offset_rows {A} (offset : Z) (rows : list A) : list A := drop (Z.to_nat offset) rows.

(** [by_time]: ORDER BY timestamp DESC *)
Context (by_time : list MessageRow → list MessageRow).

Definition conversation_rows (db : MessageDB) (conversationID : gostring) : list MessageRow :=
  filter (λ row, mr_conversation_id row = conversationID) (t_messages (db_tables db)).
Definition GetConversationMessages (q : option string) (read : option nat) (db : MessageDB) (conversationID : gostring)
  (limit offset : Z) : outcome (list StoredMessage) :=
  match q with
  | Some e => Err e
  | None => decrypt_rows (db_encryptionKey db)
              (rows_read read (limit_rows limit (offset_rows offset (by_time (conversation_rows db conversationID)))))
  end.

Definition row_status (status : string) (row : MessageRow) : MessageRow :=
  mkMessageRow (mr_id row) (mr_conversation_id row) (mr_message_id row) (mr_from_address row) (mr_to_address row)
    (mr_content row) (mr_content_type row) (mr_timestamp row) status (mr_is_outgoing row) (mr_mesh_chunk_id row)
    (mr_encryption_key row) (mr_reply_to_id row).
Definition DB_UpdateMessageStatus (q : option string) (db : MessageDB) (messageID : gostring) (status : string)
  : MessageDB * outcome unit :=
  match q with
  | Some e => (db, Err e)
  | None =>
      let t := db_tables db in
      (with_messages db ((λ row, if str_eqb (mr_message_id row) messageID then row_status status row else row) <$> t_messages t)
         (t_sequence t), Ok tt)
  end.

Definition DB_DeleteMessage (q : option string) (db : MessageDB) (messageID : gostring) : MessageDB * outcome unit :=
  match q with
  | Some e => (db, Err e)
  | None =>
      let t := db_tables db in
      (with_messages db (filter (λ row, mr_message_id row ≠ messageID) (t_messages t)) (t_sequence t), Ok tt)
  end.

(** The loop of [SearchMessages]; [found] is the number of messages so far.  The
    key of a media file is not decrypted here. *)
Fixpoint search_rows (key : list Z) (searchText : gostring) (limit found : Z) (rows : list MessageRow) : list StoredMessage :=
  match rows with
  | [] => []
  | row :: rows' =>
      match AESDecrypt (mr_content row) key with
      | Ok content =>
          if text_contains content searchText then
            message_of row content [] ::
            (if limit <=? found + 1 then [] else search_rows key searchText limit (found + 1) rows')
          else search_rows key searchText limit found rows'
      | _ => search_rows key searchText limit found rows'
      end
  end.
(** [protocol.ContentTypeText] is 0 *)
Definition text_rows (db : MessageDB) : list MessageRow :=
  filter (λ row, mr_content_type row = 0) (t_messages (db_tables db)).
Definition SearchMessages (q : option string) (read : option nat) (db : MessageDB) (searchText : gostring) (limit : Z)
  : outcome (list StoredMessage) :=
  match q with
  | Some e => Err e
  | None => Ok (search_rows (db_encryptionKey db) searchText limit 0
                  (rows_read read (limit_rows (s64 (limit * 10)) (by_time (text_rows db)))))
  end.

(** ** contacts.go *)

Definition contact_row (c : DB_Contact) (avatarKey : list Z) (added : Z) : ContactRow :=
  mkContactRow (co_Username c) (co_Bio c) (co_AvatarChunkID c) avatarKey (co_PublicKey c) added (co_LastSeen c)
    (boolToInt (co_IsBlocked c)) (boolToInt (co_IsFavorite c)).
(** the time a contact was added stays *)
Definition SaveContact (nonce : option (list Z)) (q : option string) (db : MessageDB) (c : DB_Contact) : MessageDB * outcome unit :=
  match wrap_err "failed to encrypt avatar key: " (AESEncrypt nonce (co_AvatarKey c) (db_encryptionKey db)) with
  | Err e => (db, Err e)
  | Panic => (db, Panic)
  | Ok avatarKey =>
      match q, sql_uint64 4 (co_AvatarChunkID c) with
      | Some e, _ | None, Some e => (db, Err e)
      | None, None =>
          let t := t_contacts (db_tables db) in
          let added := from_option cr_added_at (co_AddedAt c) (t !! co_Address c) in
          (with_contacts db (<[co_Address c := contact_row c avatarKey added]> t), Ok tt)
      end
  end.

Definition contact_of (kv : gostring * ContactRow) (avatarKey : list Z) : DB_Contact :=
  let r := kv.2 in
  mkContact kv.1 (cr_username r) (cr_bio r) (cr_avatar_chunk_id r) avatarKey (cr_public_key r) (cr_added_at r)
    (cr_last_seen r) (intToBool (cr_is_blocked r)) (intToBool (cr_is_favorite r)).
Definition decrypt_avatar (key : list Z) (r : ContactRow) : outcome (list Z) :=
  if 0 <? len (cr_avatar_key r) then AESDecrypt (cr_avatar_key r) key else Ok [].

Definition DB_GetContact (q : option string) (db : MessageDB) (address : gostring) : outcome DB_Contact :=
  match q with
  | Some e => Err e
  | None =>
      match t_contacts (db_tables db) !! address with
      | None => Err ErrNotFound
      | Some r =>
          avatarKey ← wrap_err "failed to decrypt avatar key: " (decrypt_avatar (db_encryptionKey db) r);
          Ok (contact_of (address, r) avatarKey)
      end
  end.

(** contacts that cannot be decrypted are skipped *)
Definition readable_contact (key : list Z) (kv : gostring * ContactRow) : option DB_Contact :=
  match decrypt_avatar key kv.2 with Ok avatarKey => Some (contact_of kv avatarKey) | _ => None end.
(** [by_name]: ORDER BY username ASC *)
Definition DB_GetAllContacts (by_name : list (gostring * ContactRow) → list (gostring * ContactRow)) (q : option string)
  (read : option nat) (db : MessageDB) : outcome (list DB_Contact) :=
  match q with
  | Some e => Err e
  | None => Ok (omap (readable_contact (db_encryptionKey db)) (rows_read read (by_name (map_to_list (t_contacts (db_tables db))))))
  end.

Definition DeleteContact (q : option string) (db : MessageDB) (address : gostring) : MessageDB * outcome unit :=
  match q with
  | Some e => (db, Err e)
  | None => (with_contacts db (delete address (t_contacts (db_tables db))), Ok tt)
  end.

Definition set_blocked (b : Z) (r : ContactRow) : ContactRow :=
  mkContactRow (cr_username r) (cr_bio r) (cr_avatar_chunk_id r) (cr_avatar_key r) (cr_public_key r) (cr_added_at r)
    (cr_last_seen r) b (cr_is_favorite r).
Definition update_blocked (b : Z) (q : option string) (db : MessageDB) (address : gostring) : MessageDB * outcome unit :=
  match q with
  | Some e => (db, Err e)
  | None => (with_contacts db (alter (set_blocked b) address (t_contacts (db_tables db))), Ok tt)
  end.
Definition BlockContact := update_blocked 1.
Definition UnblockContact := update_blocked 0.

(** ** Backup (helpers.go): the messages are not collected, errors are ignored *)
Definition ExportData `{Json (list StoredMessage * list DB_Contact * list Conversation)} by_name by_activity
  (q1 q2 : option string) (read1 read2 : option nat) (db : MessageDB) : outcome (list Z) :=
  let or_nil {A} (o : outcome (list A)) := match o with Ok l => l | _ => [] end in
  json_marshal ([] : list StoredMessage, or_nil (DB_GetAllContacts by_name q1 read1 db),
                or_nil (GetConversations by_activity q2 read2 db)).

(** ** The database behind a client

    [deliverMessage], [SendMessage] and the receipts of Inbox.v and Messaging.v ask
    for these effects; errors are logged. *)
Definition apply_effect (env : save_env) (q : option string) (db : MessageDB) (eff : effect) : MessageDB :=
  match eff with
  | SaveMessage msg => (DB_SaveMessage env db msg).1.1
  | UpdateMessageStatus messageID status => (DB_UpdateMessageStatus q db messageID status).1
  | _ => db
  end.
Fixpoint apply_effects (envs : nat → save_env) (i : nat) (db : MessageDB) (effs : list effect) : MessageDB :=
  match effs with
  | [] => db
  | eff :: effs' => apply_effects envs (S i) (apply_effect (envs i) None db eff) effs'
  end.

End database.
