(* ===== verification/MessageDbProofs.v ===== *)
(** * The message database keeps messages (pkg/storage)

    [database_refines_map]: whatever sequence of operations, reading a message gives
    what a map from identifiers to messages would, whichever statements fail and
    whenever no randomness is there.  On top of it: the listing of a
    conversation, search, the count of unread messages, and what delivery stores. *)

From S2P Require Import Prelude GoBytes NodeID Wire Ratchet Aes DhtStore Inbox DhtNode GoText MessageDb.

Lemma intToBool_boolToInt b : intToBool (boolToInt b) = b.
Proof. by destruct b. Qed.

(** ** Substrings *)

Lemma containsHelper_spec n s sub :
  containsHelper n s sub = true ↔ ∃ i, (i < n)%nat ∧ take (length sub) (drop i s) = sub.
Proof.
  revert s. induction n as [|n IH]; intros s; cbn; [split; [done|intros (i & ? & _); lia]|]. unfold str_eqb. case_bool_decide as E.
  - split; [|done]. intros _. exists 0%nat. split; [lia|done].
  - rewrite IH. split.
    + intros (i & Hi & Ht). exists (S i). split; [lia|]. by rewrite drop_drop in Ht.
    + intros ([|i] & Hi & Ht); [done|]. exists i. split; [lia|]. by rewrite drop_drop.
Qed.

Lemma infix_at s (sub : gostring) i : take (length sub) (drop i s) = sub → ∃ a b, s = a ++ sub ++ b.
Proof.
  intros E. exists (take i s), (drop (length sub) (drop i s)). rewrite <- E at 1. by rewrite take_drop, take_drop.
Qed.

Definition substring (sub s : gostring) : Prop := ∃ before after, s = before ++ sub ++ after.

(** the hand-written search finds exactly the substrings *)
Lemma text_contains_spec s sub : text_contains s sub = true ↔ substring sub s.
Proof.
  unfold substring, text_contains. rewrite andb_true_iff, Z.leb_le, orb_true_iff, andb_true_iff, Z.ltb_lt, !orb_true_iff, containsHelper_spec.
  unfold str_eqb. rewrite !bool_decide_eq_true. unfold len. split.
  - intros [_ [->|[_ [[E|E]|(i & _ & E)]]]].
    + exists [], []. by rewrite app_nil_r.
    + apply (infix_at s sub 0). by rewrite drop_0.
    + exists (take (length s - length sub) s), []. rewrite app_nil_r. rewrite <- E at 2. by rewrite take_drop.
    + by eapply infix_at.
  - intros (a & b & ->). rewrite !length_app. split; [lia|].
    destruct (decide (length a + length b = 0)%nat) as [E|E].
    + left. destruct a, b; cbn in E; try lia. by rewrite app_nil_r.
    + right. split; [lia|]. right. exists (length a). split; [lia|]. by rewrite drop_app_length, take_app_length.
Qed.

#[export] Instance substring_dec sub s : Decision (substring sub s).
Proof. refine (cast_if (decide (text_contains s sub = true))); by rewrite <- text_contains_spec. Defined.

Section proofs.
Context `{RatchetOps} `{AesGcm} `{!AesGcmLaws}.
Implicit Types (db : MessageDB) (M : gmap gostring StoredMessage).

(** ** The messages as a map *)

(** io.ReadFull fills the twelve bytes of a nonce or fails *)
Definition nonces_ok (env : save_env) : Prop :=
  (∀ n, se_nonce env = Some n → length n = 12%nat) ∧ (∀ n, se_key_nonce env = Some n → length n = 12%nat).

(** the randomness that encrypting [msg] takes is there *)
Definition has_nonces (env : save_env) (msg : StoredMessage) : bool :=
  bool_decide (is_Some (se_nonce env)) && ((len (sm_EncryptionKey msg) <=? 0) || bool_decide (is_Some (se_key_nonce env))).

(** nothing fails up to the row of the message *)
Definition env_ok (env : save_env) : Prop :=
  (∃ n, se_nonce env = Some n ∧ length n = 12%nat) ∧ (∃ n, se_key_nonce env = Some n ∧ length n = 12%nat) ∧ se_insert env = None.

Record represents (db : MessageDB) (M : gmap gostring StoredMessage) : Prop := {
  rep_key : aes_key_ok (db_encryptionKey db) = true;
  rep_unique : NoDup (mr_message_id <$> t_messages (db_tables db));
  rep_rows : ∀ row, row ∈ t_messages (db_tables db) →
    ∃ m, decrypt_row (db_encryptionKey db) row = Ok m ∧ M !! mr_message_id row = Some m;
  rep_only : ∀ id m, M !! id = Some m → id ∈ mr_message_id <$> t_messages (db_tables db) }.

Lemma decrypt_row_id key row m : decrypt_row key row = Ok m → ∃ content meshKey, m = message_of row content meshKey.
Proof. unfold decrypt_row. intros E. outcome_inv. eauto. Qed.

Lemma get_represented db M id : represents db M →
  GetMessage None db id = match M !! id with Some m => Ok m | None => Err ErrNotFound end.
Proof.
  intros [_ Hu Hr Ho]. unfold GetMessage. destruct (list_find _ _) as [[i row]|] eqn:E.
  - apply list_find_Some in E as (Hi & <- & _). apply list_elem_of_lookup_2, Hr in Hi as (m & -> & ->). done.
  - destruct (M !! id) as [m|] eqn:Em; [|done]. apply Ho, list_elem_of_fmap in Em as (row & -> & Hin).
    apply list_find_None in E. rewrite Forall_forall in E. by apply E in Hin.
Qed.

Lemma env_ok_nonces env : env_ok env → nonces_ok env.
Proof. intros ((n1 & E1 & ?) & (n2 & E2 & ?) & _). split; congruence. Qed.
Lemma env_ok_has env msg : env_ok env → has_nonces env msg = true.
Proof. intros ((n1 & E1 & ?) & (n2 & E2 & ?) & _). unfold has_nonces. rewrite E1, E2, !bool_decide_true by eauto. by rewrite orb_true_r. Qed.

(** what is encrypted is decrypted again *)
Lemma encrypted_row env db msg id : nonces_ok env → has_nonces env msg = true → aes_key_ok (db_encryptionKey db) = true →
  ∃ content meshKey, encrypt_fields env (db_encryptionKey db) msg = Ok (content, meshKey) ∧
    decrypt_row (db_encryptionKey db) (message_row id msg content meshKey) = Ok (set_id msg id).
Proof.
  intros [Hn1 Hn2] Hhas Hk. unfold has_nonces in Hhas. apply andb_true_iff in Hhas as [[n1 E1]%bool_decide_eq_true Hhas].
  specialize (Hn1 n1 E1). unfold encrypt_fields, decrypt_row. rewrite E1.
  destruct (AES_roundtrip n1 (sm_Content msg) _ Hn1 Hk) as (ct & He & Hd). rewrite He. cbn [wrap_err mbind outcome_bind].
  destruct (Z.ltb_spec 0 (len (sm_EncryptionKey msg))) as [Hl|Hl].
  - rewrite (proj2 (Z.leb_gt _ _)) in Hhas by lia. apply bool_decide_eq_true in Hhas as [n2 E2].
    specialize (Hn2 n2 E2). rewrite E2. destruct (AES_roundtrip n2 (sm_EncryptionKey msg) _ Hn2 Hk) as (kt & He' & Hd'). rewrite He'. cbn [wrap_err mbind outcome_bind].
    exists ct, kt. split; [done|]. cbn [message_row mr_content mr_encryption_key]. rewrite Hd, Hd'. cbn [wrap_err mbind outcome_bind].
    destruct (Z.ltb_spec 0 (len kt)) as [_|Hkt].
    + unfold message_of. cbn. by rewrite intToBool_boolToInt.
    + exfalso. unfold AESDecrypt, NewCipher in Hd'. rewrite Hk in Hd'. cbn [mbind outcome_bind] in Hd'.
      destruct (Z.ltb_spec (len kt) NonceSize) as [|Hge]; [done|]. unfold NonceSize in Hge. lia.
  - exists ct, []. split; [done|]. cbn [message_row mr_content mr_encryption_key]. rewrite Hd. cbn [wrap_err mbind outcome_bind].
    destruct (sm_EncryptionKey msg) as [|] eqn:Ek; [|unfold len in Hl; cbn in Hl; lia].
    unfold message_of, set_id. cbn. by rewrite intToBool_boolToInt, Ek.
Qed.

(** without randomness nothing is encrypted *)
Lemma not_encrypted env key msg : aes_key_ok key = true → has_nonces env msg = false →
  ∃ e, encrypt_fields env key msg = Err e.
Proof.
  intros Hk Hhas. unfold has_nonces in Hhas. unfold encrypt_fields, AESEncrypt, NewCipher. rewrite Hk.
  destruct (se_nonce env) as [n1|]; [|by eexists]. rewrite bool_decide_true in Hhas by eauto. cbn [andb] in Hhas.
  apply orb_false_iff in Hhas as [Hl%Z.leb_gt Hn2]. destruct (se_key_nonce env); [by rewrite bool_decide_true in Hn2 by eauto|].
  cbn [mbind outcome_bind wrap_err]. rewrite (proj2 (Z.ltb_lt _ _)) by done. by eexists.
Qed.

(** the tables that [represents] looks at *)
Lemma represents_same db db' M : t_messages (db_tables db') = t_messages (db_tables db) →
  db_encryptionKey db' = db_encryptionKey db → represents db M → represents db' M.
Proof. intros Et Ek [? ? ? ?]. split; rewrite ?Et, ?Ek; done. Qed.

Lemma represents_insert db M row m : represents db M → M !! mr_message_id row = None →
  decrypt_row (db_encryptionKey db) row = Ok m → ∀ seq,
  represents (with_messages db (t_messages (db_tables db) ++ [row]) seq) (<[mr_message_id row := m]> M).
Proof.
  intros [Hk Hu Hr Ho] Hn Hd seq. split; cbn; [done| | |].
  - rewrite fmap_app. apply NoDup_app. split_and!; [done| |apply NoDup_singleton].
    intros id Hin ->%list_elem_of_singleton. apply list_elem_of_fmap in Hin as (row' & E & Hin).
    destruct (Hr row' Hin) as (m' & _ & Hm). rewrite <- E in Hm. congruence.
  - intros row' [Hin|Hin]%elem_of_app; [|apply list_elem_of_singleton in Hin as ->; exists m; split; [done|apply lookup_insert_eq]].
    destruct (Hr row' Hin) as (m' & Hd' & Hm). exists m'. split; [done|]. rewrite lookup_insert_ne; [done|]. congruence.
  - intros id m' Hm. rewrite fmap_app. apply elem_of_app.
    apply lookup_insert_Some in Hm as [[<- _]|[_ Hm]]; [right; by left|left; by eapply Ho].
Qed.

(** ** Operations against the map *)

Inductive db_op :=
| OpSave (env : save_env) (msg : StoredMessage)
| OpStatus (q : option string) (messageID : gostring) (status : string)
| OpDelete (q : option string) (messageID : gostring)
| OpRead (q : option string) (conversationID : gostring)
| OpContact (nonce : option (list Z)) (q : option string) (c : DB_Contact)
| OpForget (q : option string) (address : gostring)
| OpBlock (q : option string) (address : gostring)
| OpUnblock (q : option string) (address : gostring).

Definition run_op (db : MessageDB) (op : db_op) : MessageDB :=
  match op with
  | OpSave env msg => (DB_SaveMessage env db msg).1.1
  | OpStatus q id status => (DB_UpdateMessageStatus q db id status).1
  | OpDelete q id => (DB_DeleteMessage q db id).1
  | OpRead q id => (MarkConversationRead q db id).1
  | OpContact nonce q c => (SaveContact nonce q db c).1
  | OpForget q a => (DeleteContact q db a).1
  | OpBlock q a => (BlockContact q db a).1
  | OpUnblock q a => (UnblockContact q db a).1
  end.

Definition op_ok (op : db_op) : Prop := match op with OpSave env _ => nonces_ok env | _ => True end.

Definition with_status (status : string) (m : StoredMessage) : StoredMessage :=
  mkStoredMessage (sm_ID m) (sm_ConversationID m) (sm_MessageID m) (sm_FromAddress m) (sm_ToAddress m) (sm_Content m)
    (sm_ContentType m) (sm_Timestamp m) status (sm_IsOutgoing m) (sm_MeshChunkID m) (sm_EncryptionKey m) (sm_ReplyToID m).

(** when a message is stored: its identifier is new, its chunk number is one
    SQLite takes, and neither the randomness nor the INSERT fails *)
Definition saves (M : gmap gostring StoredMessage) (env : save_env) (msg : StoredMessage) : bool :=
  bool_decide (M !! sm_MessageID msg = None) && (sm_MeshChunkID msg <? 2 ^ 63) &&
  has_nonces env msg && bool_decide (se_insert env = None).

(** the reference: a map, and the last number given out; what fails changes neither *)
Definition spec_op (s : gmap gostring StoredMessage * Z) (op : db_op) : gmap gostring StoredMessage * Z :=
  let '(M, seq) := s in
  match op with
  | OpSave env msg =>
      if saves M env msg
      then (<[sm_MessageID msg := set_id msg (seq + 1)]> M, seq + 1) else (M, seq)
  | OpStatus None id status => (alter (with_status status) id M, seq)
  | OpDelete None id => (delete id M, seq)
  | _ => (M, seq)
  end.

Lemma saves_fine M env msg : env_ok env →
  saves M env msg = bool_decide (M !! sm_MessageID msg = None) && (sm_MeshChunkID msg <? 2 ^ 63).
Proof. intros Henv. unfold saves. rewrite (env_ok_has _ _ Henv), (bool_decide_true (se_insert env = None)) by apply Henv. by rewrite !andb_true_r. Qed.

Lemma taken_id db M id : represents db M → id ∈ mr_message_id <$> t_messages (db_tables db) ↔ M !! id ≠ None.
Proof.
  intros [_ _ Hr Ho]. split.
  - intros (row & -> & Hrow)%list_elem_of_fmap. destruct (Hr row Hrow) as (m & _ & ->). done.
  - destruct (M !! id) eqn:E; [intros _; by eapply Ho|done].
Qed.

(** the row of a message goes in exactly when [saves] *)
Lemma insert_refines db M env msg content meshKey : represents db M → has_nonces env msg = true →
  let id := t_sequence (db_tables db) + 1 in
  if saves M env msg
  then insert_message (se_insert env) db msg content meshKey
       = (with_messages db (t_messages (db_tables db) ++ [message_row id msg content meshKey]) id, Ok id)
  else ∃ e, insert_message (se_insert env) db msg content meshKey = (db, Err e).
Proof.
  intros Hrep Hhas id. unfold insert_message, saves, sql_uint64. rewrite Hhas, andb_true_r.
  destruct (se_insert env) as [e|]; [rewrite (bool_decide_false (Some e = None)), andb_false_r by done; by eexists|].
  rewrite (bool_decide_true (@None string = None)), andb_true_r by done.
  destruct (sm_MeshChunkID msg <? 2 ^ 63); [rewrite andb_true_r|rewrite andb_false_r; by eexists].
  pose proof (taken_id db M (sm_MessageID msg) Hrep) as Ht.
  destruct (M !! sm_MessageID msg) as [m|] eqn:Em; rewrite ?Em in Ht.
  - rewrite (bool_decide_false (Some m = None)), bool_decide_true by (done || by apply Ht). by eexists.
  - rewrite (bool_decide_true (None = None)), bool_decide_false by (done || by intros []%Ht). done.
Qed.

Lemma save_refines db M env msg : represents db M → nonces_ok env →
  let '(db', _, r) := DB_SaveMessage env db msg in
  let '(M', seq') := spec_op (M, t_sequence (db_tables db)) (OpSave env msg) in
  represents db' M' ∧ t_sequence (db_tables db') = seq' ∧
  is_ok r = saves M env msg && bool_decide (se_update env = None).
Proof.
  intros Hrep Henv. pose proof Hrep as [Hk Hu Hr Ho]. cbn [spec_op]. unfold DB_SaveMessage.
  destruct (has_nonces env msg) eqn:Hhas.
  2: { destruct (not_encrypted env _ msg Hk Hhas) as [e ->]. assert (saves M env msg = false) as ->
         by (unfold saves; by rewrite Hhas, andb_false_r). done. }
  destruct (encrypted_row env db msg (t_sequence (db_tables db) + 1) Henv Hhas Hk) as (content & meshKey & -> & Hd).
  pose proof (insert_refines db M env msg content meshKey Hrep Hhas) as Hi. cbv zeta in Hi.
  destruct (saves M env msg) eqn:Es; [rewrite Hi|destruct Hi as [e ->]; done].
  assert (represents (with_messages db (t_messages (db_tables db) ++ [message_row (t_sequence (db_tables db) + 1) msg content meshKey])
            (t_sequence (db_tables db) + 1)) (<[sm_MessageID msg := set_id msg (t_sequence (db_tables db) + 1)]> M)) as Hrep'.
  { apply (represents_insert db M (message_row _ msg content meshKey)); [done| |done].
    unfold saves in Es. apply andb_true_iff in Es as [Es _]. apply andb_true_iff in Es as [Es _].
    apply andb_true_iff in Es as [?%bool_decide_eq_true _]. done. }
  unfold updateConversation. destruct (se_update env) as [e|]; cbn [fst snd is_ok wrap_err andb].
  - by split_and!.
  - split_and!; [by eapply represents_same; [..|exact Hrep']|done|done].
Qed.

Lemma status_row key row status m : decrypt_row key row = Ok m → decrypt_row key (row_status status row) = Ok (with_status status m).
Proof.
  unfold decrypt_row. cbn [row_status mr_content mr_encryption_key]. intros E.
  apply outcome_bind_ok in E as (content & -> & E). apply outcome_bind_ok in E as (meshKey & -> & E). cbn in E |- *. by simplify_eq.
Qed.

Lemma status_refines db M id status : represents db M →
  represents (DB_UpdateMessageStatus None db id status).1 (alter (with_status status) id M).
Proof.
  intros [Hk Hu Hr Ho]. set (f := λ row, if str_eqb (mr_message_id row) id then row_status status row else row).
  assert (mr_message_id <$> (f <$> t_messages (db_tables db)) = mr_message_id <$> t_messages (db_tables db)) as Eids.
  { rewrite <- list_fmap_compose. apply list_fmap_ext. intros i row _. cbn. unfold f. by destruct (str_eqb _ _). }
  split; cbn [DB_UpdateMessageStatus fst with_messages db_tables db_encryptionKey t_messages]; fold f; [done|by rewrite Eids| |].
  - intros row' (row & -> & Hin)%list_elem_of_fmap. destruct (Hr row Hin) as (m & Hd & Hm).
    unfold f, str_eqb. case_bool_decide as E.
    + exists (with_status status m). split; [by apply status_row|]. cbn. subst id. by rewrite lookup_alter_eq, Hm.
    + exists m. split; [done|]. by rewrite lookup_alter_ne.
  - intros id' m Hm. rewrite Eids. destruct (decide (id = id')) as [<-|Hne].
    + rewrite lookup_alter_eq in Hm. destruct (M !! id) eqn:E; [by eapply Ho|done].
    + rewrite lookup_alter_ne in Hm by done. by eapply Ho.
Qed.

Lemma delete_refines db M id : represents db M → represents (DB_DeleteMessage None db id).1 (delete id M).
Proof.
  intros [Hk Hu Hr Ho]. split; cbn [DB_DeleteMessage fst with_messages db_tables db_encryptionKey t_messages]; [done| | |].
  - eapply sublist_NoDup; [exact Hu|]. apply fmap_sublist, sublist_filter.
  - intros row [Hne Hin]%list_elem_of_filter. destruct (Hr row Hin) as (m & Hd & Hm). exists m. split; [done|].
    rewrite lookup_delete_ne by done. done.
  - intros id' m Hm. apply lookup_delete_Some in Hm as [Hne Hm].
    apply Ho, list_elem_of_fmap in Hm as (row & -> & Hin). apply list_elem_of_fmap. exists row. split; [done|].
    by apply list_elem_of_filter.
Qed.

Lemma op_refines db M op : represents db M → op_ok op →
  represents (run_op db op) (spec_op (M, t_sequence (db_tables db)) op).1 ∧
  t_sequence (db_tables (run_op db op)) = (spec_op (M, t_sequence (db_tables db)) op).2.
Proof.
  intros Hrep Hop. destruct op; cbn [run_op].
  - pose proof (save_refines db M env msg Hrep Hop) as Hs. destruct (DB_SaveMessage env db msg) as [[db' m] r].
    destruct (spec_op _ _) as [M' seq']. by destruct Hs as (? & ? & _).
  - destruct q; [done|]. split; [by apply status_refines|done].
  - destruct q; [done|]. split; [by apply delete_refines|done].
  - unfold MarkConversationRead. destruct q; split; try done. by eapply represents_same; [..|exact Hrep].
  - unfold SaveContact. destruct (wrap_err _ _); [|done..]. destruct q; [done|]. destruct (sql_uint64 _ _); [done|].
    split; [by eapply represents_same; [..|exact Hrep]|done].
  - unfold DeleteContact. destruct q; split; try done. by eapply represents_same; [..|exact Hrep].
  - unfold BlockContact, update_blocked. destruct q; split; try done. by eapply represents_same; [..|exact Hrep].
  - unfold UnblockContact, update_blocked. destruct q; split; try done. by eapply represents_same; [..|exact Hrep].
Qed.

Lemma ops_refine ops : ∀ db M, represents db M → Forall op_ok ops →
  represents (foldl run_op db ops) (foldl spec_op (M, t_sequence (db_tables db)) ops).1.
Proof.
  induction ops as [|op ops IH]; intros db M Hrep Hok; [done|]. apply Forall_cons in Hok as [Hop Hok]. cbn [foldl].
  destruct (op_refines db M op Hrep Hop) as [Hrep' Hseq]. specialize (IH _ _ Hrep' Hok). rewrite Hseq in IH.
  by rewrite <- surjective_pairing in IH.
Qed.

Lemma new_represents password db opened wal schema : NewMessageDB None password opened wal schema = Ok db →
  length (sha256 password) = 32%nat → represents db ∅ ∧ t_sequence (db_tables db) = 0.
Proof.
  unfold NewMessageDB. destruct opened, wal, schema; try done. intros [= <-] Hl. split; [|done].
  split; cbn; [|constructor|by intros row ?%elem_of_nil|done].
  unfold deriveKey, aes_key_ok, len. rewrite Hl. done.
Qed.

(** C11: After any sequence of operations on a new database - saving, receipts, deleting,
    contacts, reading, any of whose statements may fail, and any of whose encryptions
    may find no randomness - a look-up gives exactly what a map from message identifiers
    to messages gives: the message as it was saved, decrypted, under the number it
    got, with its last status.  What fails leaves the map as it is, and an identifier
    that is taken is not overwritten.  A save reports success exactly when the map
    takes the message and the row of the conversation is updated too. *)
Theorem database_refines_map (password : gostring) (db0 : MessageDB) (ops : list db_op) :
  length (sha256 password) = 32%nat → NewMessageDB None password None None None = Ok db0 → Forall op_ok ops →
  let db := foldl run_op db0 ops in let M := (foldl spec_op (∅, 0) ops).1 in
  (∀ id, GetMessage None db id = match M !! id with Some m => Ok m | None => Err ErrNotFound end) ∧
  (∀ env msg, nonces_ok env →
     is_ok (DB_SaveMessage env db msg).2 = saves M env msg && bool_decide (se_update env = None)).
Proof.
  intros Hl Hnew Hok db M. destruct (new_represents _ _ _ _ _ Hnew Hl) as [Hrep0 Hseq].
  assert (represents db M) as Hrep by (unfold M; rewrite <- Hseq; by apply ops_refine).
  split; [intros id; by apply get_represented|]. intros env msg Henv.
  pose proof (save_refines db M env msg Hrep Henv) as Hs. destruct (DB_SaveMessage env db msg) as [[db' m] r].
  destruct (spec_op _ _). apply Hs.
Qed.

(** ** Listing and searching *)

Section queries.
Context (by_time : list MessageRow → list MessageRow).
Context (Hperm : ∀ rows, by_time rows ≡ₚ rows)
        (Hsorted : ∀ rows, StronglySorted (λ a b, mr_timestamp b ≤ mr_timestamp a) (by_time rows)).

Lemma decrypt_rows_ok key rows : (∀ row, row ∈ rows → is_ok (decrypt_row key row) = true) →
  ∃ l, decrypt_rows key rows = Ok l ∧ Forall2 (λ row m, decrypt_row key row = Ok m) rows l.
Proof.
  induction rows as [|row rows IH]; intros Hr; [by exists []|].
  destruct IH as (l & El & Hl); [intros; apply Hr; by right|]. specialize (Hr row (list_elem_of_here _ _)).
  cbn. destruct (decrypt_row key row) as [m| |] eqn:E; [|done..]. cbn. rewrite El. exists (m :: l). split; [done|by constructor].
Qed.

Lemma decrypt_rows_forall2 key rows l : Forall2 (λ row m, decrypt_row key row = Ok m) rows l → decrypt_rows key rows = Ok l.
Proof. induction 1 as [|row m rows l E _ IH]; [done|]. cbn. by rewrite E, IH. Qed.

Lemma decrypt_row_fields key row m : decrypt_row key row = Ok m →
  sm_MessageID m = mr_message_id row ∧ sm_ConversationID m = mr_conversation_id row ∧ sm_Timestamp m = mr_timestamp row.
Proof. intros (content & meshKey & ->)%decrypt_row_id. done. Qed.

Lemma sorted_forall2 key rows l : Forall2 (λ row m, decrypt_row key row = Ok m) rows l →
  StronglySorted (λ a b, mr_timestamp b ≤ mr_timestamp a) rows → StronglySorted (λ a b, sm_Timestamp b ≤ sm_Timestamp a) l.
Proof.
  induction 1 as [|row m rows l E Hl IH]; intros Hs; [constructor|]. apply StronglySorted_inv in Hs as [Hs Hf].
  constructor; [by apply IH|]. apply decrypt_row_fields in E as (_ & _ & Et). apply Forall_forall. intros m' Hm'.
  apply list_elem_of_lookup in Hm' as [i Hi]. destruct (Forall2_lookup_r _ _ _ _ _ Hl Hi) as (row' & Hrow & E').
  apply decrypt_row_fields in E' as (_ & _ & ->). rewrite Et. rewrite Forall_forall in Hf. by eapply Hf, list_elem_of_lookup_2.
Qed.

Lemma represented_message db M id m : represents db M → M !! id = Some m ↔
  ∃ row, row ∈ t_messages (db_tables db) ∧ decrypt_row (db_encryptionKey db) row = Ok m ∧ mr_message_id row = id.
Proof.
  intros [_ Hu Hr Ho]. split.
  - intros Hm. pose proof (Ho _ _ Hm) as Hid. apply list_elem_of_fmap in Hid as (row & -> & Hin). exists row. destruct (Hr row Hin) as (m' & Hd & Hm').
    split_and!; [done|congruence|done].
  - intros (row & Hin & Hd & <-). destruct (Hr row Hin) as (m' & Hd' & Hm'). congruence.
Qed.

(** A page of a conversation: the messages of the conversation, each once, newest
    first; [limit] of them after skipping [offset]; a negative limit is none. *)
Theorem conversation_listing (db : MessageDB) (M : gmap gostring StoredMessage) (conversationID : gostring) :
  represents db M →
  ∃ l, StronglySorted (λ a b, sm_Timestamp b ≤ sm_Timestamp a) l ∧ NoDup (sm_MessageID <$> l) ∧
    (∀ m, m ∈ l ↔ M !! sm_MessageID m = Some m ∧ sm_ConversationID m = conversationID) ∧
    ∀ limit offset, GetConversationMessages by_time None None db conversationID limit offset
      = Ok (limit_rows limit (offset_rows offset l)).
Proof.
  intros Hrep. pose proof Hrep as [Hk Hu Hr Ho]. set (rows := by_time (conversation_rows db conversationID)).
  assert (∀ row, row ∈ rows ↔ row ∈ t_messages (db_tables db) ∧ mr_conversation_id row = conversationID) as Hin.
  { intros row. unfold rows. rewrite Hperm. unfold conversation_rows. rewrite list_elem_of_filter. tauto. }
  destruct (decrypt_rows_ok (db_encryptionKey db) rows) as (l & _ & Hl).
  { intros row [Hrow _]%Hin. by destruct (Hr row Hrow) as (m & -> & _). }
  exists l. split_and!.
  - eapply sorted_forall2; [exact Hl|apply Hsorted].
  - assert (sm_MessageID <$> l = mr_message_id <$> rows) as ->.
    { clear -Hl. induction Hl as [|row m rows l E _ IH]; [done|]. cbn. rewrite IH. f_equal. by apply decrypt_row_fields in E as (-> & _). }
    unfold rows. rewrite Hperm. eapply sublist_NoDup; [exact Hu|]. apply fmap_sublist, sublist_filter.
  - intros m. rewrite (represented_message db M _ _ Hrep). split.
    + intros [i Hi]%list_elem_of_lookup. destruct (Forall2_lookup_r _ _ _ _ _ Hl Hi) as (row & Hrow & E).
      apply list_elem_of_lookup_2, Hin in Hrow as [Hrow Hc]. apply decrypt_row_fields in E as Hf. destruct Hf as (Hid & Hcv & _).
      split; [by exists row|congruence].
    + intros [(row & Hrow & E & Hid) Hcv]. apply decrypt_row_fields in E as Hf. destruct Hf as (_ & Hc & _).
      assert (row ∈ rows) as Hrows by (apply Hin; split; [done|congruence]).
      apply list_elem_of_lookup in Hrows as [i Hi]. destruct (Forall2_lookup_l _ _ _ _ _ Hl Hi) as (m' & Hm' & E').
      assert (m' = m) as -> by congruence. by eapply list_elem_of_lookup_2.
  - intros limit offset. unfold GetConversationMessages, rows_read. fold rows. apply decrypt_rows_forall2.
    unfold limit_rows, offset_rows. destruct (limit <? 0); [by apply Forall2_drop|by apply Forall2_take, Forall2_drop].
Qed.

(** the first [limit] of the matching messages, in the order they come *)
Lemma search_rows_spec key text rows limit found : found < limit →
  search_rows key text limit found rows
  = take (Z.to_nat (limit - found))
      (omap (λ row, match AESDecrypt (mr_content row) key with
                    | Ok content => if text_contains content text then Some (message_of row content []) else None
                    | _ => None
                    end) rows).
Proof.
  revert found. induction rows as [|row rows IH]; intros found Hf; [by destruct (Z.to_nat _)|]. cbn [search_rows omap list_omap].
  destruct (AESDecrypt (mr_content row) key) as [content| |]; [|by apply IH..].
  destruct (text_contains content text); [|by apply IH].
  replace (Z.to_nat (limit - found)) with (S (Z.to_nat (limit - (found + 1)))) by lia. cbn [take]. f_equal.
  destruct (Z.leb_spec limit (found + 1)); [|by apply IH; lia].
  replace (Z.to_nat (limit - (found + 1))) with 0%nat by lia. by rewrite take_0.
Qed.

(** what a text message is to the search: without the key of its file *)
Definition search_view (m : StoredMessage) : StoredMessage :=
  mkStoredMessage (sm_ID m) (sm_ConversationID m) (sm_MessageID m) (sm_FromAddress m) (sm_ToAddress m) (sm_Content m)
    (sm_ContentType m) (sm_Timestamp m) (sm_Status m) (sm_IsOutgoing m) (sm_MeshChunkID m) [] (sm_ReplyToID m).

(** C37: A search for [limit] messages looks at the [10 * limit] newest text messages and
    returns the first [limit] of them whose content has the text in it as a substring
    ([substring]: some bytes, the text, some bytes); a match among the
    older ones is not found. *)
Theorem search_spec (db : MessageDB) (M : gmap gostring StoredMessage) (text : gostring) (limit : Z) :
  represents db M → 0 < limit → limit * 10 < 2 ^ 63 →
  ∃ l, StronglySorted (λ a b, sm_Timestamp b ≤ sm_Timestamp a) l ∧
    (∀ m, m ∈ l ↔ M !! sm_MessageID m = Some m ∧ sm_ContentType m = 0) ∧
    SearchMessages by_time None None db text limit
    = Ok (take (Z.to_nat limit) (search_view <$> filter (λ m, substring text (sm_Content m)) (take (Z.to_nat (limit * 10)) l))).
Proof.
  intros Hrep Hlim Hmax. pose proof Hrep as [Hk Hu Hr Ho]. set (rows := by_time (text_rows db)).
  assert (∀ row, row ∈ rows ↔ row ∈ t_messages (db_tables db) ∧ mr_content_type row = 0) as Hin.
  { intros row. unfold rows. rewrite Hperm. unfold text_rows. rewrite list_elem_of_filter. tauto. }
  destruct (decrypt_rows_ok (db_encryptionKey db) rows) as (l & _ & Hl).
  { intros row [Hrow _]%Hin. by destruct (Hr row Hrow) as (m & -> & _). }
  assert (∀ row m, decrypt_row (db_encryptionKey db) row = Ok m → sm_ContentType m = mr_content_type row) as Hct
    by (intros row m (content & meshKey & ->)%decrypt_row_id; done).
  exists l. split_and!.
  - eapply sorted_forall2; [exact Hl|apply Hsorted].
  - intros m. rewrite (represented_message db M _ _ Hrep). split.
    + intros [i Hi]%list_elem_of_lookup. destruct (Forall2_lookup_r _ _ _ _ _ Hl Hi) as (row & Hrow & E).
      apply list_elem_of_lookup_2, Hin in Hrow as [Hrow Hc]. apply decrypt_row_fields in E as Hf. destruct Hf as (Hid & _ & _).
      split; [by exists row|]. by rewrite (Hct _ _ E).
    + intros [(row & Hrow & E & Hid) Hcv]. assert (row ∈ rows) as Hrows by (apply Hin; split; [done|by rewrite <- (Hct _ _ E)]).
      apply list_elem_of_lookup in Hrows as [i Hi]. destruct (Forall2_lookup_l _ _ _ _ _ Hl Hi) as (m' & Hm' & E').
      assert (m' = m) as -> by congruence. by eapply list_elem_of_lookup_2.
  - rewrite (list_filter_iff _ (λ m, text_contains (sm_Content m) text = true)) by (intros m; by rewrite text_contains_spec).
    unfold SearchMessages, rows_read. fold rows. rewrite search_rows_spec, Z.sub_0_r, s64_id by lia. unfold limit_rows.
    destruct (Z.ltb_spec (limit * 10) 0); [lia|]. do 2 f_equal.
    assert (Forall2 (λ row m, decrypt_row (db_encryptionKey db) row = Ok m) (take (Z.to_nat (limit * 10)) rows) (take (Z.to_nat (limit * 10)) l)) as Ht
      by by apply Forall2_take.
    revert Ht. generalize (take (Z.to_nat (limit * 10)) rows) (take (Z.to_nat (limit * 10)) l). clear. intros rows l Hl.
    induction Hl as [|row m rows l E Hl IH]; [done|]. cbn [omap list_omap]. unfold decrypt_row in E.
    apply outcome_bind_ok in E as (content & Ec & E). apply outcome_bind_ok in E as (meshKey & _ & [= <-]).
    destruct (AESDecrypt (mr_content row) _) as [c| |]; [|done..]. injection Ec as ->. rewrite filter_cons. cbn [sm_Content message_of].
    destruct (text_contains content text); [rewrite decide_True by done; cbn [fmap list_fmap]; by rewrite IH|].
    by rewrite decide_False.
Qed.
End queries.

(** ** Unread messages *)

Lemma save_fresh db M env msg : represents db M → env_ok env → se_update env = None → M !! sm_MessageID msg = None →
  sm_MeshChunkID msg < 2 ^ 63 →
  ∃ db', DB_SaveMessage env db msg = (db', set_id msg (t_sequence (db_tables db) + 1), Ok tt) ∧
    represents db' (<[sm_MessageID msg := set_id msg (t_sequence (db_tables db) + 1)]> M) ∧
    t_conversations (db_tables db')
    = <[sm_ConversationID msg := upsert_conversation (t_conversations (db_tables db) !! sm_ConversationID msg) msg]>
        (t_conversations (db_tables db)).
Proof.
  intros Hrep Henv Hup Hn Hc. pose proof (save_refines db M env msg Hrep (env_ok_nonces _ Henv)) as Hs. cbn [spec_op] in Hs.
  rewrite saves_fine, bool_decide_true in Hs by done. apply Z.ltb_lt in Hc as Hc'. rewrite Hc' in Hs. cbn [andb] in Hs. pose proof Hrep as [Hk Hu Hr Ho].
  destruct (DB_SaveMessage env db msg) as [[db' m'] r] eqn:E. destruct Hs as (Hrep' & _ & _). unfold DB_SaveMessage in E.
  destruct (encrypted_row env db msg (t_sequence (db_tables db) + 1) (env_ok_nonces _ Henv) (env_ok_has _ _ Henv) Hk) as (content & meshKey & E' & Hd). rewrite E' in E.
  unfold insert_message, sql_uint64, updateConversation in E. destruct Henv as (_ & _ & Hins). rewrite Hins, Hc', Hup in E.
  rewrite bool_decide_false in E.
  - cbn [wrap_err] in E. injection E as <- <- <-. eexists. split; [done|]. by split.
  - intros (row & Er & Hrow)%list_elem_of_fmap. destruct (Hr row Hrow) as (m & _ & Hm). rewrite <- Er in Hm. congruence.
Qed.

Definition incoming (m : StoredMessage) : Prop := sm_IsOutgoing m = false.
#[local] Instance incoming_dec m : Decision (incoming m).
Proof. unfold incoming. apply _. Defined.

Definition to_save (cid : gostring) (em : save_env * StoredMessage) : Prop :=
  env_ok em.1 ∧ se_update em.1 = None ∧ sm_ConversationID em.2 = cid ∧ sm_MeshChunkID em.2 < 2 ^ 63.
Definition save_op (em : save_env * StoredMessage) : db_op := OpSave em.1 em.2.

Lemma other_ids (msg : StoredMessage) (msgs : list (save_env * StoredMessage)) :
  sm_MessageID msg ∉ sm_MessageID <$> msgs.*2 → ∀ em, em ∈ msgs → sm_MessageID em.2 ≠ sm_MessageID msg.
Proof.
  intros Hnin em Hem Eid. apply Hnin. rewrite <- Eid. apply list_elem_of_fmap. exists em.2. split; [done|].
  apply list_elem_of_fmap. by exists em.
Qed.

Lemma unread_more msgs cid : ∀ db M r, represents db M → Forall (to_save cid) msgs →
  NoDup (sm_MessageID <$> msgs.*2) → (∀ em, em ∈ msgs → M !! sm_MessageID em.2 = None) →
  t_conversations (db_tables db) !! cid = Some r → (∀ em, em ∈ msgs → sm_MessageID em.2 ≠ vr_last_message_id r) →
  ∃ r', t_conversations (db_tables (foldl run_op db (save_op <$> msgs))) !! cid = Some r' ∧
    vr_unread_count r' = vr_unread_count r + len (filter incoming msgs.*2) ∧
    vr_last_message_id r' = default (vr_last_message_id r) (sm_MessageID <$> last msgs.*2).
Proof.
  induction msgs as [|[env msg] msgs IH]; intros db M r Hrep Hok Hnd Hfresh Hr Hne.
  { exists r. split_and!; [done|unfold len; cbn; lia|done]. }
  apply Forall_cons in Hok as [(Henv & Hup & Hcid & Hch) Hok]. cbn [fst snd] in *. cbn [fmap list_fmap] in Hnd. apply NoDup_cons in Hnd as [Hnin Hnd].
  destruct (save_fresh db M env msg Hrep Henv Hup (Hfresh _ (list_elem_of_here _ _)) Hch) as (db' & E & Hrep' & Hconv).
  specialize (Hne _ (list_elem_of_here _ _)) as Hne1. cbn [snd] in Hne1.
  destruct (IH db' _ (upsert_conversation (Some r) msg) Hrep' Hok Hnd) as (r' & Hr' & Hun & Hlast).
  - intros em Hem. rewrite lookup_insert_ne; [apply Hfresh; by right|]. by intros Eid; apply (other_ids msg msgs Hnin em Hem).
  - by rewrite Hconv, Hcid, lookup_insert_eq, Hr.
  - exact (other_ids msg msgs Hnin).
  - exists r'. cbn [fmap list_fmap foldl run_op save_op fst snd]. rewrite E. cbn [fst]. split; [done|]. rewrite Hun, Hlast. split.
    + unfold upsert_conversation, str_eqb. rewrite bool_decide_false by done. cbn [negb andb vr_unread_count]. rewrite filter_cons.
      destruct (decide (incoming msg)) as [Hi|Hi]; unfold incoming in Hi.
      * rewrite Hi, len_cons. cbn [boolToInt Z.eqb]. lia.
      * apply not_false_is_true in Hi. rewrite Hi. cbn [boolToInt Z.eqb]. lia.
    + cbn [fmap list_fmap snd]. rewrite last_cons. by destruct (last msgs.*2).
Qed.

(** The count of unread messages of a conversation that starts with these messages
    leaves out the first: of [n] received messages, [n - 1] are counted. *)
Theorem unread_leaves_out_first (db : MessageDB) (M : gmap gostring StoredMessage) (cid : gostring)
    (env : save_env) (msg : StoredMessage) (msgs : list (save_env * StoredMessage)) :
  represents db M → t_conversations (db_tables db) !! cid = None → Forall (to_save cid) ((env, msg) :: msgs) →
  NoDup (sm_MessageID <$> ((env, msg) :: msgs).*2) → (∀ em, em ∈ (env, msg) :: msgs → M !! sm_MessageID em.2 = None) →
  ∃ r, t_conversations (db_tables (foldl run_op db (save_op <$> (env, msg) :: msgs))) !! cid = Some r ∧
    vr_unread_count r = len (filter incoming msgs.*2) ∧
    vr_last_message_id r = default (sm_MessageID msg) (sm_MessageID <$> last msgs.*2).
Proof.
  intros Hrep Hn Hok Hnd Hfresh. apply Forall_cons in Hok as [(Henv & Hup & Hcid & Hch) Hok].
  cbn [fst snd fmap list_fmap] in *. apply NoDup_cons in Hnd as [Hnin Hnd].
  destruct (save_fresh db M env msg Hrep Henv Hup (Hfresh _ (list_elem_of_here _ _)) Hch) as (db' & E & Hrep' & Hconv).
  pose proof (other_ids msg msgs Hnin) as Hne.
  destruct (unread_more msgs cid db' _ (upsert_conversation None msg) Hrep' Hok Hnd) as (r' & Hr' & Hun & Hlast).
  - intros em Hem. rewrite lookup_insert_ne; [apply Hfresh; by right|]. intros Eid. by apply (Hne em Hem).
  - by rewrite Hconv, Hcid, lookup_insert_eq, Hn.
  - exact Hne.
  - exists r'. cbn [foldl run_op save_op fst snd]. rewrite E. cbn [fst]. split; [done|]. rewrite Hun, Hlast. by split.
Qed.

(** ** What delivery leaves in the database *)

Lemma apply_effects_app envs effs effs' : ∀ i db,
  apply_effects envs i db (effs ++ effs') = apply_effects envs (i + length effs) (apply_effects envs i db effs) effs'.
Proof.
  induction effs as [|eff effs IH]; intros i db; cbn; [by rewrite Nat.add_0_r|]. rewrite IH. f_equal. lia.
Qed.

Definition leaves_db (eff : effect) : bool := match eff with SaveMessage _ | UpdateMessageStatus _ _ => false | _ => true end.
Lemma apply_others envs effs : forallb leaves_db effs = true → ∀ i db, apply_effects envs i db effs = db.
Proof. induction effs as [|eff effs IH]; cbn; [done|]. rewrite andb_true_iff. intros [He Hs] i db. rewrite IH by done. by destruct eff. Qed.

Lemma save_incoming env db M msg : represents db M → env_ok env → sm_MeshChunkID msg = 0 →
  ∃ M', represents (apply_effect env None db (SaveMessage msg)) M' ∧
    (∀ x, M !! sm_MessageID msg = Some x → M' = M) ∧
    (M !! sm_MessageID msg = None → ∃ n, M' = <[sm_MessageID msg := set_id msg n]> M).
Proof.
  intros Hrep Henv Hc. pose proof (save_refines db M env msg Hrep (env_ok_nonces _ Henv)) as Hs. cbn [spec_op apply_effect] in *. rewrite saves_fine, Hc in Hs by done.
  cbn [Z.ltb Z.pow] in Hs. destruct (DB_SaveMessage env db msg) as [[db' m'] r]. cbn [fst]. case_bool_decide as E; cbn [andb] in Hs.
  - destruct Hs as (Hr & _). eexists. split; [exact Hr|]. split; [congruence|]. intros _. by eexists.
  - destruct Hs as (Hr & _). exists M. split; [exact Hr|]. split; [done|]. intros; congruence.
Qed.

Section delivery.
Context (ep : Endpoint) (clock : DirectMessage → Z * list Z) (envs : nat → save_env).
Context (Hdb : ep_messageDB ep = true) (Henvs : ∀ i, env_ok (envs i)).

Lemma deliver_effect m i db :
  apply_effects envs i db (deliverMessage ep clock m) = apply_effect (envs i) None db (SaveMessage (incoming_message ep m)).
Proof using Hdb.
  unfold deliverMessage. rewrite Hdb. cbn [when app apply_effects]. apply apply_others. rewrite forallb_app. apply andb_true_iff.
  split; [unfold sendAck; by destruct (ep_connected ep)|by destruct (ep_OnMessageReceived ep)].
Qed.

(** C22: Delivered messages are stored under sender and time.  What the database has
    under such an identifier stays; else it is the first of the messages that have
    it - a second message of the same sender in the same millisecond is not stored. *)
Theorem delivered_messages_stored (ds : list DirectMessage) : ∀ (db : MessageDB) (M : gmap gostring StoredMessage) (i : nat),
  represents db M →
  ∃ M', represents (apply_effects envs i db (ds ≫= deliverMessage ep clock)) M' ∧
    ∀ id, match M !! id, head (filter (λ m, incoming_id m = id) ds) with
          | Some x, _ => M' !! id = Some x
          | None, Some m => ∃ n, M' !! id = Some (set_id (incoming_message ep m) n)
          | None, None => M' !! id = None
          end.
Proof using All.
  induction ds as [|m ds IH]; intros db M i Hrep.
  { exists M. split; [done|]. intros id. cbn. by destruct (M !! id) eqn:E. }
  cbn [mbind list_bind]. rewrite apply_effects_app, deliver_effect.
  destruct (save_incoming (envs i) db M (incoming_message ep m) Hrep (Henvs i) eq_refl) as (M1 & Hrep1 & Hold & Hnew).
  destruct (IH _ M1 (i + length (deliverMessage ep clock m))%nat Hrep1) as (M' & Hrep' & Hid). exists M'. split; [done|].
  intros id. specialize (Hid id). change (sm_MessageID (incoming_message ep m)) with (incoming_id m) in *. rewrite filter_cons.
  destruct (M !! incoming_id m) as [x|] eqn:Em.
  - rewrite (Hold x eq_refl) in Hid. destruct (M !! id) eqn:Ei; [done|]. rewrite decide_False by congruence. done.
  - destruct (Hnew eq_refl) as [n ->]. destruct (decide (incoming_id m = id)) as [<-|Hne].
    + rewrite lookup_insert_eq in Hid. rewrite Em. cbn [head]. by exists n.
    + by rewrite lookup_insert_ne in Hid.
Qed.
End delivery.
End proofs.

(** the identifier tells sender and time apart *)
Lemma incoming_id_inj (m m' : DirectMessage) : array 20 (dm_From m) → array 20 (dm_From m') →
  incoming_id m = incoming_id m' → dm_From m = dm_From m' ∧ dm_Timestamp m = dm_Timestamp m'.
Proof.
  intros [Hl Hb] [Hl' Hb'] E. unfold incoming_id in E.
  assert (∀ l, length (hex_encode l) = (2 * length l)%nat) as Hlen.
  { intros l. unfold hex_encode. induction l as [|b l IH]; [done|]. cbn in *. lia. }
  apply app_inj_1 in E as [E1 E2]; [|by rewrite !Hlen, Hl, Hl'].
  apply (f_equal hex_decode) in E1. rewrite !hex_decode_encode in E1 by done. split; [congruence|].
  apply (inj string_bytes) in E2. by apply (inj (String.append "-")), (inj pretty) in E2.
Qed.

(** both ends of a conversation file it under one identifier *)
Lemma conversation_id_sym a b : GetConversationID a b = GetConversationID b a.
Proof.
  unfold GetConversationID.
  assert (∀ a b, string_lt a b = true → string_lt b a = false) as Hasym.
  { clear. induction a as [|x a IH]; intros [|y b]; cbn; try done. intros [Hlt|[->%Z.eqb_eq Hl]%andb_true_iff]%orb_true_iff.
    - apply Z.ltb_lt in Hlt. destruct (Z.ltb_spec y x); [lia|]. destruct (Z.eqb_spec y x); [lia|done].
    - rewrite Z.ltb_irrefl, Z.eqb_refl. cbn. by apply IH. }
  assert (∀ a b, string_lt a b = false → string_lt b a = false → a = b) as Heq.
  { clear. induction a as [|x a IH]; intros [|y b]; cbn; try done. rewrite !orb_false_iff, !andb_false_iff, !Z.ltb_ge, !Z.eqb_neq.
    intros [? Ha] [? Hb]. assert (x = y) as -> by lia. f_equal. apply IH; tauto. }
  destruct (string_lt a b) eqn:E1.
  - by rewrite (Hasym _ _ E1).
  - destruct (string_lt b a) eqn:E2; [done|]. by rewrite (Heq a b E1 E2).
Qed.
