(* ===== verification/MessageDbWitness.v ===== *)
(** * Witnesses for the message database *)

From S2P Require Import Prelude GoBytes NodeID Wire Ratchet RatchetProofs Aes DhtStore DhtSample Inbox InboxProofs Onion OnionProofs MessageDb MessageDbProofs.

Module DbSample.
#[local] Existing Instances Toy.ops sample_aes.
Definition env : save_env := mkSaveEnv (Some (replicate 12 1)) (Some (replicate 12 2)) None None.
Definition text (id : Z) (time : Z) (content : list Z) (outgoing : bool) : StoredMessage :=
  mkStoredMessage 0 [99] [id] [1] [2] content 0 time "sent" outgoing 7 [5; 6] [].
Definition db : MessageDB := mkMessageDB (mkTables [] 0 ∅ ∅) (deriveKey [112; 119]).
Definition ops : list db_op :=
  [OpSave env (text 1 10 [104; 105] true); OpSave env (text 2 20 [104; 111] false); OpSave env (text 1 30 [0] true);
   OpSave (mkSaveEnv (Some (replicate 12 1)) None None None) (text 4 40 [0] true);
   OpSave (mkSaveEnv (Some (replicate 12 1)) (Some (replicate 12 2)) (Some "disk full") None) (text 5 40 [0] true);
   OpStatus None [1] "read"; OpStatus (Some "busy") [1] "sent"; OpDelete (Some "busy") [1]; OpDelete None [3]].
(** ORDER BY timestamp DESC *)
Definition newer (a b : MessageRow) : Prop := mr_timestamp b ≤ mr_timestamp a.
#[global] Instance newer_dec : RelDecision newer.
Proof. intros a b. unfold newer. apply _. Defined.
#[global] Instance newer_trans : Transitive newer.
Proof. intros a b c. unfold newer. lia. Qed.
#[global] Instance newer_total : Total newer.
Proof. intros a b. unfold newer. lia. Qed.
Definition newest : list MessageRow → list MessageRow := merge_sort newer.
Lemma newest_perm rows : newest rows ≡ₚ rows.
Proof. apply merge_sort_Permutation. Qed.
Lemma newest_sorted rows : StronglySorted (λ a b, mr_timestamp b ≤ mr_timestamp a) (newest rows).
Proof. apply (StronglySorted_merge_sort newer). Qed.
End DbSample.

Section witnesses.
#[local] Existing Instances Toy.ops sample_aes sample_aes_laws.
Import DbSample.

Lemma env_fine : env_ok env.
Proof. split_and!; [by eexists|by eexists|done]. Qed.
Lemma ops_fine : Forall op_ok ops.
Proof. repeat constructor; try done; cbn; by intros n [= <-]. Qed.
Lemma db_rep : represents (foldl run_op db ops) (foldl spec_op (∅, 0) ops).1.
Proof.
  apply (ops_refine ops db ∅); [|apply ops_fine].
  destruct (new_represents [112; 119] db None None None) as [Hr _]; [vm_compute; reflexivity|vm_compute; reflexivity|exact Hr].
Qed.

Lemma database_refines_map_witness :
  GetMessage None (foldl run_op db ops) [1] = Ok (with_status "read" (set_id (text 1 10 [104; 105] true) 1)).
Proof.
  etrans; [apply (database_refines_map [112; 119] db ops)|].
  - vm_compute. reflexivity.
  - vm_compute. reflexivity.
  - apply ops_fine.
  - vm_compute. reflexivity.
Defined.

Lemma conversation_listing_witness :
  ∃ l, StronglySorted (λ a b, sm_Timestamp b ≤ sm_Timestamp a) l ∧
    ∀ limit offset, GetConversationMessages newest None None (foldl run_op db ops) [99] limit offset
      = Ok (limit_rows limit (offset_rows offset l)).
Proof.
  destruct (conversation_listing newest newest_perm newest_sorted _ _ [99] db_rep) as (l & Hs & _ & _ & Hp).
  exists l. split; [exact Hs|exact Hp].
Defined.

Lemma search_spec_witness :
  ∃ l, (∀ m, m ∈ l ↔ (foldl spec_op (∅, 0) ops).1 !! sm_MessageID m = Some m ∧ sm_ContentType m = 0) ∧
    SearchMessages newest None None (foldl run_op db ops) [104] 1
    = Ok (take 1 (search_view <$> filter (λ m, substring [104] (sm_Content m)) (take 10 l))).
Proof.
  destruct (search_spec newest newest_perm newest_sorted _ _ [104] 1 db_rep ltac:(lia) ltac:(lia)) as (l & _ & Hin & Hp).
  exists l. split; [exact Hin|exact Hp].
Defined.

Lemma unread_leaves_out_first_witness :
  ∃ r, t_conversations (db_tables (foldl run_op db (save_op <$> [(env, text 1 10 [] false); (env, text 2 20 [] false)]))) !! [99] = Some r ∧
    vr_unread_count r = 1.
Proof.
  destruct (unread_leaves_out_first db ∅ [99] env (text 1 10 [] false) [(env, text 2 20 [] false)]) as (r & Hr & Hu & _).
  - destruct (new_represents [112; 119] db None None None) as [Hr _]; [vm_compute; reflexivity|vm_compute; reflexivity|exact Hr].
  - reflexivity.
  - repeat (constructor; [split_and!; [apply env_fine|reflexivity|reflexivity|reflexivity]|]). constructor.
  - by_decision.
  - intros em _. apply lookup_empty.
  - exists r. split; [exact Hr|exact Hu].
Defined.

(** two messages of one sender in one millisecond *)
Lemma delivered_messages_stored_witness :
  let m1 := InboxSample.msg 1 0 in let m2 := InboxSample.msg 1 1 in
  ∃ M', represents (apply_effects (λ _, env) 0 db ([m1; m2] ≫= deliverMessage InboxSample.ep InboxSample.clock)) M' ∧
    ∃ n, M' !! incoming_id m2 = Some (set_id (incoming_message InboxSample.ep m1) n).
Proof.
  intros m1 m2.
  destruct (delivered_messages_stored InboxSample.ep InboxSample.clock (λ _, env) eq_refl (λ _, env_fine) [m1; m2] db ∅ 0) as (M' & Hr & Hid).
  - destruct (new_represents [112; 119] db None None None) as [Hr _]; [vm_compute; reflexivity|vm_compute; reflexivity|exact Hr].
  - exists M'. split; [exact Hr|]. specialize (Hid (incoming_id m2)). rewrite lookup_empty in Hid. exact Hid.
Defined.
End witnesses.
