(* ===== verification/MeshMigration.v ===== *)
(** * Versions of the chunk database: pkg/meshstorage/migration.go, and
    NewLocalStorage of storage.go

    Of the SQLite database the schema matters here: whether the table of chunks is
    there, and the rows of the table of versions.  Directories are trees; every
    access can fail, and a statement that fails may have done its first half.
    Backups are siblings of the data directory: [Siblings] is their parent. *)

From S2P Require Import Prelude GoBytes DhtStore MeshVersion SessionStore.

Definition CurrentSchemaVersion : Z := 1.
Definition MinSchemaVersion : Z := 1.

(** [sd_versions]: the rows of schema_version in the order of their ROWIDs *)
Record SchemaDb := mkSchemaDb { sd_chunks : bool; sd_versions : option (list Z) }.

(** ** Files *)

Inductive tree := File (data : list Z) | Dir (entries : list (gostring * tree)).
Abbreviation Siblings := (gmap gostring tree).

(** what the operating system does with each path; a removal that fails may leave
    anything *)
Record fs := mkFs {
  fs_mkdir : list gostring → option string; fs_readdir : list gostring → option string;
  fs_read : list gostring → option string; fs_write : list gostring → write_fault;
  fs_remove : option (option tree * string) }.
Definition fs_ok : fs := mkFs (λ _, None) (λ _, None) (λ _, None) (λ _, Written) None.

Fixpoint entry (here : list (gostring * tree)) (name : gostring) : option tree :=
  match here with
  | [] => None
  | (n, t) :: here' => if bool_decide (n = name) then Some t else entry here' name
  end.
Fixpoint set_entry (here : list (gostring * tree)) (name : gostring) (t : tree) : list (gostring * tree) :=
  match here with
  | [] => [(name, t)]
  | (n, t') :: here' => if bool_decide (n = name) then (n, t) :: here' else (n, t') :: set_entry here' name t
  end.

Definition is_dir (t : tree) : bool := match t with Dir _ => true | File _ => false end.

(** [filepath.Ext]: from the last dot *)
Fixpoint file_ext (name : gostring) : gostring :=
  match name with
  | [] => []
  | b :: name' => match file_ext name' with
                  | [] => if b =? 46 then name else []
                  | e => e
                  end
  end.
Definition skip_dir (base : gostring) : bool :=
  bool_decide (base = string_bytes ".backup") || bool_decide (file_ext base = string_bytes ".backup")
  || contains [base] (string_bytes "backup").

(** reads the source, then truncates and writes *)
Definition copyFile (f : fs) (path : list gostring) (data : list Z) (dst : option tree) : option tree * outcome unit :=
  match fs_read f path with
  | Some e => (dst, Err e)
  | None =>
      match dst with
      | Some (Dir _) => (dst, Err "is a directory")
      | _ =>
          match fs_write f path with
          | Written => (Some (File data), Ok tt)
          | NotOpened e => (dst, Err e)
          | Cut n e => (Some (File (take n data)), Err e)
          end
      end
  end.

(** [src] into what is at the destination, which stays as far as it was copied *)
Fixpoint copyDir (f : fs) (path : list gostring) (src : tree) (dst : option tree) : option tree * outcome unit :=
  match src with
  | File data => copyFile f path data dst
  | Dir entries =>
      match fs_mkdir f path, dst with
      | Some e, _ => (dst, Err e)
      | None, Some (File _) => (dst, Err "not a directory")
      | None, _ =>
          let here := match dst with Some (Dir l) => l | _ => [] end in
          match fs_readdir f path with
          | Some e => (Some (Dir here), Err e)
          | None =>
              let '(here, r) :=
                (fix copy_entries (entries here : list (gostring * tree)) : list (gostring * tree) * outcome unit :=
                   match entries with
                   | [] => (here, Ok tt)
                   | (name, t) :: entries' =>
                       if is_dir t && skip_dir name then copy_entries entries' here
                       else
                         let '(new, r) := copyDir f (path ++ [name]) t (entry here name) in
                         let here := match new with Some t' => set_entry here name t' | None => here end in
                         match r with Ok _ => copy_entries entries' here | _ => (here, r) end
                   end) entries here in
              (Some (Dir here), r)
          end
      end
  end.

(** a directory of the parent into another; the destination is made first *)
Definition copy_sibling (f : fs) (d : Siblings) (src dst : gostring) : Siblings * outcome unit :=
  match d !! src with
  | Some (Dir entries) =>
      let '(new, r) := copyDir f [dst] (Dir entries) (d !! dst) in
      (match new with Some t => <[dst := t]> d | None => d end, r)
  | _ =>
      match fs_mkdir f [dst], d !! dst with
      | Some e, _ => (d, Err e)
      | None, Some (File _) => (d, Err "not a directory")
      | None, Some (Dir _) => (d, Err "no such directory")
      | None, None => (<[dst := Dir []]> d, Err "no such directory")
      end
  end.

(** [stamp]: the time as 20060102_150405 *)
Definition backup_name (dataDir stamp : gostring) : gostring := dataDir ++ string_bytes ".backup_" ++ stamp.
Definition createBackup (f : fs) (d : Siblings) (dataDir stamp : gostring) : Siblings * outcome gostring :=
  let backupDir := backup_name dataDir stamp in
  let '(d, r) := copy_sibling f d dataDir backupDir in
  (d, _ ← wrap_err "failed to copy data directory: " r; Ok backupDir).

Definition RestoreFromBackup (f : fs) (d : Siblings) (backupDir targetDir : gostring) : Siblings * outcome unit :=
  match d !! backupDir with
  | None => (d, Err ("backup directory does not exist: " +:+ bytes_string backupDir))
  | Some _ =>
      match fs_remove f with
      | Some (rest, e) =>
          (match rest with Some t => <[targetDir := t]> d | None => delete targetDir d end,
           Err ("failed to remove current data directory: " +:+ e))
      | None =>
          let '(d, r) := copy_sibling f (delete targetDir d) backupDir targetDir in
          (d, wrap_err "failed to restore from backup: " r)
      end
  end.

(** ** Versions *)

(** the statements of one call: [Some e] fails; the flag of [me_up] says whether the
    table was made before the failure *)
Record menv := mkMenv {
  me_check : option string; me_select : option string; me_tables : gostring → option string;
  me_up : Z → option (bool * string); me_record : Z → option string; me_fs : fs; me_stamp : gostring }.

Definition GetSchemaVersion (e : menv) (db : SchemaDb) : outcome Z :=
  match me_check e with
  | Some t => Err ("failed to check schema_version table: " +:+ t)
  | None =>
      match sd_versions db with
      | None => Ok 0
      | Some rows =>
          match me_select e with
          | Some t => Err ("failed to get schema version: " +:+ t)
          | None => Ok (default 0 (last rows))
          end
      end
  end.

Definition setSchemaVersion (e : menv) (db : SchemaDb) (version : Z) : SchemaDb * outcome unit :=
  match me_record e version, sd_versions db with
  | Some t, _ => (db, Err ("failed to set schema version: " +:+ t))
  | None, None => (db, Err "failed to set schema version: no such table: schema_version")
  | None, Some rows => (mkSchemaDb (sd_chunks db) (Some (rows ++ [version])), Ok tt)
  end.

Definition NeedsMigration (e : menv) (db : SchemaDb) : outcome (bool * Z * Z) :=
  currentVersion ← GetSchemaVersion e db;
  Ok (currentVersion <? CurrentSchemaVersion, currentVersion, CurrentSchemaVersion).

(** CREATE TABLE IF NOT EXISTS *)
Definition make_versions (db : SchemaDb) : SchemaDb := mkSchemaDb (sd_chunks db) (Some (default [] (sd_versions db))).
Definition migration1Up (e : menv) (db : SchemaDb) : SchemaDb * outcome unit :=
  match me_up e 1 with
  | Some (made, t) => (if made : bool then make_versions db else db, Err ("failed to create schema_version table: " +:+ t))
  | None => (make_versions db, Ok tt)
  end.
(** DROP TABLE IF EXISTS *)
Definition migration1Down (fault : option string) (db : SchemaDb) : SchemaDb * outcome unit :=
  match fault with
  | Some t => (db, Err t)
  | None => (mkSchemaDb (sd_chunks db) None, Ok tt)
  end.

Record Migration := mkMigration { mg_Version : Z; mg_Up : menv → SchemaDb → SchemaDb * outcome unit }.
Definition migrations : list Migration := [mkMigration 1 migration1Up].

Fixpoint run_pending (e : menv) (db : SchemaDb) (currentVersion : Z) (backup : gostring) (ms : list Migration)
  : SchemaDb * outcome unit :=
  match ms with
  | [] => (db, Ok tt)
  | m :: ms' =>
      if mg_Version m <=? currentVersion then run_pending e db currentVersion backup ms'
      else if CurrentSchemaVersion <? mg_Version m then (db, Ok tt)
      else
        match mg_Up m e db with
        | (db, Err t) => (db, Err ("migration " +:+ pretty (mg_Version m) +:+ " failed: " +:+ t +:+
                                  " (backup available at " +:+ bytes_string backup +:+ ")"))
        | (db, Panic) => (db, Panic)
        | (db, Ok _) =>
            match setSchemaVersion e db (mg_Version m) with
            | (db, Err t) => (db, Err ("failed to record migration " +:+ pretty (mg_Version m) +:+ ": " +:+ t))
            | (db, Panic) => (db, Panic)
            | (db, Ok _) => run_pending e db currentVersion backup ms'
            end
        end
  end.

Definition RunMigrations (e : menv) (db : SchemaDb) (d : Siblings) (dataDir : gostring) : SchemaDb * Siblings * outcome unit :=
  match GetSchemaVersion e db with
  | Err t => (db, d, Err ("failed to get current schema version: " +:+ t))
  | Panic => (db, d, Panic)
  | Ok currentVersion =>
      if currentVersion =? CurrentSchemaVersion then (db, d, Ok tt)
      else if CurrentSchemaVersion <? currentVersion then
        (db, d, Err ("database schema version (" +:+ pretty currentVersion +:+ ") is newer than supported version (" +:+
                     pretty CurrentSchemaVersion +:+ ") - please upgrade software"))
      else
        match createBackup (me_fs e) d dataDir (me_stamp e) with
        | (d, Err t) => (db, d, Err ("failed to create backup: " +:+ t))
        | (d, Panic) => (db, d, Panic)
        | (d, Ok backup) => let '(db, r) := run_pending e db currentVersion backup migrations in (db, d, r)
        end
  end.

(** the tables in the order they are looked for *)
Definition table_exists (db : SchemaDb) (table : gostring) : bool :=
  if bool_decide (table = string_bytes "chunks") then sd_chunks db
  else bool_decide (is_Some (sd_versions db)).
Fixpoint check_tables (e : menv) (db : SchemaDb) (tables : list gostring) : outcome unit :=
  match tables with
  | [] => Ok tt
  | table :: tables' =>
      match me_tables e table with
      | Some t => Err ("failed to check table " +:+ bytes_string table +:+ ": " +:+ t)
      | None => if table_exists db table then check_tables e db tables'
                else Err ("required table missing: " +:+ bytes_string table)
      end
  end.
Definition ValidateSchema (e : menv) (db : SchemaDb) : outcome unit :=
  version ← GetSchemaVersion e db;
  if version <? MinSchemaVersion then
    Err ("schema version " +:+ pretty version +:+ " is too old (minimum: " +:+ pretty MinSchemaVersion +:+ ") - migration required")
  else if CurrentSchemaVersion <? version then
    Err ("schema version " +:+ pretty version +:+ " is too new (current: " +:+ pretty CurrentSchemaVersion +:+
         ") - software upgrade required")
  else check_tables e db (string_bytes <$> ["chunks"; "schema_version"]).

(** ** storage.go: opening the database *)

(** [ne_create]: the statement that makes the table of chunks *)
Record nenv := mkNenv { ne_mkdir : option string; ne_open : option string; ne_create : option (bool * string) }.

(** [None]: there is no file *)
Definition NewLocalStorage (n : nenv) (e : menv) (file : option SchemaDb) (d : Siblings) (dataDir : gostring)
  : option SchemaDb * Siblings * outcome unit :=
  match ne_mkdir n, ne_open n with
  | Some t, _ => (file, d, Err ("failed to create data directory: " +:+ t))
  | None, Some t => (file, d, Err ("failed to open database: " +:+ t))
  | None, None =>
      match file with
      | None =>
          match ne_create n with
          | Some (made, t) => (Some (mkSchemaDb made None), d, Err ("failed to create schema: " +:+ t))
          | None =>
              let '(db, d, r) := RunMigrations e (mkSchemaDb true None) d dataDir in
              (Some db, d, wrap_err "failed to initialize schema version: " r)
          end
      | Some db =>
          match wrap_err "failed to check migration status: " (NeedsMigration e db) with
          | Err t => (Some db, d, Err t)
          | Panic => (Some db, d, Panic)
          | Ok (true, _, _) =>
              let '(db, d, r) := RunMigrations e db d dataDir in
              (Some db, d, wrap_err "failed to run migrations: " r)
          | Ok (false, _, _) => (Some db, d, wrap_err "schema validation failed: " (ValidateSchema e db))
          end
      end
  end.
