(* ===== verification/MeshMigrationProofs.v ===== *)
(** * Migration ends in the current version and can be taken back

    [migration_resumes], [restore_gives_backup], [opened_database_valid], and
    [interrupted_creation_stuck]. *)

From S2P Require Import Prelude GoBytes DhtStore MeshVersion SessionStore MeshMigration.

(** ** Copying *)

(** induction over a tree and its entries *)
Lemma tree_induction (P : tree → Prop) :
  (∀ data, P (File data)) → (∀ entries, Forall (λ e, P e.2) entries → P (Dir entries)) → ∀ t, P t.
Proof.
  intros HF HD. fix IH 1. intros [data|entries]; [apply HF|]. apply HD.
  induction entries as [|[n t] entries IHe]; constructor; [apply IH|apply IHe].
Qed.

(** the tree without the directories that are skipped *)
Fixpoint pruned (t : tree) : tree :=
  match t with
  | File data => File data
  | Dir entries =>
      Dir ((fix go (entries : list (gostring * tree)) : list (gostring * tree) :=
              match entries with
              | [] => []
              | (name, t) :: entries' => if is_dir t && skip_dir name then go entries' else (name, pruned t) :: go entries'
              end) entries)
  end.
Definition pruned_entries (entries : list (gostring * tree)) : list (gostring * tree) :=
  prod_map id pruned <$> filter (λ e, is_dir e.2 && skip_dir e.1 = false) entries.
Lemma pruned_dir entries : pruned (Dir entries) = Dir (pruned_entries entries).
Proof.
  cbn. f_equal. induction entries as [|[name t] entries IH]; [done|]. unfold pruned_entries. rewrite filter_cons. cbn [fst snd].
  destruct (is_dir t && skip_dir name); [rewrite decide_False by done; exact IH|]. rewrite decide_True by done. cbn. f_equal. exact IH.
Qed.

(** names are unique in every directory *)
Inductive tree_ok : tree → Prop :=
| file_ok data : tree_ok (File data)
| dir_ok entries : NoDup entries.*1 → Forall (λ e, tree_ok e.2) entries → tree_ok (Dir entries).

Definition copy_entries (f : fs) (path : list gostring) :=
  fix copy_entries (entries here : list (gostring * tree)) : list (gostring * tree) * outcome unit :=
    match entries with
    | [] => (here, Ok tt)
    | (name, t) :: entries' =>
        if is_dir t && skip_dir name then copy_entries entries' here
        else
          let '(new, r) := copyDir f (path ++ [name]) t (entry here name) in
          let here := match new with Some t' => set_entry here name t' | None => here end in
          match r with Ok _ => copy_entries entries' here | _ => (here, r) end
    end.

Lemma entry_none here name : name ∉ here.*1 → entry here name = None.
Proof.
  induction here as [|[n t] here IH]; [done|]. cbn. rewrite not_elem_of_cons. intros [Hne Hn]. rewrite bool_decide_false by done.
  by apply IH.
Qed.
Lemma set_entry_new here name t : name ∉ here.*1 → set_entry here name t = here ++ [(name, t)].
Proof.
  induction here as [|[n t'] here IH]; [done|]. cbn. rewrite not_elem_of_cons. intros [Hne Hn]. rewrite bool_decide_false by done.
  by rewrite IH.
Qed.

Lemma copy_entries_ok path entries : ∀ here,
  Forall (λ e, ∀ path, copyDir fs_ok path e.2 None = (Some (pruned e.2), Ok tt)) entries → NoDup (here.*1 ++ entries.*1) →
  copy_entries fs_ok path entries here = (here ++ pruned_entries entries, Ok tt).
Proof.
  induction entries as [|[name t] entries IH]; intros here Hf Hn; [by rewrite app_nil_r|].
  apply Forall_cons in Hf as [Ht Hf]. cbn [fst snd fmap list_fmap] in *. cbn [copy_entries]. unfold pruned_entries.
  rewrite filter_cons. cbn [fst snd].
  assert (name ∉ here.*1) as Hnin by (apply NoDup_app in Hn as (_ & Hd & _); intros Hin; apply (Hd name Hin); by left).
  destruct (is_dir t && skip_dir name) eqn:E.
  - rewrite decide_False by done. apply IH; [done|]. rewrite <- Permutation_middle in Hn. by apply NoDup_cons in Hn as [_ ?].
  - rewrite decide_True by done. rewrite entry_none, Ht, set_entry_new by done. rewrite IH; [|done|].
    + f_equal. rewrite <- app_assoc. done.
    + rewrite fmap_app, <- app_assoc. exact Hn.
Qed.

Lemma copy_fresh t : tree_ok t → ∀ path, copyDir fs_ok path t None = (Some (pruned t), Ok tt).
Proof.
  induction t as [data|entries IH] using tree_induction; intros Hok path; [done|]. inversion Hok as [|? Hn Hf]; subst.
  change (copyDir fs_ok path (Dir entries) None)
    with (let '(here, r) := copy_entries fs_ok path entries [] in (Some (Dir here), r)).
  rewrite copy_entries_ok, pruned_dir; [done| |done].
  apply Forall_forall. intros e He p. rewrite Forall_forall in IH, Hf. by apply IH, Hf.
Qed.

(** no directory is skipped *)
Inductive no_backups : tree → Prop :=
| no_backups_file data : no_backups (File data)
| no_backups_dir entries :
    Forall (λ e, is_dir e.2 && skip_dir e.1 = false ∧ no_backups e.2) entries → no_backups (Dir entries).

Lemma pruned_clean t : no_backups t → pruned t = t.
Proof.
  induction t as [data|entries IH] using tree_induction; intros Hc; [done|]. inversion Hc as [|? Hf]; subst.
  rewrite pruned_dir. f_equal. unfold pruned_entries. rewrite filter_all by (intros e He; rewrite Forall_forall in Hf; by apply Hf).
  clear Hc. induction entries as [|[n t] entries IHe]; [done|]. apply Forall_cons in IH as [IHt IH], Hf as [[_ Ht] Hf].
  cbn in *. rewrite IHt by done. f_equal. by apply IHe.
Qed.

(** ** Migrating *)

Definition calm (stamp : gostring) : menv :=
  mkMenv None None (λ _, None) (λ _, None) (λ _, None) fs_ok stamp.
Definition version_of (db : SchemaDb) : Z := default 0 (sd_versions db ≫= last).

Lemma get_version_calm stamp db : GetSchemaVersion (calm stamp) db = Ok (version_of db).
Proof. unfold GetSchemaVersion, version_of. cbn. by destruct (sd_versions db). Qed.
Lemma get_version e db v : GetSchemaVersion e db = Ok v → v = version_of db.
Proof. unfold GetSchemaVersion, version_of. destruct (me_check e); [done|]. destruct (sd_versions db); [destruct (me_select e); [done|]|]; by intros [= <-]. Qed.

Lemma backup_name_ne dataDir stamp : backup_name dataDir stamp ≠ dataDir.
Proof.
  unfold backup_name. intros E. apply (f_equal length) in E. rewrite !length_app in E. cbn in E. lia.
Qed.

Lemma copy_keeps f d src dst d' r : src ≠ dst → copy_sibling f d src dst = (d', r) → d' !! src = d !! src.
Proof.
  intros Hne. unfold copy_sibling. destruct (d !! src) as [[data|entries]|] eqn:E.
  - repeat case_match; intros; simplify_eq; rewrite ?lookup_insert_ne by done; done.
  - destruct (copyDir _ _ _ _) as [[t|] r']; intros [= <- _]; rewrite ?lookup_insert_ne by done; done.
  - repeat case_match; intros; simplify_eq; rewrite ?lookup_insert_ne by done; done.
Qed.
Lemma backup_keeps f d dataDir stamp d' r : createBackup f d dataDir stamp = (d', r) → d' !! dataDir = d !! dataDir.
Proof.
  unfold createBackup. destruct (copy_sibling _ _ _ _) as [d1 r1] eqn:E. intros [= <- _].
  eapply copy_keeps; [|exact E]. symmetry. apply backup_name_ne.
Qed.

(** one pending migration, whatever fails *)
Lemma run_pending_cases e db v backup db' r : v < CurrentSchemaVersion → run_pending e db v backup migrations = (db', r) →
  sd_chunks db' = sd_chunks db ∧
  ((r = Ok tt ∧ version_of db' = CurrentSchemaVersion) ∨ (r ≠ Ok tt ∧ version_of db' = version_of db)).
Proof.
  intros Hv. unfold CurrentSchemaVersion in Hv. unfold migrations. cbn [run_pending mg_Version mg_Up].
  destruct (Z.leb_spec 1 v); [lia|]. cbn [CurrentSchemaVersion Z.ltb Z.compare Pos.compare Pos.compare_cont]. unfold migration1Up.
  assert (version_of (make_versions db) = version_of db) as Hmade by (unfold version_of, make_versions; cbn; by destruct (sd_versions db)).
  destruct (me_up e 1) as [[made t]|].
  - intros [= <- <-]. destruct made; cbn; (split; [done|]); right; split; done.
  - unfold setSchemaVersion. cbn [make_versions sd_versions sd_chunks]. destruct (me_record e 1).
    + intros [= <- <-]. split; [done|]. by right.
    + intros [= <- <-]. split; [done|]. left. split; [done|]. unfold version_of. cbn. by rewrite last_snoc.
Qed.

Lemma migrate_cases e db d dataDir db' d' r : version_of db ≤ CurrentSchemaVersion →
  RunMigrations e db d dataDir = (db', d', r) →
  sd_chunks db' = sd_chunks db ∧ d' !! dataDir = d !! dataDir ∧
  ((r = Ok tt ∧ version_of db' = CurrentSchemaVersion) ∨ (r ≠ Ok tt ∧ version_of db' = version_of db)).
Proof.
  intros Hv. unfold RunMigrations. destruct (GetSchemaVersion e db) as [v| |] eqn:Eg; [|intros [= <- <- <-]; split_and!; [done|done|by right]..].
  apply get_version in Eg as ->. destruct (Z.eqb_spec (version_of db) CurrentSchemaVersion) as [Ev|Ev].
  { intros [= <- <- <-]. split_and!; [done|done|by left]. }
  destruct (Z.ltb_spec CurrentSchemaVersion (version_of db)); [lia|].
  destruct (createBackup _ _ _ _) as [d1 r1] eqn:Eb. pose proof (backup_keeps _ _ _ _ _ _ Eb) as Hd.
  destruct r1 as [backup|t|]; [|intros [= <- <- <-]; split_and!; [done|done|by right]..].
  destruct (run_pending _ _ _ _ _) as [db1 r1] eqn:Er. intros [= <- <- <-].
  apply run_pending_cases in Er as [Hc Hr]; [by split_and!|lia].
Qed.

Lemma backup_calm d dataDir stamp entries : d !! dataDir = Some (Dir entries) → tree_ok (Dir entries) →
  d !! backup_name dataDir stamp = None →
  createBackup fs_ok d dataDir stamp
  = (<[backup_name dataDir stamp := pruned (Dir entries)]> d, Ok (backup_name dataDir stamp)).
Proof.
  intros Hd Hok Hn. unfold createBackup, copy_sibling. by rewrite Hd, Hn, copy_fresh.
Qed.

Lemma migrate_calm db d dataDir stamp entries : version_of db < CurrentSchemaVersion →
  d !! dataDir = Some (Dir entries) → tree_ok (Dir entries) → d !! backup_name dataDir stamp = None →
  RunMigrations (calm stamp) db d dataDir
  = (mkSchemaDb (sd_chunks db) (Some (default [] (sd_versions db) ++ [CurrentSchemaVersion])),
     <[backup_name dataDir stamp := pruned (Dir entries)]> d, Ok tt).
Proof.
  intros Hv Hd Hok Hn. unfold RunMigrations. rewrite get_version_calm.
  destruct (Z.eqb_spec (version_of db) CurrentSchemaVersion); [lia|]. destruct (Z.ltb_spec CurrentSchemaVersion (version_of db)); [lia|].
  cbn [calm me_fs me_stamp]. rewrite (backup_calm _ _ _ _ Hd Hok Hn). unfold migrations. cbn [run_pending mg_Version mg_Up].
  unfold CurrentSchemaVersion in Hv. destruct (Z.leb_spec 1 (version_of db)); [lia|]. done.
Qed.

(** C23: A run that reports success has reached the current version.  However a run fails,
    the version stays what it was, the chunks and the data directory are untouched,
    and a later run without failures completes it. *)
Theorem migration_resumes (e : menv) (db db1 : SchemaDb) (d d1 : Siblings) (dataDir stamp : gostring) (r : outcome unit)
    (entries : list (gostring * tree)) :
  version_of db ≤ CurrentSchemaVersion → d !! dataDir = Some (Dir entries) → tree_ok (Dir entries) →
  RunMigrations e db d dataDir = (db1, d1, r) → d1 !! backup_name dataDir stamp = None →
  (r = Ok tt → version_of db1 = CurrentSchemaVersion) ∧ (r ≠ Ok tt → version_of db1 = version_of db) ∧
  ∃ db2 d2, RunMigrations (calm stamp) db1 d1 dataDir = (db2, d2, Ok tt) ∧ version_of db2 = CurrentSchemaVersion ∧
    sd_chunks db2 = sd_chunks db ∧ d2 !! dataDir = Some (Dir entries).
Proof.
  intros Hv Hd Hok E Hn. destruct (migrate_cases _ _ _ _ _ _ _ Hv E) as (Hc & Hd1 & Hr). rewrite Hd in Hd1.
  assert (version_of db1 ≤ CurrentSchemaVersion) as Hv1 by (destruct Hr as [[_ ->]|[_ ->]]; lia).
  split_and!; [destruct Hr as [[_ ->]|[? _]]; done|destruct Hr as [[-> _]|[_ ->]]; done|].
  destruct (decide (version_of db1 = CurrentSchemaVersion)) as [Ev|Ev].
  - exists db1, d1. split_and!; [|done..]. unfold RunMigrations. rewrite get_version_calm. by rewrite Ev.
  - rewrite (migrate_calm db1 d1 dataDir stamp entries) by (done || lia). do 2 eexists. split; [done|]. split_and!; [|done|].
    + unfold version_of. cbn. by rewrite last_snoc.
    + rewrite lookup_insert_ne; [done|apply backup_name_ne].
Qed.

(** C24: A migration copies the data directory first.  Whatever happens to the directory
    afterwards, restoring that copy gives the directory back as it was - if no
    directory in it has a name that is skipped. *)
Theorem restore_gives_backup (db : SchemaDb) (d d' : Siblings) (dataDir stamp : gostring) (entries : list (gostring * tree)) :
  version_of db < CurrentSchemaVersion → d !! dataDir = Some (Dir entries) → tree_ok (Dir entries) →
  no_backups (Dir entries) → d !! backup_name dataDir stamp = None →
  let '(_, d1, _) := RunMigrations (calm stamp) db d dataDir in
  d' !! backup_name dataDir stamp = d1 !! backup_name dataDir stamp →
  RestoreFromBackup fs_ok d' (backup_name dataDir stamp) dataDir = (<[dataDir := Dir entries]> d', Ok tt).
Proof.
  intros Hv Hd Hok Hc Hn. rewrite (migrate_calm db d dataDir stamp entries) by done. rewrite lookup_insert_eq, pruned_clean by done.
  intros E. unfold RestoreFromBackup. rewrite E. cbn [fs_ok fs_remove]. unfold copy_sibling.
  rewrite lookup_delete_ne by (symmetry; apply backup_name_ne). rewrite E, lookup_delete_eq.
  rewrite copy_fresh, pruned_clean by done. cbn [wrap_err]. by rewrite insert_delete_eq.
Qed.

(** A new database is valid, and opening it again changes nothing. *)
Theorem opened_database_valid (d d' : Siblings) (dataDir stamp stamp' : gostring) (entries : list (gostring * tree)) (db : SchemaDb) :
  d !! dataDir = Some (Dir entries) → tree_ok (Dir entries) → d !! backup_name dataDir stamp = None →
  NewLocalStorage (mkNenv None None None) (calm stamp) None d dataDir = (Some db, d', Ok tt) →
  sd_chunks db = true ∧ version_of db = CurrentSchemaVersion ∧ ValidateSchema (calm stamp') db = Ok tt ∧
  NewLocalStorage (mkNenv None None None) (calm stamp') (Some db) d' dataDir = (Some db, d', Ok tt).
Proof.
  intros Hd Hok Hn. cbn [NewLocalStorage ne_mkdir ne_open ne_create]. rewrite (migrate_calm _ d dataDir stamp entries) by done.
  by intros [= <- <-].
Qed.

(** A first start that stops after the file was made but before its tables were
    leaves a database that the second start opens without the table of chunks,
    and that every later start refuses. *)
Theorem interrupted_creation_stuck (d : Siblings) (dataDir stamp : gostring) (entries : list (gostring * tree)) (t : string) (e : menv) :
  d !! dataDir = Some (Dir entries) → tree_ok (Dir entries) → d !! backup_name dataDir stamp = None →
  let '(file, d0, _) := NewLocalStorage (mkNenv None None (Some (false, t))) e None d dataDir in
  ∃ db d1, NewLocalStorage (mkNenv None None None) (calm stamp) file d0 dataDir = (Some db, d1, Ok tt) ∧ sd_chunks db = false ∧
    ∀ stamp' d2, NewLocalStorage (mkNenv None None None) (calm stamp') (Some db) d2 dataDir
      = (Some db, d2, Err "schema validation failed: required table missing: chunks").
Proof.
  intros Hd Hok Hn. cbn [NewLocalStorage ne_mkdir ne_open ne_create]. unfold NeedsMigration. rewrite get_version_calm.
  cbn [mbind outcome_bind wrap_err]. change (version_of (mkSchemaDb false None) <? CurrentSchemaVersion) with true. cbv iota.
  rewrite (migrate_calm _ d dataDir stamp entries) by done. cbn [wrap_err]. do 2 eexists. split_and!; [done|done|]. by intros stamp' d2.
Qed.

(** ** Witnesses *)

Module MigrationSample.
Definition dataDir : gostring := string_bytes "data".
Definition stamp : gostring := string_bytes "20250101_000000".
Definition entries : list (gostring * tree) := [(string_bytes "chunks.db", File [1; 2; 3]); (string_bytes "keys", Dir [(string_bytes "id", File [4])])].
Definition disk : Siblings := {[dataDir := Dir entries]}.
Definition fails : menv := mkMenv None None (λ _, None) (λ _, Some (true, "disk I/O error")) (λ _, None) fs_ok (string_bytes "20240101_000000").
End MigrationSample.
Import MigrationSample.

Lemma sample_tree_ok : tree_ok (Dir entries).
Proof. repeat first [apply dir_ok|apply file_ok|constructor|by_decision]. Qed.
Lemma sample_no_backups : no_backups (Dir entries).
Proof. repeat first [apply no_backups_dir|apply no_backups_file|constructor|reflexivity]. Qed.

Lemma migration_resumes_witness :
  let '(db1, d1, r) := RunMigrations fails (mkSchemaDb true None) disk dataDir in
  version_of db1 = 0 ∧
  ∃ db2 d2, RunMigrations (calm stamp) db1 d1 dataDir = (db2, d2, Ok tt) ∧ version_of db2 = CurrentSchemaVersion.
Proof.
  destruct (RunMigrations fails (mkSchemaDb true None) disk dataDir) as [[db1 d1] r] eqn:E.
  pose proof (migration_resumes fails (mkSchemaDb true None) db1 disk d1 dataDir stamp r entries) as Hm.
  assert (r ≠ Ok tt) as Hr by (apply (f_equal snd) in E; cbn [snd] in E; rewrite <- E; vm_compute; discriminate).
  assert (d1 !! backup_name dataDir stamp = None) as Hn
    by (apply (f_equal (snd ∘ fst)) in E; cbn [snd fst compose] in E; rewrite <- E; vm_compute; reflexivity).
  destruct Hm as (_ & Hv & db2 & d2 & H2 & Hv2 & _).
  - vm_compute. discriminate.
  - reflexivity.
  - apply sample_tree_ok.
  - exact E.
  - exact Hn.
  - split; [exact (Hv Hr)|]. exists db2, d2. split; [exact H2|exact Hv2].
Defined.

Lemma restore_gives_backup_witness :
  let '(_, d1, _) := RunMigrations (calm stamp) (mkSchemaDb true None) disk dataDir in
  RestoreFromBackup fs_ok (delete dataDir d1) (backup_name dataDir stamp) dataDir = (<[dataDir := Dir entries]> (delete dataDir d1), Ok tt).
Proof.
  pose proof (restore_gives_backup (mkSchemaDb true None) disk
    (delete dataDir (RunMigrations (calm stamp) (mkSchemaDb true None) disk dataDir).1.2) dataDir stamp entries) as Hr.
  destruct (RunMigrations (calm stamp) (mkSchemaDb true None) disk dataDir) as [[db1 d1] r]. cbn [fst snd] in Hr. apply Hr.
  - reflexivity.
  - reflexivity.
  - apply sample_tree_ok.
  - apply sample_no_backups.
  - reflexivity.
  - apply lookup_delete_ne. symmetry. apply backup_name_ne.
Defined.

Lemma opened_database_valid_witness :
  ∃ db d', NewLocalStorage (mkNenv None None None) (calm stamp) None disk dataDir = (Some db, d', Ok tt) ∧
    ValidateSchema (calm stamp) db = Ok tt ∧
    NewLocalStorage (mkNenv None None None) (calm stamp) (Some db) d' dataDir = (Some db, d', Ok tt).
Proof.
  destruct (NewLocalStorage (mkNenv None None None) (calm stamp) None disk dataDir) as [[[db|] d'] r] eqn:E.
  - assert (r = Ok tt) as -> by (apply (f_equal snd) in E; cbn [snd] in E; rewrite <- E; vm_compute; reflexivity).
    exists db, d'. pose proof (opened_database_valid disk d' dataDir stamp stamp entries db) as Hv.
    destruct Hv as (_ & _ & Hv & Hn); [reflexivity|apply sample_tree_ok|reflexivity|exact E|].
    split; [reflexivity|]. split; [exact Hv|exact Hn].
  - exfalso. apply (f_equal (fst ∘ fst)) in E. by vm_compute in E.
Defined.

Lemma interrupted_creation_stuck_witness :
  ∃ db d1, NewLocalStorage (mkNenv None None None) (calm stamp) (Some (mkSchemaDb false None)) disk dataDir = (Some db, d1, Ok tt) ∧
    ∀ stamp' d2, NewLocalStorage (mkNenv None None None) (calm stamp') (Some db) d2 dataDir
      = (Some db, d2, Err "schema validation failed: required table missing: chunks").
Proof.
  destruct (interrupted_creation_stuck disk dataDir stamp entries "killed" fails) as (db & d1 & H1 & _ & H2).
  - reflexivity.
  - apply sample_tree_ok.
  - reflexivity.
  - exists db, d1. split; [exact H1|exact H2].
Defined.
