(* ===== verification/ApiMiddleware.v ===== *)
(** * The middleware of the HTTP API: pkg/meshstorage/api/middleware.go

    Responses, the rate limiter and the other filters a request passes.  Times
    are nanoseconds; a function that reads the clock twice has both readings as
    arguments.  The global limiter is state of the process: [None] before the
    first server is created.  Logging only prints and is left out. *)

From S2P Require Import Prelude GoBytes DhtStore.

Record ErrorResponse := mkErrorResponse { er_Error : string; er_Message : string; er_Code : string }.
Record SuccessResponse := mkSuccessResponse { sr_Success : bool; sr_Message : string }.

(** ** The rate limiter *)

Record RequestCounter := mkRequestCounter { rc_count : Z; rc_resetTime : Z }.
Record RateLimiter := mkRateLimiter {
  rl_requests : gmap gostring RequestCounter; rl_limit : Z; rl_window : Z }.

Definition Minute : Z := 60 * Second.

Definition NewRateLimiter (requestsPerMinute : Z) : RateLimiter := mkRateLimiter ∅ requestsPerMinute Minute.

Definition set_counter (rl : RateLimiter) (ip : gostring) (c : RequestCounter) : RateLimiter :=
  mkRateLimiter (<[ip := c]> (rl_requests rl)) (rl_limit rl) (rl_window rl).

(** [now]: the reading that is compared; [now']: the one a window is counted from *)
Definition Allow (rl : RateLimiter) (ip : gostring) (now now' : Z) : RateLimiter * bool :=
  match rl_requests rl !! ip with
  | None => (set_counter rl ip (mkRequestCounter 1 (now' + rl_window rl)), true)
  | Some counter =>
      if rc_resetTime counter <? now then
        (set_counter rl ip (mkRequestCounter 1 (now' + rl_window rl)), true)
      else if rl_limit rl <=? rc_count counter then (rl, false)
      else (set_counter rl ip (mkRequestCounter (s64 (rc_count counter + 1)) (rc_resetTime counter)), true)
  end.

(** one tick of [cleanup] *)
Definition cleanup_tick (rl : RateLimiter) (now : Z) : RateLimiter :=
  mkRateLimiter (filter (λ kc, ¬ rc_resetTime kc.2 < now) (rl_requests rl)) (rl_limit rl) (rl_window rl).

(** ** The filters

    [None]: the request goes on to the next handler. *)

Inductive filter_response :=
  | NoContent
  | TooManyRequests (message : string)
  | Unauthorized (error : string).

Definition CORSMiddleware (method : string) : option filter_response :=
  if bool_decide (method = "OPTIONS"%string) then Some NoContent else None.

(** the first server of the process creates the limiter, the others share it *)
Definition RateLimitMiddleware (globalRateLimiter : option RateLimiter) (requestsPerMinute : Z) : RateLimiter :=
  match globalRateLimiter with
  | None => NewRateLimiter requestsPerMinute
  | Some rl => rl
  end.
(** the handler it returns *)
Definition rate_limit (globalRateLimiter : RateLimiter) (requestsPerMinute : Z) (ip : gostring) (now now' : Z)
  : RateLimiter * option filter_response :=
  let '(rl, allowed) := Allow globalRateLimiter ip now now' in
  (rl, if negb allowed then Some (TooManyRequests ("Maximum " +:+ pretty requestsPerMinute +:+ " requests per minute"))
       else None).

Definition AuthMiddleware (validAPIKeys : gmap gostring bool) (apiKey : gostring) : option filter_response :=
  if bool_decide (apiKey = []) then Some (Unauthorized "Missing API key")
  else if negb (default false (validAPIKeys !! apiKey)) then Some (Unauthorized "Invalid API key")
  else None.

(** ** Runs of the limiter *)

Inductive limiter_event := Request (ip : gostring) (now now' : Z) | Tick (now : Z).

(** the requests that were allowed, with their times, the last one first *)
Definition limiter_step (st : RateLimiter * list (gostring * Z)) (ev : limiter_event) : RateLimiter * list (gostring * Z) :=
  match ev with
  | Request ip now now' =>
      let '(rl, allowed) := Allow st.1 ip now now' in (rl, if allowed then (ip, now') :: st.2 else st.2)
  | Tick now => (cleanup_tick st.1 now, st.2)
  end.
Definition limiter_run (rl : RateLimiter) (evs : list limiter_event) : RateLimiter * list (gostring * Z) :=
  foldl limiter_step (rl, []) evs.

(** how many requests of an address were allowed, from a time on *)
Definition allowed_since (ip : gostring) (t : Z) (log : list (gostring * Z)) : Z :=
  len (filter (λ r, r.1 = ip ∧ t ≤ r.2) log).
Definition allowed_total (ip : gostring) (log : list (gostring * Z)) : Z := len (filter (λ r, r.1 = ip) log).

Definition ev_first (ev : limiter_event) : Z := match ev with Request _ now _ | Tick now => now end.
Definition ev_last (ev : limiter_event) : Z := match ev with Request _ _ now' => now' | Tick now => now end.

(** the clock does not go back *)
Fixpoint clock_ok (t : Z) (evs : list limiter_event) : Prop :=
  match evs with
  | [] => True
  | ev :: evs' => t ≤ ev_first ev ≤ ev_last ev ∧ clock_ok (ev_last ev) evs'
  end.
Definition clock_end (t : Z) (evs : list limiter_event) : Z := foldl (λ _ ev, ev_last ev) t evs.

(** every reading is in a span of one window *)
Definition within (rl : RateLimiter) (t : Z) (evs : list limiter_event) : Prop :=
  Forall (λ ev, t ≤ ev_first ev ≤ t + rl_window rl ∧ t ≤ ev_last ev) evs.

Lemma len_filter_cons {A} (P : A → Prop) `{∀ x, Decision (P x)} x l :
  len (filter P (x :: l)) = (if decide (P x) then 1 else 0) + len (filter P l).
Proof. rewrite filter_cons. unfold len. case_decide; cbn [length]; lia. Qed.

Lemma s64_small z : 0 ≤ z < 2 ^ 62 → s64 z = z.
Proof. intros Hz. apply s64_id. lia. Qed.

(** *** At most so many *)

(** what an address may still do before its window ends *)
Definition room (rl : RateLimiter) (counter : RequestCounter) : Z := Z.max 0 (rl_limit rl - rc_count counter).
Definition positive_counters (rl : RateLimiter) : Prop :=
  rl_limit rl < 2 ^ 62 ∧ map_Forall (λ _ c, 1 ≤ rc_count c < 2 ^ 62) (rl_requests rl).

Lemma Allow_keeps rl ip now now' :
  (Allow rl ip now now').1 = mkRateLimiter (rl_requests (Allow rl ip now now').1) (rl_limit rl) (rl_window rl).
Proof. unfold Allow. repeat case_match; by destruct rl. Qed.

Lemma step_keeps st ev : rl_limit (limiter_step st ev).1 = rl_limit st.1 ∧ rl_window (limiter_step st ev).1 = rl_window st.1.
Proof.
  destruct ev as [ip now now'|now]; cbn; [|done]. pose proof (Allow_keeps st.1 ip now now') as Hk.
  destruct (Allow st.1 ip now now') as [rl b]. cbn in *. by rewrite Hk.
Qed.

Lemma Allow_positive rl ip now now' : positive_counters rl → positive_counters (Allow rl ip now now').1.
Proof.
  intros [Hl Hp]. unfold Allow. destruct (rl_requests rl !! ip) as [c|] eqn:Ec.
  - pose proof (Hp _ _ Ec) as Hc. cbn beta in Hc. destruct (rc_resetTime c <? now); [|destruct (Z.leb_spec (rl_limit rl) (rc_count c))].
    + split; [done|]. by apply map_Forall_insert_2; cbn.
    + by split.
    + split; [done|]. cbn. apply map_Forall_insert_2; [|done]. cbn. rewrite s64_small; lia.
  - split; [done|]. by apply map_Forall_insert_2; cbn.
Qed.
Lemma step_positive st ev : positive_counters st.1 → positive_counters (limiter_step st ev).1.
Proof.
  intros Hp. destruct ev as [ip now now'|now]; cbn.
  - pose proof (Allow_positive st.1 ip now now' Hp). by destruct (Allow st.1 ip now now').
  - destruct Hp as [Hl Hp]. split; [done|]. cbn. intros k c [Hk _]%map_lookup_filter_Some. by apply (Hp k).
Qed.
Lemma run_positive evs : ∀ st, positive_counters st.1 → positive_counters (foldl limiter_step st evs).1.
Proof. induction evs as [|ev evs IH]; intros st Hp; [done|]. cbn. by apply IH, step_positive. Qed.

(** the budget of an address over the rest of a span that ends at [e] *)
Definition budget (rl : RateLimiter) (e : Z) (ip : gostring) : Z :=
  match rl_requests rl !! ip with
  | None => Z.max 1 (rl_limit rl)
  | Some c => if e <=? rc_resetTime c then room rl c else room rl c + Z.max 1 (rl_limit rl)
  end.

Lemma budget_set_other rl e ip ip' c : ip ≠ ip' → budget (set_counter rl ip' c) e ip = budget rl e ip.
Proof. intros Hne. unfold budget, room. cbn. by rewrite lookup_insert_ne by done. Qed.

Lemma allowed_total_cons ip r log : allowed_total ip (r :: log) = (if decide (r.1 = ip) then 1 else 0) + allowed_total ip log.
Proof. unfold allowed_total. by rewrite len_filter_cons. Qed.

(** a new window leaves one request less, until the end of the span *)
Lemma budget_new rl ip now' e :
  e ≤ now' + rl_window rl → 1 + budget (set_counter rl ip (mkRequestCounter 1 (now' + rl_window rl))) e ip = Z.max 1 (rl_limit rl).
Proof. intros He. unfold budget, room. cbn. rewrite lookup_insert_eq. cbn. destruct (Z.leb_spec e (now' + rl_window rl)); lia. Qed.

Lemma budget_allow rl ip now now' e :
  positive_counters rl → now ≤ e ≤ now' + rl_window rl →
  let '(rl', allowed) := Allow rl ip now now' in
  (if allowed : bool then 1 else 0) + budget rl' e ip ≤ budget rl e ip.
Proof.
  intros [Hl Hp] He. unfold Allow. destruct (rl_requests rl !! ip) as [c|] eqn:Ec.
  - pose proof (Hp _ _ Ec) as Hc. cbn beta in Hc. destruct (Z.ltb_spec (rc_resetTime c) now).
    + rewrite budget_new by lia. unfold budget, room. rewrite Ec. destruct (Z.leb_spec e (rc_resetTime c)); lia.
    + destruct (Z.leb_spec (rl_limit rl) (rc_count c)); [lia|]. unfold budget, room. cbn.
      rewrite lookup_insert_eq, Ec. cbn. rewrite s64_small by lia. case_match; lia.
  - rewrite budget_new by lia. unfold budget. rewrite Ec. lia.
Qed.

Lemma budget_allow_other rl ip ip' now now' e : ip ≠ ip' → budget (Allow rl ip' now now').1 e ip = budget rl e ip.
Proof. intros Hne. unfold Allow. repeat case_match; cbn [fst]; by rewrite ?budget_set_other. Qed.

Lemma budget_tick rl now e ip : now ≤ e → budget (cleanup_tick rl now) e ip ≤ budget rl e ip.
Proof.
  intros Hn. unfold budget, room. cbn. destruct (rl_requests rl !! ip) as [c|] eqn:Ec.
  - destruct (decide (rc_resetTime c < now)).
    + rewrite (map_lookup_filter_None_2 _ _ ip) by (right; intros c'; rewrite Ec; intros [= <-]; cbn; tauto).
      destruct (Z.leb_spec e (rc_resetTime c)); lia.
    + by rewrite (map_lookup_filter_Some_2 _ _ ip c).
  - by rewrite (map_lookup_filter_None_2 _ _ ip) by by left.
Qed.

Lemma budget_step st ev t ip :
  positive_counters st.1 → within st.1 t [ev] →
  allowed_total ip (limiter_step st ev).2 + budget (limiter_step st ev).1 (t + rl_window st.1) ip
  ≤ allowed_total ip st.2 + budget st.1 (t + rl_window st.1) ip.
Proof.
  intros Hp [Hw _]%Forall_cons. destruct st as [rl log]. cbn [fst snd] in *. set (e := t + rl_window rl) in *.
  destruct ev as [ip' now now'|now]; cbn [limiter_step ev_first ev_last fst snd] in *.
  - destruct (decide (ip = ip')) as [<-|Hne].
    + pose proof (budget_allow rl ip now now' e Hp ltac:(lia)) as Hb. destruct (Allow rl ip now now') as [rl' b]. cbn [fst snd].
      destruct b; [|lia]. rewrite allowed_total_cons. cbn [fst]. rewrite decide_True by done. lia.
    + pose proof (budget_allow_other rl ip ip' now now' e Hne) as Hb. destruct (Allow rl ip' now now') as [rl' b]. cbn [fst snd] in *.
      rewrite Hb. destruct b; [|lia]. rewrite allowed_total_cons. cbn [fst]. rewrite decide_False by congruence. lia.
  - pose proof (budget_tick rl now e ip). lia.
Qed.

Lemma budget_run evs : ∀ st t ip, positive_counters st.1 → within st.1 t evs →
  allowed_total ip (foldl limiter_step st evs).2 ≤ allowed_total ip st.2 + budget st.1 (t + rl_window st.1) ip.
Proof.
  induction evs as [|ev evs IH]; intros st t ip Hp Hw; cbn [foldl].
  - unfold budget, room. destruct (rl_requests st.1 !! ip) as [c|]; [|lia]. case_match; lia.
  - apply Forall_cons in Hw as [Hev Hw]. pose proof (step_keeps st ev) as [_ Hwin].
    pose proof (budget_step st ev t ip Hp ltac:(by constructor)) as Hs.
    pose proof (IH (limiter_step st ev) t ip (step_positive st ev Hp)) as Hi. rewrite Hwin in Hi.
    etrans; [apply Hi|done]. unfold within. by rewrite Hwin.
Qed.

(** *** Not less *)

(** counters count requests of their window *)
Definition counted (st : RateLimiter * list (gostring * Z)) (now : Z) : Prop :=
  ∀ ip c, rl_requests st.1 !! ip = Some c →
    rc_resetTime c - rl_window st.1 ≤ now ∧ rc_count c ≤ allowed_since ip (rc_resetTime c - rl_window st.1) st.2.

Lemma allowed_since_cons ip t r log : allowed_since ip t log ≤ allowed_since ip t (r :: log).
Proof. unfold allowed_since. rewrite len_filter_cons. case_decide; lia. Qed.
Lemma allowed_since_new ip t now log : t ≤ now → allowed_since ip t ((ip, now) :: log) = 1 + allowed_since ip t log.
Proof. intros Ht. unfold allowed_since. rewrite len_filter_cons. by rewrite decide_True. Qed.
Lemma allowed_since_mono ip t t' log : t ≤ t' → allowed_since ip t' log ≤ allowed_since ip t log.
Proof.
  intros Ht. induction log as [|r log IH]; [done|]. unfold allowed_since in *. rewrite !len_filter_cons.
  destruct (decide (r.1 = ip ∧ t' ≤ r.2)), (decide (r.1 = ip ∧ t ≤ r.2)); lia || (exfalso; naive_solver lia).
Qed.
Lemma allowed_since_nonneg ip t log : 0 ≤ allowed_since ip t log.
Proof. unfold allowed_since, len. lia. Qed.

Lemma counted_step st ev t :
  positive_counters st.1 → counted st t → t ≤ ev_first ev ≤ ev_last ev → counted (limiter_step st ev) (ev_last ev).
Proof.
  intros [Hl Hp] Hc Ht. destruct st as [rl log]. cbn [fst snd] in *.
  assert (∀ r, counted (rl, r :: log) (ev_last ev)) as Hlog.
  { intros r ip c Hk. destruct (Hc ip c Hk) as [Hn Hs]. cbn [fst snd] in *. split; [lia|].
    pose proof (allowed_since_cons ip (rc_resetTime c - rl_window rl) r log). lia. }
  assert (counted (rl, log) (ev_last ev)) as Hstay.
  { intros ip c Hk. destruct (Hc ip c Hk) as [Hn Hs]. split; [cbn in *; lia|done]. }
  assert (∀ ip c now', counted (rl, (ip, now') :: log) (ev_last ev) → rc_resetTime c - rl_window rl ≤ ev_last ev →
    rc_count c ≤ allowed_since ip (rc_resetTime c - rl_window rl) ((ip, now') :: log) →
    counted (set_counter rl ip c, (ip, now') :: log) (ev_last ev)) as Hset.
  { intros ip c now' Hr Hn Hcount ip' c'. cbn. intros [[<- <-]|[_ Hk]]%lookup_insert_Some; [done|]. by apply Hr. }
  destruct ev as [ip now now'|now]; cbn [limiter_step ev_first ev_last fst snd] in *.
  - unfold Allow. destruct (rl_requests rl !! ip) as [c|] eqn:Ec.
    + destruct (Hc ip c Ec) as [Hn Hs]. pose proof (Hp _ _ Ec) as Hcp. cbn [fst snd] in *.
      destruct (rc_resetTime c <? now); [|destruct (Z.leb_spec (rl_limit rl) (rc_count c))].
      * apply Hset; [apply Hlog|cbn; lia|]. cbn [rc_count rc_resetTime]. rewrite allowed_since_new by lia.
        pose proof (allowed_since_nonneg ip (now' + rl_window rl - rl_window rl) log). lia.
      * done.
      * apply Hset; [apply Hlog|cbn; lia|]. cbn [rc_count rc_resetTime]. rewrite allowed_since_new by lia.
        rewrite s64_small by lia. lia.
    + apply Hset; [apply Hlog|cbn; lia|]. cbn [rc_count rc_resetTime]. rewrite allowed_since_new by lia.
      pose proof (allowed_since_nonneg ip (now' + rl_window rl - rl_window rl) log). lia.
  - intros ip c. cbn. intros [Hk _]%map_lookup_filter_Some. by apply Hstay.
Qed.

Lemma counted_run evs : ∀ st t, positive_counters st.1 → counted st t → clock_ok t evs →
  counted (foldl limiter_step st evs) (clock_end t evs).
Proof.
  induction evs as [|ev evs IH]; intros st t Hp Hc Hk; [done|]. cbn in *. destruct Hk as [Ht Hk].
  apply IH; [by apply step_positive|by eapply counted_step|done].
Qed.

Lemma run_keeps evs : ∀ st, rl_limit (foldl limiter_step st evs).1 = rl_limit st.1 ∧
  rl_window (foldl limiter_step st evs).1 = rl_window st.1.
Proof.
  induction evs as [|ev evs IH]; intros st; [done|]. cbn. destruct (IH (limiter_step st ev)) as [-> ->]. apply step_keeps.
Qed.

Lemma new_positive limit : limit < 2 ^ 62 → positive_counters (NewRateLimiter limit).
Proof. intros Hl. split; [done|]. apply map_Forall_empty. Qed.

(** C25: What the limiter lets through, whenever the table is cleaned up.  In no span
    of a minute it allows one address more than [2 * limit - 1] requests (with a
    limit of at least 1), although a window may begin at any moment of it; and it
    refuses a request only when [limit] requests of that address were allowed in
    the minute before. *)
Theorem rate_limiter_window (limit t0 : Z) (past : list limiter_event) (ip : gostring) :
  1 ≤ limit < 2 ^ 62 → clock_ok t0 past →
  let '(rl, log) := limiter_run (NewRateLimiter limit) past in
  (∀ t evs, within rl t evs → allowed_total ip (limiter_run rl evs).2 ≤ 2 * limit - 1) ∧
  (∀ now now', clock_end t0 past ≤ now → (Allow rl ip now now').2 = false → limit ≤ allowed_since ip (now - Minute) log).
Proof.
  intros Hl Hk. unfold limiter_run at 1. pose proof (new_positive limit ltac:(lia)) as Hn.
  pose proof (run_positive past (NewRateLimiter limit, []) Hn) as Hp.
  pose proof (run_keeps past (NewRateLimiter limit, [])) as [Hlim Hwin].
  pose proof (counted_run past (NewRateLimiter limit, []) t0 Hn) as Hc.
  destruct (foldl limiter_step (NewRateLimiter limit, []) past) as [rl log]. cbn [fst snd] in *. split.
  - intros t evs Hw. pose proof (budget_run evs (rl, []) t ip Hp Hw) as Hb. cbn [fst snd] in Hb. unfold limiter_run.
    etrans; [exact Hb|]. change (allowed_total ip []) with 0. unfold budget, room. rewrite Hlim. cbn [rl_limit NewRateLimiter].
    destruct (rl_requests rl !! ip) as [c|] eqn:Ec; [|lia]. pose proof (proj2 Hp _ _ Ec). cbn beta in *. case_match; lia.
  - intros now now' Hnow. unfold Allow. destruct (rl_requests rl !! ip) as [c|] eqn:Ec; [|done].
    destruct (Hc ltac:(intros ? ? [=]) Hk ip c Ec) as [_ Hcount]. cbn [fst snd] in Hcount. rewrite Hwin in Hcount. cbn in Hcount.
    destruct (Z.ltb_spec (rc_resetTime c) now); [done|]. destruct (Z.leb_spec (rl_limit rl) (rc_count c)) as [Hle|]; [|done]. intros _.
    rewrite Hlim in Hle. cbn in Hle. etrans; [exact Hle|]. etrans; [exact Hcount|]. apply allowed_since_mono. lia.
Qed.

(** Two at a time: three in a minute, the fourth is refused. *)
Lemma rate_limiter_window_witness :
  let sec n := Request [1] (n * Second) (n * Second) in
  let '(rl, log) := limiter_run (NewRateLimiter 2) [sec 0; sec 59] in
  allowed_total [1] (limiter_run rl [sec 61; sec 62; sec 63]).2 = 2 ∧
  2 ≤ allowed_since [1] (30 * Second - Minute) (limiter_run (NewRateLimiter 2) [sec 0; sec 1]).2.
Proof.
  cbv zeta. pose proof (rate_limiter_window 2 0 [Request [1] (0 * Second) (0 * Second); Request [1] (1 * Second) (1 * Second)] [1]) as Hw.
  destruct (limiter_run (NewRateLimiter 2) _) as [rl log] eqn:E in Hw.
  destruct Hw as [_ Hr]; [lia|cbn; unfold Second; lia|]. split; [vm_compute; reflexivity|].
  rewrite E. apply (Hr (30 * Second) (30 * Second)); [cbn; unfold Second; lia|].
  apply (f_equal fst) in E. cbn [fst] in E. rewrite <- E. vm_compute. reflexivity.
Defined.
