(* ===== verification/MeshApi.v ===== *)
(** * The HTTP API: pkg/meshstorage/api

    A handler takes what gin gives it (the decoded body, the parameters, the
    headers) and what it meets outside (the mesh, the clock, the random nonce), and
    returns the new state with a response.  [Return] is an early response.

    The server's table of chunks has the pointers of the storage's own table: an
    entry is its key, and reading it reads the chunk as the monitor left it.
    Requests run one after the other. *)

From Stdlib Require Import SpecFloat.
From S2P Require Import Prelude GoBytes NodeID Aes DhtStore Onion Relay MeshErasure MeshCrypto MeshVersion Base64 MeshStore MeshNode MeshRpc MeshDistributed ApiMiddleware.

(** ** Bodies *)

Record UploadRequest := mkUploadRequest {
  ur_UserAddr : gostring; ur_ChunkID : Z; ur_Data : gostring; ur_Signature : gostring; ur_Password : gostring;
  ur_Encrypted : bool }.

Record ShardLocationInfo := mkShardLocationInfo { sli_ShardIndex : Z; sli_NodeID : string; sli_Addresses : list gostring }.

Record UploadResponse := mkUploadResponse {
  up_Success : bool; up_UserAddr : gostring; up_ChunkID : Z; up_OriginalSize : Z; up_EncryptedSize : Z;
  up_ShardCount : Z; up_ShardSize : Z; up_StorageNodes : list string; up_Redundancy : spec_float;
  up_FaultTolerance : Z; up_Encrypted : bool; up_EncryptionInfo : string; up_UploadedAt : Z;
  up_ShardLocations : list ShardLocationInfo }.

Record DownloadResponse := mkDownloadResponse {
  dl_Success : bool; dl_UserAddr : gostring; dl_ChunkID : Z; dl_Data : gostring; dl_SizeBytes : Z;
  dl_ShardsUsed : Z; dl_ShardsTotal : Z; dl_DownloadedAt : Z }.

Record ShardStatusInfo := mkShardStatusInfo { ssi_ShardIndex : Z; ssi_Available : bool; ssi_NodeID : string }.
Record StatusResponse := mkStatusResponse {
  sp_Success : bool; sp_UserAddr : gostring; sp_ChunkID : Z; sp_Exists : bool; sp_Health : string;
  sp_HealthScore : spec_float; sp_AvailableShards : Z; sp_TotalShards : Z; sp_MinRequired : Z;
  sp_ShardStatus : list ShardStatusInfo; sp_CheckedAt : Z }.

Record NetworkInfoResponse := mkNetworkInfoResponse {
  ni_Success : bool; ni_NetworkID : string; ni_NodeCount : Z; ni_TotalPeers : Z; ni_UpSince : Z; ni_Version : gostring }.
(** [PeerInfo] of this package *)
Record ApiPeerInfo := mkApiPeerInfo {
  ap_PeerID : string; ap_Addresses : list gostring; ap_Connected : bool; ap_LastSeen : Z }.
Record PeersResponse := mkPeersResponse { pr_Success : bool; pr_Count : Z; pr_Peers : list ApiPeerInfo }.
Record HealthResponse := mkHealthResponse {
  hr_Success : bool; hr_Status : string; hr_Uptime : string; hr_DHTReachable : bool; hr_StorageWritable : bool;
  hr_PeersConnected : bool; hr_MemoryOK : bool }.
Record NodeInfoResponse := mkNodeInfoResponse {
  nr_Success : bool; nr_NodeID : string; nr_Addresses : list gostring; nr_IsBootstrap : bool; nr_Bootstrapped : bool;
  nr_ConnectedAt : Z; nr_StoragePath : gostring; nr_StartedAt : Z }.
Record NodeStatsResponse := mkNodeStatsResponse {
  ns_Success : bool; ns_TotalChunks : Z; ns_TotalSizeBytes : Z; ns_TotalSizeGB : spec_float; ns_UniqueUsers : Z;
  ns_AverageChunkSize : Z; ns_UploadCount : Z; ns_DownloadCount : Z; ns_SuccessRate : spec_float }.

Inductive body :=
  | ErrorBody (e : ErrorResponse) | SuccessBody (r : SuccessResponse) | UploadBody (r : UploadResponse)
  | DownloadBody (r : DownloadResponse) | BinaryBody (disposition : string) (data : list Z)
  | StatusBody (r : StatusResponse) | NetworkInfoBody (r : NetworkInfoResponse) | PeersBody (r : PeersResponse)
  | HealthBody (r : HealthResponse) | NodeInfoBody (r : NodeInfoResponse) | NodeStatsBody (r : NodeStatsResponse)
  | FilterBody (r : filter_response) | EmptyBody.
Record Response := mkResponse { rs_code : Z; rs_body : body }.

Definition error (code : Z) (err msg : string) : Response := mkResponse code (ErrorBody (mkErrorResponse err msg "")).

(** ** Early returns *)

Inductive handled (A : Type) := Return (r : Response) | Go (a : A) | Crash.
Arguments Return {A}. Arguments Go {A}. Arguments Crash {A}.
#[export] Instance handled_ret : MRet handled := λ A a, Go a.
#[export] Instance handled_bind : MBind handled := λ A B f m,
  match m with Return r => Return r | Go a => f a | Crash => Crash end.
(** [if err != nil { c.JSON(...); return }] *)
Definition or_error {A} (o : outcome A) (f : string → Response) : handled A :=
  match o with Ok a => Go a | Err t => Return (f t) | Panic => Crash end.
Definition unless (bad : bool) (r : Response) : handled unit := if bad then Return r else Go tt.

(** [strconv.Atoi]; [None] for its errors *)
Definition Atoi (s : gostring) : option Z :=
  let '(neg, ds) := match s with 45 :: ds => (true, ds) | 43 :: ds => (false, ds) | _ => (false, s) end in
  if bool_decide (ds = []) || negb (forallb is_digit ds) then None
  else
    let n := if neg then - number ds else number ds in
    if (- 2 ^ 63 <=? n) && (n <? 2 ^ 63) then Some n else None.

(** [len(userAddr) != 42 || userAddr[:2] != "0x"] *)
Definition bad_address (userAddr : gostring) : bool :=
  negb (len userAddr =? 42) || negb (bool_decide (take 2 userAddr = string_bytes "0x")).
Definition invalid_address : Response :=
  error 400 "Invalid user address" "User address must be a valid Ethereum address (0x...)".
Definition invalid_chunk : Response := error 400 "Invalid chunk ID" "Chunk ID must be a number".
Definition no_data (userAddr : gostring) (chunkID : Z) : Response :=
  error 404 "Data not found" ("No data found for user " +:+ bytes_string userAddr +:+ " chunk " +:+ pretty chunkID).

(** ** The server *)

Record Config := mkConfig {
  cf_Port : Z; cf_EnableCORS : bool; cf_RateLimit : Z; cf_MaxUploadSizeMB : Z; cf_ReadTimeout : Z;
  cf_WriteTimeout : Z; cf_StoragePath : gostring; cf_IsBootstrap : bool }.

Definition DefaultConfig : Config := mkConfig 8080 true 100 100 (30 * Second) (30 * Second) [] false.

(** what the middleware captures, and the memory for multipart forms *)
Record Router := mkRouter { rt_cors : bool; rt_limit : Z; rt_MaxMultipartMemory : Z }.

Record Server := mkServer {
  sv_node : DHTNode; sv_distributedStore : DistributedStorage; sv_router : Router; sv_port : Z;
  sv_chunkMetadata : gset gostring; sv_storagePath : gostring; sv_isBootstrap : bool }.

Definition with_store (s : Server) (ds : DistributedStorage) : Server :=
  mkServer (sv_node s) ds (sv_router s) (sv_port s) (sv_chunkMetadata s) (sv_storagePath s) (sv_isBootstrap s).
Definition with_metadata (s : Server) (m : gset gostring) : Server :=
  mkServer (sv_node s) (sv_distributedStore s) (sv_router s) (sv_port s) m (sv_storagePath s) (sv_isBootstrap s).

Definition setupMiddleware (globalRateLimiter : option RateLimiter) (config : Config) : RateLimiter * Router :=
  (RateLimitMiddleware globalRateLimiter (cf_RateLimit config),
   mkRouter (cf_EnableCORS config) (cf_RateLimit config) (s64 (Z.shiftl (cf_MaxUploadSizeMB config) 20))).

(** [encoder]: the result of creating the Reed-Solomon encoder; [path]: the
    node's own *)
Definition NewServer (globalRateLimiter : option RateLimiter) (node : DHTNode) (self : peerID) (net : mesh)
  (path : gostring) (encoder : outcome unit) (config : option Config) : option RateLimiter * outcome Server :=
  let config := default DefaultConfig config in
  match encoder with
  | Err t => (globalRateLimiter, Err ("failed to create distributed storage: failed to create erasure encoder: " +:+ t))
  | Panic => (globalRateLimiter, Panic)
  | Ok _ =>
      let storagePath := if bool_decide (cf_StoragePath config = []) then path else cf_StoragePath config in
      let '(rl, router) := setupMiddleware globalRateLimiter config in
      (Some rl, Ok (mkServer node (NewDistributedStorage self net) router (cf_Port config) ∅ storagePath
                      (cf_IsBootstrap config)))
  end.

Definition getChunkKey (userAddr : gostring) (chunkID : Z) : gostring :=
  userAddr ++ string_bytes (":" +:+ pretty chunkID).
Definition storeChunkMetadata (s : Server) (chunk : DistributedChunk) : Server :=
  let key := getChunkKey (dc_UserAddr chunk) (dc_ChunkID chunk) in
  with_metadata s ({[key]} ∪ sv_chunkMetadata s).
Definition getChunkMetadata (s : Server) (userAddr : gostring) (chunkID : Z) : option DistributedChunk :=
  let key := getChunkKey userAddr chunkID in
  if bool_decide (key ∈ sv_chunkMetadata s) then st_chunks (sv_distributedStore s) !! key else None.
Definition deleteChunkMetadata (s : Server) (userAddr : gostring) (chunkID : Z) : Server :=
  let key := getChunkKey userAddr chunkID in
  with_metadata s (sv_chunkMetadata s ∖ {[key]}).

(** ** Durations: formatDuration *)

(** [d.Hours()], [d.Minutes()]: whole units and the rest as a fraction *)
Definition in_units (unit d : Z) : spec_float :=
  SFadd 53 1024 (f64_of (Z.quot d unit)) (SFdiv 53 1024 (f64_of (Z.rem d unit)) (f64_of unit)).
Definition Hour : Z := 60 * Minute.

Definition formatDuration (d : Z) : string :=
  let days := int64_of (SFdiv 53 1024 (in_units Hour d) (f64_of 24)) in
  let hours := Z.rem (int64_of (in_units Hour d)) 24 in
  let minutes := Z.rem (int64_of (in_units Minute d)) 60 in
  let seconds := Z.rem (int64_of (Seconds d)) 60 in
  let s := pretty seconds +:+ "s" in
  let ms := pretty minutes +:+ "m " +:+ s in
  let hms := pretty hours +:+ "h " +:+ ms in
  if 0 <? days then pretty days +:+ "d " +:+ hms
  else if 0 <? hours then hms
  else if 0 <? minutes then ms
  else s.

(** ** Uploads *)

(** [binding:"required"]: the zero value is refused *)
Definition required (name : string) (present : bool) : list string :=
  if present then []
  else ["Key: 'UploadRequest." +:+ name +:+ "' Error:Field validation for '" +:+ name +:+ "' failed on the 'required' tag"].
Definition missing_fields (req : UploadRequest) : list string :=
  required "UserAddr" (negb (bool_decide (ur_UserAddr req = [])))
  ++ required "ChunkID" (negb (ur_ChunkID req =? 0))
  ++ required "Data" (negb (bool_decide (ur_Data req = []))).
Definition newline : string := String (Ascii.ascii_of_nat 10) "".
(** [c.ShouldBindJSON]: [decoded] is the result of decoding the body *)
Definition ShouldBindJSON (decoded : outcome UploadRequest) : outcome UploadRequest :=
  req ← decoded;
  match missing_fields req with [] => Ok req | errs => Err (String.concat newline errs) end.

Definition maxSize : Z := 100 * 1024 * 1024.

(** the locations in the response *)
Definition location_info (show : peerID → string) (loc : ShardLocation) : ShardLocationInfo :=
  mkShardLocationInfo (sl_ShardIndex loc) (show (sl_PeerID loc)) (sl_PeerAddrs loc).
(** the node identifiers, each once, in the order of their first occurrence *)
Definition unique_ids (ids : list string) : list string :=
  foldl (λ seen id, if bool_decide (id ∈ seen) then seen else seen ++ [id]) [] ids.

(** what an upload is about, once the request is accepted *)
Record accepted_upload := mkAccepted {
  au_UserAddr : gostring; au_ChunkID : Z; au_originalSize : Z; au_dataToStore : list Z; au_encryptionInfo : string;
  au_isEncrypted : bool }.

(** the query and the headers of a download *)
Record credentials := mkCredentials {
  cr_signature : gostring; cr_password : gostring; cr_XSignature : gostring; cr_XPassword : gostring }.

(** a multipart form: its fields, and what opening and reading its file gives *)
Record form := mkForm {
  fm_userAddr : gostring; fm_chunkID : gostring; fm_file : outcome unit; fm_open : outcome unit; fm_read : outcome (list Z) }.

(** the headers of a deletion *)
Record delete_headers := mkDeleteHeaders { dh_XSignature : gostring; dh_XTimestamp : gostring; dh_XPublicKey : gostring }.

(** the counters of the package; nothing changes them *)
Record Counters := mkCounters { ct_upload : Z; ct_download : Z; ct_success : Z; ct_failure : Z }.

Section api.
Context `{ReedSolomon} `{MeshJson} `{MeshText} `{X509} `{!RsaVerify} `{MeshHash} `{AesGcm} `{!Json EncryptedData}.

Definition encryption_failed (t : string) : Response := error 500 "Encryption failed" t.
Definition serialization_failed (t : string) : Response := error 500 "Serialization failed" t.
Definition derivation_failed (t : string) : Response := error 500 "Key derivation failed" t.

(** encrypting with a derived key, and the JSON that is stored *)
Definition encrypt_json (encrypted : outcome EncryptedData) : handled (list Z) :=
  encrypted ← or_error encrypted encryption_failed;
  or_error (json_marshal encrypted) serialization_failed.

(** the data to store, and the encryption's name *)
Definition encrypt_upload (req : UploadRequest) (data : list Z) (nonce : option (list Z)) : handled (list Z * string) :=
  if negb (ur_Encrypted req) then
    if negb (bool_decide (ur_Signature req = [])) then
      key ← or_error (DeriveKeyFromSignature (ur_Signature req))
        (λ t, error 400 "Invalid signature" ("Failed to derive key from signature: " +:+ t));
      stored ← encrypt_json (Encrypt data key nonce);
      Go (stored, "AES-256-GCM (signature-derived)"%string)
    else if negb (bool_decide (ur_Password req = [])) then
      stored ← encrypt_json (EncryptWithPassword data (ur_Password req) nonce);
      Go (stored, "AES-256-GCM (password-based)"%string)
    else
      key ← or_error (DeriveKeyFromWalletAddress (ur_UserAddr req)) derivation_failed;
      stored ← encrypt_json (Encrypt data key nonce);
      Go (stored, "AES-256-GCM (wallet-derived)"%string)
  else Go (data, "Client-side encrypted"%string).

(** [handleUpload] up to the storage *)
Definition accept_upload (decoded : outcome UploadRequest) (nonce : option (list Z)) : handled accepted_upload :=
  req ← or_error (ShouldBindJSON decoded) (error 400 "Invalid request");
  _ ← unless (bad_address (ur_UserAddr req)) invalid_address;
  data ← or_error (base64_decode (ur_Data req)) (λ _, error 400 "Invalid data encoding" "Data must be base64 encoded");
  _ ← unless (len data =? 0) (error 400 "Empty data" "Cannot upload empty data");
  _ ← unless (maxSize <? len data)
    (error 400 "Data too large" ("Maximum upload size is " +:+ pretty (maxSize / (1024 * 1024)) +:+ " MB"));
  '(dataToStore, encryptionInfo) ← encrypt_upload req data nonce;
  Go (mkAccepted (ur_UserAddr req) (ur_ChunkID req) (len data) dataToStore encryptionInfo true).

(** storing, and the answer; [nodes]: whether the nodes are listed *)
Definition store_upload (s : Server) (a : accepted_upload) (nodes : bool) (e : denv) (now : Z) : Server * outcome Response :=
  let '(ds, r) := StoreDistributed (sv_distributedStore s) (au_UserAddr a) (au_ChunkID a) (au_dataToStore a) e in
  let s := with_store s ds in
  match r with
  | Err t => (s, Ok (error 500 "Storage failed" t))
  | Panic => (s, Panic)
  | Ok distributedChunk =>
      let s := storeChunkMetadata s distributedChunk in
      let shardLocations := location_info (d_show e) <$> dc_ShardLocations distributedChunk in
      let nodeIDs := if nodes then unique_ids (sli_NodeID <$> shardLocations) else [] in
      (s, Ok (mkResponse 200 (UploadBody (mkUploadResponse true (au_UserAddr a) (au_ChunkID a) (au_originalSize a)
        (len (au_dataToStore a)) (len (dc_ShardLocations distributedChunk)) (dc_ShardSize distributedChunk) nodeIDs
        CalculateRedundancy CalculateFaultTolerance (au_isEncrypted a) (au_encryptionInfo a) now shardLocations))))
  end.

Definition after_accept (s : Server) (h : handled accepted_upload) (nodes : bool) (e : denv) (now : Z)
  : Server * outcome Response :=
  match h with
  | Return r => (s, Ok r)
  | Crash => (s, Panic)
  | Go a => store_upload s a nodes e now
  end.

Definition handleUpload (s : Server) (decoded : outcome UploadRequest) (nonce : option (list Z)) (e : denv) (now : Z)
  : Server * outcome Response := after_accept s (accept_upload decoded nonce) true e now.

(** [handleUploadMultipart] up to the storage *)
Definition accept_multipart (f : form) (nonce : option (list Z)) : handled accepted_upload :=
  _ ← unless (bool_decide (fm_userAddr f = []) || bool_decide (fm_chunkID f = []))
    (error 400 "Missing parameters" "userAddr and chunkID are required");
  chunkID ← or_error (from_option Ok (Err "") (Atoi (fm_chunkID f)))
    (λ _, error 400 "Invalid chunkID" "chunkID must be a number");
  _ ← or_error (fm_file f) (error 400 "No file uploaded");
  _ ← or_error (fm_open f) (error 500 "Failed to read file");
  data ← or_error (fm_read f) (error 500 "Failed to read file data");
  _ ← unless (maxSize <? len data)
    (error 400 "File too large" ("Maximum file size is " +:+ pretty (maxSize / (1024 * 1024)) +:+ " MB"));
  _ ← unless (bad_address (fm_userAddr f)) invalid_address;
  encryptionKey ← or_error (DeriveKeyFromWalletAddress (fm_userAddr f)) derivation_failed;
  encryptedJSON ← encrypt_json (Encrypt data encryptionKey nonce);
  Go (mkAccepted (fm_userAddr f) chunkID (len data) encryptedJSON "AES-256-GCM (wallet-derived)" true).

Definition handleUploadMultipart (s : Server) (f : form) (nonce : option (list Z)) (e : denv) (now : Z)
  : Server * outcome Response := after_accept s (accept_multipart f nonce) false e now.

(** ** Downloads *)

Definition first_nonempty (a b : gostring) : gostring := if bool_decide (a = []) then b else a.

(** what is in the chunk, with the key the caller's credentials give *)
Definition decrypt_download (userAddr : gostring) (c : credentials) (encryptedData : list Z) : handled (list Z) :=
  let signature := first_nonempty (cr_signature c) (cr_XSignature c) in
  let password := first_nonempty (cr_password c) (cr_XPassword c) in
  let decrypt encrypted key :=
    or_error (Decrypt encrypted key) (λ _, error 401 "Decryption failed" "Wrong key or corrupted data") in
  match json_unmarshal encryptedData with
  | Err _ => Go encryptedData
  | Panic => Crash
  | Ok encrypted =>
      if negb (bool_decide (signature = [])) then
        encryptionKey ← or_error (DeriveKeyFromSignature signature)
          (λ t, error 400 "Invalid signature" ("Failed to derive key: " +:+ t));
        decrypt encrypted encryptionKey
      else if negb (bool_decide (password = [])) then
        or_error (DecryptWithPassword encrypted password)
          (λ _, error 401 "Decryption failed" "Wrong password or corrupted data")
      else
        encryptionKey ← or_error (DeriveKeyFromWalletAddress userAddr) derivation_failed;
        decrypt encrypted encryptionKey
  end.

(** which of the errors mean that there is no data *)
Definition retrieval_failed (userAddr : gostring) (chunkID : Z) (err : string) : Response :=
  if bool_decide (err = "chunk not found"%string) || bool_decide (err = "insufficient shards"%string) then
    error 404 "Data not found" ("Failed to retrieve data for user " +:+ bytes_string userAddr +:+ " chunk " +:+ pretty chunkID)
  else error 500 "Retrieval failed" err.

Definition respond {A} (h : handled A) (f : A → Response) : outcome Response :=
  match h with Return r => Ok r | Go a => Ok (f a) | Crash => Panic end.

Definition download_response (userAddr : gostring) (chunkID now : Z) (decryptedData : list Z) : Response :=
  mkResponse 200 (DownloadBody (mkDownloadResponse true userAddr chunkID (base64_encode decryptedData)
    (len decryptedData) 10 15 now)).

Definition handleDownload (s : Server) (userAddr chunkIDStr : gostring) (c : credentials) (e : denv) (now : Z)
  : Server * outcome Response :=
  if bad_address userAddr then (s, Ok invalid_address)
  else match Atoi chunkIDStr with
  | None => (s, Ok invalid_chunk)
  | Some chunkID =>
      match getChunkMetadata s userAddr chunkID with
      | None => (s, Ok (no_data userAddr chunkID))
      | Some chunk =>
          let '(ds, r) := RetrieveDistributed (sv_distributedStore s) (Some chunk) e in
          let s := with_store s ds in
          match r with
          | Err t => (s, Ok (retrieval_failed userAddr chunkID t))
          | Panic => (s, Panic)
          | Ok encryptedData =>
              (s, respond (decrypt_download userAddr c encryptedData) (download_response userAddr chunkID now))
          end
      end
  end.

(** no route leads here *)
Definition handleDownloadBinary (s : Server) (userAddr chunkIDStr : gostring) (e : denv) : Server * outcome Response :=
  match Atoi chunkIDStr with
  | None => (s, Ok invalid_chunk)
  | Some chunkID =>
      match getChunkMetadata s userAddr chunkID with
      | None => (s, Ok (no_data userAddr chunkID))
      | Some chunk =>
          let '(ds, r) := RetrieveDistributed (sv_distributedStore s) (Some chunk) e in
          let s := with_store s ds in
          match r with
          | Err t => (s, Ok (error 500 "Retrieval failed" t))
          | Panic => (s, Panic)
          | Ok data =>
              (s, Ok (mkResponse 200 (BinaryBody ("attachment; filename=" +:+ bytes_string userAddr +:+ "_"
                                                  +:+ pretty chunkID +:+ ".bin") data)))
          end
      end
  end.

(** ** Status *)

Definition health_name (availableCount : Z) : string :=
  if HealthExcellent <=? availableCount then "excellent"
  else if HealthGood <=? availableCount then "good"
  else if MinShardsForRecovery <=? availableCount then "degraded"
  else if 8 <=? availableCount then "critical"
  else "lost".

Definition shard_status_info (show : peerID → string) (chunk : DistributedChunk) (i : nat) (available : bool) : ShardStatusInfo :=
  mkShardStatusInfo (Z.of_nat i) available
    (match dc_ShardLocations chunk !! i with Some loc => show (sl_PeerID loc) | None => "" end).

Definition handleStatus (s : Server) (userAddr chunkIDStr : gostring) (e : denv) (now : Z) : Server * outcome Response :=
  if bad_address userAddr then (s, Ok invalid_address)
  else match Atoi chunkIDStr with
  | None => (s, Ok invalid_chunk)
  | Some chunkID =>
      match getChunkMetadata s userAddr chunkID with
      | None =>
          (s, Ok (mkResponse 200 (StatusBody (mkStatusResponse true userAddr chunkID false "none" (f64_of 0) 0 0 0 [] now))))
      | Some chunk =>
          let '(ds, r) := GetShardStatus (sv_distributedStore s) chunk e in
          let s := with_store s ds in
          match r with
          | Err t => (s, Ok (error 500 "Status check failed" t))
          | Panic => (s, Panic)
          | Ok shardStatus =>
              let availableCount := count_true shardStatus in
              (s, Ok (mkResponse 200 (StatusBody (mkStatusResponse true userAddr chunkID true (health_name availableCount)
                (health_score availableCount) availableCount TotalShards MinShardsForRecovery
                (imap (shard_status_info (d_show e) chunk) shardStatus) now))))
          end
      end
  end.

(** ** Deletion *)

(** [fmt.Sprintf("%s|%d|%s", userAddr, chunkID, timestamp)] *)
Definition delete_text (userAddr : gostring) (chunkID : Z) (timestamp : gostring) : list Z :=
  userAddr ++ string_bytes ("|" +:+ pretty chunkID +:+ "|") ++ timestamp.

Definition verifyDeleteSignature (userAddr : gostring) (chunkID : Z) (timestamp signatureB64 publicKeyPEM : gostring)
  (now : Z) : outcome unit :=
  ts ← wrap_err "invalid timestamp format: " (parse_RFC3339 timestamp);
  let diff := timestamp_age now ts in
  if 5 * 60 * Second <? diff then
    Err ("timestamp too old or in future (age: " +:+ Duration_String diff +:+ ")")
  else
    signature ← wrap_err "invalid base64 signature: " (base64_decode signatureB64);
    publicKey ← wrap_err "invalid public key: " (ImportPublicKeyPEM publicKeyPEM);
    wrap_err "signature verification failed: " (VerifySignature (delete_text userAddr chunkID timestamp) signature publicKey).

(** [now]: the clock of the signature check *)
Definition handleDelete (s : Server) (userAddr chunkIDStr : gostring) (h : delete_headers) (e : denv) (now : Z)
  : Server * outcome Response :=
  match Atoi chunkIDStr with
  | None => (s, Ok invalid_chunk)
  | Some chunkID =>
      let signed := negb (bool_decide (dh_XSignature h = [])) && negb (bool_decide (dh_XTimestamp h = []))
                    && negb (bool_decide (dh_XPublicKey h = [])) in
      let verified := if signed then verifyDeleteSignature userAddr chunkID (dh_XTimestamp h) (dh_XSignature h) (dh_XPublicKey h) now
                      else Ok tt in
      match verified with
      | Err t => (s, Ok (error 401 "Invalid signature" ("Signature verification failed: " +:+ t)))
      | Panic => (s, Panic)
      | Ok _ =>
          let metadataExists := bool_decide (is_Some (getChunkMetadata s userAddr chunkID)) in
          let '(ds, r) := Distributed_DeleteChunk (sv_distributedStore s) userAddr chunkID e in
          let s := with_store s ds in
          match r with
          | Err t =>
              (s, Ok (if negb metadataExists then no_data userAddr chunkID
                      else error 500 "Deletion failed" ("Failed to delete from mesh network: " +:+ t)))
          | Panic => (s, Panic)
          | Ok _ =>
              let s := if metadataExists then deleteChunkMetadata s userAddr chunkID else s in
              (s, Ok (mkResponse 200 (SuccessBody (mkSuccessResponse true
                ("Chunk " +:+ pretty chunkID +:+ " for user " +:+ bytes_string userAddr +:+ " deleted successfully")))))
          end
      end
  end.

(** ** The node *)

(** [node.Storage()] *)
Definition node_storage (s : Server) : LocalStorage :=
  default ∅ (st_net (sv_distributedStore s) !! st_self (sv_distributedStore s)).
Definition with_storage (s : Server) (local : LocalStorage) : Server :=
  with_store s (with_net (sv_distributedStore s)
    (<[st_self (sv_distributedStore s) := local]> (st_net (sv_distributedStore s)))).

Definition handleNetworkInfo (s : Server) (nodeStartTime : Z) : Response :=
  let peers := Z.of_nat (size (GetPeers (sv_node s))) in
  mkResponse 200 (NetworkInfoBody (mkNetworkInfoResponse true "zentalk-mesh-v1" (1 + peers) peers nodeStartTime CurrentVersion)).

(** [order]: the order of the map *)
Definition handlePeers (s : Server) (show : peerID → string) (order : list (peerID * PeerInfo) → list (peerID * PeerInfo)) : Response :=
  let peerList := (λ p : peerID * PeerInfo, mkApiPeerInfo (show p.1) (pi_Addresses p.2) (pi_Active p.2) (pi_LastSeen p.2))
                  <$> order (map_to_list (GetPeers (sv_node s))) in
  mkResponse 200 (PeersBody (mkPeersResponse true (len peerList) peerList)).

Definition testAddr : gostring := string_bytes "0x0000000000000000000000000000000000000000".
Definition testChunkID : Z := -1.

(** [stored], [deleted]: the errors of the two statements; [alloc]: the allocated
    bytes; [now]: the clock when the chunk is written, and at the end *)
Definition handleHealth (s : Server) (stored deleted : option string) (alloc now nodeStartTime : Z) : Server * Response :=
  let dhtReachable := IsBootstrapped (sv_node s) && (0 <? Z.of_nat (size (GetPeers (sv_node s)))) in
  let '(local, r) := StoreChunk (node_storage s) testAddr testChunkID (string_bytes "health-check-test") (Unix now) stored in
  let s := with_storage s local in
  let storageWritable := is_ok r in
  let s := if storageWritable then with_storage s (DeleteChunk (node_storage s) testAddr testChunkID deleted).1 else s in
  let peersConnected := 0 <? Z.of_nat (size (GetPeers (sv_node s))) in
  let memoryOK := alloc <? 1024 * 1024 * 1024 in
  let status := if negb peersConnected then "degraded"%string else "healthy"%string in
  let status := if negb dhtReachable || negb storageWritable then "unhealthy"%string else status in
  (s, mkResponse 200 (HealthBody (mkHealthResponse true status (formatDuration (time_Sub now nodeStartTime)) dhtReachable
        storageWritable peersConnected memoryOK))).

Definition handleNodeInfo (s : Server) (show : peerID → string) (addrs : list gostring) (nodeStartTime : Z) : Response :=
  mkResponse 200 (NodeInfoBody (mkNodeInfoResponse true (show (st_self (sv_distributedStore s))) addrs (sv_isBootstrap s)
    (IsBootstrapped (sv_node s)) (Z.of_nat (size (GetPeers (sv_node s)))) (sv_storagePath s) nodeStartTime)).

Definition handleNodeStats (s : Server) (ct : Counters) (dberr : option string) : outcome Response :=
  match GetStats (node_storage s) dberr with
  | Err t => Ok (error 500 "Failed to get stats" t)
  | Panic => Panic
  | Ok stats =>
      let totalRequests := s64 (ct_success ct + ct_failure ct) in
      let successRate := if 0 <? totalRequests
        then SFmul 53 1024 (SFdiv 53 1024 (f64_of (ct_success ct)) (f64_of totalRequests)) (f64_of 100)
        else f64_of 100 in
      let avgChunkSize := if 0 <? st_TotalChunks stats then Z.quot (st_TotalSize stats) (st_TotalChunks stats) else 0 in
      Ok (mkResponse 200 (NodeStatsBody (mkNodeStatsResponse true (st_TotalChunks stats) (st_TotalSize stats)
        (SFdiv 53 1024 (f64_of (st_TotalSize stats)) (f64_of (1024 * 1024 * 1024))) (st_TotalUsers stats) avgChunkSize
        (ct_upload ct) (ct_download ct) successRate)))
  end.

(** ** A request through the router *)

(** the routes of [setupRoutes], with what each handler is given; [Options] is a
    preflight to any of them *)
Inductive api_request :=
  | Options
  | Upload (decoded : outcome UploadRequest) (nonce : option (list Z)) (e : denv)
  | Download (userAddr chunkID : gostring) (c : credentials) (e : denv)
  | Status (userAddr chunkID : gostring) (e : denv)
  | Delete (userAddr chunkID : gostring) (h : delete_headers) (e : denv)
  | NetworkInfo
  | Peers (show : peerID → string) (order : list (peerID * PeerInfo) → list (peerID * PeerInfo))
  | Health (stored deleted : option string) (alloc : Z)
  | NodeInfo (show : peerID → string) (addrs : list gostring)
  | NodeStats (ct : Counters) (dberr : option string).

Definition setupRoutes (s : Server) (req : api_request) (now nodeStartTime : Z) : Server * outcome Response :=
  match req with
  | Options => (s, Ok (mkResponse 404 EmptyBody))
  | Upload decoded nonce e => handleUpload s decoded nonce e now
  | Download userAddr chunkID c e => handleDownload s userAddr chunkID c e now
  | Status userAddr chunkID e => handleStatus s userAddr chunkID e now
  | Delete userAddr chunkID h e => handleDelete s userAddr chunkID h e now
  | NetworkInfo => (s, Ok (handleNetworkInfo s nodeStartTime))
  | Peers show order => (s, Ok (handlePeers s show order))
  | Health stored deleted alloc => let '(s, r) := handleHealth s stored deleted alloc now nodeStartTime in (s, Ok r)
  | NodeInfo show addrs => (s, Ok (handleNodeInfo s show addrs nodeStartTime))
  | NodeStats ct dberr => (s, handleNodeStats s ct dberr)
  end.

(** the middleware in its order, and gin's recovery from a panic *)
Definition serve (s : Server) (rl : RateLimiter) (ip : gostring) (req : api_request) (now now' nodeStartTime : Z)
  : Server * RateLimiter * Response :=
  let method := match req with Options => "OPTIONS"%string | Upload _ _ _ => "POST"%string | Delete _ _ _ _ => "DELETE"%string
                | _ => "GET"%string end in
  match (if rt_cors (sv_router s) then CORSMiddleware method else None) with
  | Some r => (s, rl, mkResponse 204 (FilterBody r))
  | None =>
      let '(rl, limited) := rate_limit rl (rt_limit (sv_router s)) ip now now' in
      match limited with
      | Some r => (s, rl, mkResponse 429 (FilterBody r))
      | None =>
          let '(s, r) := setupRoutes s req now' nodeStartTime in
          (s, rl, match r with Ok r => r | _ => mkResponse 500 EmptyBody end)
      end
  end.

End api.
