(* ===== verification/MeshApiProofs.v ===== *)
(** * Theorems on the HTTP API

    The server's requests, the monitor and the rest of the mesh take turns; the
    server implements a map from users and chunk numbers to what was uploaded. *)

From S2P Require Import Prelude GoBytes GoText NodeID Aes DhtStore DhtNode Onion Relay SessionStoreProofs MeshErasure MeshCrypto MeshVersion Base64 MeshStore MeshNode MeshRpc MeshRpcProofs MeshDistributed MeshProofs MeshRun ApiMiddleware MeshApi.

(** ** Numbers *)

Lemma Atoi_range s n : Atoi s = Some n → is_s64 n.
Proof.
  unfold Atoi, is_s64. destruct (match s with 45 :: ds => _ | _ => _ end) as [neg ds].
  destruct (_ || _); [done|]. set (v := if neg then _ else _).
  destruct (Z.leb_spec (- 2 ^ 63) v), (Z.ltb_spec v (2 ^ 63)); cbn [andb]; try done. intros [= <-]. lia.
Qed.

(** a number with or without its sign *)
Definition atoi_digits (neg : bool) (ds : gostring) : option Z :=
  if bool_decide (ds = []) || negb (forallb is_digit ds) then None
  else
    let n := if neg then - number ds else number ds in
    if (- 2 ^ 63 <=? n) && (n <? 2 ^ 63) then Some n else None.
Lemma Atoi_digits b ds : is_digit b = true → Atoi (b :: ds) = atoi_digits false (b :: ds).
Proof.
  unfold is_digit. rewrite andb_true_iff, !Z.leb_le. intros Hb. unfold Atoi.
  by assert (b = 48 ∨ b = 49 ∨ b = 50 ∨ b = 51 ∨ b = 52 ∨ b = 53 ∨ b = 54 ∨ b = 55 ∨ b = 56 ∨ b = 57)
    as [->|[->|[->|[->|[->|[->|[->|[->|[->| ->]]]]]]]]] by lia.
Qed.

Lemma atoi_pretty neg z : 0 ≤ z → is_s64 (if neg : bool then - z else z) →
  atoi_digits neg (string_bytes (pretty z)) = Some (if neg then - z else z).
Proof.
  intros Hz Hs. destruct (pretty_digits z Hz) as (Hd & Hn & Hne). unfold atoi_digits.
  rewrite bool_decide_false by done. rewrite (proj2 (forallb_forall _ _)).
  - rewrite Hn. unfold is_s64 in Hs. cbn [negb orb].
    destruct (Z.leb_spec (- 2 ^ 63) (if neg then - z else z)), (Z.ltb_spec (if neg then - z else z) (2 ^ 63)); try lia. done.
  - intros b Hb%list_elem_of_In. by eapply Forall_forall in Hd.
Qed.

(** What [%d] prints, [Atoi] reads. *)
Lemma Atoi_pretty z : is_s64 z → Atoi (string_bytes (pretty z)) = Some z.
Proof.
  intros Hz. destruct (Z.le_gt_cases 0 z) as [Hp|Hn].
  - pose proof (atoi_pretty false z Hp Hz) as Ha. destruct (pretty_digits z Hp) as (Hd & _ & Hne).
    destruct (string_bytes (pretty z)) as [|b ds]; [done|]. apply Forall_cons in Hd as [Hb _]. by rewrite Atoi_digits.
  - destruct z as [|p|p]; try lia. change (string_bytes (pretty (Z.neg p))) with (45 :: string_bytes (pretty (Z.pos p))).
    apply (atoi_pretty true (Z.pos p)); [lia|done].
Qed.

(** ** JSON of encrypted data *)

Definition EncryptedData_typed (d : EncryptedData) : Prop := bytes (enc_Nonce d) ∧ bytes (enc_Ciphertext d).
Class EncryptedJsonLaws `{Json EncryptedData} := {
  law_encrypted :: JsonLaws EncryptedData EncryptedData_typed EncryptedData_typed;
  (** no input is no JSON *)
  json_empty : ∀ d : EncryptedData, json_unmarshal [] ≠ Ok d }.

Section api_proofs.
Context `{ReedSolomonLaws} `{MeshJsonLaws} `{MeshText} `{X509} `{!RsaVerify} `{MeshHashLaws} `{AesGcmLaws}
  `{!Json EncryptedData} `{!EncryptedJsonLaws}.

(** ** Encryption *)

(** the text a key is derived from *)
Definition secret (userAddr signature password : gostring) : gostring :=
  if negb (bool_decide (signature = [])) then signature
  else if negb (bool_decide (password = [])) then password
  else drop 2 userAddr.

Lemma encrypt_json_go data pw nonce stored :
  bytes data → bytes nonce → length nonce = 12%nat →
  encrypt_json (Encrypt data (derive pw) (Some nonce)) = Go stored →
  stored ≠ [] ∧ bytes stored ∧ ∃ enc, json_unmarshal stored = Ok enc ∧ Decrypt enc (derive pw) = Ok data.
Proof.
  intros Hd Hn Hl. destruct (Encrypt_decrypts data (derive pw) nonce (derive_length pw) Hl) as (enc & He & Hnonce & Hdec).
  unfold encrypt_json. rewrite He. cbn [or_error mbind handled_bind].
  assert (EncryptedData_typed enc) as Ht.
  { unfold Encrypt in He. destruct (wrap_err _ (NewCipher (derive pw))); [|done..]. injection He as <-. split; [done|].
    apply gcm_bytes; [apply derive_bytes|done..]. }
  destruct (json_total _ Ht) as (d & Hj & Hb). rewrite Hj. intros [= <-]. pose proof (json_round _ _ Ht Hj) as Hr.
  split_and!; [|done|by exists enc]. intros ->. by apply json_empty in Hr.
Qed.

Lemma encrypt_upload_go req data nonce stored info :
  bytes data → data ≠ [] → bytes nonce → length nonce = 12%nat →
  encrypt_upload req data (Some nonce) = Go (stored, info) →
  stored ≠ [] ∧ bytes stored ∧
  if ur_Encrypted req then stored = data
  else ∃ enc, json_unmarshal stored = Ok enc ∧
    Decrypt enc (derive (secret (ur_UserAddr req) (ur_Signature req) (ur_Password req))) = Ok data ∧
    (ur_Signature req ≠ [] → 10 ≤ len (ur_Signature req)).
Proof.
  intros Hd Hne Hn Hl. unfold encrypt_upload, secret. destruct (ur_Encrypted req); cbn [negb]; [by intros [= <- <-]|].
  assert (∀ pw, (encrypt_json (Encrypt data (derive pw) (Some nonce)) ≫= λ x, Go (x, info)) = Go (stored, info) →
    stored ≠ [] ∧ bytes stored ∧ ∃ enc, json_unmarshal stored = Ok enc ∧ Decrypt enc (derive pw) = Ok data) as Hgo.
  { intros pw. destruct (encrypt_json _) as [|d|] eqn:Ej; [done| |done]. intros [= <-]. by eapply encrypt_json_go. }
  case_bool_decide as Hs; cbn [negb].
  - case_bool_decide as Hp; cbn [negb].
    + unfold DeriveKeyFromWalletAddress. destruct (_ || _); [done|]. cbn [or_error mbind handled_bind].
      destruct (encrypt_json _) as [|d|] eqn:Ej; [done| |done]. intros [= <- <-].
      destruct (encrypt_json_go _ _ _ _ Hd Hn Hl Ej) as (? & ? & enc & ? & ?). split_and!; try done. by exists enc.
    + unfold EncryptWithPassword. destruct (encrypt_json _) as [|d|] eqn:Ej; [done| |done]. intros [= <- <-].
      destruct (encrypt_json_go _ _ _ _ Hd Hn Hl Ej) as (? & ? & enc & ? & ?). split_and!; try done. by exists enc.
  - unfold DeriveKeyFromSignature. destruct (Z.ltb_spec (len (ur_Signature req)) 10); [done|]. cbn [or_error mbind handled_bind].
    destruct (encrypt_json _) as [|d|] eqn:Ej; [done| |done]. intros [= <- <-].
    destruct (encrypt_json_go _ _ _ _ Hd Hn Hl Ej) as (? & ? & enc & ? & ?). split_and!; try done. by exists enc.
Qed.

(** the download's key is the upload's *)
Lemma decrypt_download_go userAddr signature password c stored enc data :
  bad_address userAddr = false →
  first_nonempty (cr_signature c) (cr_XSignature c) = signature →
  first_nonempty (cr_password c) (cr_XPassword c) = password →
  (signature ≠ [] → 10 ≤ len signature) →
  json_unmarshal stored = Ok enc → Decrypt enc (derive (secret userAddr signature password)) = Ok data →
  decrypt_download userAddr c stored = Go data.
Proof.
  intros Ha <- <- Hs Hj Hd. unfold decrypt_download, secret in *. rewrite Hj.
  set (signature := first_nonempty (cr_signature c) _) in *. set (password := first_nonempty (cr_password c) _) in *. case_bool_decide as Hsig; cbn [negb] in *.
  - case_bool_decide as Hpw; cbn [negb] in *; [|unfold DecryptWithPassword; by rewrite Hd].
    unfold DeriveKeyFromWalletAddress. unfold bad_address in Ha. rewrite Ha. cbn [or_error mbind handled_bind]. by rewrite Hd.
  - unfold DeriveKeyFromSignature. destruct (Z.ltb_spec (len signature) 10); [specialize (Hs Hsig); lia|].
    cbn [or_error mbind handled_bind]. by rewrite Hd.
Qed.

(** what an accepted request is *)
Lemma accept_upload_go decoded nonce a :
  bytes nonce → length nonce = 12%nat → accept_upload decoded (Some nonce) = Go a →
  ∃ req data, decoded = Ok req ∧ base64_decode (ur_Data req) = Ok data ∧ data ≠ [] ∧ bytes data ∧
    au_UserAddr a = ur_UserAddr req ∧ au_ChunkID a = ur_ChunkID req ∧ bad_address (ur_UserAddr req) = false ∧
    au_dataToStore a ≠ [] ∧ bytes (au_dataToStore a) ∧
    if ur_Encrypted req then au_dataToStore a = data
    else ∃ enc, json_unmarshal (au_dataToStore a) = Ok enc ∧
      Decrypt enc (derive (secret (ur_UserAddr req) (ur_Signature req) (ur_Password req))) = Ok data ∧
      (ur_Signature req ≠ [] → 10 ≤ len (ur_Signature req)).
Proof.
  intros Hn Hl. unfold accept_upload, ShouldBindJSON. destruct decoded as [req|?|]; [|done..]. cbn [mbind outcome_bind].
  destruct (missing_fields req); [|done]. cbn [or_error mbind handled_bind].
  destruct (bad_address (ur_UserAddr req)) eqn:Ha; [done|]. cbn [or_error unless mbind handled_bind].
  destruct (base64_decode (ur_Data req)) as [data|?|] eqn:Ed; [|done..]. cbn [or_error unless mbind handled_bind].
  destruct (Z.eqb_spec (len data) 0) as [|Hlen]; [done|]. cbn [unless mbind handled_bind].
  destruct (maxSize <? len data); [done|]. cbn [or_error unless mbind handled_bind].
  destruct (encrypt_upload req data (Some nonce)) as [|[stored info]|] eqn:Ee; [done| |done]. intros [= <-].
  assert (data ≠ []) as Hne by by intros ->. pose proof (base64_decode_bytes _ _ Ed) as Hb.
  destruct (encrypt_upload_go _ _ _ _ _ Hb Hne Hn Hl Ee) as (? & ? & ?). exists req, data. by split_and!.
Qed.

Lemma accept_error_code decoded nonce r : accept_upload decoded nonce = Return r → rs_code r ≠ 200.
Proof.
  unfold accept_upload, encrypt_upload, encrypt_json, unless.
  destruct (ShouldBindJSON decoded) as [req|t|]; [|by intros [= <-]|done]. cbn [or_error mbind handled_bind].
  destruct (bad_address _); [by intros [= <-]|]. cbn [mbind handled_bind].
  destruct (base64_decode _) as [data|t|]; [|by intros [= <-]|done]. cbn [or_error mbind handled_bind].
  destruct (len data =? 0); [by intros [= <-]|]. cbn [mbind handled_bind].
  destruct (maxSize <? len data); [by intros [= <-]|]. cbn [mbind handled_bind].
  destruct (negb (ur_Encrypted req)); [|done]. unfold or_error, mbind, handled_bind.
  repeat case_match; intros; simplify_eq; done.
Qed.

(** ** The server's state *)

Definition code_of (r : outcome Response) : Z := match r with Ok r => rs_code r | _ => 500 end.

(** what a request does to the contents *)
Definition effect (req : api_request) (r : outcome Response) (m : contents) : contents :=
  if code_of r =? 200 then
    match req with
    | Upload decoded nonce _ =>
        match accept_upload decoded nonce with
        | Go a => <[(au_UserAddr a, au_ChunkID a) := au_dataToStore a]> m
        | _ => m
        end
    | Delete userAddr chunkID _ _ =>
        match Atoi chunkID with Some id => delete (userAddr, id) m | None => m end
    | _ => m
    end
  else m.

(** The addresses are ASCII and a nonce is twelve bytes.  An upload that fails is
    not one that should replace a chunk: it may have replaced some of its shards. *)
Definition admissible (req : api_request) (r : outcome Response) (m : contents) : Prop :=
  match req with
  | Upload decoded nonce _ =>
      from_option (λ n, bytes n ∧ length n = 12%nat) False nonce ∧
      match accept_upload decoded nonce with
      | Go a => ascii (au_UserAddr a) ∧ (code_of r = 200 ∨ m !! (au_UserAddr a, au_ChunkID a) = None)
      | _ => True
      end
  | Delete userAddr _ _ _ => ascii userAddr
  | _ => True
  end.

Inductive api_step : Server * contents → Server * contents → Prop :=
  | api_serves s m req now start s' r :
      setupRoutes s req now start = (s', r) → admissible req r m → api_step (s, m) (s', effect req r m)
  (** the monitor, and the rest of the mesh *)
  | api_mesh s m ds :
      node_step (sv_distributedStore s, m) (ds, m) → api_step (s, m) (with_store s ds, m).

Definition server_inv (s : Server) (m : contents) : Prop :=
  node_inv (sv_distributedStore s) m ∧ ∀ u c, getChunkKey u c ∈ sv_chunkMetadata s ↔ m !! (u, c) ≠ None.

Lemma with_store_id s : with_store s (sv_distributedStore s) = s.
Proof. by destruct s. Qed.
Lemma with_net_id ds : with_net ds (st_net ds) = ds.
Proof. by destruct ds. Qed.

Lemma metadata_lookup s m u c : server_inv s m →
  match m !! (u, c) with
  | Some stored => ∃ chunk, getChunkMetadata s u c = Some chunk ∧ holds (st_net (sv_distributedStore s)) u c stored chunk
  | None => getChunkMetadata s u c = None
  end.
Proof.
  intros [[_ Ht] Hk]. pose proof (ti_chunks _ _ _ Ht u c) as Hc. specialize (Hk u c). unfold getChunkMetadata.
  change (getChunkKey u c) with (registry_key u c) in *. destruct (m !! (u, c)) as [stored|].
  - rewrite bool_decide_true by by apply Hk. destruct (st_chunks _ !! registry_key u c) as [chunk|]; [|done]. by exists chunk.
  - by rewrite bool_decide_false by (rewrite Hk; naive_solver).
Qed.

(** *** Uploads *)

Lemma store_upload_inv s m a nodes e now :
  server_inv s m → ascii (au_UserAddr a) → au_dataToStore a ≠ [] → bytes (au_dataToStore a) →
  let '(s', r) := store_upload s a nodes e now in
  r ≠ Panic ∧
  (code_of r = 200 → server_inv s' (<[(au_UserAddr a, au_ChunkID a) := au_dataToStore a]> m)) ∧
  (code_of r ≠ 200 → m !! (au_UserAddr a, au_ChunkID a) = None → server_inv s' m).
Proof.
  intros [Hi Hk] Hu Hne Hb. unfold store_upload.
  pose proof (inv_store (sv_distributedStore s) m (au_UserAddr a) (au_ChunkID a) (au_dataToStore a) e Hu Hne Hb Hi) as Hs.
  destruct (StoreDistributed _ _ _ _ _) as [ds r] eqn:Es. destruct r as [chunk|t|]; [| |done].
  - split_and!; [done| |done]. intros _. split; [done|]. cbn [storeChunkMetadata sv_chunkMetadata with_metadata with_store].
    assert (dc_UserAddr chunk = au_UserAddr a ∧ dc_ChunkID chunk = au_ChunkID a) as [-> ->].
    { unfold StoreDistributed in Es. repeat case_match; by simplify_eq. }
    intros u c. rewrite elem_of_union, elem_of_singleton, Hk.
    destruct (decide ((au_UserAddr a, au_ChunkID a) = (u, c))) as [[= -> ->]|Hn]; [rewrite lookup_insert_eq; naive_solver|].
    rewrite lookup_insert_ne by done. split; [|by right]. intros [E|]; [|done].
    change (registry_key u c = registry_key (au_UserAddr a) (au_ChunkID a)) in E. apply registry_key_inj in E as [-> ->]. done.
  - split_and!; [done|done|]. intros _ Hnone. rewrite delete_id in Hs by done. by split.
Qed.

Lemma upload_inv s m decoded nonce e now :
  server_inv s m → admissible (Upload decoded nonce e) (handleUpload s decoded nonce e now).2 m →
  let '(s', r) := handleUpload s decoded nonce e now in server_inv s' (effect (Upload decoded nonce e) r m).
Proof.
  intros Hi [Hn Hok]. destruct nonce as [nonce|]; [|done]. destruct Hn as [Hnb Hnl]. unfold handleUpload, after_accept, effect in *.
  destruct (accept_upload decoded (Some nonce)) as [resp|a|] eqn:Ea.
  - by destruct (_ =? 200).
  - destruct (accept_upload_go _ _ _ Hnb Hnl Ea) as (req & data & _ & _ & _ & _ & Hua & Hca & _ & Hne & Hb & _).
    destruct Hok as [Hu Hf]. pose proof (store_upload_inv s m a true e now Hi Hu Hne Hb) as Hs.
    destruct (store_upload s a true e now) as [s' r]. destruct Hs as (_ & H200 & Hother). cbn [snd] in Hf.
    destruct (Z.eqb_spec (code_of r) 200) as [E|E]; [by apply H200|]. apply Hother; [done|]. by destruct Hf.
  - done.
Qed.

(** *** Deletions *)

Lemma delete_inv s m u cstr h e now :
  server_inv s m → ascii u →
  let '(s', r) := handleDelete s u cstr h e now in server_inv s' (effect (Delete u cstr h e) r m).
Proof.
  intros Hi Hu. unfold handleDelete, effect. destruct (Atoi cstr) as [c|] eqn:Ea; [|done].
  match goal with |- context [if ?b then verifyDeleteSignature ?u ?c ?t ?s ?k ?n else Ok tt] =>
    destruct (if b then verifyDeleteSignature u c t s k n else Ok tt) as [|t'|]; [|done|done] end.
  pose proof Hi as [Hn Hk].
  pose proof (inv_delete (sv_distributedStore s) m u c e Hu (Atoi_range _ _ Ea) Hn) as Hd.
  pose proof (metadata_lookup s m u c Hi) as Hm.
  destruct (Distributed_DeleteChunk _ _ _ _) as [ds r]. destruct r as [|t|].
  - cbn [code_of rs_code Z.eqb Pos.eqb]. destruct (m !! (u, c)) as [stored|] eqn:Em.
    + destruct Hm as (chunk & -> & _). rewrite bool_decide_true by by eexists. split; [done|]. intros u' c'.
      cbn [deleteChunkMetadata sv_chunkMetadata with_metadata with_store]. rewrite elem_of_difference, elem_of_singleton, Hk.
      destruct (decide ((u, c) = (u', c'))) as [[= -> ->]|Hne]; [rewrite lookup_delete_eq; naive_solver|].
      rewrite lookup_delete_ne by done. split; [naive_solver|]. intros Hx. split; [done|]. intros E.
      change (registry_key u' c' = registry_key u c) in E. apply registry_key_inj in E as [-> ->]. done.
    + rewrite Hm, bool_decide_false by by intros [? ?]. split; [done|]. intros u' c'. cbn [sv_chunkMetadata with_store].
      rewrite delete_id by done. apply Hk.
  - destruct (negb _); cbn [code_of rs_code error no_data Z.eqb Pos.eqb]; by split.
  - by split.
Qed.

(** *** The health check *)

Lemma test_chunk_foreign m : foreign m testAddr testChunkID (string_bytes "health-check-test").
Proof.
  split_and!; [done|by_decision|]. intros u c i _ E. assert (95 ∈ testAddr) as Hin.
  { rewrite E. unfold shard_key. rewrite !string_bytes_app. set_solver. }
  revert Hin. by_decision.
Qed.

Lemma step_storage_grows ds m local row :
  node_inv ds m → st_net ds !! st_self ds = Some local →
  row_Data row = string_bytes "health-check-test" →
  node_inv (with_net ds (<[st_self ds := <[(testAddr, testChunkID) := row]> local]> (st_net ds))) m.
Proof.
  intros Hi Hl Hr. apply (step_inv (ds, m) (_, m)); [|done]. apply step_other. apply grows_insert; [done|].
  rewrite Hr. apply test_chunk_foreign.
Qed.
Lemma step_storage_loses ds m local k :
  node_inv ds m → st_net ds !! st_self ds = Some local →
  node_inv (with_net ds (<[st_self ds := delete k local]> (st_net ds))) m.
Proof. intros Hi Hl. apply (step_inv (ds, m) (_, m)); [|done]. apply step_lose. by apply loses_delete. Qed.

Lemma with_storage_self s local : node_storage (with_storage s local) = local.
Proof. unfold node_storage, with_storage. cbn. by rewrite lookup_insert_eq. Qed.
Lemma with_storage_twice s a b : with_storage (with_storage s a) b = with_storage s b.
Proof. unfold with_storage, with_store, with_net. cbn. by rewrite insert_insert_eq. Qed.

(** the test chunk is written and, if that works, deleted *)
Lemma health_state s stored deleted alloc now start :
  let row := mkRow (string_bytes "health-check-test") (Unix now) 17 in
  ∃ local, (handleHealth s stored deleted alloc now start).1 = with_storage s local ∧
    (local = node_storage s ∨ local = <[(testAddr, testChunkID) := row]> (node_storage s) ∨
     local = delete (testAddr, testChunkID) (<[(testAddr, testChunkID) := row]> (node_storage s))).
Proof.
  intros row. unfold handleHealth. destruct stored as [t|].
  - eexists. split; [reflexivity|]. by left.
  - rewrite StoreChunk_ok by done. cbn [is_ok fst]. rewrite with_storage_self, with_storage_twice.
    change (mkRow (string_bytes "health-check-test") (Unix now) (len (string_bytes "health-check-test"))) with row.
    unfold DeleteChunk. rewrite lookup_insert_eq.
    destruct deleted; eexists; (split; [reflexivity|]); [by right; left|by right; right].
Qed.

Lemma health_inv s m stored deleted alloc now start :
  server_inv s m → server_inv (handleHealth s stored deleted alloc now start).1 m.
Proof.
  intros [Hi Hk]. destruct (health_state s stored deleted alloc now start) as (local' & -> & Hl). split; [|done].
  unfold with_storage, node_storage in *. cbn [sv_distributedStore with_store]. set (ds := sv_distributedStore s) in *.
  destruct (st_net ds !! st_self ds) as [local|] eqn:El; [|by destruct (mi_self _ _ (proj1 Hi))]. cbn [from_option id] in Hl.
  destruct Hl as [->|[->| ->]].
  - rewrite insert_id by done. by rewrite with_net_id.
  - by apply step_storage_grows.
  - set (row := mkRow _ _ _). set (local1 := <[_ := row]> local).
    pose proof (step_storage_loses (with_net ds (<[st_self ds := local1]> (st_net ds))) m local1 (testAddr, testChunkID)) as Hd.
    cbn [with_net st_net st_self] in Hd. rewrite insert_insert_eq in Hd. apply Hd; [|apply lookup_insert_eq].
    by apply step_storage_grows.
Qed.

(** *** Requests that only read *)

Lemma fetch_all_err self u c env locs : ∀ net n shards t, (fetch_all net self u c env n locs shards).2 ≠ Err t.
Proof.
  induction locs as [|loc locs IH]; intros net n shards t; cbn [fetch_all]; [done|].
  destruct (fetch_shard _ _ _ _ _ _) as [net' [s|t'|]]; [|apply IH|done]. unfold set_shard.
  destruct (_ || _); [done|]. set (shards' := <[_ := s]> shards). specialize (IH net' (S n) shards').
  destruct (fetch_all net' self u c env (S n) locs shards') as [net'' [[sh k]|t'|]]; [done| |done].
  by destruct (IH t').
Qed.

(** none of the errors is one of those that mean 404 *)
Lemma retrieval_error ds chunk e t u c :
  (RetrieveDistributed ds (Some chunk) e).2 = Err t → retrieval_failed u c t = error 500 "Retrieval failed" t.
Proof.
  unfold RetrieveDistributed. pose proof (fetch_all_err (st_self ds) (dc_UserAddr chunk) (dc_ChunkID chunk) (d_req e)
    (dc_ShardLocations chunk) (st_net ds) 0 no_shards) as Hf.
  destruct (fetch_all _ _ _ _ _ _ _ _) as [net [[shards n]|t'|]]; [|by destruct (Hf t')|done]. cbn [snd mbind outcome_bind].
  intros E. unfold retrieval_failed.
  assert (∃ rest, t = "insufficient shards retrieved: have " +:+ rest ∨ t = "failed to decode data: " +:+ rest) as [rest [->| ->]].
  - destruct (n <? MinShardsForRecovery); [injection E as <-; eexists; by left|].
    destruct (Decode _); [done| |done]. cbn in E. injection E as <-. eexists. by right.
  - by rewrite !bool_decide_false.
  - by rewrite !bool_decide_false.
Qed.

(** what a download answers once the stored bytes are there *)
Definition decrypted (u : gostring) (c now : Z) (cr : credentials) (stored : list Z) : outcome Response :=
  respond (decrypt_download u cr stored) (download_response u c now).

Lemma download_stored s m u c cstr cr e now stored :
  server_inv s m → bad_address u = false → Atoi cstr = Some c → m !! (u, c) = Some stored →
  ∃ chunk r, getChunkMetadata s u c = Some chunk ∧ handleDownload s u cstr cr e now = (s, r) ∧
    (r = decrypted u c now cr stored ∨ ∃ t, r = Ok (error 500 "Retrieval failed" t)) ∧
    ∀ alive, NoDup alive → MinShardsForRecovery ≤ len alive →
      (∀ n, n ∈ alive → alive_at u c (st_net (sv_distributedStore s)) (st_self (sv_distributedStore s)) (d_req e)
                          (dc_ShardLocations chunk) n) → r = decrypted u c now cr stored.
Proof.
  intros Hi Ha Hc Hm. pose proof (metadata_lookup s m u c Hi) as Hl. rewrite Hm in Hl.
  destruct Hl as (chunk & Hchunk & code & [Hcode _] & Hok). destruct Hi as [[Hmesh Ht] _].
  destruct (retrieve_chunk u c stored code (ti_ascii _ _ _ Ht u c stored Hm) Hcode (sv_distributedStore s) chunk e
    (mi_net _ _ Hmesh) Hok) as (r & Hr & Hcases & Halive).
  unfold handleDownload. rewrite Ha, Hc, Hchunk, Hr. rewrite with_store_id. exists chunk.
  destruct Hcases as [->|[t ->]].
  - eexists. split_and!; [done|done|by left|done].
  - pose proof (retrieval_error (sv_distributedStore s) chunk e t u c) as He. rewrite Hr in He. rewrite He by done.
    eexists. split_and!; [done|done|right; by eexists|]. intros alive Hnd Hlen Hal. specialize (Halive alive Hnd Hlen Hal). done.
Qed.

Lemma download_missing s m u c cstr cr e now :
  server_inv s m → bad_address u = false → Atoi cstr = Some c → m !! (u, c) = None →
  handleDownload s u cstr cr e now = (s, Ok (no_data u c)).
Proof.
  intros Hi Ha Hc Hm. pose proof (metadata_lookup s m u c Hi) as Hl. rewrite Hm in Hl.
  unfold handleDownload. by rewrite Ha, Hc, Hl.
Qed.

Lemma download_reads s m u cstr cr e now : server_inv s m → (handleDownload s u cstr cr e now).1 = s.
Proof.
  intros Hi. destruct (bad_address u) eqn:Ha; [unfold handleDownload; by rewrite Ha|].
  destruct (Atoi cstr) as [c|] eqn:Hc; [|unfold handleDownload; by rewrite Ha, Hc].
  destruct (m !! (u, c)) as [stored|] eqn:Hm.
  - by destruct (download_stored s m u c cstr cr e now stored Hi Ha Hc Hm) as (chunk & r & _ & -> & _).
  - by rewrite (download_missing s m u c).
Qed.

Lemma status_reads s u cstr e now : (handleStatus s u cstr e now).1 = s.
Proof.
  unfold handleStatus. destruct (bad_address u); [done|]. destruct (Atoi cstr) as [c|]; [|done].
  destruct (getChunkMetadata s u c) as [chunk|]; [|done]. unfold GetShardStatus.
  destruct (ping_all_blind (st_net (sv_distributedStore s)) (st_net (sv_distributedStore s)) (st_self (sv_distributedStore s))
    (d_ping e) (d_sched e (imap pair (dc_ShardLocations chunk))) (replicate (Z.to_nat TotalShards) false)) as (r & -> & _); [done|].
  rewrite with_net_id, with_store_id. by destruct r.
Qed.

(** *** Every step *)

Lemma effect_none req r m : (∀ d n e, req ≠ Upload d n e) → (∀ u c h e, req ≠ Delete u c h e) → effect req r m = m.
Proof. intros Hu Hd. unfold effect. destruct (_ =? 200); [|done]. destruct req; try done; [by edestruct Hu|by edestruct Hd]. Qed.

Lemma serve_inv s m req now start :
  server_inv s m → admissible req (setupRoutes s req now start).2 m →
  let '(s', r) := setupRoutes s req now start in server_inv s' (effect req r m).
Proof.
  intros Hi Ha. destruct req as [|decoded nonce e|u c cr e|u c e|u c h e| |show order|stored deleted alloc|show addrs|ct dberr];
    cbn [setupRoutes] in *; try (by rewrite effect_none).
  - by apply upload_inv.
  - pose proof (download_reads s m u c cr e now Hi) as Hd. destruct (handleDownload s u c cr e now) as [s' r].
    cbn in Hd. subst s'. by rewrite effect_none.
  - pose proof (status_reads s u c e now) as Hd. destruct (handleStatus s u c e now) as [s' r]. cbn in Hd. subst s'.
    by rewrite effect_none.
  - by apply delete_inv.
  - pose proof (health_inv s m stored deleted alloc now start Hi) as Hh.
    destruct (handleHealth s stored deleted alloc now start) as [s' r]. by rewrite effect_none.
Qed.

Lemma api_step_inv p p' : api_step p p' → server_inv p.1 p.2 → server_inv p'.1 p'.2.
Proof.
  destruct 1 as [s m req now start s' r Hs Ha|s m ds Hn]; cbn [fst snd]; intros Hi.
  - pose proof (serve_inv s m req now start Hi) as Hv. rewrite Hs in Hv. by apply Hv.
  - destruct Hi as [Hi Hk]. split; [|done]. by apply (step_inv (sv_distributedStore s, m) (ds, m)).
Qed.
Lemma api_run_inv p p' : rtc api_step p p' → server_inv p.1 p.2 → server_inv p'.1 p'.2.
Proof. induction 1 as [|p1 p2 p3 Hs _ IH]; [done|]. intros Hi. by apply IH, (api_step_inv p1). Qed.

Lemma new_server_inv rl node self net path config rl' s :
  NewServer rl node self net path (Ok tt) config = (rl', Ok s) → mesh_inv self net → server_inv s ∅.
Proof.
  unfold NewServer. destruct (setupMiddleware _ _) as [rl1 router]. intros [= <- <-] Hm. split; [by apply new_inv|].
  intros u c. cbn. rewrite lookup_empty. set_solver.
Qed.

(** an upload that was answered with 200 *)
Lemma upload_accepted s req nonce e now start s1 r1 m :
  server_inv s m → bytes nonce → length nonce = 12%nat → ascii (ur_UserAddr req) →
  setupRoutes s (Upload (Ok req) (Some nonce) e) now start = (s1, r1) → code_of r1 = 200 →
  let m1 := effect (Upload (Ok req) (Some nonce) e) r1 m in
  ∃ a, accept_upload (Ok req) (Some nonce) = Go a ∧
    m1 !! (ur_UserAddr req, ur_ChunkID req) = Some (au_dataToStore a) ∧ server_inv s1 m1.
Proof.
  intros Hi Hnb Hnl Hu Hup H200 m1. cbn [setupRoutes] in Hup.
  destruct (accept_upload (Ok req) (Some nonce)) as [resp|a|] eqn:Ea.
  - exfalso. unfold handleUpload in Hup. rewrite Ea in Hup. injection Hup as _ <-. by eapply accept_error_code.
  - destruct (accept_upload_go _ _ _ Hnb Hnl Ea) as (req' & data & [= <-] & _ & _ & _ & Hua & Hca & _).
    exists a. split_and!; [done| |].
    + subst m1. unfold effect. rewrite H200, Ea. cbn [Z.eqb Pos.eqb]. rewrite Hua, Hca. apply lookup_insert_eq.
    + pose proof (upload_inv s m (Ok req) (Some nonce) e now Hi) as Hinv. rewrite Hup in Hinv. apply Hinv.
      split; [done|]. rewrite Ea, Hua. split; [done|by left].
  - exfalso. unfold handleUpload in Hup. rewrite Ea in Hup. injection Hup as _ <-. done.
Qed.

(** ** Properties *)

(** The credentials of a download that match those of an upload. *)
Definition same_credentials (req : UploadRequest) (cr : credentials) : Prop :=
  first_nonempty (cr_signature cr) (cr_XSignature cr) = ur_Signature req ∧
  first_nonempty (cr_password cr) (cr_XPassword cr) = ur_Password req.

(** C2: What was uploaded is downloaded.  After an upload was answered with 200, and
    whatever requests, repairs, losses and joins come then, as long as the chunk is
    not uploaded again or deleted: a download with the same credentials answers with
    the data or with 500, and with the data when ten shards can be fetched.  Data
    that the client encrypted itself must not read as the server's own JSON. *)
Theorem uploaded_is_downloaded rl node self net path config rl' s0 s m req nonce e now start s1 r1 s2 m2 cr e' now' :
  mesh_inv self net → NewServer rl node self net path (Ok tt) config = (rl', Ok s0) →
  rtc api_step (s0, ∅) (s, m) → bytes nonce → length nonce = 12%nat → ascii (ur_UserAddr req) → is_s64 (ur_ChunkID req) →
  setupRoutes s (Upload (Ok req) (Some nonce) e) now start = (s1, r1) → code_of r1 = 200 →
  (ur_Encrypted req = true → ∀ data, base64_decode (ur_Data req) = Ok data → ∃ t, json_unmarshal (A := EncryptedData) data = Err t) →
  let m1 := effect (Upload (Ok req) (Some nonce) e) r1 m in
  rtc api_step (s1, m1) (s2, m2) →
  m2 !! (ur_UserAddr req, ur_ChunkID req) = m1 !! (ur_UserAddr req, ur_ChunkID req) → same_credentials req cr →
  ∃ data chunk r, base64_decode (ur_Data req) = Ok data ∧ getChunkMetadata s2 (ur_UserAddr req) (ur_ChunkID req) = Some chunk ∧
    setupRoutes s2 (Download (ur_UserAddr req) (string_bytes (pretty (ur_ChunkID req))) cr e') now' start = (s2, Ok r) ∧
    base64_decode (base64_encode data) = Ok data ∧
    (r = download_response (ur_UserAddr req) (ur_ChunkID req) now' data ∨ rs_code r = 500) ∧
    ∀ alive, NoDup alive → MinShardsForRecovery ≤ len alive →
      (∀ n, n ∈ alive → alive_at (ur_UserAddr req) (ur_ChunkID req) (st_net (sv_distributedStore s2))
          (st_self (sv_distributedStore s2)) (d_req e') (dc_ShardLocations chunk) n) →
      r = download_response (ur_UserAddr req) (ur_ChunkID req) now' data.
Proof.
  intros Hmesh Hnew Hrun Hnb Hnl Hu Hc Hup H200 Hclient m1 Hrun2 Hkeep [Hsig Hpw].
  pose proof (api_run_inv _ _ Hrun (new_server_inv _ _ _ _ _ _ _ _ Hnew Hmesh)) as Hi. cbn [fst snd] in Hi.
  destruct (upload_accepted s req nonce e now start s1 r1 m Hi Hnb Hnl Hu Hup H200) as (a & Ea & Hm1 & Hi1). fold m1 in Hm1, Hi1.
  destruct (accept_upload_go _ _ _ Hnb Hnl Ea) as (req' & data & [= <-] & Hdata & Hne & Hb & _ & _ & Haddr & _ & _ & Henc).
  pose proof (api_run_inv _ _ Hrun2 Hi1) as Hi2. cbn [fst snd] in Hi2.
  rewrite Hm1 in Hkeep.
  destruct (download_stored s2 m2 _ _ (string_bytes (pretty (ur_ChunkID req))) cr e' now' _ Hi2 Haddr (Atoi_pretty _ Hc) Hkeep)
    as (chunk & r & Hchunk & Hd & Hcases & Halive).
  assert (decrypted (ur_UserAddr req) (ur_ChunkID req) now' cr (au_dataToStore a)
          = Ok (download_response (ur_UserAddr req) (ur_ChunkID req) now' data)) as Hdec.
  { unfold decrypted. destruct (ur_Encrypted req).
    - destruct (Hclient eq_refl data Hdata) as [t Ht]. unfold decrypt_download. by rewrite Henc, Ht.
    - destruct Henc as (enc & Hj & Hk & Hten). by rewrite (decrypt_download_go _ _ _ cr _ enc data Haddr Hsig Hpw Hten Hj Hk). }
  rewrite Hdec in Hcases, Halive. cbn [setupRoutes]. rewrite Hd.
  exists data, chunk. destruct Hcases as [->|[t ->]]; eexists; (split_and!; [done|done|done|by apply base64_roundtrip| |]).
  - by left.
  - done.
  - by right.
  - intros alive Hnd Hlen Hal. by specialize (Halive alive Hnd Hlen Hal).
Qed.

(** The server is a map from users and chunk numbers to stored bytes: in every
    state it reaches, a download of what is not in the map is answered with 404; of
    what is in it, with the bytes as the credentials decrypt them or with 500, and
    not with 500 when ten shards can be fetched.  It changes nothing. *)
Theorem api_refines_map rl node self net path config rl' s0 s m u c cr e now start :
  mesh_inv self net → NewServer rl node self net path (Ok tt) config = (rl', Ok s0) →
  rtc api_step (s0, ∅) (s, m) → bad_address u = false → is_s64 c →
  let download := setupRoutes s (Download u (string_bytes (pretty c)) cr e) now start in
  match m !! (u, c) with
  | None => download = (s, Ok (no_data u c))
  | Some stored =>
      ∃ chunk r, getChunkMetadata s u c = Some chunk ∧ download = (s, r) ∧
        (r = decrypted u c now cr stored ∨ ∃ t, r = Ok (error 500 "Retrieval failed" t)) ∧
        ∀ alive, NoDup alive → MinShardsForRecovery ≤ len alive →
          (∀ n, n ∈ alive → alive_at u c (st_net (sv_distributedStore s)) (st_self (sv_distributedStore s)) (d_req e)
                              (dc_ShardLocations chunk) n) → r = decrypted u c now cr stored
  end.
Proof.
  intros Hmesh Hnew Hrun Ha Hc download. subst download. cbn [setupRoutes].
  pose proof (api_run_inv _ _ Hrun (new_server_inv _ _ _ _ _ _ _ _ Hnew Hmesh)) as Hi. cbn [fst snd] in Hi.
  destruct (m !! (u, c)) as [stored|] eqn:Hm.
  - by apply (download_stored s m); [| |apply Atoi_pretty|].
  - by apply (download_missing s m); [| |apply Atoi_pretty|].
Qed.

Lemma decrypted_bad_nonce u c now cr stored enc :
  json_unmarshal stored = Ok enc → len (enc_Nonce enc) ≠ NonceSize → code_of (decrypted u c now cr stored) ≠ 200.
Proof.
  intros Hj Hn. unfold decrypted, decrypt_download. rewrite Hj.
  assert (∀ key, ∃ t, Decrypt enc key = Err t) as Hd.
  { intros key. unfold Decrypt. rewrite (proj2 (Z.eqb_neq _ _) Hn). by eexists. }
  destruct (negb _); [|destruct (negb _)].
  - destruct (DeriveKeyFromSignature _) as [key|?|]; [|done..]. cbn [or_error mbind handled_bind]. by destruct (Hd key) as [t ->].
  - unfold DecryptWithPassword. by destruct (Hd (derive (first_nonempty (cr_password cr) (cr_XPassword cr)))) as [t ->].
  - destruct (DeriveKeyFromWalletAddress _) as [key|?|]; [|done..]. cbn [or_error mbind handled_bind]. by destruct (Hd key) as [t ->].
Qed.

(** Data that the client encrypted itself, in a JSON object without a nonce of
    twelve bytes, is accepted with 200 and never given back, with any credentials:
    the server takes it for its own format and fails to decrypt it. *)
Theorem client_json_never_returned rl node self net path config rl' s0 s m req nonce e now start s1 r1 s2 m2 data enc cr e' now' :
  mesh_inv self net → NewServer rl node self net path (Ok tt) config = (rl', Ok s0) →
  rtc api_step (s0, ∅) (s, m) → bytes nonce → length nonce = 12%nat → ascii (ur_UserAddr req) → is_s64 (ur_ChunkID req) →
  ur_Encrypted req = true → base64_decode (ur_Data req) = Ok data → json_unmarshal data = Ok enc →
  len (enc_Nonce enc) ≠ NonceSize →
  setupRoutes s (Upload (Ok req) (Some nonce) e) now start = (s1, r1) → code_of r1 = 200 →
  let m1 := effect (Upload (Ok req) (Some nonce) e) r1 m in
  rtc api_step (s1, m1) (s2, m2) →
  m2 !! (ur_UserAddr req, ur_ChunkID req) = m1 !! (ur_UserAddr req, ur_ChunkID req) →
  code_of (setupRoutes s2 (Download (ur_UserAddr req) (string_bytes (pretty (ur_ChunkID req))) cr e') now' start).2 ≠ 200.
Proof.
  intros Hmesh Hnew Hrun Hnb Hnl Hu Hc Hencr Hdata Hj Hnonce Hup H200 m1 Hrun2 Hkeep.
  pose proof (api_run_inv _ _ Hrun (new_server_inv _ _ _ _ _ _ _ _ Hnew Hmesh)) as Hi. cbn [fst snd] in Hi.
  destruct (upload_accepted s req nonce e now start s1 r1 m Hi Hnb Hnl Hu Hup H200) as (a & Ha & Hm1 & Hi1). fold m1 in Hm1, Hi1.
  destruct (accept_upload_go _ _ _ Hnb Hnl Ha) as (req' & data' & [= <-] & Hdata' & _ & _ & _ & _ & Haddr & _ & _ & Henc).
  rewrite Hencr in Henc. rewrite Hdata in Hdata'. injection Hdata' as <-. rewrite Hm1, Henc in Hkeep.
  pose proof (api_run_inv _ _ Hrun2 Hi1) as Hi2. cbn [fst snd] in Hi2. cbn [setupRoutes].
  destruct (download_stored s2 m2 _ _ (string_bytes (pretty (ur_ChunkID req))) cr e' now' _ Hi2 Haddr (Atoi_pretty _ Hc) Hkeep)
    as (chunk & r & _ & -> & [->|[t ->]] & _); [|done]. by apply (decrypted_bad_nonce _ _ _ _ _ enc).
Qed.

End api_proofs.
