(* ===== verification/MeshApiWitness.v ===== *)
(** * Concrete runs of the HTTP API

    The hypotheses of the theorems hold for a server on a small mesh, and a few
    answers that may surprise. *)

From S2P Require Import Prelude GoBytes GoText NodeID Aes DhtStore DhtSample DhtNode Onion OnionProofs Relay RelayProofs SampleCodec MeshErasure MeshCrypto MeshVersion Base64 MeshStore MeshNode MeshRpc MeshRpcProofs MeshDistributed MeshProofs MeshRun MeshSample MeshWitness ApiMiddleware MeshApi MeshApiProofs.

#[export] Instance EncryptedData_eq_dec : EqDecision EncryptedData.
Proof. solve_decision. Defined.
#[export] Instance EncryptedData_countable : Countable EncryptedData.
Proof.
  refine (inj_countable' (λ d, (enc_Nonce d, enc_Ciphertext d)) (λ p, mkEncryptedData p.1 p.2) _). by intros [].
Defined.
#[export] Instance EncryptedData_typed_dec d : Decision (EncryptedData_typed d).
Proof. unfold EncryptedData_typed. apply _. Defined.

Section api_witnesses.
#[local] Existing Instances OnionSample.rsa RelaySample.x509 MeshCrypto.sample_mesh_hash MeshCrypto.sample_mesh_hash_laws sample_rs
  sample_rs_laws sample_mesh_json sample_mesh_json_laws sample_mesh_text sample_rsa_verify sample_aes sample_aes_laws.
#[local] Instance sample_encrypted_json : Json EncryptedData := codec_json EncryptedData_typed.
#[local] Instance sample_encrypted_laws : EncryptedJsonLaws.
Proof. split; [apply codec_json_laws|]. intros d. done. Qed.
Import MeshDemo.

Definition wallet : gostring := string_bytes "0xaaaaaaaaaaaaaaaaaaaaaaaaaaaaaaaaaaaaaaaa".
Definition upload (data : gostring) (encrypted : bool) : UploadRequest := mkUploadRequest wallet 7 data [] (string_bytes "pw") encrypted.
Definition some_nonce : list Z := replicate 12 5.
Definition no_peers : DHTNode := mkDHTNode ∅ false.
Definition new_server : option RateLimiter * outcome Server := NewServer None no_peers [1] net [] (Ok tt) None.
Definition server : Server := match new_server.2 with Ok s => s | _ => mkServer no_peers (NewDistributedStorage [1] net) (mkRouter true 0 0) 0 ∅ [] false end.

Lemma server_new : NewServer None no_peers [1] net [] (Ok tt) None = (Some (NewRateLimiter 100), Ok server).
Proof. reflexivity. Qed.

(** an accepted upload is stored on a mesh that works *)
Lemma upload_works req a :
  accept_upload (Ok req) (Some some_nonce) = Go a → ascii (au_UserAddr a) →
  ∃ s1 r1 chunk code, setupRoutes server (Upload (Ok req) (Some some_nonce) env_up) 0 0 = (s1, r1) ∧ code_of r1 = 200 ∧
    getChunkMetadata s1 (au_UserAddr a) (au_ChunkID a) = Some chunk ∧
    ∀ n, (n < 15)%nat → held_at (au_UserAddr a) (au_ChunkID a) code (st_net (sv_distributedStore s1)) (dc_ShardLocations chunk) n.
Proof.
  intros Ha Hu. destruct (accept_upload_go (Ok req) some_nonce a ltac:(by_decision) eq_refl Ha)
    as (_ & _ & _ & _ & _ & _ & _ & _ & _ & Hne & Hb & _).
  destruct (store_up start (au_UserAddr a) (au_ChunkID a) (au_dataToStore a) env_up start_ready Hu Hne Hb)
    as (ds & chunk & code & Hs & _ & _ & _ & Hok & Hch & Hheld).
  cbn [setupRoutes]. unfold handleUpload, after_accept. rewrite Ha. unfold store_upload.
  change (sv_distributedStore server) with start. rewrite Hs. do 2 eexists. exists chunk, code. split; [reflexivity|].
  split; [reflexivity|]. split; [|exact Hheld]. unfold getChunkMetadata.
  cbn [storeChunkMetadata sv_chunkMetadata with_metadata with_store sv_distributedStore]. rewrite Hch.
  destruct Hok as [-> -> _ _]. rewrite bool_decide_true by set_solver. apply lookup_insert_eq.
Qed.

(** "AQID" is the bytes 1, 2, 3 *)
Lemma uploaded_is_downloaded_witness :
  ∃ s1 r1, setupRoutes server (Upload (Ok (upload (string_bytes "AQID") false)) (Some some_nonce) env_up) 0 0 = (s1, r1) ∧
    code_of r1 = 200 ∧
    setupRoutes s1 (Download wallet (string_bytes "7") (mkCredentials [] [] [] (string_bytes "pw")) env_up) 1 0
    = (s1, Ok (download_response wallet 7 1 [1; 2; 3])).
Proof.
  destruct (accept_upload (Ok (upload (string_bytes "AQID") false)) (Some some_nonce)) as [r|a|] eqn:Ea;
    [vm_compute in Ea; discriminate Ea| |vm_compute in Ea; discriminate Ea].
  assert (au_UserAddr a = wallet ∧ au_ChunkID a = 7) as [Eu Ec].
  { destruct (accept_upload_go _ some_nonce a ltac:(by_decision) eq_refl Ea) as (req & _ & Er & _ & _ & _ & -> & -> & _).
    injection Er as <-. split; reflexivity. }
  destruct (upload_works _ a Ea ltac:(rewrite Eu; by_decision)) as (s1 & r1 & chunk & code & Hup & H200 & Hchunk & Hheld).
  rewrite Eu, Ec in Hchunk, Hheld. exists s1, r1. split; [exact Hup|]. split; [exact H200|].
  destruct (uploaded_is_downloaded None no_peers [1] net [] None _ server server ∅ (upload (string_bytes "AQID") false) some_nonce env_up
    0 0 s1 r1 s1 _ (mkCredentials [] [] [] (string_bytes "pw")) env_up 1 net_inv server_new (rtc_refl _ _)
    ltac:(by_decision) eq_refl ltac:(by_decision) ltac:(by_decision) Hup H200 ltac:(discriminate) (rtc_refl _ _) eq_refl
    (conj eq_refl eq_refl)) as (data & chunk' & r & Hdata & Hchunk' & Hd & _ & _ & Halive).
  assert (data = [1; 2; 3]) as -> by (vm_compute in Hdata; injection Hdata as <-; reflexivity).
  change (getChunkMetadata s1 wallet 7 = Some chunk') in Hchunk'. rewrite Hchunk in Hchunk'. injection Hchunk' as <-.
  rewrite (Halive (seq 0 15)) in Hd; [exact Hd|apply NoDup_seq|discriminate|]. intros n [_ Hn]%elem_of_seq.
  apply (held_alive wallet 7 code); [split; reflexivity|]. apply Hheld. lia.
Defined.

(** before any upload *)
Lemma api_refines_map_witness :
  setupRoutes server (Download wallet (string_bytes "7") (mkCredentials [] [] [] []) env_up) 1 0 = (server, Ok (no_data wallet 7)).
Proof.
  apply (api_refines_map None no_peers [1] net [] None _ server server ∅ wallet 7 (mkCredentials [] [] [] []) env_up 1 0
    net_inv server_new (rtc_refl _ _)); [reflexivity|by_decision].
Defined.

(** an encryption of the client's own, with a nonce of two bytes *)
Definition client_json : gostring := base64_encode (codec_encode (mkEncryptedData [1; 2] [3; 4])).
Lemma client_json_never_returned_witness :
  ∃ s1 r1, setupRoutes server (Upload (Ok (upload client_json true)) (Some some_nonce) env_up) 0 0 = (s1, r1) ∧ code_of r1 = 200 ∧
    code_of (setupRoutes s1 (Download wallet (string_bytes "7") (mkCredentials [] [] [] (string_bytes "pw")) env_up) 1 0).2 ≠ 200.
Proof.
  destruct (accept_upload (Ok (upload client_json true)) (Some some_nonce)) as [r|a|] eqn:Ea;
    [vm_compute in Ea; discriminate Ea| |vm_compute in Ea; discriminate Ea].
  assert (au_UserAddr a = wallet) as Eu.
  { destruct (accept_upload_go _ some_nonce a ltac:(by_decision) eq_refl Ea) as (req & _ & Er & _ & _ & _ & -> & _).
    injection Er as <-. reflexivity. }
  destruct (upload_works _ a Ea ltac:(rewrite Eu; by_decision)) as (s1 & r1 & chunk & code & Hup & H200 & _).
  exists s1, r1. split; [exact Hup|]. split; [exact H200|].
  apply (client_json_never_returned None no_peers [1] net [] None _ server server ∅ (upload client_json true) some_nonce env_up
    0 0 s1 r1 s1 (effect (Upload (Ok (upload client_json true)) (Some some_nonce) env_up) r1 ∅)
    (codec_encode (mkEncryptedData [1; 2] [3; 4])) (mkEncryptedData [1; 2] [3; 4])
    (mkCredentials [] [] [] (string_bytes "pw")) env_up 1 net_inv server_new (rtc_refl _ _)
    ltac:(by_decision) eq_refl ltac:(by_decision) ltac:(by_decision) eq_refl); try exact Hup; try exact H200; try apply rtc_refl; try reflexivity.
  discriminate.
Defined.

(** Chunk 0 cannot be uploaded with JSON: zero counts as missing. *)
Example chunk_zero_refused :
  accept_upload (Ok (mkUploadRequest wallet 0 (string_bytes "AQID") [] [] false)) (Some some_nonce)
  = Return (error 400 "Invalid request" "Key: 'UploadRequest.ChunkID' Error:Field validation for 'ChunkID' failed on the 'required' tag").
Proof. reflexivity. Qed.

(** A server started again on the same mesh has no chunk of before. *)
Example restart_forgets_chunks (s : Server) :
  (NewServer None no_peers (st_self (sv_distributedStore s)) (st_net (sv_distributedStore s)) [] (Ok tt) None).2
  = Ok (mkServer no_peers (NewDistributedStorage (st_self (sv_distributedStore s)) (st_net (sv_distributedStore s)))
          (mkRouter true 100 104857600) 8080 ∅ [] false).
Proof. reflexivity. Qed.

(** The second server of a process shares the first one's limit. *)
Example second_limit_ignored :
  fst (NewServer (Some (NewRateLimiter 100)) no_peers [1] net [] (Ok tt) (Some (mkConfig 8081 true 5 100 0 0 [] false)))
  = Some (NewRateLimiter 100).
Proof. reflexivity. Qed.

Example a_day_and_a_bit : formatDuration (90061 * Second) = "1d 1h 1m 1s"%string.
Proof. vm_compute. reflexivity. Qed.

End api_witnesses.
