(* ===== verification/MeshMain.v ===== *)
(** * Running a node of the mesh: cmd/mesh-api/main.go, the creation and the closing of
    a node in pkg/meshstorage/node.go, and the HTTP server's own start and stop

    The disk of a machine has the chunk database and the directory beside it.  The
    mesh is what the other nodes can reach: a node that starts joins it under the
    identifier of its key, and a node that stops leaves it.  [log.Fatalf] is [Err]. *)

From S2P Require Import Prelude GoBytes DhtStore MeshVersion MeshStore MeshNode MeshRpc MeshDistributed MeshMigration ApiMiddleware MeshApi.

(** ** path/filepath *)

Fixpoint split_slash (path : gostring) : list gostring :=
  match path with
  | [] => [[]]
  | b :: path' =>
      match split_slash path' with
      | part :: parts => if b =? 47 then [] :: part :: parts else (b :: part) :: parts
      | [] => []
      end
  end.

(** [stack]: the parts so far, the last one first *)
Fixpoint clean_parts (rooted : bool) (stack parts : list gostring) : list gostring :=
  match parts with
  | [] => reverse stack
  | part :: parts' =>
      if bool_decide (part = []) || bool_decide (part = string_bytes ".") then clean_parts rooted stack parts'
      else if bool_decide (part = string_bytes "..") then
        match stack with
        | top :: stack' =>
            if bool_decide (top = string_bytes "..") then clean_parts rooted (part :: stack) parts'
            else clean_parts rooted stack' parts'
        | [] => clean_parts rooted (if rooted then [] else [part]) parts'
        end
      else clean_parts rooted (part :: stack) parts'
  end.

Fixpoint join_slash (parts : list gostring) : gostring :=
  match parts with
  | [] => []
  | [part] => part
  | part :: parts' => part ++ 47 :: join_slash parts'
  end.

Definition filepath_Clean (path : gostring) : gostring :=
  let rooted := match path with 47 :: _ => true | _ => false end in
  match clean_parts rooted [] (split_slash path), rooted with
  | parts, true => 47 :: join_slash parts
  | [], false => string_bytes "."
  | parts, false => join_slash parts
  end.

(** leading empty elements do not count *)
Definition filepath_Join (elems : list gostring) : gostring :=
  match list_find (λ e, e ≠ []) elems with
  | Some (i, _) => filepath_Clean (join_slash (drop i elems))
  | None => []
  end.

(** ** Creating a node: node.go *)

(** libp2p's keys: a host is known by the identifier of its key *)
Class Libp2p := { PrivKey : Type; IDFromPrivateKey : PrivKey → peerID }.

(** the chunk database, its rows, and the parent of the data directory *)
Record NodeDisk := mkNodeDisk { nd_schema : option SchemaDb; nd_rows : LocalStorage; nd_dirs : Siblings }.

(** [NewLocalStorage] with the rows: a database that was not there has none *)
Definition open_storage (n : nenv) (e : menv) (dataDir : gostring) (d : NodeDisk) : NodeDisk * outcome gostring :=
  let '(schema, dirs, r) := NewLocalStorage n e (nd_schema d) (nd_dirs d) dataDir in
  (mkNodeDisk schema (match nd_schema d with Some _ => nd_rows d | None => ∅ end) dirs,
   _ ← r; Ok (filepath_Join [dataDir; string_bytes "chunks.db"])).

Section main.
Context `{Libp2p}.

Record NodeConfig := mkNodeConfig {
  nc_Port : Z; nc_DataDir : gostring; nc_BootstrapPeers : list gostring; nc_PrivateKey : option PrivKey }.

(** what one start meets: a fresh key; listening; the DHT; the files and the
    database; peers, with the clock and the bootstrap of the DHT *)
Record node_env := mkNodeEnv {
  ev_key : outcome PrivKey; ev_host : string → option string; ev_dht : option string; ev_open : nenv; ev_db : menv;
  ev_resolve : gostring → outcome AddrInfo; ev_now : Z; ev_bootstrap : outcome unit }.

Record LiveNode := mkLiveNode { ln_ID : peerID; ln_node : DHTNode; ln_path : gostring }.

Definition NewDHTNode (e : node_env) (config : NodeConfig) (d : NodeDisk) : NodeDisk * outcome LiveNode :=
  let priv := match nc_PrivateKey config with
              | Some k => Ok k
              | None => wrap_err "failed to generate key pair: " (ev_key e)
              end in
  let listenAddr := "/ip4/0.0.0.0/tcp/" +:+ pretty (nc_Port config) in
  match priv, ev_host e listenAddr, ev_dht e with
  | Err t, _, _ => (d, Err t)
  | Panic, _, _ => (d, Panic)
  | Ok _, Some t, _ => (d, Err ("failed to create libp2p host: " +:+ t))
  | Ok _, None, Some t => (d, Err ("failed to create DHT: " +:+ t))
  | Ok priv, None, None =>
      let '(d, r) := open_storage (ev_open e) (ev_db e) (nc_DataDir config) d in
      match wrap_err "failed to create storage: " r with
      | Err t => (d, Err t)
      | Panic => (d, Panic)
      | Ok path =>
          let node := mkDHTNode ∅ false in
          let '(node, r) :=
            if bool_decide (nc_BootstrapPeers config = []) then (node, Ok tt)
            else Bootstrap node (ev_resolve e) (nc_BootstrapPeers config) (ev_now e) (ev_bootstrap e) in
          (d, _ ← wrap_err "failed to bootstrap: " r; Ok (mkLiveNode (IDFromPrivateKey priv) node path))
      end
  end.

(** [NodeInfo] of node.go *)
Record LiveNodeInfo := mkLiveNodeInfo {
  li_ID : string; li_Addresses : list gostring; li_PeerCount : Z; li_Bootstrapped : bool; li_StorageStats : StorageStats }.
Definition GetNodeInfo (n : LiveNode) (rows : LocalStorage) (show : peerID → string) (addrs : list gostring) (dberr : option string)
  : outcome LiveNodeInfo :=
  stats ← wrap_err "failed to get storage stats: " (GetStats rows dberr);
  Ok (mkLiveNodeInfo (show (ln_ID n)) addrs (PeerCount (ln_node n)) (IsBootstrapped (ln_node n)) stats).

(** ** Starting and stopping the HTTP server: server.go *)

Record HttpServer := mkHttpServer { hs_Addr : string; hs_ReadTimeout : Z; hs_WriteTimeout : Z; hs_IdleTimeout : Z }.

(** until the context is cancelled; [Shutdown]: the result of the graceful end within
    the given time *)
Definition Server_Start (s : Server) (Shutdown : Z → outcome unit) : HttpServer * outcome unit :=
  (mkHttpServer (":" +:+ pretty (sv_port s)) (30 * Second) (30 * Second) (60 * Second), Shutdown (10 * Second)).
Definition Server_Stop (httpServer : option HttpServer) (Shutdown : Z → outcome unit) : outcome unit :=
  match httpServer with Some _ => Shutdown (5 * Second) | None => Ok tt end.

(** ** The command: main.go *)

Record ApiFlags := mkApiFlags {
  af_port : Z; af_apiPort : Z; af_dataDir : gostring; af_bootstrap : gostring; af_enableCORS : bool; af_rateLimit : Z;
  af_maxUploadMB : Z }.
Definition api_default_flags : ApiFlags := mkApiFlags 9000 8080 (string_bytes "./mesh-data") [] true 100 100.

(** [encoder]: the result of creating the Reed-Solomon encoder *)
Definition start_api (e : node_env) (encoder : outcome unit) (fl : ApiFlags) (d : NodeDisk) (net : mesh)
  : NodeDisk * outcome (option RateLimiter * Server) :=
  match NewDHTNode e (mkNodeConfig (af_port fl) (af_dataDir fl) [] None) d with
  | (d, Err t) => (d, Err ("Failed to create DHT node: " +:+ t))
  | (d, Panic) => (d, Panic)
  | (d, Ok n) =>
      let '(node, r) :=
        if bool_decide (af_bootstrap fl = []) then (ln_node n, Ok tt)
        else Bootstrap (ln_node n) (ev_resolve e) [af_bootstrap fl] (ev_now e) (ev_bootstrap e) in
      match wrap_err "Failed to bootstrap: " r with
      | Err t => (d, Err t)
      | Panic => (d, Panic)
      | Ok _ =>
          let net := <[ln_ID n := nd_rows d]> net in
          let apiConfig := mkConfig (af_apiPort fl) (af_enableCORS fl) (af_rateLimit fl) (af_maxUploadMB fl) 0 0 [] false in
          let '(rl, r) := NewServer None node (ln_ID n) net (ln_path n) encoder (Some apiConfig) in
          (d, s ← wrap_err "Failed to create API server: " r; Ok (rl, s))
      end
  end.

(** [node.Close], whose errors are printed: what is left on the disk, and the mesh
    without the node.  A process that is killed leaves the same. *)
Definition Close (d : NodeDisk) (s : Server) : NodeDisk * mesh :=
  (mkNodeDisk (nd_schema d) (node_storage s) (nd_dirs d), delete (st_self (sv_distributedStore s)) (st_net (sv_distributedStore s))).

(** the table of peers, which the node's goroutines change *)
Definition with_node (s : Server) (n : DHTNode) : Server :=
  mkServer n (sv_distributedStore s) (sv_router s) (sv_port s) (sv_chunkMetadata s) (sv_storagePath s) (sv_isBootstrap s).

(** starts that follow each other on one disk, of processes that end at once *)
Fixpoint api_starts (fl : ApiFlags) (encoder : outcome unit) (net : mesh) (d : NodeDisk) (envs : list node_env) : NodeDisk :=
  match envs with [] => d | e :: envs' => api_starts fl encoder net (start_api e encoder fl d net).1 envs' end.
End main.

Example join_data : filepath_Join [string_bytes "./mesh-data"; string_bytes "chunks.db"] = string_bytes "mesh-data/chunks.db".
Proof. reflexivity. Qed.
Example join_up : filepath_Join [string_bytes "/a/b/../..//../c/."; string_bytes "chunks.db"] = string_bytes "/c/chunks.db".
Proof. reflexivity. Qed.
Example join_empty : filepath_Join [[]; string_bytes "chunks.db"] = string_bytes "chunks.db".
Proof. reflexivity. Qed.
