(* ===== verification/MeshMainProofs.v ===== *)
(** * Theorems on running a node of the mesh

    What a node keeps over a restart and what it loses: its rows stay, its identity
    and the table of chunks do not; and which nodes report to be healthy. *)

From S2P Require Import Prelude GoBytes GoText NodeID Aes DhtStore Onion Relay MeshErasure MeshCrypto MeshVersion MeshStore MeshNode MeshRpc MeshDistributed MeshMigration ApiMiddleware MeshApi MeshApiProofs MeshMain.

(** ** Restarts of one node *)

Lemma open_storage_kept n e dataDir d d' r :
  open_storage n e dataDir d = (d', r) → is_Some (nd_schema d) → is_Some (nd_schema d') ∧ nd_rows d' = nd_rows d.
Proof.
  unfold open_storage, NewLocalStorage. intros Ho [db Hdb]. rewrite Hdb in Ho. revert Ho.
  repeat case_match; intros; simplify_eq; cbn; eauto.
Qed.
Lemma open_storage_schema n e dataDir d d' path : open_storage n e dataDir d = (d', Ok path) → is_Some (nd_schema d').
Proof.
  unfold open_storage, NewLocalStorage. repeat case_match; intros; simplify_eq; cbn; eauto.
Qed.

Section restarts.
Context `{Libp2p}.

Lemma NewDHTNode_kept e config d d' r :
  NewDHTNode e config d = (d', r) → is_Some (nd_schema d) → is_Some (nd_schema d') ∧ nd_rows d' = nd_rows d.
Proof.
  unfold NewDHTNode. intros Hn Hd. destruct (open_storage _ _ _ d) as [d2 r2] eqn:Eo.
  pose proof (open_storage_kept _ _ _ _ _ _ Eo Hd). revert Hn. repeat case_match; intros; by simplify_eq.
Qed.
Lemma NewDHTNode_ok e config d d' n : NewDHTNode e config d = (d', Ok n) → nc_PrivateKey config = None →
  is_Some (nd_schema d') ∧ (∃ key, ev_key e = Ok key ∧ ln_ID n = IDFromPrivateKey key) ∧
  (nc_BootstrapPeers config = [] → ln_node n = mkDHTNode ∅ false).
Proof.
  unfold NewDHTNode. intros Hn Hk. rewrite Hk in Hn. destruct (ev_key e) as [key|t|] eqn:Ek; cbn [wrap_err] in Hn; try done.
  destruct (ev_host e _); [done|]. destruct (ev_dht e); [done|]. destruct (open_storage _ _ _ d) as [d2 [path|t|]] eqn:Eo; try done.
  apply open_storage_schema in Eo. cbn [wrap_err] in Hn. case_bool_decide.
  - injection Hn as <- <-. split_and!; [done|by exists key|done].
  - destruct (Bootstrap _ _ _ _ _) as [node [[]|t|]]; try done. injection Hn as <- <-. split_and!; [done|by exists key|done].
Qed.

Lemma start_api_kept e encoder fl d net d' r :
  start_api e encoder fl d net = (d', r) → is_Some (nd_schema d) → is_Some (nd_schema d') ∧ nd_rows d' = nd_rows d.
Proof.
  unfold start_api. intros Hs Hd. destruct (NewDHTNode _ _ d) as [d2 r2] eqn:En.
  pose proof (NewDHTNode_kept _ _ _ _ _ En Hd). revert Hs. repeat case_match; intros; by simplify_eq.
Qed.
Lemma api_starts_kept fl encoder net envs : ∀ d, is_Some (nd_schema d) →
  is_Some (nd_schema (api_starts fl encoder net d envs)) ∧ nd_rows (api_starts fl encoder net d envs) = nd_rows d.
Proof.
  induction envs as [|e envs IH]; intros d Hd; [done|]. cbn [api_starts].
  destruct (start_api e encoder fl d net) as [d' r] eqn:Es. destruct (start_api_kept _ _ _ _ _ _ _ Es Hd) as [Hd' <-]. by apply IH.
Qed.

(** the state of a server that has just started *)
Lemma start_api_ok e encoder fl d net d' rl s : start_api e encoder fl d net = (d', Ok (rl, s)) →
  is_Some (nd_schema d') ∧ sv_chunkMetadata s = ∅ ∧
  (∃ key, ev_key e = Ok key ∧ sv_distributedStore s = NewDistributedStorage (IDFromPrivateKey key) (<[IDFromPrivateKey key := nd_rows d']> net)) ∧
  (af_bootstrap fl = [] → dn_bootstrapped (sv_node s) = false).
Proof.
  unfold start_api. destruct (NewDHTNode _ _ d) as [d2 [n|t|]] eqn:En; try done.
  destruct (NewDHTNode_ok _ _ _ _ _ En eq_refl) as (Hs & (key & Hk & Hid) & Hnode). rewrite (Hnode eq_refl), Hid. intros Hstart.
  assert (∃ node path, d' = d2 ∧ (af_bootstrap fl = [] → dn_bootstrapped node = false) ∧
    s = mkServer node (NewDistributedStorage (IDFromPrivateKey key) (<[IDFromPrivateKey key := nd_rows d2]> net))
          (setupMiddleware None (mkConfig (af_apiPort fl) (af_enableCORS fl) (af_rateLimit fl) (af_maxUploadMB fl) 0 0 [] false)).2
          (af_apiPort fl) ∅ path false) as (node & path & -> & Hb & ->).
  { revert Hstart. unfold NewServer. destruct (bool_decide_reflect (af_bootstrap fl = [])) as [Hf|Hf].
    - destruct encoder as [[]|t|]; cbn; [|done..]. intros [= <- _ <-]. eexists _, _. split; [done|]. split; [|reflexivity]. done.
    - destruct (Bootstrap _ _ _ _ _) as [node [[]|t|]]; [|done..]. destruct encoder as [[]|t|]; cbn; [|done..].
      intros [= <- _ <-]. eexists _, _. split; [done|]. split; [|reflexivity]. done. }
  split_and!; [done|done| |exact Hb]. by exists key.
Qed.

Lemma bootstrap_ok n resolve peers now dht n' : Bootstrap n resolve peers now dht = (n', Ok tt) → dn_bootstrapped n' = true.
Proof. unfold Bootstrap. repeat case_match; intros; by simplify_eq. Qed.
Lemma start_api_bootstrapped e encoder fl d net d' rl s : start_api e encoder fl d net = (d', Ok (rl, s)) →
  af_bootstrap fl ≠ [] → dn_bootstrapped (sv_node s) = true.
Proof.
  unfold start_api. intros Hs Hf. rewrite bool_decide_false in Hs by done. destruct (NewDHTNode _ _ d) as [d2 [n|t|]]; try done.
  destruct (Bootstrap _ _ _ _ _) as [node [[]|t|]] eqn:Eb; try done. apply bootstrap_ok in Eb. revert Hs.
  unfold NewServer. destruct encoder as [[]|t|]; cbn; [|done..]. by intros [= _ _ <-].
Qed.
End restarts.

(** ** The mesh over restarts *)

(** a node that stops and starts again under another key *)
Definition restart_as (net : mesh) (p : peerID * peerID) : mesh :=
  match net !! p.1 with Some rows => <[p.2 := rows]> (delete p.1 net) | None => net end.

Lemma restarted_gone nodes : ∀ net p, p ∉ nodes.*2 → p ∈ nodes.*1 ∨ net !! p = None → foldl restart_as net nodes !! p = None.
Proof.
  induction nodes as [|[old new] nodes IH]; intros net p Hn Hp; [by destruct Hp as [[]%not_elem_of_nil|]|].
  cbn [foldl fmap list_fmap snd fst] in *. apply not_elem_of_cons in Hn as [Hne Hn]. apply IH; [done|].
  rewrite elem_of_cons in Hp. unfold restart_as. cbn [fst snd].
  destruct Hp as [[->|]|Hp]; [right|by left|right]; destruct (net !! old) as [rows|] eqn:Eo;
    rewrite ?lookup_insert_ne by done; rewrite ?lookup_delete_eq; try done. by apply lookup_delete_None; right.
Qed.

(** identifiers that are new stay as they came *)
Lemma restarted_rows nodes : ∀ net p rows,
  NoDup nodes.*2 → (∀ q, q ∈ nodes.*2 → net !! q = None ∧ q ∉ nodes.*1) →
  net !! p = Some rows → ∃ q, foldl restart_as net nodes !! q = Some rows.
Proof.
  induction nodes as [|[old new] nodes IH]; intros net p rows Hnd Hnew Hp; [by exists p|].
  cbn [foldl fmap list_fmap snd fst] in *. apply NoDup_cons in Hnd as [Hnn Hnd].
  assert (∀ q, q ∈ nodes.*2 → restart_as net (old, new) !! q = None ∧ q ∉ nodes.*1) as Hnew'.
  { intros q Hq. destruct (Hnew q) as [Hq1 Hq2]; [by right|]. apply not_elem_of_cons in Hq2 as [? ?]. split; [|done].
    unfold restart_as. cbn [fst snd]. destruct (net !! old); [|done].
    rewrite lookup_insert_ne by (by intros ->). by apply lookup_delete_None; right. }
  destruct (decide (p = old)) as [->|Hne].
  - apply (IH (restart_as net (old, new)) new rows); [done..|]. unfold restart_as. cbn [fst snd]. rewrite Hp. apply lookup_insert_eq.
  - apply (IH (restart_as net (old, new)) p rows); [done..|]. unfold restart_as. cbn [fst snd]. destruct (net !! old); [|done].
    destruct (Hnew new) as [Hn _]; [by left|]. rewrite lookup_insert_ne by (by intros <-; congruence). by rewrite lookup_delete_ne.
Qed.

Section mesh_restarts.
Context `{ReedSolomon} `{MeshJson} `{MeshText} `{X509} `{!RsaVerify} `{MeshHash} `{Libp2p}.

Lemma sendRequest_dom net peer m e : dom (sendRequest net peer m e).1 = dom net.
Proof.
  unfold sendRequest. destruct (c_link e), (net !! peer) eqn:Ep; try done; destruct (json_marshal _); try done;
    destruct (handleStream _ _ _); cbn [fst]; by rewrite dom_insert_lookup_L by eauto.
Qed.
Lemma fetch_shard_dom net self peer key i e net' r : fetch_shard net self peer key i e = (net', r) →
  dom net' = dom net ∧ (is_ok r = true → peer = self ∨ is_Some (net !! peer)).
Proof.
  unfold fetch_shard. case_bool_decide; [intros [= <- <-]; by split; [|left]|]. unfold Client_GetChunk, call.
  destruct (json_marshal _); [|by intros [= <- <-]..]. pose proof (sendRequest_dom net peer
    (mkRPCMessage [] MsgTypeGetChunk (request_id key i) a) e) as Hd.
  destruct (sendRequest _ _ _ _) as [net1 r1] eqn:Es. intros [= <- <-]. split; [done|]. intros Hok. right.
  destruct (net !! peer) eqn:Ep; [by eexists|]. unfold sendRequest in Es. rewrite Ep in Es.
  destruct (c_link e); injection Es as <- <-; discriminate Hok.
Qed.

Lemma filter_length_impl {A} (P Q : A → Prop) `{!∀ x, Decision (P x), !∀ x, Decision (Q x)} (l : list A) :
  (∀ x, x ∈ l → P x → Q x) → len (filter P l) ≤ len (filter Q l).
Proof.
  unfold len. induction l as [|x l IH]; intros Hl; [done|]. rewrite !filter_cons. assert (Hi := IH ltac:(intros y Hy; apply Hl; by right)).
  repeat case_decide; cbn [length]; try lia. exfalso. naive_solver (apply Hl; [by left|done]).
Qed.

(** at most the shards at reachable nodes are fetched *)
Lemma fetch_all_reachable self u c env locs : ∀ net n shards net' shards' k,
  fetch_all net self u c env n locs shards = (net', Ok (shards', k)) →
  k ≤ len (filter (λ loc, sl_PeerID loc = self ∨ sl_PeerID loc ∈ dom net) locs).
Proof.
  induction locs as [|loc locs IH]; intros net n shards net' shards' k; cbn [fetch_all]; [by intros [= <- <- <-]|].
  destruct (fetch_shard _ _ _ _ _ _) as [net1 r] eqn:Ef. destruct (fetch_shard_dom _ _ _ _ _ _ _ _ Ef) as [Hd Hok].
  rewrite filter_cons. destruct r as [s|t|]; [| |done].
  - destruct (set_shard _ _ _) as [shards1|t|]; [|done..]. destruct (fetch_all net1 _ _ _ _ _ _ _) as [net2 [[sh k1]|t|]] eqn:Ea; try done.
    intros [= <- <- <-]. apply IH in Ea. rewrite Hd in Ea. rewrite decide_True by (rewrite elem_of_dom; by apply Hok). unfold len in *. cbn [length]. lia.
  - intros Ea. apply IH in Ea. rewrite Hd in Ea. case_decide; [|done]. unfold len in *. cbn [length]. lia.
Qed.

(** C40: What a restart keeps, and what not.  After a node that the command started was
    stopped, whatever starts fail or succeed in between, the next one has the same
    rows; it has them under the identifier of a new key, the mesh sees the rows move
    from the one to the other, and every download is answered with 404. *)
Theorem restarted_node_forgets `{AesGcm} `{!Json EncryptedData} (fl : ApiFlags) (e e' : node_env) (encoder : outcome unit)
    (envs : list node_env) (d d1 d2 d3 : NodeDisk) (net net2 : mesh) (rl rl' : option RateLimiter) (s0 s s1 : Server) :
  start_api e encoder fl d net = (d1, Ok (rl, s0)) →
  is_Some (st_net (sv_distributedStore s) !! st_self (sv_distributedStore s)) → Close d1 s = (d2, net2) →
  start_api e' encoder fl (api_starts fl encoder net2 d2 envs) net2 = (d3, Ok (rl', s1)) →
  node_storage s1 = node_storage s ∧
  (∃ key, ev_key e' = Ok key ∧ st_self (sv_distributedStore s1) = IDFromPrivateKey key ∧
     st_net (sv_distributedStore s1) = restart_as (st_net (sv_distributedStore s)) (st_self (sv_distributedStore s), IDFromPrivateKey key)) ∧
  ∀ u cstr c cr de now start, bad_address u = false → Atoi cstr = Some c →
    setupRoutes s1 (Download u cstr cr de) now start = (s1, Ok (no_data u c)).
Proof.
  intros Hs [rows Hrows] [= <- <-] Hs'. destruct (start_api_ok _ _ _ _ _ _ _ _ Hs) as [Hd1 _].
  destruct (api_starts_kept fl encoder (delete (st_self (sv_distributedStore s)) (st_net (sv_distributedStore s))) envs
    (mkNodeDisk (nd_schema d1) (node_storage s) (nd_dirs d1)) Hd1) as [Hd2 Hr2].
  destruct (start_api_kept _ _ _ _ _ _ _ Hs' Hd2) as [_ Hr3]. rewrite Hr2 in Hr3. cbn [nd_rows] in Hr3.
  destruct (start_api_ok _ _ _ _ _ _ _ _ Hs') as (_ & Hmeta & (key & Hk & Hds) & _). rewrite Hr3 in Hds. split_and!.
  - unfold node_storage at 1. rewrite Hds. cbn. by rewrite lookup_insert_eq.
  - exists key. rewrite Hds. split_and!; [done..|]. cbn [st_net NewDistributedStorage]. unfold restart_as, node_storage. cbn [fst snd].
    by rewrite Hrows.
  - intros u cstr c cr de now start Hu Hc. cbn [setupRoutes]. unfold handleDownload, getChunkMetadata. rewrite Hu, Hc, Hmeta.
    by rewrite bool_decide_false by set_solver.
Qed.

(** Shards on nodes that restarted cannot be reached.  When fewer than ten of a
    chunk's shards are on nodes that did not restart, the chunk cannot be retrieved,
    although every row of every node is still in the mesh. *)
Theorem restarts_orphan_shards (ds : DistributedStorage) (chunk : DistributedChunk) (nodes : list (peerID * peerID)) (e : denv) :
  let ds' := with_net ds (foldl restart_as (st_net ds) nodes) in
  NoDup nodes.*2 → (∀ q, q ∈ nodes.*2 → st_net ds !! q = None ∧ (q ∉ nodes.*1) ∧ q ∉ (sl_PeerID <$> dc_ShardLocations chunk)) →
  st_self ds ∉ nodes.*1 → len (filter (λ loc, sl_PeerID loc ∉ nodes.*1) (dc_ShardLocations chunk)) < MinShardsForRecovery →
  (∀ p rows, st_net ds !! p = Some rows → ∃ q, st_net ds' !! q = Some rows) ∧
  is_ok (RetrieveDistributed ds' (Some chunk) e).2 = false.
Proof.
  intros ds' Hnd Hnew Hself Hfew. split.
  - intros p rows Hp. apply (restarted_rows nodes (st_net ds) p rows Hnd); [|done]. intros q Hq. by destruct (Hnew q Hq) as (? & ? & _).
  - unfold RetrieveDistributed. destruct (fetch_all _ _ _ _ _ _ _ _) as [net' [[shards k]|t|]] eqn:Ef; [|done..].
    apply fetch_all_reachable in Ef. cbn [mbind outcome_bind snd]. rewrite (proj2 (Z.ltb_lt _ _)); [done|].
    eapply Z.le_lt_trans; [exact Ef|]. eapply Z.le_lt_trans; [|exact Hfew]. apply filter_length_impl. intros loc Hloc Hp Hin. destruct Hp as [Hp|Hp]; [by rewrite Hp in Hin|]. apply elem_of_dom in Hp as [rows Hp].
    unfold ds' in Hp. cbn [with_net st_net] in Hp. rewrite restarted_gone in Hp; [done| |by left].
    intros Hq. by destruct (Hnew _ Hq) as (_ & _ & []); apply list_elem_of_fmap_2.
Qed.
End mesh_restarts.

(** ** Health *)

Section health.
Context `{ReedSolomon} `{MeshJson} `{MeshText} `{X509} `{!RsaVerify} `{MeshHash} `{AesGcm} `{!Json EncryptedData} `{Libp2p}.

(** what happens to a running node: requests; its own connections; the look at its
    peers every 30 seconds; and whatever the mesh and the monitor do *)
Inductive api_life : Server → Server → Prop :=
  | life_request s req now start s' r : setupRoutes s req now start = (s', r) → api_life s s'
  | life_connect s resolve addr now : api_life s (with_node s (Connect (sv_node s) resolve addr now).1)
  | life_disconnect s peer closed : api_life s (with_node s (Disconnect (sv_node s) peer closed).1)
  | life_peers s connected now : api_life s (with_node s (checkPeerHealth (sv_node s) connected now))
  | life_mesh s ds : api_life s (with_store s ds).

Lemma setupRoutes_node s req now start : sv_node (setupRoutes s req now start).1 = sv_node s.
Proof.
  destruct req as [|decoded nonce e|u c cr e|u c e|u c h e| |show order|stored deleted alloc|show addrs|ct dberr];
    cbn [setupRoutes]; try done.
  - unfold handleUpload, after_accept, store_upload. by repeat case_match.
  - unfold handleDownload. by repeat case_match.
  - unfold handleStatus. by repeat case_match.
  - unfold handleDelete. by repeat case_match.
  - destruct (health_state s stored deleted alloc now start) as (local & Hl & _).
    destruct (handleHealth s stored deleted alloc now start) as [s' r]. cbn in Hl |- *. by subst.
Qed.

Lemma life_bootstrapped s s' : api_life s s' → dn_bootstrapped (sv_node s') = dn_bootstrapped (sv_node s).
Proof.
  destruct 1 as [s req now start s' r Hr|s resolve addr now|s peer closed|s connected now|s ds]; try done.
  - pose proof (setupRoutes_node s req now start) as Hn. rewrite Hr in Hn. cbn in Hn. by rewrite Hn.
  - cbn. unfold Connect. by destruct (resolve addr).
  - cbn. unfold Disconnect. by destruct closed.
Qed.

Definition has_peers (s : Server) : bool := 0 <? Z.of_nat (size (dn_peers (sv_node s))).

(** The health that is reported: "healthy" when the node bootstrapped, knows a peer
    and could write, else "unhealthy"; "degraded" never is. *)
Lemma health_status s stored deleted alloc now start :
  let '(_, r) := handleHealth s stored deleted alloc now start in
  ∃ h, r = mkResponse 200 (HealthBody h) ∧ hr_DHTReachable h = dn_bootstrapped (sv_node s) && has_peers s ∧
    hr_Status h = (if dn_bootstrapped (sv_node s) && has_peers s && bool_decide (stored = None) then "healthy" else "unhealthy")%string.
Proof.
  unfold handleHealth, GetPeers, IsBootstrapped. fold (has_peers s). destruct stored as [t|].
  - cbn [StoreChunk string_bytes]. eexists. split; [reflexivity|]. split; [done|]. cbn [hr_Status]. by destruct (_ && has_peers s).
  - rewrite StoreChunk_ok by done. cbn [is_ok]. eexists. split; [reflexivity|]. split; [done|]. cbn [hr_Status sv_node with_storage with_store].
    fold (has_peers s). by destruct (dn_bootstrapped (sv_node s)), (has_peers s).
Qed.

(** The first node of a mesh never is healthy.  A node that was started without a
    bootstrap address reports that the DHT cannot be reached and that it is
    unhealthy, whatever peers connect to it and whatever it does; one that was
    bootstrapped reports "healthy" as soon as it knows a peer and can write. *)
Theorem first_node_unhealthy (fl : ApiFlags) (e : node_env) (encoder : outcome unit) (d d1 : NodeDisk) (net : mesh)
    (rl : option RateLimiter) (s0 s : Server) (stored deleted : option string) (alloc now start : Z) :
  start_api e encoder fl d net = (d1, Ok (rl, s0)) → rtc api_life s0 s →
  ∃ s' h, setupRoutes s (Health stored deleted alloc) now start = (s', Ok (mkResponse 200 (HealthBody h))) ∧
    (af_bootstrap fl = [] → hr_DHTReachable h = false ∧ hr_Status h = "unhealthy"%string) ∧
    (af_bootstrap fl ≠ [] → dn_peers (sv_node s) ≠ ∅ → stored = None → hr_Status h = "healthy"%string).
Proof.
  intros Hs Hlife. assert (dn_bootstrapped (sv_node s) = dn_bootstrapped (sv_node s0)) as Hb.
  { clear Hs. induction Hlife as [|s1 s2 s3 Hl _ IH]; [done|]. by rewrite IH, (life_bootstrapped _ _ Hl). }
  destruct (start_api_ok _ _ _ _ _ _ _ _ Hs) as (_ & _ & _ & Hflag).
  pose proof (health_status s stored deleted alloc now start) as Hh. cbn [setupRoutes].
  destruct (handleHealth s stored deleted alloc now start) as [s' r]. destruct Hh as (h & -> & Hreach & Hstatus).
  exists s', h. split; [done|]. rewrite Hreach, Hstatus, Hb. split.
  - intros Hf. by rewrite Hflag.
  - intros Hf Hp ->. rewrite (start_api_bootstrapped _ _ _ _ _ _ _ _ Hs Hf). unfold has_peers.
    assert (size (dn_peers (sv_node s)) ≠ 0%nat) by by rewrite map_size_ne_0_lookup_2 || by intros ?%map_size_empty_inv.
    by rewrite (proj2 (Z.ltb_lt 0 _)) by lia.
Qed.
End health.
