(* ===== verification/MeshMainWitness.v ===== *)
(** * Concrete runs of the mesh command

    The hypotheses of the theorems of MeshMainProofs hold for a machine on which
    nothing fails. *)

From S2P Require Import Prelude GoBytes GoText NodeID Aes DhtStore DhtSample DhtNode Onion OnionProofs Relay RelayProofs SampleCodec MeshErasure MeshCrypto MeshVersion MeshStore MeshNode MeshRpc MeshDistributed MeshSample MeshMigration MeshMigrationProofs ApiMiddleware MeshApi MeshApiProofs MeshApiWitness MeshMain MeshMainProofs.

Section main_witnesses.
#[local] Existing Instances OnionSample.rsa RelaySample.x509 MeshCrypto.sample_mesh_hash sample_rs sample_mesh_json
  sample_mesh_text sample_rsa_verify sample_aes.
#[local] Instance main_encrypted_json : Json EncryptedData := codec_json EncryptedData_typed.

(** keys are their identifiers *)
#[local] Instance sample_libp2p : Libp2p := {| PrivKey := gostring; IDFromPrivateKey k := k |}.

Definition data_name : gostring := string_bytes "mesh-data".
Definition empty_disk : NodeDisk := mkNodeDisk None ∅ {[data_name := Dir []]}.
Definition some_flags (bootstrap : gostring) : ApiFlags := mkApiFlags 9000 8080 data_name bootstrap true 100 100.
Definition smooth (key : gostring) : node_env :=
  mkNodeEnv (Ok key) (λ _, None) None (mkNenv None None None) (calm (string_bytes "20250101_000000"))
    (λ addr, Ok (mkAddrInfo addr [addr])) 5 (Ok tt).
(** a start on a port that is taken *)
Definition port_taken : node_env :=
  mkNodeEnv (Ok [7]) (λ _, Some "address already in use"%string) None (mkNenv None None None) (calm []) (λ _, Err "") 6 (Ok tt).

Definition started (bootstrap : gostring) (d : NodeDisk) (net : mesh) (key : gostring) : NodeDisk * outcome (option RateLimiter * Server) :=
  start_api (smooth key) (Ok tt) (some_flags bootstrap) d net.
Definition server_of (p : NodeDisk * outcome (option RateLimiter * Server)) : Server :=
  match p.2 with Ok (_, s) => s | _ => mkServer (mkDHTNode ∅ false) (NewDistributedStorage [] ∅) (mkRouter true 0 0) 0 ∅ [] false end.

(** a node that has a row, stops, fails to start once, and starts under another key *)
Definition first_run : NodeDisk * outcome (option RateLimiter * Server) := started [] empty_disk ∅ [1].
Definition with_row : Server := with_storage (server_of first_run) {[(wallet, 7) := mkRow [1; 2; 3] 0 3]}.
Definition left_disk : NodeDisk := (Close first_run.1 with_row).1.
Definition second_run : NodeDisk * outcome (option RateLimiter * Server) :=
  start_api (smooth [9]) (Ok tt) (some_flags []) (api_starts (some_flags []) (Ok tt) ∅ left_disk [port_taken]) ∅.

Lemma restarted_node_forgets_witness :
  node_storage (server_of second_run) = {[(wallet, 7) := mkRow [1; 2; 3] 0 3]} ∧
  st_self (sv_distributedStore (server_of second_run)) = [9] ∧ st_self (sv_distributedStore (server_of first_run)) = [1].
Proof.
  destruct (restarted_node_forgets (some_flags []) (smooth [1]) (smooth [9]) (Ok tt) [port_taken] empty_disk first_run.1 left_disk
    second_run.1 ∅ ∅ (Some (NewRateLimiter 100)) (Some (NewRateLimiter 100)) (server_of first_run) with_row (server_of second_run))
    as (Hrows & (key & Hk & Hself & _) & _).
  - reflexivity.
  - exists {[(wallet, 7) := mkRow [1; 2; 3] 0 3]}. reflexivity.
  - reflexivity.
  - reflexivity.
  - split; [rewrite Hrows; reflexivity|]. split; [|reflexivity]. injection Hk as <-. exact Hself.
Defined.

(** all shards on one node *)
Definition two_nodes : mesh := {[[1] := ∅; [2] := {[(wallet, 7) := mkRow [1; 2; 3] 0 3]}]}.
Definition observer : DistributedStorage := NewDistributedStorage [1] two_nodes.
Definition placed : DistributedChunk :=
  mkDistributedChunk wallet 7 3 1 ((λ i, mkShardLocation (Z.of_nat i) [2] []) <$> seq 0 15).
Definition any_env : denv :=
  mkDenv [] (λ _, []) (λ _, "") (λ _, mkCenv Up (mkHenv 0 None id)) (λ _, mkCenv Up (mkHenv 0 None id)) (λ _, mkCenv Up (mkHenv 0 None id))
    (λ _, mkCenv Up (mkHenv 0 None id)) id.

Lemma restarts_orphan_shards_witness :
  (∃ q, foldl restart_as two_nodes [([2], [9])] !! q = Some {[(wallet, 7) := mkRow [1; 2; 3] 0 3]}) ∧
  is_ok (RetrieveDistributed (with_net observer (foldl restart_as two_nodes [([2], [9])])) (Some placed) any_env).2 = false.
Proof.
  destruct (restarts_orphan_shards observer placed [([2], [9])] any_env) as [Hrows Hlost].
  - apply NoDup_singleton.
  - intros q Hq. apply list_elem_of_singleton in Hq as ->. split; [reflexivity|]. split; apply (bool_decide_unpack _); reflexivity.
  - apply (bool_decide_unpack _). reflexivity.
  - reflexivity.
  - split; [|exact Hlost]. apply (Hrows [2]). reflexivity.
Defined.

(** a peer connects to the first node *)
Definition visited (s : Server) : Server := with_node s (checkPeerHealth (sv_node s) [mkAddrInfo [2] [[3]]] 8).
Definition health_of (s : Server) : option string :=
  match (setupRoutes s (Health None None 0) 9 0).2 with
  | Ok (mkResponse _ (HealthBody h)) => Some (hr_Status h)
  | _ => None
  end.

Lemma first_node_unhealthy_witness :
  health_of (visited (server_of first_run)) = Some "unhealthy"%string ∧
  health_of (visited (server_of (started [2] empty_disk ∅ [1]))) = Some "healthy"%string.
Proof.
  split.
  - destruct (first_node_unhealthy (some_flags []) (smooth [1]) (Ok tt) empty_disk first_run.1 ∅ (Some (NewRateLimiter 100))
      (server_of first_run) (visited (server_of first_run)) None None 0 9 0) as (s' & h & Hr & Hno & _);
      [reflexivity|apply rtc_once, life_peers|].
    unfold health_of. rewrite Hr. cbn [snd]. f_equal. apply Hno. reflexivity.
  - destruct (first_node_unhealthy (some_flags [2]) (smooth [1]) (Ok tt) empty_disk (started [2] empty_disk ∅ [1]).1 ∅
      (Some (NewRateLimiter 100)) (server_of (started [2] empty_disk ∅ [1])) (visited (server_of (started [2] empty_disk ∅ [1])))
      None None 0 9 0) as (s' & h & Hr & _ & Hyes); [reflexivity|apply rtc_once, life_peers|].
    unfold health_of. rewrite Hr. cbn [snd]. f_equal. apply Hyes; [discriminate| |reflexivity].
    intros Hp. apply (f_equal (lookup [2])) in Hp. discriminate Hp.
Defined.
End main_witnesses.
