(* ===== verification/RelayMain.v ===== *)
(** * Running a relay: cmd/relay/main.go, the key files of pkg/crypto/keys.go, and
    the publication of a relay in pkg/network/relay.go

    The machine has files and the tables of the queue databases.  Starting is one
    function of the flags and of what the operating system answers; [log.Fatal] is
    [Err].  The relay's own record and its entry among the known relays are one
    object once it was published: [rx_shared] says so. *)

From Stdlib Require Import SpecFloat.
From S2P Require Import Prelude GoBytes NodeID Wire Aes DhtStore Onion RelayQueue Relay SessionStore RelayDiscovery RelayMesh.

(** ** Private keys *)

(** crypto/x509 and encoding/pem for private keys *)
Class Pkcs1 `{X509} := {
  pem_EncodePrivate : list Z → list Z;
  MarshalPKCS1PrivateKey : PrivateKey → list Z;
  ParsePKCS1PrivateKey : list Z → outcome PrivateKey }.

(** decoding undoes encoding; a block without its end is none (the last byte is a
    line break) *)
Class Pkcs1Laws `{Pkcs1} := {
  pem_private_roundtrip d : pem_Decode (pem_EncodePrivate d) = Some d;
  pem_private_cut d n : (n + 1 < length (pem_EncodePrivate d))%nat → pem_Decode (take n (pem_EncodePrivate d)) = None;
  pkcs1_roundtrip key : ParsePKCS1PrivateKey (MarshalPKCS1PrivateKey key) = Ok key }.

(** ** The queue's statistics: relay_queue.go *)

(** [SELECT recipient_addr, COUNT( * ) ... GROUP BY recipient_addr] *)
Definition count_recipient (m : gmap (list Z) Z) (msg : QueuedMessage) : gmap (list Z) Z :=
  <[qm_RecipientAddr msg := default 0 (m !! qm_RecipientAddr msg) + 1]> m.
Record QueueStats := mkQueueStats { qs_total_messages : Z; qs_by_recipient : gmap (list Z) Z }.
(** [now], [now']: the two readings of the clock *)
Definition GetQueueStats (q : RelayMessageQueue) (now now' : Z) (err err' : option string) : outcome QueueStats :=
  total ← GetTotalQueueSize q now err;
  match err' with
  | Some e => Err e
  | None => Ok (mkQueueStats total (foldl count_recipient ∅ (filter (λ m, now' < qm_ExpiresAt m) (q_rows q))))
  end.

Section main.
Context `{Pkcs1}.

Definition ExportPrivateKeyPEM (key : PrivateKey) : outcome (list Z) :=
  Ok (pem_EncodePrivate (MarshalPKCS1PrivateKey key)).
Definition ImportPrivateKeyPEM (pemData : list Z) : outcome PrivateKey :=
  match pem_Decode pemData with
  | None => Err "invalid key"
  | Some block => ParsePKCS1PrivateKey block
  end.

Definition SaveKeyToFile (f : io) (d : Disk) (filename : string) (pemData : list Z) : Disk * outcome unit :=
  write_file f d filename pemData "" "".
Definition LoadKeyFromFile (f : io) (d : Disk) (filename : string) : outcome (list Z) :=
  match ReadFile f d filename with
  | Contents data => Ok data
  | NotExist => Err ("open " +:+ filename +:+ ": no such file or directory")
  | Unreadable e => Err e
  end.

(** ** Starting *)

Record Flags := mkFlags {
  fl_port : Z; fl_key : string; fl_genkey : bool; fl_operator : gostring; fl_contract : gostring; fl_mesh : bool;
  fl_peers : Z }.
Definition default_flags : Flags := mkFlags 8080 "./keys/relay.pem" false [] [] true 5.

(** files, and the rows and the next row identifier of the queue databases *)
Record Machine := mkMachine { mc_files : Disk; mc_queues : gmap string (list QueuedMessage * Z) }.

(** what one start meets: the files; whether the key file can be looked at; a
    fresh key; making the two directories; opening the database; listening *)
Record start_env := mkStartEnv {
  se_io : io; se_stat : option string; se_fresh : outcome PrivateKey; se_keys : option string; se_data : option string;
  se_queue : option string; se_listen : option string }.

(** a new key, saved with its public half *)
Definition generate_key (e : start_env) (d : Disk) (keyPath : string) : Disk * outcome PrivateKey :=
  match se_fresh e with
  | Err t => (d, Err t)
  | Panic => (d, Panic)
  | Ok privateKey =>
      match ExportPrivateKeyPEM privateKey with
      | Err t => (d, Err t)
      | Panic => (d, Panic)
      | Ok pemData =>
          match se_keys e with
          | Some t => (d, Err t)
          | None =>
              let '(d, r) := SaveKeyToFile (se_io e) d keyPath pemData in
              match r with
              | Err t => (d, Err t)
              | Panic => (d, Panic)
              | Ok _ =>
                  match ExportPublicKeyPEM (rsa_public privateKey) with
                  | Err t => (d, Err t)
                  | Panic => (d, Panic)
                  | Ok pubPEM =>
                      let pubPath := keyPath +:+ ".pub" in
                      let '(d, r) := SaveKeyToFile (se_io e) d pubPath pubPEM in
                      (d, _ ← r; Ok privateKey)
                  end
              end
          end
      end
  end.

Definition loadOrGenerateKey (e : start_env) (d : Disk) (keyPath : string) (generate : bool)
  : Disk * outcome PrivateKey :=
  let found := bool_decide (is_Some (d !! keyPath)) && bool_decide (se_stat e = None) in
  if found && negb generate then
    (d, pemData ← LoadKeyFromFile (se_io e) d keyPath; ImportPrivateKeyPEM pemData)
  else generate_key e d keyPath.

(** [fmt.Sprintf("./data/relay-%d-queue.db", port)] *)
Definition queue_path (port : Z) : string := "./data/relay-" +:+ pretty port +:+ "-queue.db".

(** [NewRelayMessageQueue] on a database that may be there already *)
Definition open_queue (stored : option (list QueuedMessage * Z)) (ttl : Z) : RelayMessageQueue :=
  let q := NewRelayMessageQueue ttl in
  match stored with Some (rows, nextID) => mkQueue rows nextID (q_ttl q) | None => q end.

Definition count_callback (rs : RelayServer) : RelayServer :=
  mkRelayServer (rs_Address rs) (rs_PrivateKey rs) (rs_peers rs) (rs_messageQueue rs) (rs_messagesRelayed rs) true.

(** the parts that run; no DHT is attached *)
Record running := mkRunning { rn_relay : RelayServer; rn_mesh : option MeshManager }.

Definition thirty_days : Z := 30 * 24 * Hour.

(** [main] up to the wait for a signal *)
Definition start_relay (e : start_env) (fl : Flags) (mc : Machine) : Machine * outcome running :=
  if bool_decide (fl_operator fl = []) then (mc, Err "Error: -operator flag is required (your ETH wallet address)")
  else if bool_decide (fl_contract fl = []) then (mc, Err "Error: -contract flag is required (registry contract address)")
  else
    let '(files, r) := loadOrGenerateKey e (mc_files mc) (fl_key fl) (fl_genkey fl) in
    let mc := mkMachine files (mc_queues mc) in
    match r with
    | Err t => (mc, Err ("Failed to load/generate key: " +:+ t))
    | Panic => (mc, Panic)
    | Ok privateKey =>
        let relay := count_callback (NewRelayServer privateKey) in
        match se_data e with
        | Some t => (mc, Err ("Failed to create data directory: " +:+ t))
        | None =>
            match se_queue e with
            | Some t => (mc, Err ("Failed to create message queue: " +:+ t))
            | None =>
                let queuePath := queue_path (fl_port fl) in
                let messageQueue := open_queue (mc_queues mc !! queuePath) thirty_days in
                let mc := mkMachine (mc_files mc) (<[queuePath := (q_rows messageQueue, q_nextID messageQueue)]> (mc_queues mc)) in
                let relay := AttachMessageQueue relay messageQueue in
                match se_listen e with
                | Some t => (mc, Err ("Failed to start relay server: " +:+ t))
                | None =>
                    if fl_mesh fl then
                      match Start_mesh (NewMeshManager (fl_peers fl)) with
                      | (mm, Ok _) => (mc, Ok (mkRunning relay (Some mm)))
                      | (_, Err t) => (mc, Err ("Failed to start mesh manager: " +:+ t))
                      | (_, Panic) => (mc, Panic)
                      end
                    else (mc, Ok (mkRunning relay None))
                end
            end
        end
    end.

(** [waitForShutdown]: what the relay's queue holds is what the database has *)
Definition shutdown (fl : Flags) (mc : Machine) (rn : running) : Machine * outcome unit :=
  let mc := match rs_messageQueue (rn_relay rn) with
            | Some q => mkMachine (mc_files mc) (<[queue_path (fl_port fl) := (q_rows q, q_nextID q)]> (mc_queues mc))
            | None => mc
            end in
  (mc, match rn_mesh rn with Some mm => (Stop_mesh mm).2 | None => Ok tt end).

(** [GetStats]; [queued]: missing without a queue, 0 when counting fails *)
Record RelayStats := mkRelayStats { rst_messages_relayed : Z; rst_connected_peers : Z; rst_queued_messages : option Z }.
Definition Relay_GetStats (rs : RelayServer) (now : Z) (dberr : option string) : RelayStats :=
  mkRelayStats (rs_messagesRelayed rs) (Z.of_nat (size (rs_peers rs)))
    ((λ q, match GetTotalQueueSize q now dberr with Ok n => n | _ => 0 end) <$> rs_messageQueue rs).

(** ** Publishing the relay *)

Record RelayDht := mkRelayDht {
  rx_discovery : option RelayDiscovery; rx_metadata : option RelayMetadata; rx_shared : bool; rx_startTime : Z; rx_Port : Z }.

(** the node is there; a new discovery knows nobody *)
Definition AttachDHT (rx : RelayDht) : RelayDht :=
  mkRelayDht (Some (NewRelayDiscovery true)) (rx_metadata rx) false (rx_startTime rx) (rx_Port rx).

(** [uint64(time.Since(startTime).Seconds())] *)
Definition uptime (rx : RelayDht) (now : Z) : Z := int64_of (Seconds (time_Sub now (rx_startTime rx))).

Definition SetRelayMetadata (rs : RelayServer) (rx : RelayDht) (region operator version : gostring) (maxConnections now : Z)
  : RelayDht * outcome unit :=
  match rx_discovery rx with
  | None => (rx, Err "DHT not attached - call AttachDHT() first")
  | Some _ =>
      match wrap_err "failed to export public key: " (ExportPublicKeyPEM (rs_PublicKey rs)) with
      | Err t => (rx, Err t)
      | Panic => (rx, Panic)
      | Ok pubKeyPEM =>
          (mkRelayDht (rx_discovery rx)
             (Some (mkRelayMetadata (rs_Address rs) (string_bytes ("localhost:" +:+ pretty (rx_Port rx))) pubKeyPEM region
                      operator version maxConnections (uptime rx now) (Unix now) 0 f0 (fdiv (f64_of 95) (f64_of 100))))
             false (rx_startTime rx) (rx_Port rx), Ok tt)
      end
  end.

Definition set_dynamic (m : RelayMetadata) (up seen : Z) : RelayMetadata :=
  mkRelayMetadata (md_Address m) (md_NetworkAddress m) (md_PublicKeyPEM m) (md_Region m) (md_Operator m)
    (md_Version m) (md_MaxConnections m) up seen (md_Latency m) (md_PacketLoss m) (md_Reliability m).
(** a change of the record, which the known relays see when they have it too *)
Definition put_metadata (rx : RelayDht) (m : RelayMetadata) : RelayDht :=
  mkRelayDht (if rx_shared rx then (λ rd, AddKnownRelay rd m) <$> rx_discovery rx else rx_discovery rx) (Some m)
    (rx_shared rx) (rx_startTime rx) (rx_Port rx).

Definition PublishToDHT `{Json RelayMetadata} (rx : RelayDht) (now : Z) (stored : list Z → outcome unit)
  : RelayDht * outcome unit :=
  match rx_discovery rx with
  | None => (rx, Err "DHT not attached - call AttachDHT() first")
  | Some _ =>
      match rx_metadata rx with
      | None => (rx, Err "metadata not set - call SetRelayMetadata() first")
      | Some m =>
          let rx := put_metadata rx (set_dynamic m (uptime rx now) (Unix now)) in
          match rx_discovery rx, rx_metadata rx with
          | Some rd, Some m =>
              let '(rd, m, r) := PublishRelay rd m now stored in
              (mkRelayDht (Some rd) (Some m) (rx_shared rx || is_ok r) (rx_startTime rx) (rx_Port rx),
               wrap_err "failed to publish relay: " r)
          | _, _ => (rx, Panic)
          end
      end
  end.

Definition GetMetadata (rx : RelayDht) (now : Z) : RelayDht * option RelayMetadata :=
  let rx := match rx_metadata rx with
            | Some m => put_metadata rx (set_dynamic m (uptime rx now) (Unix now))
            | None => rx
            end in
  (rx, rx_metadata rx).

(** pkg/network/relay_metadata.go *)
Definition DecodeRelayMetadata `{Json RelayMetadata} (data : list Z) : outcome RelayMetadata :=
  wrap_err "failed to decode relay metadata: " (json_unmarshal data).

End main.
