(* ===== verification/RelayMainProofs.v ===== *)
(** * Theorems on running a relay

    Across restarts a relay keeps its key and its queue; what it publishes can be
    used; and what the command leaves out. *)

From Stdlib Require Import SpecFloat.
From S2P Require Import Prelude GoBytes NodeID Wire Aes DhtStore DhtSample Onion OnionProofs RelayQueue Relay RelayProofs SessionStore RelayDiscovery RelayPaths RelayMesh SampleCodec RelayMain.

(** ** The queue's statistics *)

Lemma count_recipients rows : ∀ m r,
  default 0 (foldl count_recipient m rows !! r)
  = default 0 (m !! r) + len (filter (λ msg, qm_RecipientAddr msg = r) rows).
Proof.
  induction rows as [|msg rows IH]; intros m r; cbn [foldl]; [by rewrite Z.add_0_r|]. rewrite IH, filter_cons.
  unfold count_recipient. case_decide as Hr.
  - subst r. rewrite lookup_insert_eq. unfold len. cbn [from_option length id]. lia.
  - by rewrite lookup_insert_ne.
Qed.

Lemma waiting_filter rows addr now :
  filter (λ msg, qm_RecipientAddr msg = hex_encode addr) (filter (λ m, now < qm_ExpiresAt m) rows) = waiting rows addr now.
Proof.
  unfold waiting. rewrite list_filter_filter. apply list_filter_iff. intros m. tauto.
Qed.

(** The statistics of the queue give, for every recipient, the number of messages
    that [GetQueuedMessageCount] gives. *)
Theorem queue_stats_spec (q : RelayMessageQueue) (now : Z) (addr : list Z) :
  ∃ stats, GetQueueStats q now now None None = Ok stats ∧ GetTotalQueueSize q now None = Ok (qs_total_messages stats) ∧
    GetQueuedMessageCount q addr now None = Ok (default 0 (qs_by_recipient stats !! hex_encode addr)).
Proof.
  eexists. split_and!; [done..|]. cbn [qs_by_recipient]. rewrite count_recipients, lookup_empty, waiting_filter. done.
Qed.

Section main_proofs.
Context `{Pkcs1Laws}.

(** ** The key *)

Definition key_pem (key : PrivateKey) : list Z := pem_EncodePrivate (MarshalPKCS1PrivateKey key).

Lemma import_key key : ImportPrivateKeyPEM (key_pem key) = Ok key.
Proof. unfold ImportPrivateKeyPEM, key_pem. by rewrite pem_private_roundtrip, pkcs1_roundtrip. Qed.

Lemma append_length (p s : string) : String.length (p +:+ s) = (String.length p + String.length s)%nat.
Proof. induction p as [|c p IH]; [done|]. cbn. by rewrite <- IH. Qed.
Lemma pub_path_ne (p : string) : p +:+ ".pub" ≠ p.
Proof. intros E. apply (f_equal String.length) in E. rewrite append_length in E. cbn in E. lia. Qed.

(** the key file can be looked at, and is not cut short when it is written *)
Definition sound_start (keyPath : string) (e : start_env) : Prop :=
  se_stat e = None ∧ ∀ n t, io_write (se_io e) keyPath ≠ Cut n t.

Lemma generate_key_cases e d keyPath d' r :
  (∀ n t, io_write (se_io e) keyPath ≠ Cut n t) → generate_key e d keyPath = (d', r) →
  (d' = d ∧ ∀ k, r ≠ Ok k) ∨ ∃ k, se_fresh e = Ok k ∧ d' !! keyPath = Some (key_pem k) ∧ ∀ k', r = Ok k' → k' = k.
Proof.
  intros Hcut. unfold generate_key, SaveKeyToFile, write_file. destruct (se_fresh e) as [k|t|]; [|intros [= <- <-]; by left..].
  cbn [ExportPrivateKeyPEM]. destruct (se_keys e); [intros [= <- <-]; by left|].
  destruct (io_write (se_io e) keyPath) as [|t|n t] eqn:Ew; [|intros [= <- <-]; by left|by destruct (Hcut n t)].
  intros E. right. exists k. split; [done|]. change (pem_EncodePrivate _) with (key_pem k) in E.
  destruct (ExportPublicKeyPEM (rsa_public k)) as [pub|t|]; [|injection E as <- <-; by rewrite lookup_insert_eq..].
  destruct (io_write (se_io e) (keyPath +:+ ".pub")) as [|t|n t]; injection E as <- <-.
  - rewrite lookup_insert_ne, lookup_insert_eq by apply pub_path_ne. split; [done|]. by intros k' [= ->].
  - by rewrite lookup_insert_eq.
  - by rewrite lookup_insert_ne, lookup_insert_eq by apply pub_path_ne.
Qed.

Lemma load_cases e d keyPath d' r :
  sound_start keyPath e → loadOrGenerateKey e d keyPath false = (d', r) →
  match d !! keyPath with
  | Some pem => d' = d ∧ ∀ k k', pem = key_pem k → r = Ok k' → k' = k
  | None => (d' = d ∧ ∀ k, r ≠ Ok k) ∨
            ∃ k, se_fresh e = Ok k ∧ d' !! keyPath = Some (key_pem k) ∧ ∀ k', r = Ok k' → k' = k
  end.
Proof.
  intros [Hs Hcut]. unfold loadOrGenerateKey. rewrite Hs, (bool_decide_true (None = None)) by done.
  destruct (d !! keyPath) as [pem|] eqn:Ed.
  - rewrite bool_decide_true by by eexists. intros [= <- <-]. split; [done|]. intros k k' ->.
    unfold LoadKeyFromFile, ReadFile. rewrite Ed. destruct (io_read (se_io e) keyPath); [done|].
    cbn [mbind outcome_bind]. rewrite import_key. by intros [= ->].
  - rewrite bool_decide_false by by intros [? ?]. by apply generate_key_cases.
Qed.

(** ** Restarts *)

(** the machine after some starts, whatever became of them *)
Definition starts (fl : Flags) (mc : Machine) (envs : list start_env) : Machine :=
  foldl (λ mc e, (start_relay e fl mc).1) mc envs.

(** the machine has a relay's key and the rows of its queue *)
Definition keeps (fl : Flags) (key : PrivateKey) (rows : list QueuedMessage) (nextID : Z) (mc : Machine) : Prop :=
  mc_files mc !! fl_key fl = Some (key_pem key) ∧ mc_queues mc !! queue_path (fl_port fl) = Some (rows, nextID).

Lemma start_keeps fl key rows nextID e mc :
  fl_genkey fl = false → sound_start (fl_key fl) e → keeps fl key rows nextID mc →
  let '(mc', r) := start_relay e fl mc in
  keeps fl key rows nextID mc' ∧
  ∀ rn, r = Ok rn → rs_PrivateKey (rn_relay rn) = key ∧
    rs_messageQueue (rn_relay rn) = Some (mkQueue rows nextID thirty_days).
Proof.
  intros Hg He [Hf Hq]. unfold start_relay. rewrite Hg.
  case_bool_decide; [by split|]. case_bool_decide; [by split|].
  destruct (loadOrGenerateKey e (mc_files mc) (fl_key fl) false) as [files r] eqn:El.
  pose proof (load_cases e _ _ _ _ He El) as Hl. rewrite Hf in Hl. destruct Hl as [-> Hk].
  destruct r as [k|t|]; [|by split..]. specialize (Hk key k eq_refl eq_refl). subst k.
  destruct (se_data e); [by split|]. destruct (se_queue e); [by split|]. cbn [mc_files mc_queues]. rewrite Hq. cbn [open_queue q_rows q_nextID].
  assert (keeps fl key rows nextID (mkMachine (mc_files mc) (<[queue_path (fl_port fl) := (rows, nextID)]> (mc_queues mc)))) as Hkeep.
  { split; [done|]. apply lookup_insert_eq. }
  destruct (se_listen e); [by split|].
  destruct (fl_mesh fl); cbn; (split; [done|]); intros rn [= <-]; by split.
Qed.

Lemma starts_keep fl key rows nextID envs : ∀ mc,
  fl_genkey fl = false → Forall (sound_start (fl_key fl)) envs → keeps fl key rows nextID mc →
  keeps fl key rows nextID (starts fl mc envs).
Proof.
  induction envs as [|e envs IH]; intros mc Hg He Hk; [done|]. apply Forall_cons in He as [He Henvs]. cbn.
  apply IH; [done..|]. pose proof (start_keeps fl key rows nextID e mc Hg He Hk) as Hs.
  destruct (start_relay e fl mc) as [mc' r]. apply Hs.
Qed.

Lemma start_key e fl mc mc1 rn :
  fl_genkey fl = false → sound_start (fl_key fl) e → start_relay e fl mc = (mc1, Ok rn) →
  (∀ pem, mc_files mc !! fl_key fl = Some pem → ∃ k, pem = key_pem k) →
  mc_files mc1 !! fl_key fl = Some (key_pem (rs_PrivateKey (rn_relay rn))).
Proof.
  intros Hg He Hs Hok. unfold start_relay in Hs. rewrite Hg in Hs. case_bool_decide; [done|]. case_bool_decide; [done|].
  destruct (loadOrGenerateKey e (mc_files mc) (fl_key fl) false) as [files r] eqn:El.
  pose proof (load_cases e _ _ _ _ He El) as Hl. destruct r as [k|t|]; [|done..].
  assert (files !! fl_key fl = Some (key_pem k)) as Hf.
  { destruct (mc_files mc !! fl_key fl) as [pem|] eqn:Ep.
    - destruct Hl as [-> Hk]. destruct (Hok pem eq_refl) as [k0 ->]. by rewrite (Hk k0 k eq_refl eq_refl).
    - destruct Hl as [[_ Hno]|(k0 & _ & Hf & Hk)]; [by destruct (Hno k)|]. by rewrite (Hk k eq_refl). }
  destruct (se_data e); [done|]. destruct (se_queue e); [done|]. destruct (se_listen e); [done|].
  destruct (fl_mesh fl); cbn in Hs; by injection Hs as <- <-.
Qed.

(** C36: A relay that is started, runs and is stopped goes on where it stopped: after
    any number of starts that fail, the next one that succeeds has the same private
    key, so that onions built for the relay can still be opened, and the messages
    that were queued when it stopped, each with its time to live. *)
Theorem restarted_relay_continues (fl : Flags) (e e' : start_env) (mc mc1 mc2 mc3 : Machine) (rn rn' : running)
    (rs : RelayServer) (q : RelayMessageQueue) (failed : list start_env) :
  fl_genkey fl = false → Forall (sound_start (fl_key fl)) (e :: e' :: failed) →
  (∀ pem, mc_files mc !! fl_key fl = Some pem → ∃ k, pem = key_pem k) →
  start_relay e fl mc = (mc1, Ok rn) →
  rs_PrivateKey rs = rs_PrivateKey (rn_relay rn) → rs_messageQueue rs = Some q →
  (shutdown fl mc1 (mkRunning rs (rn_mesh rn))).1 = mc2 →
  start_relay e' fl (starts fl mc2 failed) = (mc3, Ok rn') →
  rs_PrivateKey (rn_relay rn') = rs_PrivateKey (rn_relay rn) ∧
  ∃ q', rs_messageQueue (rn_relay rn') = Some q' ∧ q_rows q' = q_rows q ∧ q_nextID q' = q_nextID q.
Proof.
  intros Hg [He [He' Hfailed]%Forall_cons]%Forall_cons Hok Hs Hkey Hq <- Hs'.
  pose proof (start_key e fl mc mc1 rn Hg He Hs Hok) as Hf.
  set (mc2 := (shutdown fl mc1 (mkRunning rs (rn_mesh rn))).1) in *.
  assert (keeps fl (rs_PrivateKey (rn_relay rn)) (q_rows q) (q_nextID q) mc2) as Hk.
  { subst mc2. unfold shutdown. cbn [rn_relay fst]. rewrite Hq. split; [done|]. apply lookup_insert_eq. }
  pose proof (starts_keep fl _ _ _ failed mc2 Hg Hfailed Hk) as Hk'.
  pose proof (start_keeps fl _ _ _ e' _ Hg He' Hk') as Hlast. rewrite Hs' in Hlast.
  destruct (proj2 Hlast rn' eq_refl) as [-> ->]. split; [done|]. by eexists.
Qed.

(** A key file that was cut short is not made again: every later start fails, and
    only the flag for a new key, which gives up the relay's identity, helps. *)
Theorem torn_key_blocks (fl : Flags) (e e' : start_env) (mc mc1 : Machine) (r : outcome running) (key : PrivateKey) (n : nat) (t : string) :
  fl_genkey fl = false → fl_operator fl ≠ [] → fl_contract fl ≠ [] → mc_files mc !! fl_key fl = None →
  se_fresh e = Ok key → se_keys e = None → io_write (se_io e) (fl_key fl) = Cut n t → (n + 1 < length (key_pem key))%nat →
  start_relay e fl mc = (mc1, r) → se_stat e' = None →
  ∃ t', start_relay e' fl mc1 = (mc1, Err t').
Proof.
  intros Hg Ho Hc Hnone Hfresh Hkeys Hcut Hn Hs Hstat. unfold start_relay in Hs. rewrite Hg in Hs.
  rewrite !bool_decide_false in Hs by done. unfold loadOrGenerateKey in Hs.
  rewrite (bool_decide_false (is_Some (mc_files mc !! fl_key fl))) in Hs by (rewrite Hnone; by intros [? ?]). cbn [andb] in Hs.
  unfold generate_key in Hs. rewrite Hfresh, Hkeys in Hs. cbn [ExportPrivateKeyPEM] in Hs. unfold SaveKeyToFile, write_file in Hs.
  rewrite Hcut in Hs. injection Hs as <- _. unfold start_relay. rewrite Hg, !bool_decide_false by done. unfold loadOrGenerateKey.
  cbn [mc_files]. rewrite Hstat, lookup_insert_eq. rewrite !bool_decide_true by (done || by eexists). cbn [andb negb].
  unfold LoadKeyFromFile, ReadFile. rewrite lookup_insert_eq. destruct (io_read (se_io e') (fl_key fl)); [by eexists|].
  cbn [mbind outcome_bind]. unfold ImportPrivateKeyPEM. change (pem_EncodePrivate _) with (key_pem key).
  unfold key_pem in *. rewrite pem_private_cut by done. by eexists.
Qed.

(** The command attaches no DHT and knows no bootstrap relays: the mesh manager it
    starts never connects to anybody, whatever its target. *)
Theorem relay_command_isolated `{AesGcm} `{Blake2b} `{Json OnionLayer} (e : start_env) (fl : Flags) (mc mc1 : Machine) (rn : running)
    (mm : MeshManager) (de : dsenv) (me : menv) (target : Z) :
  start_relay e fl mc = (mc1, Ok rn) → rn_mesh rn = Some mm →
  let s := mkMeshState (rn_relay rn) None in
  connectToBootstrapRelays s (mm_bootstrapRelays mm) me = (s, []) ∧ discoverAndConnect s target de me = Some (s, []) ∧
  mst_mesh_healthy (GetMeshStatus (rn_relay rn) (fl_peers fl)) = (fl_peers fl <=? 0).
Proof.
  intros Hs Hm s. assert (mm_bootstrapRelays mm = [] ∧ rs_peers (rn_relay rn) = ∅) as [-> Hp].
  { unfold start_relay in Hs. repeat case_match; simplify_eq; cbn in *; by simplify_eq. }
  split_and!; [done..|]. unfold GetMeshStatus, relay_peers. cbn [mst_mesh_healthy]. by rewrite Hp.
Qed.

(** ** Publishing *)

Lemma import_export `{!X509Laws} key pem : ExportPublicKeyPEM key = Ok pem → ImportPublicKeyPEM pem = Ok key.
Proof.
  unfold ExportPublicKeyPEM, ImportPublicKeyPEM. destruct (MarshalPKIXPublicKey key) as [d|t|] eqn:E; [|done..].
  intros [= <-]. rewrite pem_roundtrip, (pkix_roundtrip _ _ E). done.
Qed.

(** a record of this second *)
Lemma fresh_healthy m now :
  0 ≤ now < 2 ^ 62 → md_LastSeen m = Unix now → SFltb (md_Reliability m) (tenths 5) = false → SFltb f0 (md_PacketLoss m) = false →
  IsHealthy m Hour now = true.
Proof.
  intros Hn Hs Hr Hp. unfold IsHealthy. rewrite Hs, Hr, Hp, andb_false_r. cbn [andb].
  assert (Since now (Unix now) <= Hour) as Ha.
  { pose proof (Z.mod_pos_bound now Second ltac:(done)). pose proof (Z.div_mod now Second ltac:(done)) as Hdm.
    assert (0 ≤ now / Second ≤ now) by (split; [apply Z.div_pos; unfold Second; lia|apply Z.div_le_upper_bound; unfold Second; lia]).
    unfold Since, Unix. rewrite s64_id by lia. unfold time_Sub, Hour, Minute, Second in *. lia. }
  destruct (Z.ltb_spec Hour (Since now (Unix now))); [lia|done].
Qed.

(** the record of a relay *)
Definition relay_record (rs : RelayServer) (port : Z) (pem region operator version : gostring) (maxConnections up seen : Z)
  : RelayMetadata :=
  mkRelayMetadata (rs_Address rs) (string_bytes ("localhost:" +:+ pretty port)) pem region operator version maxConnections up seen
    0 f0 (fdiv (f64_of 95) (f64_of 100)).

(** A relay with a DHT sets its record and publishes it.  What is stored is a
    record that decodes to the relay's current one: healthy, with the key that
    opens its layers; the relay is then known to itself under the same record.  The
    record names this host for the reader, and the relay's address is the zero
    address when it was made by [NewRelayServer]. *)
Theorem published_record_usable `{!X509Laws} `{Json RelayMetadata} {typed plain} `{!JsonLaws RelayMetadata typed plain}
    (rs : RelayServer) (rx : RelayDht) (region operator version pem : gostring) (maxConnections t now : Z) :
  ExportPublicKeyPEM (rs_PublicKey rs) = Ok pem → 0 ≤ now < 2 ^ 62 →
  (∀ up, let m := relay_record rs (rx_Port rx) pem region operator version maxConnections up (Unix now) in typed m ∧ plain m) →
  ∃ rx1 rx2 data m,
    SetRelayMetadata rs (AttachDHT rx) region operator version maxConnections t = (rx1, Ok tt) ∧
    PublishToDHT rx1 now (λ d, if bool_decide (d = data) then Ok tt else Err "not found") = (rx2, Ok tt) ∧
    DecodeRelayMetadata data = Ok m ∧ rx_metadata rx2 = Some m ∧
    (rx_discovery rx2 ≫= λ rd, rd_knownRelays rd !! rs_Address rs) = Some m ∧
    md_Address m = rs_Address rs ∧ ImportPublicKeyPEM (md_PublicKeyPEM m) = Ok (rs_PublicKey rs) ∧
    IsHealthy m Hour now = true ∧ md_NetworkAddress m = string_bytes ("localhost:" +:+ pretty (rx_Port rx)).
Proof.
  intros Hpem Hnow Hplain. unfold SetRelayMetadata. cbn [AttachDHT rx_discovery]. rewrite Hpem. cbn [wrap_err].
  set (rx1 := mkRelayDht _ _ _ _ _). set (m0 := mkRelayMetadata _ _ _ _ _ _ _ _ _ _ _ _) in *.
  set (m := set_last_seen (set_dynamic m0 (uptime rx1 now) (Unix now)) (Unix now)).
  destruct (Hplain (uptime rx1 now)) as [Ht Hp]. change (relay_record _ _ _ _ _ _ _ _ _) with m in Ht, Hp. destruct (json_total m Ht) as (data & Hj & _).
  exists rx1. eexists. exists data, m. split; [done|]. unfold PublishToDHT. cbn [rx1 rx_discovery rx_metadata rx_shared put_metadata].
  unfold PublishRelay. cbn [rd_dhtNode NewRelayDiscovery negb]. fold m0. change (set_last_seen _ (Unix now)) with m. rewrite Hj. cbn [wrap_err].
  rewrite bool_decide_true by done. cbn [is_ok orb wrap_err]. split; [reflexivity|]. unfold DecodeRelayMetadata.
  rewrite (json_round m data Hp Hj). cbn [rx_metadata rx_discovery mbind option_bind rd_knownRelays AddKnownRelay with_known NewRelayDiscovery].
  split_and!; try done; [apply lookup_insert_eq|by apply import_export|]. apply fresh_healthy; [exact Hnow|reflexivity..].
Qed.

End main_proofs.

(** ** A concrete machine *)

Module MainSample.
#[local] Existing Instance OnionSample.rsa.

(** a block: each byte after a 1, then 0 and a line break *)
Definition block (d : list Z) : list Z := (d ≫= λ b, [1; b]) ++ [0; 10].
Fixpoint unblock (d : list Z) : option (list Z) :=
  match d with
  | x :: d' => if x =? 0 then Some [] else match d' with b :: d'' => cons b <$> unblock d'' | [] => None end
  | [] => None
  end.
Lemma unblock_block d : unblock (block d) = Some d.
Proof. unfold block. induction d as [|b d IH]; [done|]. cbn in *. by rewrite IH. Qed.
Lemma unblock_cut d n : (n + 1 < length (block d))%nat → unblock (take n (block d)) = None.
Proof.
  unfold block. revert n. induction d as [|b d IH]; intros n Hn; [by assert (n = 0)%nat as -> by (cbn in Hn; lia)|].
  destruct n as [|[|n]]; [done|done|]. cbn in *. by rewrite IH by lia.
Qed.

#[export] Instance main_x509 : X509 := {|
  pem_Decode := unblock; pem_EncodePublic := block;
  ParsePKIXPublicKey d := match d with [k] => Ok (Some k) | _ => Err "invalid" end;
  MarshalPKIXPublicKey k := Ok [k] |}.
#[export] Instance main_x509_laws : X509Laws.
Proof. constructor; [apply unblock_block|]. by intros k d <-%Ok_inj. Qed.
#[export] Instance main_pkcs1 : Pkcs1 := {|
  pem_EncodePrivate := block; MarshalPKCS1PrivateKey k := [k];
  ParsePKCS1PrivateKey d := match d with [k] => Ok k | _ => Err "invalid" end |}.
#[export] Instance main_pkcs1_laws : Pkcs1Laws.
Proof. constructor; [apply unblock_block|apply unblock_cut|done]. Qed.

(** records without fractions, so that they can be numbered *)
Definition record_fields (m : RelayMetadata) : list (list Z) * (Z * Z * Z * Z) :=
  ([md_Address m; md_NetworkAddress m; md_PublicKeyPEM m; md_Region m; md_Operator m; md_Version m],
   (md_MaxConnections m, md_Uptime m, md_LastSeen m, md_Latency m)).
Definition record_of (p : list (list Z) * (Z * Z * Z * Z)) : RelayMetadata :=
  let f i := nth i p.1 [] in let '(c, u, s, l) := p.2 in
  mkRelayMetadata (f 0%nat) (f 1%nat) (f 2%nat) (f 3%nat) (f 4%nat) (f 5%nat) c u s l f0 (fdiv (f64_of 95) (f64_of 100)).
Definition plain_record (m : RelayMetadata) : Prop := record_of (record_fields m) = m.
#[export] Instance main_json : Json RelayMetadata := {|
  json_marshal m := Ok (codec_encode (record_fields m));
  json_unmarshal d := p ← codec_decode (λ _, True) d; Ok (record_of p) |}.
#[export] Instance main_json_laws : JsonLaws RelayMetadata (λ _, True) plain_record.
Proof.
  split; [|done| |].
  - intros d. cbn. pose proof (codec_no_panic (A := list (list Z) * (Z * Z * Z * Z)) (λ _, True) d). by destruct (codec_decode _ d).
  - intros m _. eexists. split; [done|apply bits_bytes].
  - intros m d Hm [= <-]. cbn [json_unmarshal main_json]. rewrite codec_round by done. cbn [mbind outcome_bind]. f_equal. exact Hm.
Qed.

Definition flags : Flags := mkFlags 8080 "./keys/relay.pem" false [1] [1] true 5.
Definition ok_start (key : Z) : start_env := mkStartEnv (working 0) None (Ok key) None None None None.
Definition no_port (key : Z) : start_env := mkStartEnv (working 0) None (Ok key) None None None (Some "address already in use"%string).
Definition torn_start (key : Z) : start_env :=
  mkStartEnv (mkIo (λ _, None) (λ _, Cut 2 "no space left on device") (λ _, None) 0) None (Ok key) None None None None.
Definition empty_machine : Machine := mkMachine ∅ ∅.
Lemma ok_sound p k : sound_start p (ok_start k).
Proof. split; [done|]. intros n t. discriminate. Qed.
Lemma no_port_sound p k : sound_start p (no_port k).
Proof. split; [done|]. intros n t. discriminate. Qed.
End MainSample.

Section main_witnesses.
Import MainSample.
#[local] Existing Instances OnionSample.rsa OnionSample.blake OnionSample.json sample_aes.

(** the second start finds the port taken; the third has the first one's key, and
    a message that was queued *)
Lemma restarted_relay_continues_witness :
  ∃ mc1 rn mc3 rn', start_relay (ok_start 11) flags empty_machine = (mc1, Ok rn) ∧
    start_relay (ok_start 33) flags (starts flags (shutdown flags mc1 (mkRunning (AttachMessageQueue (rn_relay rn) RelaySample.queue) (rn_mesh rn))).1
      [no_port 22]) = (mc3, Ok rn') ∧
    rs_PrivateKey (rn_relay rn') = rs_PrivateKey (rn_relay rn) ∧
    ∃ q', rs_messageQueue (rn_relay rn') = Some q' ∧ q_rows q' = q_rows RelaySample.queue.
Proof.
  destruct (start_relay (ok_start 11) flags empty_machine) as [mc1 [rn|?|]] eqn:E1; [|discriminate E1..].
  destruct (start_relay (ok_start 33) flags (starts flags (shutdown flags mc1 (mkRunning (AttachMessageQueue (rn_relay rn) RelaySample.queue)
    (rn_mesh rn))).1 [no_port 22])) as [mc3 r3] eqn:E3.
  assert (is_ok r3 = true) as Hok.
  { apply (f_equal (λ p, is_ok p.2)) in E3. cbn [snd] in E3. rewrite <- E3. injection E1 as <- <-. vm_compute. reflexivity. }
  destruct r3 as [rn'|?|]; [|discriminate Hok..].
  exists mc1, rn, mc3, rn'. split; [reflexivity|]. split; [exact E3|].
  destruct (restarted_relay_continues flags (ok_start 11) (ok_start 33) empty_machine mc1
    (shutdown flags mc1 (mkRunning (AttachMessageQueue (rn_relay rn) RelaySample.queue) (rn_mesh rn))).1 mc3 rn rn'
    (AttachMessageQueue (rn_relay rn) RelaySample.queue) RelaySample.queue [no_port 22] eq_refl) as [Hk (q' & Hq & Hr & _)].
  - repeat constructor; try discriminate.
  - intros pem Hp. discriminate Hp.
  - exact E1.
  - reflexivity.
  - reflexivity.
  - reflexivity.
  - exact E3.
  - split; [exact Hk|]. exists q'. split; assumption.
Defined.

Lemma torn_key_blocks_witness :
  ∃ t, (start_relay (ok_start 22) flags (start_relay (torn_start 11) flags empty_machine).1).2 = Err t.
Proof.
  destruct (start_relay (torn_start 11) flags empty_machine) as [mc1 r] eqn:E1.
  destruct (torn_key_blocks flags (torn_start 11) (ok_start 22) empty_machine mc1 r (11 : @PrivateKey OnionSample.rsa) 2
    "no space left on device") as [t Ht]; try reflexivity; try discriminate.
  - cbn. lia.
  - exact E1.
  - exists t. cbn [fst]. rewrite Ht. reflexivity.
Defined.

Lemma relay_command_isolated_witness :
  ∃ mc1 rn, start_relay (ok_start 11) flags empty_machine = (mc1, Ok rn) ∧
    mst_mesh_healthy (GetMeshStatus (rn_relay rn) 5) = false.
Proof.
  destruct (start_relay (ok_start 11) flags empty_machine) as [mc1 [rn|?|]] eqn:E1; [|discriminate E1..].
  exists mc1, rn. split; [reflexivity|]. destruct (rn_mesh rn) as [mm|] eqn:Em.
  - destruct (relay_command_isolated (ok_start 11) flags empty_machine mc1 rn mm (PathSample.select 2)
      (mkMenv 0 (λ _, Err "refused") (λ _, RelaySample.env)) 5 E1 Em) as (_ & _ & Hh). exact Hh.
  - injection E1 as _ <-. discriminate Em.
Defined.

Lemma published_record_usable_witness :
  ∃ data m, DecodeRelayMetadata data = Ok m ∧ ImportPublicKeyPEM (md_PublicKeyPEM m) = Ok (11 : @PublicKey OnionSample.rsa) ∧
    md_NetworkAddress m = string_bytes "localhost:8080".
Proof.
  destruct (published_record_usable (NewRelayServer (11 : @PrivateKey OnionSample.rsa)) (mkRelayDht None None false 0 8080) [] [] []
    (block [11]) 10 0 Second) as (rx1 & rx2 & data & m & _ & _ & Hd & _ & _ & _ & Hi & _ & Hn); [reflexivity|unfold Second; lia| |].
  - intros up. split; [exact I|reflexivity].
  - exists data, m. split; [exact Hd|]. split; [exact Hi|exact Hn].
Defined.
End main_witnesses.
