(* ===== verification/Background.v ===== *)
(** * Starting and stopping: the background goroutines

    The health monitor of pkg/meshstorage/distributed.go, the mesh manager of
    pkg/network/relay_mesh.go, the accept loop of the relay server (relay.go,
    relay_connection.go) and the two loops of a DHT node (pkg/dht/node.go).  A
    goroutine is the place where it stands; a step is the move of one of them.  What
    the bodies of the loops do is in MeshDistributed, RelayMesh, Relay and DhtNode;
    here is when they run, and that they end. *)

From S2P Require Import Prelude GoBytes NodeID RoutingTable DhtStore DhtNode Onion Relay RelayQueue RelayDiscovery RelayMesh.

(** in the [select] of a loop with a ticker; in its body; returned *)
Inductive ticker_pc := Select | Working | Over.

Definition ticker_work (pc : ticker_pc) : nat := match pc with Over => 0 | Select => 1 | Working => 2 end.
Definition running_loop (pc : ticker_pc) : nat := match pc with Over => 0 | _ => 1 end.

(** the place [i] of a list of goroutines is not the end: something can move there *)
Lemma all_ended {P} (ended : P → Prop) (l : list P) :
  (∀ p, Decision (ended p)) → (∀ i p, l !! i = Some p → ¬ ended p → False) → Forall ended l.
Proof. intros Hdec Hl. apply Forall_lookup_2. intros i p Hi. destruct (Hdec p); [done|]. destruct (Hl i p Hi); done. Qed.

(** ** The health monitor of the mesh storage *)

Module Monitor.

(** [mo_stop]: [monitorStop] is closed; [mo_wg]: the counter of [monitorWg] *)
Record Monitor := mkMonitor { mo_stop : bool; mo_wg : nat; mo_loops : list ticker_pc }.

Definition new_monitor : Monitor := mkMonitor false 0 [].
Definition StartMonitoring (mo : Monitor) : Monitor := mkMonitor (mo_stop mo) (S (mo_wg mo)) (mo_loops mo ++ [Select]).
(** until it waits; closing a closed channel panics *)
Definition StopMonitoring (mo : Monitor) : outcome Monitor :=
  if mo_stop mo then Panic else Ok (mkMonitor true (mo_wg mo) (mo_loops mo)).
(** [monitorWg.Wait()] returns, and with it StopMonitoring *)
Definition wait_returns (mo : Monitor) : bool := Nat.eqb (mo_wg mo) 0.

(** the ticker fires while the loop [i] is in its [select] *)
Inductive monitor_tick (mo : Monitor) : Monitor → Prop :=
  | tick_check i : mo_loops mo !! i = Some Select → monitor_tick mo (mkMonitor (mo_stop mo) (mo_wg mo) (<[i := Working]> (mo_loops mo))).
(** [checkAllChunks] returns; the stop channel is chosen, and the deferred [Done] runs *)
Inductive monitorLoop (mo : Monitor) : Monitor → Prop :=
  | monitor_checked i : mo_loops mo !! i = Some Working → monitorLoop mo (mkMonitor (mo_stop mo) (mo_wg mo) (<[i := Select]> (mo_loops mo)))
  | monitor_stopped i : mo_loops mo !! i = Some Select → mo_stop mo = true →
      monitorLoop mo (mkMonitor true (pred (mo_wg mo)) (<[i := Over]> (mo_loops mo))).

Inductive monitor_step (mo mo' : Monitor) : Prop :=
  | step_tick : monitor_tick mo mo' → monitor_step mo mo'
  | step_loop : monitorLoop mo mo' → monitor_step mo mo'
  | step_start : mo' = StartMonitoring mo → monitor_step mo mo'
  | step_stop : StopMonitoring mo = Ok mo' → monitor_step mo mo'.

(** the counter is the number of loops that have not returned *)
Definition counted (mo : Monitor) : Prop := mo_wg mo = sum_list (running_loop <$> mo_loops mo).

Lemma monitorLoop_counted mo mo' : monitorLoop mo mo' → counted mo → counted mo'.
Proof.
  unfold counted. destruct 1 as [i Hi|i Hi _]; cbn; intros ->; pose proof (sum_insert running_loop _ _ _ Over Hi) as HO;
    pose proof (sum_insert running_loop _ _ _ Select Hi) as HS; cbn in *; lia.
Qed.
Lemma monitor_step_counted mo mo' : monitor_step mo mo' → counted mo → counted mo'.
Proof.
  intros [[i Hi]|Hl| ->|Hs]; [..|unfold StopMonitoring in Hs; destruct (mo_stop mo); by simplify_eq].
  - unfold counted. cbn. intros ->. pose proof (sum_insert running_loop _ _ _ Working Hi). cbn in *. lia.
  - by apply monitorLoop_counted.
  - unfold counted. cbn. rewrite fmap_app, sum_list_with_app. intros ->. cbn. lia.
Qed.

Lemma stopped_ends mo : mo_stop mo = true → sn monitorLoop mo.
Proof.
  apply (measure_sn _ (λ mo, mo_stop mo = true) (λ mo, sum_list (ticker_work <$> mo_loops mo))). intros mo1 mo2 Hst Hs.
  destruct Hs as [i Hi|i Hi _]; (split; [done|]); cbn; (eapply sum_insert_lt; [exact Hi|cbn; lia]).
Qed.
Lemma idle_over mo : counted mo → mo_stop mo = true → nf monitorLoop mo → wait_returns mo = true.
Proof.
  intros Hc Hst Hnf. unfold wait_returns. rewrite Hc. apply Nat.eqb_eq.
  assert (Forall (λ pc, running_loop pc = 0%nat) (mo_loops mo)) as Hall.
  { apply all_ended; [apply _|]. intros i [] Hi Hn; [..|by destruct Hn]; destruct Hnf; eexists; [by eapply monitor_stopped|by eapply monitor_checked]. }
  induction Hall as [|pc l Hpc _ IH]; [done|]. cbn. by rewrite Hpc, IH.
Qed.
Lemma returns_over mo : counted mo → wait_returns mo = true → Forall (eq Over) (mo_loops mo).
Proof.
  unfold wait_returns. intros -> Hw%Nat.eqb_eq. induction (mo_loops mo) as [|pc l IH]; [done|]. cbn in Hw.
  constructor; [|apply IH; lia]. destruct pc; cbn in Hw; [lia..|done].
Qed.

(** Stopping the health monitor.  In every run, when StopMonitoring returns no check
    is under way and none starts before monitoring is started again.  Once the stop
    channel is closed, every run of the loops in which their tickers do not fire
    ends, and then StopMonitoring does return.  The channel is closed only once: a
    second StopMonitoring panics, and a loop that is started after the first ends in
    the same way. *)
Theorem monitoring_stops (mo : Monitor) :
  rtc monitor_step new_monitor mo →
  (wait_returns mo = true → Forall (eq Over) (mo_loops mo) ∧ ∀ mo', ¬ monitor_tick mo mo' ∧ ¬ monitorLoop mo mo') ∧
  (mo_stop mo = true → StopMonitoring mo = Panic ∧
    let again := StartMonitoring mo in
    sn monitorLoop again ∧ ∀ mo', rtc monitorLoop again mo' → nf monitorLoop mo' → wait_returns mo' = true) ∧
  (mo_stop mo = false → ∃ mo1, StopMonitoring mo = Ok mo1 ∧ sn monitorLoop mo1 ∧
    ∀ mo', rtc monitorLoop mo1 mo' → nf monitorLoop mo' → wait_returns mo' = true).
Proof.
  intros Hrun. assert (counted mo) as Hc by (apply (rtc_keeps _ counted _ _ monitor_step_counted Hrun); done).
  assert (∀ mo1, counted mo1 → mo_stop mo1 = true → sn monitorLoop mo1 ∧
    ∀ mo', rtc monitorLoop mo1 mo' → nf monitorLoop mo' → wait_returns mo' = true) as Hend.
  { intros mo1 Hc1 Hst. split; [by apply stopped_ends|]. intros mo' Hr.
    apply (rtc_keeps _ (λ mo, counted mo ∧ mo_stop mo = true)) in Hr as [? ?]; [by apply idle_over| |done].
    intros x y Hxy [? ?]. split; [by eapply monitorLoop_counted|by destruct Hxy]. }
  split_and!.
  - intros Hw. pose proof (returns_over mo Hc Hw) as Hall. split; [done|]. intros mo'. rewrite Forall_lookup in Hall.
    split; [intros [i Hi]|intros [i Hi|i Hi _]]; by specialize (Hall i _ Hi).
  - intros Hst. unfold StopMonitoring. rewrite Hst. split; [done|]. apply Hend; [|done].
    apply (monitor_step_counted mo); [by apply step_start|done].
  - intros Hst. eexists. split; [unfold StopMonitoring; by rewrite Hst|]. by apply Hend.
Qed.

Lemma monitoring_stops_witness :
  let mo := StartMonitoring new_monitor in
  ∃ mo1, StopMonitoring mo = Ok mo1 ∧ wait_returns mo1 = false ∧
    (∀ mo', rtc monitorLoop mo1 mo' → nf monitorLoop mo' → wait_returns mo' = true).
Proof.
  destruct (monitoring_stops (StartMonitoring new_monitor)) as (_ & _ & Hstop).
  - apply rtc_once, step_start. reflexivity.
  - destruct (Hstop eq_refl) as (mo1 & E & _ & Hend). exists mo1. injection E as <-. split; [reflexivity|]. split; [reflexivity|exact Hend].
Defined.
End Monitor.

(** ** The mesh manager of a relay *)

Module Manager.

(** connectToBootstrapRelays; discoveryLoop; connectionMaintenanceLoop; a discovery
    that maintainConnections started; returned *)
Inductive manager_pc := Bootstrapping | Discovery (pc : ticker_pc) | Maintenance (pc : ticker_pc) | Triggered | Gone.

Definition finished (p : manager_pc) : Prop :=
  match p with Gone | Discovery Over | Maintenance Over => True | _ => False end.

Record Manager := mkManager { mg_mm : MeshManager; mg_gos : list manager_pc }.

Definition new_manager (targetPeerCount : Z) : Manager := mkManager (NewMeshManager targetPeerCount) [].
(** discoveryLoop begins with a discovery, connectionMaintenanceLoop with its [select] *)
Definition Manager_Start (g : Manager) : Manager * outcome unit :=
  let '(mm, r) := Start_mesh (mg_mm g) in
  (mkManager mm (mg_gos g ++ if r is Ok _ then [Bootstrapping; Discovery Working; Maintenance Select] else []), r).
Definition Manager_Stop (g : Manager) : Manager * outcome unit :=
  let '(mm, r) := Stop_mesh (mg_mm g) in (mkManager mm (mg_gos g), r).

(** the moves of a goroutine, with the one it starts, when no ticker fires *)
Inductive manager_move (stopped : bool) : manager_pc → manager_pc → list manager_pc → Prop :=
  | bootstrap_done : manager_move stopped Bootstrapping Gone []
  | discovered : manager_move stopped (Discovery Working) (Discovery Select) []
  | discovery_stop : stopped = true → manager_move stopped (Discovery Select) (Discovery Over) []
  | maintained : manager_move stopped (Maintenance Working) (Maintenance Select) []
  | maintained_low : manager_move stopped (Maintenance Working) (Maintenance Select) [Triggered]
  | maintenance_stop : stopped = true → manager_move stopped (Maintenance Select) (Maintenance Over) []
  | triggered_done : manager_move stopped Triggered Gone [].
Inductive manager_loop (g : Manager) : Manager → Prop :=
  | manager_moves i p p' new : mg_gos g !! i = Some p → manager_move (mm_stopped (mg_mm g)) p p' new →
      manager_loop g (mkManager (mg_mm g) (<[i := p']> (mg_gos g) ++ new)).
Inductive manager_tick (g : Manager) : Manager → Prop :=
  | tick_discovery i : mg_gos g !! i = Some (Discovery Select) → manager_tick g (mkManager (mg_mm g) (<[i := Discovery Working]> (mg_gos g)))
  | tick_maintenance i : mg_gos g !! i = Some (Maintenance Select) →
      manager_tick g (mkManager (mg_mm g) (<[i := Maintenance Working]> (mg_gos g))).

Definition manager_work (p : manager_pc) : nat :=
  match p with Gone => 0 | Bootstrapping | Triggered => 1 | Discovery pc => ticker_work pc | Maintenance pc => 2 * ticker_work pc end.

Lemma manager_ends g : sn manager_loop g.
Proof.
  apply (measure_sn _ (λ _, True) (λ g, sum_list (manager_work <$> mg_gos g))); [|done]. intros g1 g2 _ [i p p' new Hi Hm]. split; [done|].
  cbn [mg_gos]. rewrite fmap_app, sum_list_with_app. pose proof (sum_insert manager_work _ _ _ p' Hi) as Hs.
  assert (manager_work p' + sum_list (manager_work <$> new) < manager_work p)%nat as Hlt by (destruct Hm; cbn; lia). unfold id in *. lia.
Qed.
Lemma manager_idle g : mm_stopped (mg_mm g) = true → nf manager_loop g → Forall finished (mg_gos g).
Proof.
  intros Hst Hnf. apply Forall_lookup_2. intros i p Hi.
  assert (∀ p' new, ¬ manager_move true p p' new) as Hno.
  { intros p' new Hm. apply Hnf. eexists. apply (manager_moves _ i p p' new Hi). by rewrite Hst. }
  destruct p as [|[]|[]| |]; [..|done]; try done; exfalso;
    (eapply Hno; first [by apply bootstrap_done|by apply discovery_stop|by apply discovered|by apply maintenance_stop|by apply maintained|apply triggered_done]).
Qed.

(** What is left of a stopped manager.  After Stop every run of the goroutines in
    which no ticker fires ends with none of them left; the ones that were connecting
    go on until then.  The same holds when the manager is started again, which is
    accepted: it then says that it runs, and where its goroutines have ended nothing
    connects any more, and no Start starts anything, since it runs. *)
Theorem restarted_manager_idle (g : Manager) :
  mm_running (mg_mm g) = true → mm_stopped (mg_mm g) = false →
  let stopped := (Manager_Stop g).1 in let again := (Manager_Start stopped).1 in
  (Manager_Stop g).2 = Ok tt ∧ (Manager_Start stopped).2 = Ok tt ∧
  (sn manager_loop stopped ∧ ∀ g', rtc manager_loop stopped g' → nf manager_loop g' → Forall finished (mg_gos g')) ∧
  sn manager_loop again ∧ ∀ g', rtc manager_loop again g' → mm_running (mg_mm g') = true ∧
    (nf manager_loop g' → Forall finished (mg_gos g') ∧ (∀ g'', ¬ manager_tick g' g'' ∧ ¬ manager_loop g' g'') ∧
       (Manager_Start g').1 = g').
Proof.
  destruct g as [[relays target running closed] gos]. cbn. intros -> ->. cbn.
  assert (∀ g g', rtc manager_loop g g' → mg_mm g' = mg_mm g) as Hmm.
  { intros g g' Hr. apply (rtc_keeps _ (λ x, mg_mm x = mg_mm g)) in Hr; [done| |done]. by intros x y []. }
  split; [done|]. split; [done|]. split; [split; [apply manager_ends|]|split; [apply manager_ends|]].
  - intros g' Hr Hnf. apply manager_idle; [by rewrite (Hmm _ _ Hr)|done].
  - intros g' Hr. pose proof (Hmm _ _ Hr) as E. split; [by rewrite E|]. intros Hnf.
    pose proof (manager_idle g' ltac:(by rewrite E) Hnf) as Hall. split; [done|]. split.
    + intros g''. rewrite Forall_lookup in Hall. split; [by intros [i Hi|i Hi]; specialize (Hall i _ Hi)|].
      intros Hs. apply Hnf. by eexists.
    + destruct g' as [mm gos']. cbn in E. subst mm. unfold Manager_Start. cbn. by rewrite app_nil_r.
Qed.

Lemma restarted_manager_idle_witness :
  let again := (Manager_Start (Manager_Stop (Manager_Start (new_manager 3)).1).1).1 in
  length (mg_gos again) = 6%nat ∧ sn manager_loop again ∧
  ∀ g', rtc manager_loop again g' → nf manager_loop g' → mm_running (mg_mm g') = true ∧ Forall finished (mg_gos g').
Proof.
  destruct (restarted_manager_idle (Manager_Start (new_manager 3)).1 eq_refl eq_refl) as (_ & _ & _ & Hsn & Hall).
  split; [reflexivity|]. split; [exact Hsn|]. intros g' Hr Hnf. destruct (Hall g' Hr) as [Hrun Hidle]. split; [exact Hrun|].
  apply (Hidle Hnf).
Defined.
End Manager.

(** ** The listener of a relay server *)

Module Listening.

(** acceptLoop before it reads [rs.listener]; blocked in [Accept]; returned *)
Inductive accept_pc := Top | Accepting (l : nat) | Closed.

(** the listeners that are open; the loops; the number of connections that a
    goroutine handles, which end by themselves *)
Record Serving := mkServing { sv_listener : option nat; sv_open : gset nat; sv_loops : list accept_pc; sv_conns : nat }.

Definition not_serving : Serving := mkServing None ∅ [] 0.
(** [listening]: what [net.Listen] returns *)
Definition RelayServer_Start (s : Serving) (listening : outcome nat) : Serving * outcome unit :=
  match listening with
  | Ok l => (mkServing (Some l) ({[l]} ∪ sv_open s) (sv_loops s ++ [Top]) (sv_conns s), Ok tt)
  | Err t => (s, Err t)
  | Panic => (s, Panic)
  end.
Definition RelayServer_Stop (s : Serving) : Serving * outcome unit :=
  match sv_listener s with
  | None => (s, Ok tt)
  | Some l =>
      if bool_decide (l ∈ sv_open s) then (mkServing (sv_listener s) (sv_open s ∖ {[l]}) (sv_loops s) (sv_conns s), Ok tt)
      else (s, Err "use of closed network connection")
  end.

Definition at_accept (s : Serving) (i : nat) (pc : accept_pc) (conns : nat) : Serving :=
  mkServing (sv_listener s) (sv_open s) (<[i := pc]> (sv_loops s)) conns.
Inductive acceptLoop (s : Serving) : Serving → Prop :=
  | accept_wait i l : sv_loops s !! i = Some Top → sv_listener s = Some l → acceptLoop s (at_accept s i (Accepting l) (sv_conns s))
  | accept_conn i l : sv_loops s !! i = Some (Accepting l) → l ∈ sv_open s → acceptLoop s (at_accept s i Top (S (sv_conns s)))
  | accept_error i l : sv_loops s !! i = Some (Accepting l) → acceptLoop s (at_accept s i Closed (sv_conns s)).

Definition accept_work (pc : accept_pc) : nat := match pc with Top => 2 | Accepting _ => 1 | Closed => 0 end.

(** Stopping a relay server.  With one listener, Stop closes it: every run of the
    accept loops then ends with none of them left and accepts no connection any
    more; the connections that were accepted before are still handled.  A second
    Stop reports an error. *)
Theorem relay_stop_ends (s : Serving) (l : nat) :
  sv_listener s = Some l → sv_open s = {[l]} →
  let stopped := (RelayServer_Stop s).1 in
  (RelayServer_Stop s).2 = Ok tt ∧ (∃ t, (RelayServer_Stop stopped).2 = Err t) ∧
  sn acceptLoop stopped ∧ ∀ s', rtc acceptLoop stopped s' → sv_conns s' = sv_conns s ∧ (nf acceptLoop s' → Forall (eq Closed) (sv_loops s')).
Proof.
  intros Hl Ho. unfold RelayServer_Stop. rewrite Hl, Ho. rewrite bool_decide_eq_true_2 by set_solver. cbn. rewrite difference_diag_L.
  rewrite bool_decide_eq_false_2 by set_solver. split; [done|]. split; [by eexists|]. split.
  - apply (measure_sn _ (λ s, sv_open s = ∅) (λ s, sum_list (accept_work <$> sv_loops s))); [|done]. intros s1 s2 Ho1 Hs.
    destruct Hs as [i l' Hi _|i l' Hi Hin|i l' Hi]; [|by rewrite Ho1 in Hin; apply not_elem_of_empty in Hin|]; (split; [done|]); (eapply sum_insert_lt; [exact Hi|cbn; lia]).
  - intros s' Hr. apply (rtc_keeps _ (λ x, sv_open x = ∅ ∧ sv_listener x = Some l ∧ sv_conns x = sv_conns s)) in Hr as (Ho' & Hl' & Hc); [| |done].
    2:{ intros x y [i l' _ _|i l' _ Hin|i l' _] (Hx & ? & ?); [done|by rewrite Hx in Hin; apply not_elem_of_empty in Hin|done]. }
    split; [done|]. intros Hnf. apply Forall_lookup_2. intros i [|l'|] Hi; [..|done]; exfalso; apply Hnf; eexists;
      [by eapply accept_wait|by eapply accept_error].
Qed.

Lemma relay_stop_ends_witness :
  let s := (RelayServer_Start not_serving (Ok 0%nat)).1 in
  (RelayServer_Stop s).2 = Ok tt ∧
  ∀ s', rtc acceptLoop (RelayServer_Stop s).1 s' → sv_conns s' = 0%nat ∧ (nf acceptLoop s' → Forall (eq Closed) (sv_loops s')).
Proof.
  destruct (relay_stop_ends (RelayServer_Start not_serving (Ok 0%nat)).1 0) as (Hok & _ & _ & Hrun).
  - reflexivity.
  - cbn. by rewrite (right_id_L ∅ (∪)).
  - split; [exact Hok|exact Hrun].
Defined.
End Listening.

(** ** The loops of a DHT node *)

Module DhtLoops.

(** handleConnections: at the test of [n.running]; blocked in [Accept]; returned; and
    expireRoutine: at the test; blocked on its ticker; returned *)
Inductive node_pc := Test | Accepting (l : nat) | Returned | Expire_test | Expire_wait | Expire_over.

Record NodeRun := mkNodeRun { nr_node : Node; nr_listener : option nat; nr_open : gset nat; nr_gos : list node_pc }.

Definition Node_Start (r : NodeRun) (listening : option (nat * list Z)) : outcome NodeRun :=
  n ← DhtNode.Start (nr_node r) (snd <$> listening);
  Ok (mkNodeRun n (fst <$> listening) (match listening with Some (l, _) => {[l]} ∪ nr_open r | None => nr_open r end)
        (nr_gos r ++ [Test; Expire_test])).
(** the node's listener is closed when the node runs *)
Definition Node_Stop (r : NodeRun) : NodeRun :=
  mkNodeRun (DhtNode.Stop (nr_node r)) (nr_listener r)
    (match nr_listener r with Some l => if n_running (nr_node r) then nr_open r ∖ {[l]} else nr_open r | None => nr_open r end) (nr_gos r).

Definition at_node (r : NodeRun) (n : Node) (i : nat) (pc : node_pc) : NodeRun :=
  mkNodeRun n (nr_listener r) (nr_open r) (<[i := pc]> (nr_gos r)).
Inductive node_loop (r : NodeRun) : NodeRun → Prop :=
  | node_test i l : nr_gos r !! i = Some Test → n_running (nr_node r) = true → nr_listener r = Some l →
      node_loop r (at_node r (nr_node r) i (Accepting l))
  | node_exit i : nr_gos r !! i = Some Test → n_running (nr_node r) = false → node_loop r (at_node r (nr_node r) i Returned)
  (** a connection is handed to a goroutine, which is [DhtNode.handleConnection] *)
  | node_accept i l : nr_gos r !! i = Some (Accepting l) → l ∈ nr_open r → node_loop r (at_node r (nr_node r) i Test)
  | node_error i l : nr_gos r !! i = Some (Accepting l) →
      node_loop r (at_node r (nr_node r) i (if n_running (nr_node r) then Test else Returned))
  | expire_test i : nr_gos r !! i = Some Expire_test →
      node_loop r (at_node r (nr_node r) i (if n_running (nr_node r) then Expire_wait else Expire_over))
  | expire_ticks i now : nr_gos r !! i = Some Expire_wait → node_loop r (at_node r (expire_tick (nr_node r) now) i Expire_test).

Definition node_work (pc : node_pc) : nat :=
  match pc with Returned | Expire_over => 0 | Test | Expire_test => 1 | Accepting _ | Expire_wait => 2 end.
Definition ended (pc : node_pc) : Prop := match pc with Returned | Expire_over => True | _ => False end.

Lemma node_loop_running r r' : node_loop r r' → n_running (nr_node r') = n_running (nr_node r).
Proof. by destruct 1. Qed.

Lemma stopped_node_ends r : n_running (nr_node r) = false → sn node_loop r.
Proof.
  apply (measure_sn _ (λ r, n_running (nr_node r) = false) (λ r, sum_list (node_work <$> nr_gos r))). intros r1 r2 Hoff Hs.
  split; [by rewrite (node_loop_running _ _ Hs)|]. destruct Hs as [i l Hi|i Hi|i l Hi|i l Hi|i Hi|i now Hi]; rewrite ?Hoff in *; [done|..];
    (eapply sum_insert_lt; [exact Hi|cbn; lia]).
Qed.
Lemma stopped_node_idle r : n_running (nr_node r) = false → nf node_loop r → Forall ended (nr_gos r).
Proof.
  intros Hoff Hnf. apply Forall_lookup_2. intros i [|l| | | |] Hi; try done; exfalso; apply Hnf; eexists;
    [by eapply node_exit|by eapply node_error|by eapply expire_test|by eapply (expire_ticks _ _ 0)].
Qed.

(** Stopping a DHT node ends its loops: every run ends, the tick that its expire
    routine still waits for included, and no loop is left.  When the node is started
    again before that tick, the old expire routine does not end: as long as the node
    runs, it has two. *)
Theorem dht_stop_ends (r : NodeRun) :
  (sn node_loop (Node_Stop r) ∧ ∀ r', rtc node_loop (Node_Stop r) r' → nf node_loop r' → Forall ended (nr_gos r')) ∧
  ∀ i l addr, nr_gos r !! i = Some Expire_wait →
    ∃ again, Node_Start (Node_Stop r) (Some (l, addr)) = Ok again ∧ let j := S (length (nr_gos r)) in
    ∀ r', rtc node_loop again r' → ∃ pc pc', nr_gos r' !! i = Some pc ∧ nr_gos r' !! j = Some pc' ∧
      (pc = Expire_wait ∨ pc = Expire_test) ∧ (pc' = Expire_wait ∨ pc' = Expire_test).
Proof.
  assert (n_running (nr_node (Node_Stop r)) = false) as Hoff.
  { cbn. unfold DhtNode.Stop. by destruct (n_running (nr_node r)) eqn:E. }
  split; [split; [by apply stopped_node_ends|]|].
  - intros r' Hr. apply (rtc_keeps _ (λ r, n_running (nr_node r) = false)) in Hr; [by apply stopped_node_idle| |done].
    intros x y Hs. by rewrite (node_loop_running _ _ Hs).
  - intros i l addr Hi. eexists. split; [reflexivity|]. intros j r' Hr.
    assert (i < length (nr_gos r))%nat as Hlt by by eapply lookup_lt_Some.
    apply (rtc_keeps _ (λ r, n_running (nr_node r) = true ∧ ∀ k, k = i ∨ k = j → nr_gos r !! k = Some Expire_wait ∨ nr_gos r !! k = Some Expire_test)) in Hr.
    + destruct Hr as [_ Hk]. destruct (Hk i (or_introl eq_refl)) as [H1|H1], (Hk j (or_intror eq_refl)) as [H2|H2]; eauto 10.
    + intros x y Hs [Hon Hk]. split; [by rewrite (node_loop_running _ _ Hs)|]. intros k Hor. specialize (Hk k Hor).
      destruct Hs as [m l' Hm|m Hm|m l' Hm|m l' Hm|m Hm|m now Hm]; cbn; (destruct (decide (m = k)) as [->|Hne];
        [rewrite list_lookup_insert_eq by (by eapply lookup_lt_Some); rewrite ?Hon; destruct Hk as [Hk|Hk]; rewrite Hm in Hk; simplify_eq; auto|by rewrite list_lookup_insert_ne]).
    + split; [done|]. cbn. intros k [->| ->]; [left; by rewrite lookup_app_l|right].
      rewrite lookup_app_r by (unfold j; lia). unfold j. by replace (S (length (nr_gos r)) - length (nr_gos r))%nat with 1%nat by lia.
Qed.
End DhtLoops.
