(* ===== verification/DhtExchange.v ===== *)
(** * Nodes of the DHT talking to each other

    DhtLookup takes what the network answers as an argument.  Here an answer is what
    another node's [handleConnection] writes: a value that one node stores is found
    by another, and a key bundle that one client publishes is the one another
    client discovers. *)

From S2P Require Import Prelude GoBytes GoText Ed25519 NodeID RoutingTable DhtStore DhtStoreProofs DhtNode DhtLookup DhtNodeProofs DhtLookupProofs.

(** what the client side gets of an answer: nothing when the connection is closed *)
Definition reply_of (o : outcome (Node * option (list Z))) : string + list Z :=
  match o with Ok (_, Some out) => inr out | _ => inl "EOF"%string end.

Section exchange.
Context `{Ed25519Laws} `{DhtJsonLaws} `{SortSliceLaws}.

(** request [q] to [address] is answered by node [p], with clock [c] *)
Definition served (net : network) (q : nat) (address : list Z) (p : Node) (c : nat → Z) : Prop :=
  ∀ data, net q address data = reply_of (handleConnection p data c).

Lemma rpc_request_id_ascii now now' : ascii (generateRequestID now now').
Proof.
  unfold generateRequestID. rewrite !string_bytes_app, !ascii_app.
  split_and!; [apply decimal_ascii, pretty_decimal|by_decision|apply decimal_ascii, pretty_decimal].
Qed.

(** the message of a request *)
Definition request_message (ty : Z) (sender : Contact) (d : list Z) (c : nat → Z) : RPCMessage :=
  mkRPCMessage ty (generateRequestID (c 0%nat) (c 1%nat)) (Some sender) d (Unix (c 2%nat)).

Lemma request_typed ty sender d c :
  is_byte ty → Contact_typed sender → bytes d → RPCMessage_typed (request_message ty sender d c).
Proof. intros Ht Hs Hd. split_and!; cbn; [done|apply string_bytes_bytes|done|done|apply Unix_s64]. Qed.

(** an exchange with a node: what its handler answers is what comes back *)
Lemma exchange_ok `{JsonLaws A typed plain} net clk ty sender (p : A) d q contact P c P1 P2 dr tr :
  json_marshal p = Ok d → bytes d → is_byte ty → Contact_typed sender → ascii (c_Address sender) →
  served net q (c_Address contact) P c → times_ok c → node_ok P1 → ascii (n_Address P1) →
  let msg := request_message ty sender d (clk q) in
  node_add P sender (c 6%nat) = Ok P1 → is_byte tr → bytes dr →
  handleRPC P1 msg c = Ok (P2, Some (answer P1 msg c tr dr)) →
  (msg ← NewRPCMessage ty sender p (clk q); sendRPC net q contact msg) = Ok (answer P1 msg c tr dr) ∧
  ∃ data out, json_marshal msg = Ok data ∧ handleConnection P data c = Ok (P2, Some out).
Proof.
  intros Hd Hb Hty Hs Hsa Hnet Ht HP1 Ha msg Hadd Htr Hdr Hrpc.
  assert (RPCMessage_typed msg) as Hm by by apply request_typed.
  destruct (json_total msg Hm) as (data & Hdata & _).
  assert (json_unmarshal data = Ok msg) as Hround by (apply (json_round _ _); [split_and!; [done|apply rpc_request_id_ascii|done]|done]).
  assert (RPCMessage_typed (answer P1 msg c tr dr)) as Hr by by apply answer_typed.
  destruct (json_total _ Hr) as (out & Hout & _).
  assert (handleConnection P data c = Ok (P2, Some out)) as Hconn.
  { unfold handleConnection. rewrite Hround. cbn [rm_Sender msg request_message]. rewrite Hadd. cbn [mbind outcome_bind].
    fold msg. rewrite Hrpc. cbn [mbind outcome_bind]. by rewrite Hout. }
  split; [|by exists data, out]. unfold NewRPCMessage. rewrite Hd. cbn [mbind outcome_bind]. fold (request_message ty sender d (clk q)).
  fold msg. unfold sendRPC. rewrite Hdata. cbn [wrap_err mbind outcome_bind]. rewrite Hnet, Hconn. cbn [reply_of].
  rewrite (json_round (answer P1 msg c tr dr) out); [done| |done]. split_and!; [done|apply rpc_request_id_ascii|done].
Qed.

(** ** Storing *)

(** a node that is sent a signed entry keeps it and acknowledges *)
Lemma store_exchange net clk sender req q contact P c e :
  node_ok P → times_ok c → ascii (n_Address P) → Contact_typed sender → ascii (c_Address sender) →
  served net q (c_Address contact) P c → StoreRequest_typed req → 0 ≤ sr_TTL req * Second < 2 ^ 63 →
  VerifyAndExtract (sr_Value req) (c 3%nat) = Ok e →
  acked net clk req sender q contact = true ∧
  ∃ data P' out, handleConnection P data c = Ok (P', Some out) ∧ node_ok P' ∧ n_Address P' = n_Address P ∧
    n_storage P' !! sr_Key req = Some (mkStoredValue (sr_Key req) (sr_Value req) (c 4%nat + sr_TTL req * Second) (c_ID sender)).
Proof.
  intros HP Ht Ha Hs Hsa Hnet Hreq Httl Hv. destruct (json_total req Hreq) as (d & Hd & Hb).
  destruct (node_add_ok P sender (c 6%nat) HP Hs (Ht _)) as (P1 & Hadd & HP1 & Hst & Hid & Haddr & _).
  set (msg := request_message RPCStore sender d (clk q)).
  assert (json_unmarshal (rm_Payload msg) = Ok req) as Hround by by apply (json_round req d).
  assert (RPCMessage_typed msg) as Hm by by apply request_typed.
  destruct (handleStore_ok P1 msg c HP1 Hm Ht ltac:(by eexists)) as (P2 & resp & Hh & HP2 & _).
  destruct (reply_ok P1 msg c RPCStoreAck (mkStoreAckResponse true []) (Forall_nil_2 _)) as (dr & _ & Hdr & Hreply).
  assert (P2 = with_storage P1 (Storage_Store (n_storage P1) (sr_Key req) (sr_Value req) (sr_TTL req * Second) (c_ID sender) (c 4%nat)) ∧
    resp = Some (answer P1 msg c RPCStoreAck dr)) as [HP2' ->].
  { unfold handleStore, ParsePayload, store_ack, duration_of_seconds in Hh. rewrite Hround, Hv in Hh. cbn [rm_Sender msg request_message] in Hh.
    rewrite Hreply in Hh. rewrite s64_id in Hh by lia. cbn in Hh. by injection Hh as <- <-. }
  assert (handleRPC P1 msg c = Ok (P2, Some (answer P1 msg c RPCStoreAck dr))) as Hrpc by (unfold handleRPC; exact Hh).
  destruct (exchange_ok net clk RPCStore sender req d q contact P c P1 P2 dr RPCStoreAck) as (Hsend & data & out & _ & Hconn); try done.
  { by rewrite Haddr. }
  split.
  - unfold acked. by rewrite Hsend.
  - exists data, P2, out. split_and!; [done|done|by rewrite HP2'|]. rewrite HP2'. unfold Storage_Store. cbn. apply lookup_insert_eq.
Qed.

(** ** Finding *)

(** a node that has a value answers with it *)
Lemma find_exchange net clk sender key q contact P c v :
  node_ok P → times_ok c → ascii (n_Address P) → Contact_typed sender → ascii (c_Address sender) →
  served net q (c_Address contact) P c → is_id key → Storage_Get (n_storage P) key (c 3%nat) = Some v →
  query_find_value net clk key sender q contact = Ok (mkFindValueResponse true v []).
Proof.
  intros HP Ht Ha Hs Hsa Hnet Hk Hget. destruct (json_total (mkFindValueRequest key) Hk) as (d & Hd & Hb).
  destruct (node_add_ok P sender (c 6%nat) HP Hs (Ht _)) as (P1 & Hadd & HP1 & Hst & Hid & Haddr & _).
  set (msg := request_message RPCFindValue sender d (clk q)).
  assert (json_unmarshal (rm_Payload msg) = Ok (mkFindValueRequest key)) as Hround by by apply (json_round _ d).
  destruct (handle_find_value P1 msg _ c HP1 eq_refl Hround) as (r & dr & Hrpc & Hdr & Hr & Hcase).
  cbn [fv_Key] in Hcase. rewrite Hst, Hget in Hcase. subst r.
  destruct (json_total _ Hr) as (dr' & Hdr' & Hbr). rewrite Hdr in Hdr'. injection Hdr' as <-.
  destruct (exchange_ok net clk RPCFindValue sender (mkFindValueRequest key) d q contact P c P1 P1 dr RPCResponse) as (Hsend & _); try done.
  { by rewrite Haddr. }
  unfold query_find_value.
  rewrite <- (outcome_bind_assoc (NewRPCMessage _ _ _ _) (λ msg, sendRPC net q contact msg) ParsePayload), Hsend. cbn [mbind outcome_bind]. unfold ParsePayload. cbn [rm_Payload answer].
  apply (json_round _ dr); [|done]. split; [done|by constructor].
Qed.

(** the answers of the first round: those found have the value *)
Lemma collect_results_in net clk key sender q0 toQuery order rs :
  collect_results net clk key sender q0 toQuery order = Ok rs →
  (∀ r, r ∈ rs → ∃ i c, toQuery !! i = Some c ∧ query_find_value net clk key sender (q0 + i) c = Ok r) ∧
  (∀ i c r, i ∈ order → toQuery !! i = Some c → query_find_value net clk key sender (q0 + i) c = Ok r → r ∈ rs).
Proof.
  revert rs. induction order as [|i order IH]; intros rs Hc; cbn in Hc.
  { injection Hc as <-. split; [by intros r ?%not_elem_of_nil|by intros i c r ?%not_elem_of_nil]. }
  destruct (collect_results _ _ _ _ _ _ order) as [rest|t|] eqn:Er; [|done..]. destruct (IH rest eq_refl) as [IHfrom IHin]. cbn in Hc.
  assert (∀ rs' : list FindValueResponse, (∀ r, r ∈ rest → r ∈ rs') →
    (∀ c r, toQuery !! i = Some c → query_find_value net clk key sender (q0 + i) c = Ok r → r ∈ rs') →
    ∀ k c r, k ∈ i :: order → toQuery !! k = Some c → query_find_value net clk key sender (q0 + k) c = Ok r → r ∈ rs') as Hin.
  { intros rs' Hsub Hnew k c r [->|Hk]%elem_of_cons Hl Hq; [by eapply Hnew|by eapply Hsub, IHin]. }
  destruct (toQuery !! i) as [c|] eqn:Ei; [destruct (query_find_value _ _ _ _ _ _) as [r|t|] eqn:Eq|]; simplify_eq;
    (split; [|apply Hin; [try by auto|]]); try done.
  - intros r' [->|Hr]%elem_of_cons; [by exists i, c|by apply IHfrom].
  - intros r' Hr. by right.
  - intros c' r' [= <-] Hq. rewrite Eq in Hq. injection Hq as <-. by left.
  - intros c' r' [= <-] Hq. congruence.
Qed.

Lemma handle_results_found key net clk n queried now rs new v :
  node_ok n → json_time now → Forall (peer (n_ID n)) new →
  Forall (λ r, FindValueResponse_typed r ∧ Forall is_Some (fv_Contacts r) ∧ answered net clk key r) rs →
  (∀ r, r ∈ rs → fv_Found r = true → fv_Value r = v) → (∃ r, r ∈ rs ∧ fv_Found r = true) →
  ∃ n', handle_results n queried now rs new = Ok (n', inl v).
Proof.
  intros Hn Ht Hnew Hrs. revert n new Hn Hnew.
  induction Hrs as [|r rs (Hty & Hsome & _) Hrs IH]; intros n new Hn Hnew Hv (r0 & Hin & Hf); [by apply not_elem_of_nil in Hin|].
  cbn. destruct (fv_Found r) eqn:F.
  - exists n. rewrite (Hv r); [done|by left|done].
  - destruct (merge_contacts_ok n queried now (fv_Contacts r) new Hn Ht (proj2 Hty) Hsome Hnew) as (n1 & added & -> & Hs1 & Hp & _). cbn.
    apply (IH n1 (new ++ added)); [apply Hs1|by rewrite (proj1 (proj2 Hs1))|intros r' Hr'; apply Hv; by right|].
    apply elem_of_cons in Hin as [->|Hin]; [congruence|by exists r0].
Qed.

(** a node asks [c] in the first round of a lookup, and gets its answer; what others
    answer in this round is nothing but contacts *)
Definition asks_first (net : network) (clk : clocks) (order : nat → nat → list nat) (n : Node) (key : list Z) (j : nat) (c : Contact) : Prop :=
  ∃ l, FindClosest (n_routingTable n) key (Z.of_nat K) = Ok l ∧ let toQuery := pick_queries {[n_ID n]} l in
    toQuery !! j = Some c ∧ j ∈ order 0%nat (length toQuery) ∧
    ∀ i c' r, i ≠ j → toQuery !! i = Some c' →
      query_find_value net clk key (self_contact n (clk 0%nat 4%nat)) i c' = Ok r → fv_Found r = false.

Lemma lookup_found net clk order n key j c v now now' value :
  node_ok n → is_id key → (∀ q, times_ok (clk q)) → no_null_values net clk key → Storage_Get (n_storage n) key now = None →
  asks_first net clk order n key j c →
  query_find_value net clk key (self_contact n (clk 0%nat 4%nat)) j c = Ok (mkFindValueResponse true v []) →
  VerifyAndExtract v now' = Ok value →
  ∃ n', ∀ fuel, (1 ≤ fuel)%nat → Lookup net clk fuel order n key now now' = Some (Ok (n', Some value)).
Proof.
  intros Hn Hk Hclk Hnull Hget (l & Hl & Hpick & Harr & Halone) Hq Hv. unfold Lookup, iterativeFindValue. rewrite Hget, Hl.
  destruct l as [|first l]; [done|]. set (toQuery := pick_queries {[n_ID n]} (first :: l)) in *.
  set (sender := self_contact n (clk 0%nat 4%nat)) in *. set (queried := mark_all toQuery {[n_ID n]}).
  assert (Contact_typed sender) as Hs by (by apply self_contact_typed).
  destruct (collect_results_ok net clk key sender 0 toQuery (order 0%nat (length toQuery)) Hk Hs) as (rs & Ec & Hrs).
  assert (Forall (λ r, FindValueResponse_typed r ∧ Forall is_Some (fv_Contacts r) ∧ answered net clk key r) rs) as Hsome.
  { eapply Forall_impl; [exact Hrs|]. intros r [? Ha]. split_and!; [done| |done]. destruct Ha as (? & ? & ? & ?). by eapply Hnull. }
  destruct (collect_results_in _ _ _ _ _ _ _ _ Ec) as [Hfrom Hin].
  destruct (handle_results_found key net clk n queried (clk 0%nat 3%nat) rs [] v) as (n' & Eh); try done.
  { apply Hclk. }
  { intros r (i & c' & Hi & Hr)%Hfrom Hf. destruct (decide (i = j)) as [->|Hij]; [|by rewrite (Halone i c' r) in Hf].
    rewrite Hpick in Hi. injection Hi as <-. cbn in Hr. rewrite Hq in Hr. by injection Hr as <-. }
  { exists (mkFindValueResponse true v []). split; [|done]. by apply (Hin j c). }
  exists n'. intros [|fuel] Hf; [lia|]. cbn [value_loop]. fold toQuery. destruct toQuery as [|c0 l0]; [by rewrite lookup_nil in Hpick|].
  fold queried. change (0 * Alpha)%nat with 0%nat. rewrite Ec. cbn [mbind outcome_bind option_bind]. rewrite Eh. cbn [mbind outcome_bind option_bind].
  by rewrite Hv.
Qed.
(** a node that others can talk to *)
Definition talks (n : Node) (c : nat → Z) : Prop := node_ok n ∧ ascii (n_Address n) ∧ times_ok c.

(** What one node stores another finds.  When [P] is one of the nodes that [A] found
    closest to the key, [A]'s Store succeeds and [P] keeps the value; any node [B]
    that then asks [P] in the first round of a lookup gets exactly the value, until
    the time to live has passed, whatever happened to [P] in between as long as it
    was not given another value for the key. *)
Theorem stored_value_found (netA : network) (clkA : clocks) (A : Node) (seed key value nonce : list Z) (ttl now : Z) (q0 : nat)
    (sched : nat → nat → list qevent) :
  let secs := int64_of (Seconds ttl) in
  node_ok A → ascii (n_Address A) → (∀ q, times_ok (clkA q)) → no_null_contacts netA clkA key → is_id key → bytes value → bytes nonce →
  array 32 seed → n_PrivateKey A = ed25519_key seed → is_s64 secs → 0 ≤ secs * Second < 2 ^ 63 →
  ∃ N A' nodes, (∀ fuel, (N ≤ fuel)%nat → iterativeFindNode netA clkA fuel sched A key (Z.of_nat K) = Some (Ok (A', nodes))) ∧
  ∀ i cP P c, nodes !! i = Some cP → talks P c → served netA (q0 + i) (c_Address cP) P c → Unix (c 3%nat) ≤ Unix now +s64 secs →
    (∀ fuel, (N ≤ fuel)%nat → Store netA clkA fuel sched q0 A key value ttl (Some nonce) now = Some (Ok (A', Ok tt))) ∧
    ∃ request P' ack, handleConnection P request c = Ok (P', Some ack) ∧ talks P' c ∧
    ∀ netB clkB order B P2 c2 j cP2 t t',
      talks P2 c2 → n_storage P2 !! key = n_storage P' !! key →
      node_ok B → ascii (n_Address B) → (∀ q, times_ok (clkB q)) → no_null_values netB clkB key → Storage_Get (n_storage B) key t = None →
      asks_first netB clkB order B key j cP2 → served netB j (c_Address cP2) P2 c2 →
      c2 3%nat ≤ c 4%nat + secs * Second → Unix t' ≤ Unix now +s64 secs →
      ∃ B', ∀ fuel, (1 ≤ fuel)%nat → Lookup netB clkB fuel order B key t t' = Some (Ok (B', Some value)).
Proof.
  intros secs HA HAa HclkA HnullA Hk Hv Hnonce Hseed Hpk Hsecs Httl.
  destruct (iterativeFindNode_ends netA clkA HclkA A key (Z.of_nat K) sched HA Hk ltac:(unfold K; lia) HnullA)
    as (N & A' & nodes & Hrun & (HA' & Hid & Haddr & _ & Hpk') & _).
  exists N, A', nodes. split; [exact Hrun|]. intros i cP P c Hi (HP & HPa & Hc) Hnet Hfresh.
  destruct (SignEntry_ok seed key value nonce ttl now Hseed Hk Hv Hnonce Hsecs)
    as (e & data & Hsign & Henc & Hdec & Hb & Ha & Hek & Hev & Hts & Hl).
  assert (∀ t, Unix t ≤ Unix now +s64 secs → VerifyAndExtract data t = Ok value) as Hverify.
  { intros t Ht. apply VerifyAndExtract_ok. exists e. split_and!; [done..| |done]. unfold IsExpired. rewrite Hts, Hl. apply Z.ltb_ge. exact Ht. }
  set (req := mkStoreRequest key data secs). set (sender := self_contact A' (clkA q0 4%nat)).
  assert (Contact_typed sender) as Hs by by apply self_contact_typed.
  assert (ascii (c_Address sender)) as Hsa by (cbn; by rewrite Haddr).
  assert (StoreRequest_typed req) as Hreq by done.
  destruct (store_exchange netA clkA sender req (q0 + i) cP P c value HP Hc HPa Hs Hsa Hnet Hreq Httl (Hverify _ Hfresh))
    as (Hack & request & P' & ack & Hconn & HP' & Haddr' & Hstored). split.
  - intros fuel Hf. unfold Store. rewrite (Hrun fuel Hf). cbn [mbind option_bind outcome_bind].
    destruct nodes as [|c0 nodes0]; [by rewrite lookup_nil in Hi|]. rewrite Hpk', Hpk, Hsign. cbn [wrap_err]. rewrite Henc. cbn [wrap_err].
    fold req sender. rewrite store_on_counts by done. cbn [mbind outcome_bind]. rewrite Z.add_0_l.
    rewrite (proj2 (Z.eqb_neq _ _)); [done|]. intros E. rewrite count_acked_pos in E. specialize (E i cP Hi).
    change (acked netA clkA req sender (q0 + i) cP = false) in E. congruence.
  - exists request, P', ack. split_and!; [done|by split_and!; rewrite ?Haddr'|]. intros netB clkB order B P2 c2 j cP2 t t' (HP2 & HP2a & Hc2) Hsame HB HBa HclkB HnullB Hget Hasks HnetB Hlive Hlate.
    destruct Hasks as (l & Hclosest & Hrest). set (senderB := self_contact B (clkB 0%nat 4%nat)).
    apply (lookup_found netB clkB order B key j cP2 data t t' value); [done..|by exists l| |by apply Hverify].
    apply (find_exchange netB clkB senderB key j cP2 P2 c2 data HP2 Hc2 HP2a); [by apply self_contact_typed|done..|].
    unfold Storage_Get. cbn in Hstored. rewrite Hsame, Hstored. cbn [sv_ExpiresAt sv_Value]. by rewrite (proj2 (Z.ltb_ge _ _)) by lia.
Qed.
End exchange.
