(* ===== verification/KeyExchange.v ===== *)
(** * Key bundles through the DHT

    The client's PublishKeyBundle and DiscoverKeyBundle (ClientPool) over the DHT
    node's Store and Lookup (DhtLookup), which talk to the request handlers of other
    nodes (DhtNode). *)

From S2P Require Import Prelude GoBytes GoText NodeID Ed25519 Wire WireGroups Ratchet X3DH Aes RoutingTable DhtStore DhtNode DhtLookup DhtNodeProofs DhtLookupProofs DhtExchange Onion Session Relay Groups ClientConn ClientPool.

Section key_exchange.
Context `{RatchetOps} `{Ed25519Laws} `{AesGcm} `{X509} `{DhtJsonLaws} `{SortSliceLaws} `{!Json KeyBundle} {typed plain : KeyBundle → Prop}
  `{!JsonLaws KeyBundle typed plain}.

(** [c.dhtNode.Store] and [c.dhtNode.Lookup], as the client sees them *)
Definition dht_store (net : network) (clk : clocks) (fuel : nat) (sched : nat → nat → list qevent) (q0 : nat) (n : Node)
  (rnd : option (list Z)) (now : Z) : list Z → list Z → Z → outcome unit :=
  λ key value ttl, match DhtLookup.Store net clk fuel sched q0 n key value ttl rnd now with Some (Ok (_, r)) => r | _ => Panic end.
Definition dht_find (net : network) (clk : clocks) (fuel : nat) (order : nat → nat → list nat) (n : Node) (now now' : Z)
  : list Z → option (list Z) :=
  λ key, match DhtLookup.Lookup net clk fuel order n key now now' with Some (Ok (_, r)) => r | _ => None end.

(** [c.dhtNode.Bootstrap]; [None]: out of fuel *)
Definition BootstrapDHT (attached : bool) (net : network) (clk : clocks) (fuel : nat) (sched : nat → nat → list qevent) (n : Node)
  (bootstrapAddress bootstrapNodeID : list Z) (now now' : Z) : option (Node * outcome unit) :=
  if negb attached then Some (n, Err "DHT not attached - call AttachDHT() first")
  else match Bootstrap net clk fuel sched n (NewContact bootstrapNodeID bootstrapAddress now) now' with
  | None => None
  | Some (Ok n) => Some (n, Ok tt)
  | Some (Err t) => Some (n, Err ("DHT bootstrap failed: " +:+ t))
  | Some Panic => Some (n, Panic)
  end.

(** the ticks of AutoPublishKeyBundle: [publish i] is PublishKeyBundle at the tick [i] *)
Definition AutoPublishKeyBundle (attached : bool) (publish : nat → outcome unit) (ticks : nat) : list (outcome unit) :=
  if negb attached then [] else publish <$> seq 0 ticks.

(** bootstrapping from a peer ends, whatever the network answers *)
Lemma BootstrapDHT_ends (net : network) (clk : clocks) (sched : nat → nat → list qevent) (n : Node) (address id : list Z) (now now' : Z) :
  (∀ q, times_ok (clk q)) → node_ok n → is_id id → bytes address → json_time now → json_time now' → no_null_contacts net clk (n_ID n) →
  ∃ N n', node_ok n' ∧ n_storage n' = n_storage n ∧
    ∀ fuel, (N ≤ fuel)%nat → BootstrapDHT true net clk fuel sched n address id now now' = Some (n', Ok tt).
Proof.
  intros Hclk Hn Hid Hb Ht Ht' Hnull.
  destruct (bootstrap_ends net clk Hclk n (NewContact id address now) now' sched) as (N & n' & Hn' & _ & Hst & Hrun); try done.
  exists N, n'. split_and!; [done..|]. intros fuel Hf. unfold BootstrapDHT. by rewrite (Hrun fuel Hf).
Qed.

Definition Day : Z := 24 * 3600 * Second.

(** C9: A published key bundle is discovered.  Alice's node, to which no peer sends a
    contact list with a JSON null, finds the nodes closest to her address; when one
    of them, [P], is honest, PublishKeyBundle succeeds, and [P] stores the bundle.
    Whatever [P] did since, as long as it holds that value - nobody stored another
    under her address - every client that holds no value itself, gets no JSON null,
    and asks [P] within 24 hours in the first round of its lookup, the others it
    asks in that round sending no value, discovers and caches exactly Alice's
    bundle. *)
Theorem published_bundle_discovered (alice : Client) (range : opk_map → list OneTimePreKeyPrivate) (bundle : KeyBundle)
    (sha1 : list Z → list Z) (netA : network) (clkA : clocks) (A : Node) (seed nonce : list Z) (now : Z) (q0 : nat)
    (sched : nat → nat → list qevent) :
  let key := sha1 (cl_Address alice) in
  GetKeyBundle alice range = Ok bundle → typed bundle → plain bundle → is_id key →
  node_ok A → ascii (n_Address A) → (∀ q, times_ok (clkA q)) → no_null_contacts netA clkA key → bytes nonce →
  array 32 seed → n_PrivateKey A = ed25519_key seed →
  ∃ N A' nodes, (∀ fuel, (N ≤ fuel)%nat → iterativeFindNode netA clkA fuel sched A key (Z.of_nat K) = Some (Ok (A', nodes))) ∧
  ∀ i cP P c, nodes !! i = Some cP → talks P c → served netA (q0 + i) (c_Address cP) P c → Unix (c 3%nat) ≤ Unix now +s64 86400 →
    (∀ fuel, (N ≤ fuel)%nat → PublishKeyBundle true alice range sha1 (dht_store netA clkA fuel sched q0 A (Some nonce) now) = Ok tt) ∧
    ∃ request P' ack, DhtNode.handleConnection P request c = Ok (P', Some ack) ∧ talks P' c ∧
    ∀ bob netB clkB order B P2 c2 j cP2 t t',
      talks P2 c2 → n_storage P2 !! key = n_storage P' !! key →
      node_ok B → ascii (n_Address B) → (∀ q, times_ok (clkB q)) → no_null_values netB clkB key → Storage_Get (n_storage B) key t = None →
      asks_first netB clkB order B key j cP2 → served netB j (c_Address cP2) P2 c2 →
      c2 3%nat ≤ c 4%nat + Day → Unix t' ≤ Unix now +s64 86400 →
      ∀ fuel, (1 ≤ fuel)%nat → DiscoverKeyBundle true bob (cl_Address alice) sha1 (dht_find netB clkB fuel order B t t')
        = (CacheKeyBundle bob (cl_Address alice) bundle, Ok bundle).
Proof.
  intros key Hbundle Htyped Hplain Hk HA HAa HclkA HnullA Hnonce Hseed Hpk.
  destruct (json_total bundle Htyped) as (value & Hvalue & Hbytes). assert (int64_of (Seconds Day) = 86400) as Hday by by vm_compute.
  destruct (stored_value_found netA clkA A seed key value nonce Day now q0 sched) as (N & A' & nodes & Hrun & Hfound);
    rewrite ?Hday; try done.
  exists N, A', nodes. split; [exact Hrun|]. intros i cP P c Hi HP Hnet Hfresh.
  rewrite Hday in Hfound. destruct (Hfound i cP P c Hi HP Hnet Hfresh) as (Hstore & request & P' & ack & Hconn & HP' & Hlookup). split.
  - intros fuel Hf. unfold PublishKeyBundle. cbn [negb].
    assert (is_Some (cl_x3dhIdentity alice)) as [identity ->] by (unfold GetKeyBundle in Hbundle; destruct (cl_x3dhIdentity alice); [by eexists|done]).
    rewrite Hbundle. cbn [wrap_err mbind outcome_bind]. rewrite Hvalue. cbn [wrap_err mbind outcome_bind]. unfold dht_store.
    change (24 * 3600 * Second) with Day. fold key. by rewrite (Hstore fuel Hf).
  - exists request, P', ack. split_and!; [done..|]. intros bob netB clkB order B P2 c2 j cP2 t t' HP2 Hsame HB HBa HclkB HnullB Hget Hasks HnetB Hlive Hlate fuel Hf.
    destruct (Hlookup netB clkB order B P2 c2 j cP2 t t') as [B' Hfind]; try done.
    unfold DiscoverKeyBundle, dht_find. cbn [negb]. fold key. rewrite (Hfind fuel Hf). by rewrite (json_round bundle value Hplain Hvalue).
Qed.
End key_exchange.

(** ** Witness

    A network of three nodes: one client publishes its bundle on the second, another
    client finds it there. *)

From S2P Require Import Prelude GoBytes GoText NodeID Ed25519 Wire WireGroups Ratchet X3DH Aes RatchetProofs RoutingTable DhtStore DhtSample DhtNode DhtLookup DhtNodeSample DhtNodeProofs DhtLookupProofs DhtExchange Onion OnionProofs Session SessionProofs SampleCodec SessionStoreWitness Relay RelayProofs Groups ClientConn ClientPool.

#[local] Existing Instances Toy.ops sample_crypto sample_crypto_laws sample_dht_json sample_dht_json_laws sample_sort sample_sort_laws
  sample_aes RelaySample.x509.
#[local] Instance sample_bundle_json : Json KeyBundle := codec_json (λ _, True).
#[local] Instance sample_bundle_laws : JsonLaws KeyBundle (λ _, True) (λ _, True) := codec_json_laws (λ _, True).

(** *** What the sample codecs write they read *)

Lemma rpc_round (m : RPCMessage) d : json_marshal m = Ok d → json_unmarshal d = Ok m.
Proof. apply sample_json_round. intros [] (? & ? & Hs & ? & Ht). cbn in *. by rewrite field_pointer_field, field_int_field. Qed.
Lemma find_node_round (r : FindNodeRequest) d : json_marshal r = Ok d → json_unmarshal d = Ok r.
Proof. apply sample_json_round. by intros []. Qed.
Lemma nodes_round (r : FindNodeResponse) d : json_marshal r = Ok d → json_unmarshal d = Ok r.
Proof. apply sample_json_round. intros [] ?. by rewrite field_pointers_fields. Qed.
Lemma find_value_round (r : FindValueRequest) d : json_marshal r = Ok d → json_unmarshal d = Ok r.
Proof. apply sample_json_round. by intros []. Qed.
Lemma value_round (r : FindValueResponse) d : json_marshal r = Ok d → json_unmarshal d = Ok r.
Proof. apply sample_json_round. intros [] [? ?]. cbn in *. by rewrite field_pointers_fields, field_bool_field. Qed.

(** *** A node's handlers answer no JSON null *)

#[local] Ltac step E := cbn [mbind outcome_bind wrap_err reply_of] in E; try discriminate E.

Lemma served_request net q contact P c (msg response : RPCMessage) :
  served net q (c_Address contact) P c → sendRPC net q contact msg = Ok response →
  ∃ P1 P2, handleRPC P1 msg c = Ok (P2, Some response).
Proof.
  intros Hnet E. unfold sendRPC in E. destruct (json_marshal msg) as [data|t|] eqn:Em; step E.
  rewrite Hnet in E. unfold DhtNode.handleConnection in E.
  rewrite (rpc_round _ _ Em) in E.
  destruct (match rm_Sender msg with Some c => _ | None => _ end) as [P1|t|]; step E.
  destruct (handleRPC P1 msg c) as [[P2 [r|]]|t|] eqn:Eh; step E.
  destruct (json_marshal r) as [out|t|] eqn:Er; step E. rewrite (rpc_round _ _ Er) in E.
  exists P1, P2. cbn in E. congruence.
Qed.

Lemma served_no_null_contacts net clk target sender q c P clkP l :
  served net q (c_Address c) P clkP → query_find_node net clk target sender q c = Ok l → Forall is_Some l.
Proof.
  intros Hnet E. unfold query_find_node, NewRPCMessage in E. destruct (json_marshal (mkFindNodeRequest target)) as [d|t|] eqn:Ed; step E.
  destruct (sendRPC net q c _) as [response|t|] eqn:Es; step E. apply (served_request _ _ _ _ _ _ _ Hnet) in Es as (P1 & P2 & Es).
  unfold handleRPC in Es. cbn [rm_Type Z.eqb RPCPing RPCStore RPCFindNode Pos.eqb] in Es. unfold handleFindNode, ParsePayload in Es.
  cbn [rm_Payload] in Es. rewrite (find_node_round _ _ Ed) in Es. destruct (FindClosest _ _ _) as [contacts|t|]; step Es.
  unfold reply_to, NewRPCMessage in Es. destruct (json_marshal (mkFindNodeResponse _)) as [dr|t|] eqn:Er; step Es. injection Es as _ <-.
  unfold ParsePayload in E. cbn [rm_Payload] in E. rewrite (nodes_round _ _ Er) in E. injection E as <-.
  apply Forall_fmap, Forall_true. by eexists.
Qed.

Lemma served_no_null_values net clk key sender q c P clkP r :
  served net q (c_Address c) P clkP → query_find_value net clk key sender q c = Ok r → Forall is_Some (fv_Contacts r).
Proof.
  intros Hnet E. unfold query_find_value, NewRPCMessage in E. destruct (json_marshal (mkFindValueRequest key)) as [d|t|] eqn:Ed; step E.
  destruct (sendRPC net q c _) as [response|t|] eqn:Es; step E. apply (served_request _ _ _ _ _ _ _ Hnet) in Es as (P1 & P2 & Es).
  unfold handleRPC in Es. cbn [rm_Type Z.eqb RPCPing RPCStore RPCFindNode RPCFindValue Pos.eqb] in Es. unfold handleFindValue, ParsePayload in Es.
  cbn [rm_Payload] in Es. rewrite (find_value_round _ _ Ed) in Es.
  destruct (match Storage_Get _ _ _ with Some _ => _ | None => _ end) as [resp|t|] eqn:Eg; step Es.
  unfold reply_to, NewRPCMessage in Es. destruct (json_marshal resp) as [dr|t|] eqn:Er; step Es. injection Es as _ <-.
  unfold ParsePayload in E. cbn [rm_Payload] in E. rewrite (value_round _ _ Er) in E. injection E as <-.
  destruct (Storage_Get _ _ _); [injection Eg as <-; constructor|]. destruct (FindClosest _ _ _) as [contacts|t|]; step Eg.
  injection Eg as <-. apply Forall_fmap, Forall_true. by eexists.
Qed.

(** *** The network *)

(** [P] serves every request *)
Definition served_by (P : Node) : network := λ _ _ data, reply_of (DhtNode.handleConnection P data ex_clk).
Definition ex_server : Node := NewNode (id_of 2) [49; 50] (Some ex_seed).
Definition ex_finder : Node := unwrap ex_node (node_add (NewNode (id_of 3) [49] (Some ex_seed)) (ex_contact 2) 0).

Lemma ex_server_talks : talks ex_server ex_clk.
Proof. split_and!; [apply NewNode_ok; by_decision|by_decision|apply ex_times]. Qed.
Lemma ex_finder_ok : node_ok ex_finder.
Proof.
  destruct (node_add_ok (NewNode (id_of 3) [49] (Some ex_seed)) (ex_contact 2) 0) as (n' & E & Hn' & _);
    [apply NewNode_ok; by_decision|apply ex_contact_typed; by_decision|by_decision|].
  unfold ex_finder. by rewrite E.
Qed.
Lemma ex_asks net : asks_first net ex_clocks (λ _, seq 0) ex_finder (id_of 9) 0 (ex_contact 2).
Proof.
  exists [ex_contact 2]. split; [by vm_compute|]. split_and!; [by vm_compute|by vm_compute; left|].
  intros [|i] c' r Hi Hl; [done|]. by vm_compute in Hl.
Qed.
Lemma ex_find_nodes : ∃ A', ∀ fuel, (1 ≤ fuel)%nat →
  iterativeFindNode (served_by ex_server) ex_clocks fuel one_by_one ex_node2 (id_of 9) (Z.of_nat K) = Some (Ok (A', [ex_contact 2])).
Proof. eexists. intros [|fuel] Hf; [lia|]. vm_compute. reflexivity. Qed.
Lemma ex_sample_bundle : GetKeyBundle sample_bob SessionSample.range = Ok sample_bundle.
Proof. by vm_compute. Qed.
(** the hypotheses about the network hold when one node serves it *)
Lemma served_by_no_null_contacts P key : no_null_contacts (served_by P) ex_clocks key.
Proof. intros sender q c l. by apply (served_no_null_contacts _ _ _ _ _ _ P ex_clk). Qed.
Lemma served_by_no_null_values P key : no_null_values (served_by P) ex_clocks key.
Proof. intros sender q c r. by apply (served_no_null_values _ _ _ _ _ _ P ex_clk). Qed.

(** Bob's bundle, published through the node 2 and discovered by Alice *)
Lemma published_bundle_discovered_witness :
  let sha1 := λ _ : list Z, id_of 9 in
  ∃ N request P' ack, DhtNode.handleConnection ex_server request ex_clk = Ok (P', Some ack) ∧
    (∀ fuel, (N ≤ fuel)%nat → PublishKeyBundle true sample_bob SessionSample.range sha1
       (dht_store (served_by ex_server) ex_clocks fuel one_by_one 100 ex_node2 (Some [9]) 0) = Ok tt) ∧
    (DiscoverKeyBundle true sample_alice (cl_Address sample_bob) sha1
       (dht_find (served_by P') ex_clocks 1 (λ _, seq 0) ex_finder 0 0)).2 = Ok sample_bundle.
Proof.
  intros sha1.
  destruct (published_bundle_discovered (typed := λ _, True) (plain := λ _, True) sample_bob SessionSample.range sample_bundle sha1 (served_by ex_server) ex_clocks
    ex_node2 ex_seed [9] 0 100 one_by_one ex_sample_bundle I I ltac:(by_decision) ex_node2_ok ltac:(by_decision) ex_clocks_ok
    (served_by_no_null_contacts _ _) ltac:(by_decision) ltac:(by_decision) ltac:(by vm_compute))
    as (N & A' & nodes & Hrun & Hfound).
  destruct ex_find_nodes as [A1 Hnodes]. pose proof (Hrun (S N) (le_S _ _ (le_n N))) as E.
  change (sha1 (cl_Address sample_bob)) with (id_of 9) in E. rewrite (Hnodes (S N) (le_n_S _ _ (Nat.le_0_l N))) in E.
  assert (nodes !! 0%nat = Some (ex_contact 2)) as Hi by (by injection E as <- <-).
  destruct (Hfound 0%nat (ex_contact 2) ex_server ex_clk Hi ex_server_talks (λ _, eq_refl) ltac:(by_decision))
    as (Hpublish & request & P' & ack & Hconn & HP' & Hdiscover).
  exists N, request, P', ack. split_and!; [exact Hconn|exact Hpublish|].
  erewrite (Hdiscover sample_alice (served_by P') ex_clocks (λ _, seq 0) ex_finder P' ex_clk 0%nat (ex_contact 2) 0 0);
    [done|exact HP'|done|apply ex_finder_ok|by_decision|apply ex_clocks_ok|apply served_by_no_null_values|by vm_compute|apply ex_asks|done|by_decision|by_decision|done].
Defined.
